(** * Abstract visualization (engine_vis_visualize.c): a shallow embedding

    The C file turns a model [mjModel], a simulation state [mjData], the
    visualization options [mjvOption] and an optional perturbation
    [mjvPerturb] into a bounded buffer of abstract geoms, a list of lights
    and two stereo cameras, all stored in an [mjvScene].

    Conventions of the embedding.
    - [mjtNum] (double) and [float] are both read as real numbers: casts
      between the two are the identity and rounding is not modelled.
    - [int] and [mjtByte] values are integers of [Z]; flags are booleans.
    - A C array that is only read (the fields of [mjModel] and [mjData]) is a
      function from the index to the element; [p + k] is [offset p k].
    - Small fixed-size arrays inside structs ([size[3]], [rgba[4]], [mat[9]])
      are records with one field per component.
    - A function with side effects on the scene is a function in the monad
      [M], whose outcomes are normal completion, the C [return] statement
      and the fatal [mju_error]. *)

From Stdlib Require Import ZArith List Bool Reals Lra Lia Psatz.
Import ListNotations.

Set Implicit Arguments.

(** ** Numbers *)

Definition mjtNum := R.
Definition float := R.

Definition Rltb (a b : R) : bool := if Rlt_dec a b then true else false.
Definition Rleb (a b : R) : bool := if Rle_dec a b then true else false.
Definition Reqb (a b : R) : bool := if Req_dec_T a b then true else false.

(** Modelled from the spec: the macros mjMAX and mjMIN and the constants
    mjMINVAL, mjPI, mjNGROUP, mjMAXLIGHT, mjNEQDATA and mjMAXPLANEGRID of
    mjmodel.h and mjvisualize.h, which are not part of the translated file.
    mjMINVAL is the minimum-value floor of the numerical safeguards; the
    theorems below use only that it is positive and at most 1. *)
Definition mjMAX (a b : R) : R := if Rltb b a then a else b.
Definition mjMIN (a b : R) : R := if Rltb a b then a else b.
Definition mjMAXi (a b : Z) : Z := if (a >? b)%Z then a else b.
Definition mjMINi (a b : Z) : Z := if (a <? b)%Z then a else b.
Definition mjMINVAL : R := / 10 ^ 15.
Definition mjPI : R := PI.
Definition mjNGROUP : Z := 6.
Definition mjMAXLIGHT : Z := 8.
Definition mjNEQDATA : Z := 7.
Definition mjMAXPLANEGRID : Z := 200.

(** ** Small arrays *)

Record vec3 := V3 { c0 : R; c1 : R; c2 : R }.
Record vec4 := V4 { q0 : R; q1 : R; q2 : R; q3 : R }.
Record vec6 := V6 { f0 : R; f1 : R; f2 : R; f3 : R; f4 : R; f5 : R }.
Record mat9 :=
  M9 { e0 : R; e1 : R; e2 : R; e3 : R; e4 : R; e5 : R; e6 : R; e7 : R; e8 : R }.

(** Read-only C arrays and pointer arithmetic. *)
Definition array (A : Type) := Z -> A.
Definition offset {A} (p : array A) (k : Z) : array A := fun j => p (k + j)%Z.
Definition vec3_at (p : array R) : vec3 := V3 (p 0%Z) (p 1%Z) (p 2%Z).
Definition vec4_at (p : array R) : vec4 := V4 (p 0%Z) (p 1%Z) (p 2%Z) (p 3%Z).
Definition mat9_at (p : array R) : mat9 :=
  M9 (p 0%Z) (p 1%Z) (p 2%Z) (p 3%Z) (p 4%Z) (p 5%Z) (p 6%Z) (p 7%Z) (p 8%Z).
Definition upd {A} (p : array A) (k : Z) (v : A) : array A :=
  fun j => if (j =? k)%Z then v else p j.

(** The integers [lo, lo+1, ..., hi-1] of a C loop [for (i=lo; i<hi; i++)]. *)
Definition range (lo hi : Z) : list Z :=
  map (fun k => (lo + Z.of_nat k)%Z) (seq 0 (Z.to_nat (hi - lo))).

(** ** Linear algebra helpers

    Modelled from the spec: the helpers of engine_util_blas.c and
    engine_util_spatial.c called by the translated file (mju_norm3, mju_dot3,
    mju_cross, mju_scl3, mju_addTo3, mju_addScl3, mju_sub3, mju_mulMatVec for
    3x3 matrices, mju_rotVecMat, mju_transpose for 3x3 matrices, mju_negQuat,
    mju_mulQuat, mju_quat2Mat, mju_quatZ2Vec, mju_isZero, mju_round, mju_pow).
    Their sources are absent; they are the usual operations of their names,
    and mju_quatZ2Vec is the minimal rotation of the spec: about the common
    normal of the z axis and the vector, by the angle between them, and no
    rotation for a vector of zero length. *)
Module Util.
Local Open Scope R_scope.

Definition IDENTITY : mat9 := M9 1 0 0 0 1 0 0 0 1.

Definition mju_dot3 (a b : vec3) : R := c0 a * c0 b + c1 a * c1 b + c2 a * c2 b.
Definition mju_norm3 (v : vec3) : R := sqrt (c0 v * c0 v + c1 v * c1 v + c2 v * c2 v).
Definition mju_scl3 (v : vec3) (s : R) : vec3 := V3 (c0 v * s) (c1 v * s) (c2 v * s).
Definition mju_add3 (a b : vec3) : vec3 := V3 (c0 a + c0 b) (c1 a + c1 b) (c2 a + c2 b).
Definition mju_sub3 (a b : vec3) : vec3 := V3 (c0 a - c0 b) (c1 a - c1 b) (c2 a - c2 b).
(** [mju_addScl3 (res, a, b, s)]: res = a + b*s; [mju_addToScl3] is the same with res = a. *)
Definition mju_addScl3 (a b : vec3) (s : R) : vec3 :=
  V3 (c0 a + c0 b * s) (c1 a + c1 b * s) (c2 a + c2 b * s).
Definition mju_cross (a b : vec3) : vec3 :=
  V3 (c1 a * c2 b - c2 a * c1 b) (c2 a * c0 b - c0 a * c2 b) (c0 a * c1 b - c1 a * c0 b).
Definition mju_zero3 : vec3 := V3 0 0 0.

(** Row-major 3x3 matrix times vector ([mju_mulMatVec (res, mat, vec, 3, 3)] and
    [mju_rotVecMat (res, vec, mat)]). *)
Definition mju_mulMatVec (m : mat9) (v : vec3) : vec3 :=
  V3 (e0 m * c0 v + e1 m * c1 v + e2 m * c2 v)
     (e3 m * c0 v + e4 m * c1 v + e5 m * c2 v)
     (e6 m * c0 v + e7 m * c1 v + e8 m * c2 v).
Definition mju_rotVecMat (v : vec3) (m : mat9) : vec3 := mju_mulMatVec m v.
Definition mju_transpose (m : mat9) : mat9 :=
  M9 (e0 m) (e3 m) (e6 m) (e1 m) (e4 m) (e7 m) (e2 m) (e5 m) (e8 m).

Definition mju_negQuat (q : vec4) : vec4 := V4 (q0 q) (- q1 q) (- q2 q) (- q3 q).
Definition mju_mulQuat (a b : vec4) : vec4 :=
  V4 (q0 a * q0 b - q1 a * q1 b - q2 a * q2 b - q3 a * q3 b)
     (q0 a * q1 b + q1 a * q0 b + q2 a * q3 b - q3 a * q2 b)
     (q0 a * q2 b - q1 a * q3 b + q2 a * q0 b + q3 a * q1 b)
     (q0 a * q3 b + q1 a * q2 b - q2 a * q1 b + q3 a * q0 b).
Definition mju_quat2Mat (q : vec4) : mat9 :=
  let q00 := q0 q * q0 q in let q01 := q0 q * q1 q in
  let q02 := q0 q * q2 q in let q03 := q0 q * q3 q in
  let q11 := q1 q * q1 q in let q12 := q1 q * q2 q in
  let q13 := q1 q * q3 q in let q22 := q2 q * q2 q in
  let q23 := q2 q * q3 q in let q33 := q3 q * q3 q in
  M9 (q00 + q11 - q22 - q33) (2 * (q12 - q03)) (2 * (q13 + q02))
     (2 * (q12 + q03)) (q00 - q11 + q22 - q33) (2 * (q23 - q01))
     (2 * (q13 - q02)) (2 * (q23 + q01)) (q00 - q11 - q22 + q33).

(** Unit quaternion of the rotation by [angle] about the unit vector [axis]. *)
Definition mju_axisAngle2Quat (axis : vec3) (angle : R) : vec4 :=
  let s := sin (angle * / 2) in
  V4 (cos (angle * / 2)) (c0 axis * s) (c1 axis * s) (c2 axis * s).

Definition mju_quatZ2Vec (vec : vec3) : vec4 :=
  let n := mju_norm3 vec in
  if Reqb n 0 then V4 1 0 0 0
  else
    let vn := mju_scl3 vec (/ n) in
    let z := V3 0 0 1 in
    let axis := mju_cross z vn in
    let a := mju_norm3 axis in
    if Reqb a 0 then
      (if Rltb (mju_dot3 vn z) 0 then V4 0 1 0 0 else V4 1 0 0 0)
    else mju_axisAngle2Quat (mju_scl3 axis (/ a)) (acos (mju_dot3 vn z)).

Definition mju_isZero (p : array R) (n : Z) : bool :=
  forallb (fun k => Reqb (p k) 0) (range 0 n).

(** Nearest integer: the floor when it is strictly nearer, the ceiling otherwise. *)
Definition mju_round (x : R) : Z :=
  let lower := Int_part x in
  let upper := if Reqb x (IZR lower) then lower else (lower + 1)%Z in
  if Rltb (x - IZR lower) (IZR upper - x) then lower else upper.

Definition mju_pow (a b : R) : R := if Reqb a 0 then 0 else Rpower a b.

End Util.
(** ** Enumerations

    Modelled from the spec: the enum declarations of mjmodel.h, mjdata.h and
    mjvisualize.h, which are not part of the translated file.  Enumerations
    that the code only compares for equality are inductive types; those that
    reach the code as plain [int] values of the model (geom, joint, camera,
    transmission, equality and sensor types) and the category bit mask are
    integers with named constants. *)

Inductive mjtVisFlag :=
  | mjVIS_CONVEXHULL | mjVIS_TEXTURE | mjVIS_JOINT | mjVIS_CAMERA | mjVIS_ACTUATOR
  | mjVIS_ACTIVATION | mjVIS_LIGHT | mjVIS_TENDON | mjVIS_RANGEFINDER
  | mjVIS_CONSTRAINT | mjVIS_INERTIA | mjVIS_SCLINERTIA | mjVIS_PERTFORCE
  | mjVIS_PERTOBJ | mjVIS_CONTACTPOINT | mjVIS_CONTACTFORCE | mjVIS_CONTACTSPLIT
  | mjVIS_TRANSPARENT | mjVIS_AUTOCONNECT | mjVIS_COM | mjVIS_SELECT
  | mjVIS_STATIC | mjVIS_SKIN.

Inductive mjtLabel :=
  | mjLABEL_NONE | mjLABEL_BODY | mjLABEL_JOINT | mjLABEL_GEOM | mjLABEL_SITE
  | mjLABEL_CAMERA | mjLABEL_LIGHT | mjLABEL_TENDON | mjLABEL_ACTUATOR
  | mjLABEL_CONSTRAINT | mjLABEL_SKIN | mjLABEL_SELECTION | mjLABEL_SELPNT
  | mjLABEL_CONTACTFORCE.

Inductive mjtFrame :=
  | mjFRAME_NONE | mjFRAME_BODY | mjFRAME_GEOM | mjFRAME_SITE | mjFRAME_CAMERA
  | mjFRAME_LIGHT | mjFRAME_CONTACT | mjFRAME_WORLD.

Inductive mjtObj :=
  | mjOBJ_UNKNOWN | mjOBJ_BODY | mjOBJ_JOINT | mjOBJ_GEOM | mjOBJ_SITE
  | mjOBJ_CAMERA | mjOBJ_LIGHT | mjOBJ_TENDON | mjOBJ_ACTUATOR | mjOBJ_EQUALITY
  | mjOBJ_SKIN.

Scheme Equality for mjtLabel.
Scheme Equality for mjtFrame.

Definition label_is (a b : mjtLabel) : bool := mjtLabel_beq a b.
Definition frame_is (a b : mjtFrame) : bool := mjtFrame_beq a b.

(** mjtGeom *)
Definition mjGEOM_PLANE : Z := 0.
Definition mjGEOM_HFIELD : Z := 1.
Definition mjGEOM_SPHERE : Z := 2.
Definition mjGEOM_CAPSULE : Z := 3.
Definition mjGEOM_ELLIPSOID : Z := 4.
Definition mjGEOM_CYLINDER : Z := 5.
Definition mjGEOM_BOX : Z := 6.
Definition mjGEOM_MESH : Z := 7.
Definition mjGEOM_ARROW : Z := 100.
Definition mjGEOM_ARROW1 : Z := 101.
Definition mjGEOM_ARROW2 : Z := 102.
Definition mjGEOM_LINE : Z := 103.
Definition mjGEOM_SKIN : Z := 104.
Definition mjGEOM_LABEL : Z := 105.
Definition mjGEOM_NONE : Z := 1001.

(** mjtCatBit *)
Definition mjCAT_STATIC : Z := 1.
Definition mjCAT_DYNAMIC : Z := 2.
Definition mjCAT_DECOR : Z := 4.

(** mjtJoint *)
Definition mjJNT_FREE : Z := 0.
Definition mjJNT_BALL : Z := 1.
Definition mjJNT_SLIDE : Z := 2.
Definition mjJNT_HINGE : Z := 3.

(** mjtCamera *)
Definition mjCAMERA_FREE : Z := 0.
Definition mjCAMERA_TRACKING : Z := 1.
Definition mjCAMERA_FIXED : Z := 2.
Definition mjCAMERA_USER : Z := 3.

(** mjtTrn *)
Definition mjTRN_JOINT : Z := 0.
Definition mjTRN_JOINTINPARENT : Z := 1.
Definition mjTRN_SLIDERCRANK : Z := 2.
Definition mjTRN_TENDON : Z := 3.
Definition mjTRN_SITE : Z := 4.

(** mjtEq, mjtSensor, mjtPertBit *)
Definition mjEQ_CONNECT : Z := 0.
Definition mjSENS_RANGEFINDER : Z := 7.
Definition mjPERT_TRANSLATE : Z := 1.
Definition mjPERT_ROTATE : Z := 2.

(** ** Abstract geoms *)

(** The text of a label.  [makeLabel] prints the name of an object, or its
    type and index when it has no name; the contact force and the selection
    point are printed as numbers.  The embedding keeps what is printed, not
    the characters. *)
Inductive label_text :=
  | LabelNone
  | LabelObject (type : mjtObj) (id : Z)
  | LabelForce (norm : R)
  | LabelSelpnt (selpos localpos : vec3).

(** [mjvGeom].  The fields [camdist] and [transparent] are written by the
    renderer only and are left out. *)

Record mjvGeom := {
  type : Z;
  dataid : Z;
  objtype : mjtObj;
  objid : Z;
  category : Z;
  texid : Z;
  texuniform : Z;
  texcoord : Z;
  segid : Z;
  texrepeat : R * R;
  size : vec3;
  pos : vec3;
  mat : mat9;
  rgba : vec4;
  emission : R;
  specular : R;
  shininess : R;
  reflectance : R;
  label : label_text;
  modelrbound : R
}.

Definition set_type (g : mjvGeom) (v : Z) : mjvGeom :=
  Build_mjvGeom v (dataid g) (objtype g) (objid g) (category g) (texid g) (texuniform g) (texcoord g) (segid g) (texrepeat g) (size g) (pos g) (mat g) (rgba g) (emission g) (specular g) (shininess g) (reflectance g) (label g) (modelrbound g).
Definition set_dataid (g : mjvGeom) (v : Z) : mjvGeom :=
  Build_mjvGeom (type g) v (objtype g) (objid g) (category g) (texid g) (texuniform g) (texcoord g) (segid g) (texrepeat g) (size g) (pos g) (mat g) (rgba g) (emission g) (specular g) (shininess g) (reflectance g) (label g) (modelrbound g).
Definition set_objtype (g : mjvGeom) (v : mjtObj) : mjvGeom :=
  Build_mjvGeom (type g) (dataid g) v (objid g) (category g) (texid g) (texuniform g) (texcoord g) (segid g) (texrepeat g) (size g) (pos g) (mat g) (rgba g) (emission g) (specular g) (shininess g) (reflectance g) (label g) (modelrbound g).
Definition set_objid (g : mjvGeom) (v : Z) : mjvGeom :=
  Build_mjvGeom (type g) (dataid g) (objtype g) v (category g) (texid g) (texuniform g) (texcoord g) (segid g) (texrepeat g) (size g) (pos g) (mat g) (rgba g) (emission g) (specular g) (shininess g) (reflectance g) (label g) (modelrbound g).
Definition set_category (g : mjvGeom) (v : Z) : mjvGeom :=
  Build_mjvGeom (type g) (dataid g) (objtype g) (objid g) v (texid g) (texuniform g) (texcoord g) (segid g) (texrepeat g) (size g) (pos g) (mat g) (rgba g) (emission g) (specular g) (shininess g) (reflectance g) (label g) (modelrbound g).
Definition set_texid (g : mjvGeom) (v : Z) : mjvGeom :=
  Build_mjvGeom (type g) (dataid g) (objtype g) (objid g) (category g) v (texuniform g) (texcoord g) (segid g) (texrepeat g) (size g) (pos g) (mat g) (rgba g) (emission g) (specular g) (shininess g) (reflectance g) (label g) (modelrbound g).
Definition set_texuniform (g : mjvGeom) (v : Z) : mjvGeom :=
  Build_mjvGeom (type g) (dataid g) (objtype g) (objid g) (category g) (texid g) v (texcoord g) (segid g) (texrepeat g) (size g) (pos g) (mat g) (rgba g) (emission g) (specular g) (shininess g) (reflectance g) (label g) (modelrbound g).
Definition set_texcoord (g : mjvGeom) (v : Z) : mjvGeom :=
  Build_mjvGeom (type g) (dataid g) (objtype g) (objid g) (category g) (texid g) (texuniform g) v (segid g) (texrepeat g) (size g) (pos g) (mat g) (rgba g) (emission g) (specular g) (shininess g) (reflectance g) (label g) (modelrbound g).
Definition set_segid (g : mjvGeom) (v : Z) : mjvGeom :=
  Build_mjvGeom (type g) (dataid g) (objtype g) (objid g) (category g) (texid g) (texuniform g) (texcoord g) v (texrepeat g) (size g) (pos g) (mat g) (rgba g) (emission g) (specular g) (shininess g) (reflectance g) (label g) (modelrbound g).
Definition set_texrepeat (g : mjvGeom) (v : R * R) : mjvGeom :=
  Build_mjvGeom (type g) (dataid g) (objtype g) (objid g) (category g) (texid g) (texuniform g) (texcoord g) (segid g) v (size g) (pos g) (mat g) (rgba g) (emission g) (specular g) (shininess g) (reflectance g) (label g) (modelrbound g).
Definition set_size (g : mjvGeom) (v : vec3) : mjvGeom :=
  Build_mjvGeom (type g) (dataid g) (objtype g) (objid g) (category g) (texid g) (texuniform g) (texcoord g) (segid g) (texrepeat g) v (pos g) (mat g) (rgba g) (emission g) (specular g) (shininess g) (reflectance g) (label g) (modelrbound g).
Definition set_pos (g : mjvGeom) (v : vec3) : mjvGeom :=
  Build_mjvGeom (type g) (dataid g) (objtype g) (objid g) (category g) (texid g) (texuniform g) (texcoord g) (segid g) (texrepeat g) (size g) v (mat g) (rgba g) (emission g) (specular g) (shininess g) (reflectance g) (label g) (modelrbound g).
Definition set_mat (g : mjvGeom) (v : mat9) : mjvGeom :=
  Build_mjvGeom (type g) (dataid g) (objtype g) (objid g) (category g) (texid g) (texuniform g) (texcoord g) (segid g) (texrepeat g) (size g) (pos g) v (rgba g) (emission g) (specular g) (shininess g) (reflectance g) (label g) (modelrbound g).
Definition set_rgba (g : mjvGeom) (v : vec4) : mjvGeom :=
  Build_mjvGeom (type g) (dataid g) (objtype g) (objid g) (category g) (texid g) (texuniform g) (texcoord g) (segid g) (texrepeat g) (size g) (pos g) (mat g) v (emission g) (specular g) (shininess g) (reflectance g) (label g) (modelrbound g).
Definition set_emission (g : mjvGeom) (v : R) : mjvGeom :=
  Build_mjvGeom (type g) (dataid g) (objtype g) (objid g) (category g) (texid g) (texuniform g) (texcoord g) (segid g) (texrepeat g) (size g) (pos g) (mat g) (rgba g) v (specular g) (shininess g) (reflectance g) (label g) (modelrbound g).
Definition set_specular (g : mjvGeom) (v : R) : mjvGeom :=
  Build_mjvGeom (type g) (dataid g) (objtype g) (objid g) (category g) (texid g) (texuniform g) (texcoord g) (segid g) (texrepeat g) (size g) (pos g) (mat g) (rgba g) (emission g) v (shininess g) (reflectance g) (label g) (modelrbound g).
Definition set_shininess (g : mjvGeom) (v : R) : mjvGeom :=
  Build_mjvGeom (type g) (dataid g) (objtype g) (objid g) (category g) (texid g) (texuniform g) (texcoord g) (segid g) (texrepeat g) (size g) (pos g) (mat g) (rgba g) (emission g) (specular g) v (reflectance g) (label g) (modelrbound g).
Definition set_reflectance (g : mjvGeom) (v : R) : mjvGeom :=
  Build_mjvGeom (type g) (dataid g) (objtype g) (objid g) (category g) (texid g) (texuniform g) (texcoord g) (segid g) (texrepeat g) (size g) (pos g) (mat g) (rgba g) (emission g) (specular g) (shininess g) v (label g) (modelrbound g).
Definition set_label (g : mjvGeom) (v : label_text) : mjvGeom :=
  Build_mjvGeom (type g) (dataid g) (objtype g) (objid g) (category g) (texid g) (texuniform g) (texcoord g) (segid g) (texrepeat g) (size g) (pos g) (mat g) (rgba g) (emission g) (specular g) (shininess g) (reflectance g) v (modelrbound g).
Definition set_modelrbound (g : mjvGeom) (v : R) : mjvGeom :=
  Build_mjvGeom (type g) (dataid g) (objtype g) (objid g) (category g) (texid g) (texuniform g) (texcoord g) (segid g) (texrepeat g) (size g) (pos g) (mat g) (rgba g) (emission g) (specular g) (shininess g) (reflectance g) (label g) v.
(** ** The model, the simulation state and the scene

    Only the fields read or written by the translated file are kept.  The
    nested structs [m->vis.scale.x], [m->stat.x] are flattened into fields
    [vis_scale_x], [stat_x].  Every record comes with a value [zero_...] whose
    fields are all zero and with functions [set_...] that change one field, from
    which concrete inputs are built. *)

Local Open Scope R_scope.

(** [mjModel]: the static description. *)
Record mjModel := {
  nbody : Z;
  njnt : Z;
  ngeom : Z;
  nsite : Z;
  ncam : Z;
  nlight : Z;
  ntendon : Z;
  nu : Z;
  na : Z;
  neq : Z;
  nsensor : Z;
  nskin : Z;
  stat_meansize : R;
  stat_meanmass : R;
  stat_extent : R;
  vis_global_fovy : R;
  vis_global_ipd : R;
  vis_global_glow : R;
  vis_map_force : R;
  vis_map_alpha : R;
  vis_map_znear : R;
  vis_map_zfar : R;
  vis_map_actuatortendon : R;
  vis_scale_forcewidth : R;
  vis_scale_contactwidth : R;
  vis_scale_contactheight : R;
  vis_scale_connect : R;
  vis_scale_com : R;
  vis_scale_camera : R;
  vis_scale_light : R;
  vis_scale_selectpoint : R;
  vis_scale_jointlength : R;
  vis_scale_jointwidth : R;
  vis_scale_actuatorlength : R;
  vis_scale_actuatorwidth : R;
  vis_scale_framelength : R;
  vis_scale_framewidth : R;
  vis_scale_constraint : R;
  vis_scale_slidercrank : R;
  vis_rgba_joint : vec4;
  vis_rgba_actuator : vec4;
  vis_rgba_actuatornegative : vec4;
  vis_rgba_actuatorpositive : vec4;
  vis_rgba_com : vec4;
  vis_rgba_camera : vec4;
  vis_rgba_light : vec4;
  vis_rgba_selectpoint : vec4;
  vis_rgba_connect : vec4;
  vis_rgba_contactpoint : vec4;
  vis_rgba_contactforce : vec4;
  vis_rgba_contactfriction : vec4;
  vis_rgba_contactgap : vec4;
  vis_rgba_rangefinder : vec4;
  vis_rgba_constraint : vec4;
  vis_rgba_slidercrank : vec4;
  vis_rgba_crankbroken : vec4;
  vis_rgba_inertia : vec4;
  vis_rgba_force : vec4;
  vis_headlight_active : bool;
  vis_headlight_ambient : vec3;
  vis_headlight_diffuse : vec3;
  vis_headlight_specular : vec3;
  body_parentid : array Z;
  body_rootid : array Z;
  body_weldid : array Z;
  body_mocapid : array Z;
  body_jntnum : array Z;
  body_jntadr : array Z;
  body_mass : array R;
  body_inertia : array R;
  jnt_type : array Z;
  jnt_bodyid : array Z;
  jnt_group : array Z;
  geom_type : array Z;
  geom_bodyid : array Z;
  geom_dataid : array Z;
  geom_matid : array Z;
  geom_group : array Z;
  geom_size : array R;
  geom_rbound : array R;
  geom_rgba : array R;
  site_type : array Z;
  site_bodyid : array Z;
  site_matid : array Z;
  site_group : array Z;
  site_size : array R;
  site_rgba : array R;
  cam_fovy : array R;
  cam_ipd : array R;
  light_directional : array bool;
  light_castshadow : array bool;
  light_active : array bool;
  light_attenuation : array R;
  light_cutoff : array R;
  light_exponent : array R;
  light_ambient : array R;
  light_diffuse : array R;
  light_specular : array R;
  mesh_texcoordadr : array Z;
  mesh_graphadr : array Z;
  skin_matid : array Z;
  skin_rgba : array R;
  skin_inflate : array R;
  skin_vertadr : array Z;
  skin_vertnum : array Z;
  skin_texcoordadr : array Z;
  skin_faceadr : array Z;
  skin_facenum : array Z;
  skin_boneadr : array Z;
  skin_bonenum : array Z;
  skin_vert : array R;
  skin_face : array Z;
  skin_bonevertadr : array Z;
  skin_bonevertnum : array Z;
  skin_bonebindpos : array R;
  skin_bonebindquat : array R;
  skin_bonebodyid : array Z;
  skin_bonevertid : array Z;
  skin_bonevertweight : array R;
  mat_texid : array Z;
  mat_texuniform : array Z;
  mat_texrepeat : array R;
  mat_emission : array R;
  mat_specular : array R;
  mat_shininess : array R;
  mat_reflectance : array R;
  mat_rgba : array R;
  eq_type : array Z;
  eq_obj1id : array Z;
  eq_obj2id : array Z;
  eq_active : array bool;
  eq_data : array R;
  tendon_group : array Z;
  tendon_matid : array Z;
  tendon_width : array R;
  tendon_rgba : array R;
  actuator_trntype : array Z;
  actuator_dyntype : array Z;
  actuator_trnid : array Z;
  actuator_group : array Z;
  actuator_ctrllimited : array bool;
  actuator_actlimited : array bool;
  actuator_ctrlrange : array R;
  actuator_actrange : array R;
  actuator_cranklength : array R;
  sensor_type : array Z;
  sensor_objid : array Z;
  sensor_adr : array Z
}.

Definition zero_mjModel : mjModel :=
  {| nbody := 0%Z;
     njnt := 0%Z;
     ngeom := 0%Z;
     nsite := 0%Z;
     ncam := 0%Z;
     nlight := 0%Z;
     ntendon := 0%Z;
     nu := 0%Z;
     na := 0%Z;
     neq := 0%Z;
     nsensor := 0%Z;
     nskin := 0%Z;
     stat_meansize := 0%R;
     stat_meanmass := 0%R;
     stat_extent := 0%R;
     vis_global_fovy := 0%R;
     vis_global_ipd := 0%R;
     vis_global_glow := 0%R;
     vis_map_force := 0%R;
     vis_map_alpha := 0%R;
     vis_map_znear := 0%R;
     vis_map_zfar := 0%R;
     vis_map_actuatortendon := 0%R;
     vis_scale_forcewidth := 0%R;
     vis_scale_contactwidth := 0%R;
     vis_scale_contactheight := 0%R;
     vis_scale_connect := 0%R;
     vis_scale_com := 0%R;
     vis_scale_camera := 0%R;
     vis_scale_light := 0%R;
     vis_scale_selectpoint := 0%R;
     vis_scale_jointlength := 0%R;
     vis_scale_jointwidth := 0%R;
     vis_scale_actuatorlength := 0%R;
     vis_scale_actuatorwidth := 0%R;
     vis_scale_framelength := 0%R;
     vis_scale_framewidth := 0%R;
     vis_scale_constraint := 0%R;
     vis_scale_slidercrank := 0%R;
     vis_rgba_joint := (V4 0 0 0 0);
     vis_rgba_actuator := (V4 0 0 0 0);
     vis_rgba_actuatornegative := (V4 0 0 0 0);
     vis_rgba_actuatorpositive := (V4 0 0 0 0);
     vis_rgba_com := (V4 0 0 0 0);
     vis_rgba_camera := (V4 0 0 0 0);
     vis_rgba_light := (V4 0 0 0 0);
     vis_rgba_selectpoint := (V4 0 0 0 0);
     vis_rgba_connect := (V4 0 0 0 0);
     vis_rgba_contactpoint := (V4 0 0 0 0);
     vis_rgba_contactforce := (V4 0 0 0 0);
     vis_rgba_contactfriction := (V4 0 0 0 0);
     vis_rgba_contactgap := (V4 0 0 0 0);
     vis_rgba_rangefinder := (V4 0 0 0 0);
     vis_rgba_constraint := (V4 0 0 0 0);
     vis_rgba_slidercrank := (V4 0 0 0 0);
     vis_rgba_crankbroken := (V4 0 0 0 0);
     vis_rgba_inertia := (V4 0 0 0 0);
     vis_rgba_force := (V4 0 0 0 0);
     vis_headlight_active := false;
     vis_headlight_ambient := (V3 0 0 0);
     vis_headlight_diffuse := (V3 0 0 0);
     vis_headlight_specular := (V3 0 0 0);
     body_parentid := (fun _ => 0%Z);
     body_rootid := (fun _ => 0%Z);
     body_weldid := (fun _ => 0%Z);
     body_mocapid := (fun _ => 0%Z);
     body_jntnum := (fun _ => 0%Z);
     body_jntadr := (fun _ => 0%Z);
     body_mass := (fun _ => 0%R);
     body_inertia := (fun _ => 0%R);
     jnt_type := (fun _ => 0%Z);
     jnt_bodyid := (fun _ => 0%Z);
     jnt_group := (fun _ => 0%Z);
     geom_type := (fun _ => 0%Z);
     geom_bodyid := (fun _ => 0%Z);
     geom_dataid := (fun _ => 0%Z);
     geom_matid := (fun _ => 0%Z);
     geom_group := (fun _ => 0%Z);
     geom_size := (fun _ => 0%R);
     geom_rbound := (fun _ => 0%R);
     geom_rgba := (fun _ => 0%R);
     site_type := (fun _ => 0%Z);
     site_bodyid := (fun _ => 0%Z);
     site_matid := (fun _ => 0%Z);
     site_group := (fun _ => 0%Z);
     site_size := (fun _ => 0%R);
     site_rgba := (fun _ => 0%R);
     cam_fovy := (fun _ => 0%R);
     cam_ipd := (fun _ => 0%R);
     light_directional := (fun _ => false);
     light_castshadow := (fun _ => false);
     light_active := (fun _ => false);
     light_attenuation := (fun _ => 0%R);
     light_cutoff := (fun _ => 0%R);
     light_exponent := (fun _ => 0%R);
     light_ambient := (fun _ => 0%R);
     light_diffuse := (fun _ => 0%R);
     light_specular := (fun _ => 0%R);
     mesh_texcoordadr := (fun _ => 0%Z);
     mesh_graphadr := (fun _ => 0%Z);
     skin_matid := (fun _ => 0%Z);
     skin_rgba := (fun _ => 0%R);
     skin_inflate := (fun _ => 0%R);
     skin_vertadr := (fun _ => 0%Z);
     skin_vertnum := (fun _ => 0%Z);
     skin_texcoordadr := (fun _ => 0%Z);
     skin_faceadr := (fun _ => 0%Z);
     skin_facenum := (fun _ => 0%Z);
     skin_boneadr := (fun _ => 0%Z);
     skin_bonenum := (fun _ => 0%Z);
     skin_vert := (fun _ => 0%R);
     skin_face := (fun _ => 0%Z);
     skin_bonevertadr := (fun _ => 0%Z);
     skin_bonevertnum := (fun _ => 0%Z);
     skin_bonebindpos := (fun _ => 0%R);
     skin_bonebindquat := (fun _ => 0%R);
     skin_bonebodyid := (fun _ => 0%Z);
     skin_bonevertid := (fun _ => 0%Z);
     skin_bonevertweight := (fun _ => 0%R);
     mat_texid := (fun _ => 0%Z);
     mat_texuniform := (fun _ => 0%Z);
     mat_texrepeat := (fun _ => 0%R);
     mat_emission := (fun _ => 0%R);
     mat_specular := (fun _ => 0%R);
     mat_shininess := (fun _ => 0%R);
     mat_reflectance := (fun _ => 0%R);
     mat_rgba := (fun _ => 0%R);
     eq_type := (fun _ => 0%Z);
     eq_obj1id := (fun _ => 0%Z);
     eq_obj2id := (fun _ => 0%Z);
     eq_active := (fun _ => false);
     eq_data := (fun _ => 0%R);
     tendon_group := (fun _ => 0%Z);
     tendon_matid := (fun _ => 0%Z);
     tendon_width := (fun _ => 0%R);
     tendon_rgba := (fun _ => 0%R);
     actuator_trntype := (fun _ => 0%Z);
     actuator_dyntype := (fun _ => 0%Z);
     actuator_trnid := (fun _ => 0%Z);
     actuator_group := (fun _ => 0%Z);
     actuator_ctrllimited := (fun _ => false);
     actuator_actlimited := (fun _ => false);
     actuator_ctrlrange := (fun _ => 0%R);
     actuator_actrange := (fun _ => 0%R);
     actuator_cranklength := (fun _ => 0%R);
     sensor_type := (fun _ => 0%Z);
     sensor_objid := (fun _ => 0%Z);
     sensor_adr := (fun _ => 0%Z) |}.
Definition set_nbody (s : mjModel) (v : Z) : mjModel :=
  Build_mjModel v (njnt s) (ngeom s) (nsite s) (ncam s) (nlight s) (ntendon s) (nu s) (na s) (neq s) (nsensor s) (nskin s) (stat_meansize s) (stat_meanmass s) (stat_extent s) (vis_global_fovy s) (vis_global_ipd s) (vis_global_glow s) (vis_map_force s) (vis_map_alpha s) (vis_map_znear s) (vis_map_zfar s) (vis_map_actuatortendon s) (vis_scale_forcewidth s) (vis_scale_contactwidth s) (vis_scale_contactheight s) (vis_scale_connect s) (vis_scale_com s) (vis_scale_camera s) (vis_scale_light s) (vis_scale_selectpoint s) (vis_scale_jointlength s) (vis_scale_jointwidth s) (vis_scale_actuatorlength s) (vis_scale_actuatorwidth s) (vis_scale_framelength s) (vis_scale_framewidth s) (vis_scale_constraint s) (vis_scale_slidercrank s) (vis_rgba_joint s) (vis_rgba_actuator s) (vis_rgba_actuatornegative s) (vis_rgba_actuatorpositive s) (vis_rgba_com s) (vis_rgba_camera s) (vis_rgba_light s) (vis_rgba_selectpoint s) (vis_rgba_connect s) (vis_rgba_contactpoint s) (vis_rgba_contactforce s) (vis_rgba_contactfriction s) (vis_rgba_contactgap s) (vis_rgba_rangefinder s) (vis_rgba_constraint s) (vis_rgba_slidercrank s) (vis_rgba_crankbroken s) (vis_rgba_inertia s) (vis_rgba_force s) (vis_headlight_active s) (vis_headlight_ambient s) (vis_headlight_diffuse s) (vis_headlight_specular s) (body_parentid s) (body_rootid s) (body_weldid s) (body_mocapid s) (body_jntnum s) (body_jntadr s) (body_mass s) (body_inertia s) (jnt_type s) (jnt_bodyid s) (jnt_group s) (geom_type s) (geom_bodyid s) (geom_dataid s) (geom_matid s) (geom_group s) (geom_size s) (geom_rbound s) (geom_rgba s) (site_type s) (site_bodyid s) (site_matid s) (site_group s) (site_size s) (site_rgba s) (cam_fovy s) (cam_ipd s) (light_directional s) (light_castshadow s) (light_active s) (light_attenuation s) (light_cutoff s) (light_exponent s) (light_ambient s) (light_diffuse s) (light_specular s) (mesh_texcoordadr s) (mesh_graphadr s) (skin_matid s) (skin_rgba s) (skin_inflate s) (skin_vertadr s) (skin_vertnum s) (skin_texcoordadr s) (skin_faceadr s) (skin_facenum s) (skin_boneadr s) (skin_bonenum s) (skin_vert s) (skin_face s) (skin_bonevertadr s) (skin_bonevertnum s) (skin_bonebindpos s) (skin_bonebindquat s) (skin_bonebodyid s) (skin_bonevertid s) (skin_bonevertweight s) (mat_texid s) (mat_texuniform s) (mat_texrepeat s) (mat_emission s) (mat_specular s) (mat_shininess s) (mat_reflectance s) (mat_rgba s) (eq_type s) (eq_obj1id s) (eq_obj2id s) (eq_active s) (eq_data s) (tendon_group s) (tendon_matid s) (tendon_width s) (tendon_rgba s) (actuator_trntype s) (actuator_dyntype s) (actuator_trnid s) (actuator_group s) (actuator_ctrllimited s) (actuator_actlimited s) (actuator_ctrlrange s) (actuator_actrange s) (actuator_cranklength s) (sensor_type s) (sensor_objid s) (sensor_adr s).
Definition set_njnt (s : mjModel) (v : Z) : mjModel :=
  Build_mjModel (nbody s) v (ngeom s) (nsite s) (ncam s) (nlight s) (ntendon s) (nu s) (na s) (neq s) (nsensor s) (nskin s) (stat_meansize s) (stat_meanmass s) (stat_extent s) (vis_global_fovy s) (vis_global_ipd s) (vis_global_glow s) (vis_map_force s) (vis_map_alpha s) (vis_map_znear s) (vis_map_zfar s) (vis_map_actuatortendon s) (vis_scale_forcewidth s) (vis_scale_contactwidth s) (vis_scale_contactheight s) (vis_scale_connect s) (vis_scale_com s) (vis_scale_camera s) (vis_scale_light s) (vis_scale_selectpoint s) (vis_scale_jointlength s) (vis_scale_jointwidth s) (vis_scale_actuatorlength s) (vis_scale_actuatorwidth s) (vis_scale_framelength s) (vis_scale_framewidth s) (vis_scale_constraint s) (vis_scale_slidercrank s) (vis_rgba_joint s) (vis_rgba_actuator s) (vis_rgba_actuatornegative s) (vis_rgba_actuatorpositive s) (vis_rgba_com s) (vis_rgba_camera s) (vis_rgba_light s) (vis_rgba_selectpoint s) (vis_rgba_connect s) (vis_rgba_contactpoint s) (vis_rgba_contactforce s) (vis_rgba_contactfriction s) (vis_rgba_contactgap s) (vis_rgba_rangefinder s) (vis_rgba_constraint s) (vis_rgba_slidercrank s) (vis_rgba_crankbroken s) (vis_rgba_inertia s) (vis_rgba_force s) (vis_headlight_active s) (vis_headlight_ambient s) (vis_headlight_diffuse s) (vis_headlight_specular s) (body_parentid s) (body_rootid s) (body_weldid s) (body_mocapid s) (body_jntnum s) (body_jntadr s) (body_mass s) (body_inertia s) (jnt_type s) (jnt_bodyid s) (jnt_group s) (geom_type s) (geom_bodyid s) (geom_dataid s) (geom_matid s) (geom_group s) (geom_size s) (geom_rbound s) (geom_rgba s) (site_type s) (site_bodyid s) (site_matid s) (site_group s) (site_size s) (site_rgba s) (cam_fovy s) (cam_ipd s) (light_directional s) (light_castshadow s) (light_active s) (light_attenuation s) (light_cutoff s) (light_exponent s) (light_ambient s) (light_diffuse s) (light_specular s) (mesh_texcoordadr s) (mesh_graphadr s) (skin_matid s) (skin_rgba s) (skin_inflate s) (skin_vertadr s) (skin_vertnum s) (skin_texcoordadr s) (skin_faceadr s) (skin_facenum s) (skin_boneadr s) (skin_bonenum s) (skin_vert s) (skin_face s) (skin_bonevertadr s) (skin_bonevertnum s) (skin_bonebindpos s) (skin_bonebindquat s) (skin_bonebodyid s) (skin_bonevertid s) (skin_bonevertweight s) (mat_texid s) (mat_texuniform s) (mat_texrepeat s) (mat_emission s) (mat_specular s) (mat_shininess s) (mat_reflectance s) (mat_rgba s) (eq_type s) (eq_obj1id s) (eq_obj2id s) (eq_active s) (eq_data s) (tendon_group s) (tendon_matid s) (tendon_width s) (tendon_rgba s) (actuator_trntype s) (actuator_dyntype s) (actuator_trnid s) (actuator_group s) (actuator_ctrllimited s) (actuator_actlimited s) (actuator_ctrlrange s) (actuator_actrange s) (actuator_cranklength s) (sensor_type s) (sensor_objid s) (sensor_adr s).
Definition set_ngeom (s : mjModel) (v : Z) : mjModel :=
  Build_mjModel (nbody s) (njnt s) v (nsite s) (ncam s) (nlight s) (ntendon s) (nu s) (na s) (neq s) (nsensor s) (nskin s) (stat_meansize s) (stat_meanmass s) (stat_extent s) (vis_global_fovy s) (vis_global_ipd s) (vis_global_glow s) (vis_map_force s) (vis_map_alpha s) (vis_map_znear s) (vis_map_zfar s) (vis_map_actuatortendon s) (vis_scale_forcewidth s) (vis_scale_contactwidth s) (vis_scale_contactheight s) (vis_scale_connect s) (vis_scale_com s) (vis_scale_camera s) (vis_scale_light s) (vis_scale_selectpoint s) (vis_scale_jointlength s) (vis_scale_jointwidth s) (vis_scale_actuatorlength s) (vis_scale_actuatorwidth s) (vis_scale_framelength s) (vis_scale_framewidth s) (vis_scale_constraint s) (vis_scale_slidercrank s) (vis_rgba_joint s) (vis_rgba_actuator s) (vis_rgba_actuatornegative s) (vis_rgba_actuatorpositive s) (vis_rgba_com s) (vis_rgba_camera s) (vis_rgba_light s) (vis_rgba_selectpoint s) (vis_rgba_connect s) (vis_rgba_contactpoint s) (vis_rgba_contactforce s) (vis_rgba_contactfriction s) (vis_rgba_contactgap s) (vis_rgba_rangefinder s) (vis_rgba_constraint s) (vis_rgba_slidercrank s) (vis_rgba_crankbroken s) (vis_rgba_inertia s) (vis_rgba_force s) (vis_headlight_active s) (vis_headlight_ambient s) (vis_headlight_diffuse s) (vis_headlight_specular s) (body_parentid s) (body_rootid s) (body_weldid s) (body_mocapid s) (body_jntnum s) (body_jntadr s) (body_mass s) (body_inertia s) (jnt_type s) (jnt_bodyid s) (jnt_group s) (geom_type s) (geom_bodyid s) (geom_dataid s) (geom_matid s) (geom_group s) (geom_size s) (geom_rbound s) (geom_rgba s) (site_type s) (site_bodyid s) (site_matid s) (site_group s) (site_size s) (site_rgba s) (cam_fovy s) (cam_ipd s) (light_directional s) (light_castshadow s) (light_active s) (light_attenuation s) (light_cutoff s) (light_exponent s) (light_ambient s) (light_diffuse s) (light_specular s) (mesh_texcoordadr s) (mesh_graphadr s) (skin_matid s) (skin_rgba s) (skin_inflate s) (skin_vertadr s) (skin_vertnum s) (skin_texcoordadr s) (skin_faceadr s) (skin_facenum s) (skin_boneadr s) (skin_bonenum s) (skin_vert s) (skin_face s) (skin_bonevertadr s) (skin_bonevertnum s) (skin_bonebindpos s) (skin_bonebindquat s) (skin_bonebodyid s) (skin_bonevertid s) (skin_bonevertweight s) (mat_texid s) (mat_texuniform s) (mat_texrepeat s) (mat_emission s) (mat_specular s) (mat_shininess s) (mat_reflectance s) (mat_rgba s) (eq_type s) (eq_obj1id s) (eq_obj2id s) (eq_active s) (eq_data s) (tendon_group s) (tendon_matid s) (tendon_width s) (tendon_rgba s) (actuator_trntype s) (actuator_dyntype s) (actuator_trnid s) (actuator_group s) (actuator_ctrllimited s) (actuator_actlimited s) (actuator_ctrlrange s) (actuator_actrange s) (actuator_cranklength s) (sensor_type s) (sensor_objid s) (sensor_adr s).
Definition set_nsite (s : mjModel) (v : Z) : mjModel :=
  Build_mjModel (nbody s) (njnt s) (ngeom s) v (ncam s) (nlight s) (ntendon s) (nu s) (na s) (neq s) (nsensor s) (nskin s) (stat_meansize s) (stat_meanmass s) (stat_extent s) (vis_global_fovy s) (vis_global_ipd s) (vis_global_glow s) (vis_map_force s) (vis_map_alpha s) (vis_map_znear s) (vis_map_zfar s) (vis_map_actuatortendon s) (vis_scale_forcewidth s) (vis_scale_contactwidth s) (vis_scale_contactheight s) (vis_scale_connect s) (vis_scale_com s) (vis_scale_camera s) (vis_scale_light s) (vis_scale_selectpoint s) (vis_scale_jointlength s) (vis_scale_jointwidth s) (vis_scale_actuatorlength s) (vis_scale_actuatorwidth s) (vis_scale_framelength s) (vis_scale_framewidth s) (vis_scale_constraint s) (vis_scale_slidercrank s) (vis_rgba_joint s) (vis_rgba_actuator s) (vis_rgba_actuatornegative s) (vis_rgba_actuatorpositive s) (vis_rgba_com s) (vis_rgba_camera s) (vis_rgba_light s) (vis_rgba_selectpoint s) (vis_rgba_connect s) (vis_rgba_contactpoint s) (vis_rgba_contactforce s) (vis_rgba_contactfriction s) (vis_rgba_contactgap s) (vis_rgba_rangefinder s) (vis_rgba_constraint s) (vis_rgba_slidercrank s) (vis_rgba_crankbroken s) (vis_rgba_inertia s) (vis_rgba_force s) (vis_headlight_active s) (vis_headlight_ambient s) (vis_headlight_diffuse s) (vis_headlight_specular s) (body_parentid s) (body_rootid s) (body_weldid s) (body_mocapid s) (body_jntnum s) (body_jntadr s) (body_mass s) (body_inertia s) (jnt_type s) (jnt_bodyid s) (jnt_group s) (geom_type s) (geom_bodyid s) (geom_dataid s) (geom_matid s) (geom_group s) (geom_size s) (geom_rbound s) (geom_rgba s) (site_type s) (site_bodyid s) (site_matid s) (site_group s) (site_size s) (site_rgba s) (cam_fovy s) (cam_ipd s) (light_directional s) (light_castshadow s) (light_active s) (light_attenuation s) (light_cutoff s) (light_exponent s) (light_ambient s) (light_diffuse s) (light_specular s) (mesh_texcoordadr s) (mesh_graphadr s) (skin_matid s) (skin_rgba s) (skin_inflate s) (skin_vertadr s) (skin_vertnum s) (skin_texcoordadr s) (skin_faceadr s) (skin_facenum s) (skin_boneadr s) (skin_bonenum s) (skin_vert s) (skin_face s) (skin_bonevertadr s) (skin_bonevertnum s) (skin_bonebindpos s) (skin_bonebindquat s) (skin_bonebodyid s) (skin_bonevertid s) (skin_bonevertweight s) (mat_texid s) (mat_texuniform s) (mat_texrepeat s) (mat_emission s) (mat_specular s) (mat_shininess s) (mat_reflectance s) (mat_rgba s) (eq_type s) (eq_obj1id s) (eq_obj2id s) (eq_active s) (eq_data s) (tendon_group s) (tendon_matid s) (tendon_width s) (tendon_rgba s) (actuator_trntype s) (actuator_dyntype s) (actuator_trnid s) (actuator_group s) (actuator_ctrllimited s) (actuator_actlimited s) (actuator_ctrlrange s) (actuator_actrange s) (actuator_cranklength s) (sensor_type s) (sensor_objid s) (sensor_adr s).
Definition set_ncam (s : mjModel) (v : Z) : mjModel :=
  Build_mjModel (nbody s) (njnt s) (ngeom s) (nsite s) v (nlight s) (ntendon s) (nu s) (na s) (neq s) (nsensor s) (nskin s) (stat_meansize s) (stat_meanmass s) (stat_extent s) (vis_global_fovy s) (vis_global_ipd s) (vis_global_glow s) (vis_map_force s) (vis_map_alpha s) (vis_map_znear s) (vis_map_zfar s) (vis_map_actuatortendon s) (vis_scale_forcewidth s) (vis_scale_contactwidth s) (vis_scale_contactheight s) (vis_scale_connect s) (vis_scale_com s) (vis_scale_camera s) (vis_scale_light s) (vis_scale_selectpoint s) (vis_scale_jointlength s) (vis_scale_jointwidth s) (vis_scale_actuatorlength s) (vis_scale_actuatorwidth s) (vis_scale_framelength s) (vis_scale_framewidth s) (vis_scale_constraint s) (vis_scale_slidercrank s) (vis_rgba_joint s) (vis_rgba_actuator s) (vis_rgba_actuatornegative s) (vis_rgba_actuatorpositive s) (vis_rgba_com s) (vis_rgba_camera s) (vis_rgba_light s) (vis_rgba_selectpoint s) (vis_rgba_connect s) (vis_rgba_contactpoint s) (vis_rgba_contactforce s) (vis_rgba_contactfriction s) (vis_rgba_contactgap s) (vis_rgba_rangefinder s) (vis_rgba_constraint s) (vis_rgba_slidercrank s) (vis_rgba_crankbroken s) (vis_rgba_inertia s) (vis_rgba_force s) (vis_headlight_active s) (vis_headlight_ambient s) (vis_headlight_diffuse s) (vis_headlight_specular s) (body_parentid s) (body_rootid s) (body_weldid s) (body_mocapid s) (body_jntnum s) (body_jntadr s) (body_mass s) (body_inertia s) (jnt_type s) (jnt_bodyid s) (jnt_group s) (geom_type s) (geom_bodyid s) (geom_dataid s) (geom_matid s) (geom_group s) (geom_size s) (geom_rbound s) (geom_rgba s) (site_type s) (site_bodyid s) (site_matid s) (site_group s) (site_size s) (site_rgba s) (cam_fovy s) (cam_ipd s) (light_directional s) (light_castshadow s) (light_active s) (light_attenuation s) (light_cutoff s) (light_exponent s) (light_ambient s) (light_diffuse s) (light_specular s) (mesh_texcoordadr s) (mesh_graphadr s) (skin_matid s) (skin_rgba s) (skin_inflate s) (skin_vertadr s) (skin_vertnum s) (skin_texcoordadr s) (skin_faceadr s) (skin_facenum s) (skin_boneadr s) (skin_bonenum s) (skin_vert s) (skin_face s) (skin_bonevertadr s) (skin_bonevertnum s) (skin_bonebindpos s) (skin_bonebindquat s) (skin_bonebodyid s) (skin_bonevertid s) (skin_bonevertweight s) (mat_texid s) (mat_texuniform s) (mat_texrepeat s) (mat_emission s) (mat_specular s) (mat_shininess s) (mat_reflectance s) (mat_rgba s) (eq_type s) (eq_obj1id s) (eq_obj2id s) (eq_active s) (eq_data s) (tendon_group s) (tendon_matid s) (tendon_width s) (tendon_rgba s) (actuator_trntype s) (actuator_dyntype s) (actuator_trnid s) (actuator_group s) (actuator_ctrllimited s) (actuator_actlimited s) (actuator_ctrlrange s) (actuator_actrange s) (actuator_cranklength s) (sensor_type s) (sensor_objid s) (sensor_adr s).
Definition set_nu (s : mjModel) (v : Z) : mjModel :=
  Build_mjModel (nbody s) (njnt s) (ngeom s) (nsite s) (ncam s) (nlight s) (ntendon s) v (na s) (neq s) (nsensor s) (nskin s) (stat_meansize s) (stat_meanmass s) (stat_extent s) (vis_global_fovy s) (vis_global_ipd s) (vis_global_glow s) (vis_map_force s) (vis_map_alpha s) (vis_map_znear s) (vis_map_zfar s) (vis_map_actuatortendon s) (vis_scale_forcewidth s) (vis_scale_contactwidth s) (vis_scale_contactheight s) (vis_scale_connect s) (vis_scale_com s) (vis_scale_camera s) (vis_scale_light s) (vis_scale_selectpoint s) (vis_scale_jointlength s) (vis_scale_jointwidth s) (vis_scale_actuatorlength s) (vis_scale_actuatorwidth s) (vis_scale_framelength s) (vis_scale_framewidth s) (vis_scale_constraint s) (vis_scale_slidercrank s) (vis_rgba_joint s) (vis_rgba_actuator s) (vis_rgba_actuatornegative s) (vis_rgba_actuatorpositive s) (vis_rgba_com s) (vis_rgba_camera s) (vis_rgba_light s) (vis_rgba_selectpoint s) (vis_rgba_connect s) (vis_rgba_contactpoint s) (vis_rgba_contactforce s) (vis_rgba_contactfriction s) (vis_rgba_contactgap s) (vis_rgba_rangefinder s) (vis_rgba_constraint s) (vis_rgba_slidercrank s) (vis_rgba_crankbroken s) (vis_rgba_inertia s) (vis_rgba_force s) (vis_headlight_active s) (vis_headlight_ambient s) (vis_headlight_diffuse s) (vis_headlight_specular s) (body_parentid s) (body_rootid s) (body_weldid s) (body_mocapid s) (body_jntnum s) (body_jntadr s) (body_mass s) (body_inertia s) (jnt_type s) (jnt_bodyid s) (jnt_group s) (geom_type s) (geom_bodyid s) (geom_dataid s) (geom_matid s) (geom_group s) (geom_size s) (geom_rbound s) (geom_rgba s) (site_type s) (site_bodyid s) (site_matid s) (site_group s) (site_size s) (site_rgba s) (cam_fovy s) (cam_ipd s) (light_directional s) (light_castshadow s) (light_active s) (light_attenuation s) (light_cutoff s) (light_exponent s) (light_ambient s) (light_diffuse s) (light_specular s) (mesh_texcoordadr s) (mesh_graphadr s) (skin_matid s) (skin_rgba s) (skin_inflate s) (skin_vertadr s) (skin_vertnum s) (skin_texcoordadr s) (skin_faceadr s) (skin_facenum s) (skin_boneadr s) (skin_bonenum s) (skin_vert s) (skin_face s) (skin_bonevertadr s) (skin_bonevertnum s) (skin_bonebindpos s) (skin_bonebindquat s) (skin_bonebodyid s) (skin_bonevertid s) (skin_bonevertweight s) (mat_texid s) (mat_texuniform s) (mat_texrepeat s) (mat_emission s) (mat_specular s) (mat_shininess s) (mat_reflectance s) (mat_rgba s) (eq_type s) (eq_obj1id s) (eq_obj2id s) (eq_active s) (eq_data s) (tendon_group s) (tendon_matid s) (tendon_width s) (tendon_rgba s) (actuator_trntype s) (actuator_dyntype s) (actuator_trnid s) (actuator_group s) (actuator_ctrllimited s) (actuator_actlimited s) (actuator_ctrlrange s) (actuator_actrange s) (actuator_cranklength s) (sensor_type s) (sensor_objid s) (sensor_adr s).
Definition set_nskin (s : mjModel) (v : Z) : mjModel :=
  Build_mjModel (nbody s) (njnt s) (ngeom s) (nsite s) (ncam s) (nlight s) (ntendon s) (nu s) (na s) (neq s) (nsensor s) v (stat_meansize s) (stat_meanmass s) (stat_extent s) (vis_global_fovy s) (vis_global_ipd s) (vis_global_glow s) (vis_map_force s) (vis_map_alpha s) (vis_map_znear s) (vis_map_zfar s) (vis_map_actuatortendon s) (vis_scale_forcewidth s) (vis_scale_contactwidth s) (vis_scale_contactheight s) (vis_scale_connect s) (vis_scale_com s) (vis_scale_camera s) (vis_scale_light s) (vis_scale_selectpoint s) (vis_scale_jointlength s) (vis_scale_jointwidth s) (vis_scale_actuatorlength s) (vis_scale_actuatorwidth s) (vis_scale_framelength s) (vis_scale_framewidth s) (vis_scale_constraint s) (vis_scale_slidercrank s) (vis_rgba_joint s) (vis_rgba_actuator s) (vis_rgba_actuatornegative s) (vis_rgba_actuatorpositive s) (vis_rgba_com s) (vis_rgba_camera s) (vis_rgba_light s) (vis_rgba_selectpoint s) (vis_rgba_connect s) (vis_rgba_contactpoint s) (vis_rgba_contactforce s) (vis_rgba_contactfriction s) (vis_rgba_contactgap s) (vis_rgba_rangefinder s) (vis_rgba_constraint s) (vis_rgba_slidercrank s) (vis_rgba_crankbroken s) (vis_rgba_inertia s) (vis_rgba_force s) (vis_headlight_active s) (vis_headlight_ambient s) (vis_headlight_diffuse s) (vis_headlight_specular s) (body_parentid s) (body_rootid s) (body_weldid s) (body_mocapid s) (body_jntnum s) (body_jntadr s) (body_mass s) (body_inertia s) (jnt_type s) (jnt_bodyid s) (jnt_group s) (geom_type s) (geom_bodyid s) (geom_dataid s) (geom_matid s) (geom_group s) (geom_size s) (geom_rbound s) (geom_rgba s) (site_type s) (site_bodyid s) (site_matid s) (site_group s) (site_size s) (site_rgba s) (cam_fovy s) (cam_ipd s) (light_directional s) (light_castshadow s) (light_active s) (light_attenuation s) (light_cutoff s) (light_exponent s) (light_ambient s) (light_diffuse s) (light_specular s) (mesh_texcoordadr s) (mesh_graphadr s) (skin_matid s) (skin_rgba s) (skin_inflate s) (skin_vertadr s) (skin_vertnum s) (skin_texcoordadr s) (skin_faceadr s) (skin_facenum s) (skin_boneadr s) (skin_bonenum s) (skin_vert s) (skin_face s) (skin_bonevertadr s) (skin_bonevertnum s) (skin_bonebindpos s) (skin_bonebindquat s) (skin_bonebodyid s) (skin_bonevertid s) (skin_bonevertweight s) (mat_texid s) (mat_texuniform s) (mat_texrepeat s) (mat_emission s) (mat_specular s) (mat_shininess s) (mat_reflectance s) (mat_rgba s) (eq_type s) (eq_obj1id s) (eq_obj2id s) (eq_active s) (eq_data s) (tendon_group s) (tendon_matid s) (tendon_width s) (tendon_rgba s) (actuator_trntype s) (actuator_dyntype s) (actuator_trnid s) (actuator_group s) (actuator_ctrllimited s) (actuator_actlimited s) (actuator_ctrlrange s) (actuator_actrange s) (actuator_cranklength s) (sensor_type s) (sensor_objid s) (sensor_adr s).
Definition set_stat_meanmass (s : mjModel) (v : R) : mjModel :=
  Build_mjModel (nbody s) (njnt s) (ngeom s) (nsite s) (ncam s) (nlight s) (ntendon s) (nu s) (na s) (neq s) (nsensor s) (nskin s) (stat_meansize s) v (stat_extent s) (vis_global_fovy s) (vis_global_ipd s) (vis_global_glow s) (vis_map_force s) (vis_map_alpha s) (vis_map_znear s) (vis_map_zfar s) (vis_map_actuatortendon s) (vis_scale_forcewidth s) (vis_scale_contactwidth s) (vis_scale_contactheight s) (vis_scale_connect s) (vis_scale_com s) (vis_scale_camera s) (vis_scale_light s) (vis_scale_selectpoint s) (vis_scale_jointlength s) (vis_scale_jointwidth s) (vis_scale_actuatorlength s) (vis_scale_actuatorwidth s) (vis_scale_framelength s) (vis_scale_framewidth s) (vis_scale_constraint s) (vis_scale_slidercrank s) (vis_rgba_joint s) (vis_rgba_actuator s) (vis_rgba_actuatornegative s) (vis_rgba_actuatorpositive s) (vis_rgba_com s) (vis_rgba_camera s) (vis_rgba_light s) (vis_rgba_selectpoint s) (vis_rgba_connect s) (vis_rgba_contactpoint s) (vis_rgba_contactforce s) (vis_rgba_contactfriction s) (vis_rgba_contactgap s) (vis_rgba_rangefinder s) (vis_rgba_constraint s) (vis_rgba_slidercrank s) (vis_rgba_crankbroken s) (vis_rgba_inertia s) (vis_rgba_force s) (vis_headlight_active s) (vis_headlight_ambient s) (vis_headlight_diffuse s) (vis_headlight_specular s) (body_parentid s) (body_rootid s) (body_weldid s) (body_mocapid s) (body_jntnum s) (body_jntadr s) (body_mass s) (body_inertia s) (jnt_type s) (jnt_bodyid s) (jnt_group s) (geom_type s) (geom_bodyid s) (geom_dataid s) (geom_matid s) (geom_group s) (geom_size s) (geom_rbound s) (geom_rgba s) (site_type s) (site_bodyid s) (site_matid s) (site_group s) (site_size s) (site_rgba s) (cam_fovy s) (cam_ipd s) (light_directional s) (light_castshadow s) (light_active s) (light_attenuation s) (light_cutoff s) (light_exponent s) (light_ambient s) (light_diffuse s) (light_specular s) (mesh_texcoordadr s) (mesh_graphadr s) (skin_matid s) (skin_rgba s) (skin_inflate s) (skin_vertadr s) (skin_vertnum s) (skin_texcoordadr s) (skin_faceadr s) (skin_facenum s) (skin_boneadr s) (skin_bonenum s) (skin_vert s) (skin_face s) (skin_bonevertadr s) (skin_bonevertnum s) (skin_bonebindpos s) (skin_bonebindquat s) (skin_bonebodyid s) (skin_bonevertid s) (skin_bonevertweight s) (mat_texid s) (mat_texuniform s) (mat_texrepeat s) (mat_emission s) (mat_specular s) (mat_shininess s) (mat_reflectance s) (mat_rgba s) (eq_type s) (eq_obj1id s) (eq_obj2id s) (eq_active s) (eq_data s) (tendon_group s) (tendon_matid s) (tendon_width s) (tendon_rgba s) (actuator_trntype s) (actuator_dyntype s) (actuator_trnid s) (actuator_group s) (actuator_ctrllimited s) (actuator_actlimited s) (actuator_ctrlrange s) (actuator_actrange s) (actuator_cranklength s) (sensor_type s) (sensor_objid s) (sensor_adr s).
Definition set_vis_global_ipd (s : mjModel) (v : R) : mjModel :=
  Build_mjModel (nbody s) (njnt s) (ngeom s) (nsite s) (ncam s) (nlight s) (ntendon s) (nu s) (na s) (neq s) (nsensor s) (nskin s) (stat_meansize s) (stat_meanmass s) (stat_extent s) (vis_global_fovy s) v (vis_global_glow s) (vis_map_force s) (vis_map_alpha s) (vis_map_znear s) (vis_map_zfar s) (vis_map_actuatortendon s) (vis_scale_forcewidth s) (vis_scale_contactwidth s) (vis_scale_contactheight s) (vis_scale_connect s) (vis_scale_com s) (vis_scale_camera s) (vis_scale_light s) (vis_scale_selectpoint s) (vis_scale_jointlength s) (vis_scale_jointwidth s) (vis_scale_actuatorlength s) (vis_scale_actuatorwidth s) (vis_scale_framelength s) (vis_scale_framewidth s) (vis_scale_constraint s) (vis_scale_slidercrank s) (vis_rgba_joint s) (vis_rgba_actuator s) (vis_rgba_actuatornegative s) (vis_rgba_actuatorpositive s) (vis_rgba_com s) (vis_rgba_camera s) (vis_rgba_light s) (vis_rgba_selectpoint s) (vis_rgba_connect s) (vis_rgba_contactpoint s) (vis_rgba_contactforce s) (vis_rgba_contactfriction s) (vis_rgba_contactgap s) (vis_rgba_rangefinder s) (vis_rgba_constraint s) (vis_rgba_slidercrank s) (vis_rgba_crankbroken s) (vis_rgba_inertia s) (vis_rgba_force s) (vis_headlight_active s) (vis_headlight_ambient s) (vis_headlight_diffuse s) (vis_headlight_specular s) (body_parentid s) (body_rootid s) (body_weldid s) (body_mocapid s) (body_jntnum s) (body_jntadr s) (body_mass s) (body_inertia s) (jnt_type s) (jnt_bodyid s) (jnt_group s) (geom_type s) (geom_bodyid s) (geom_dataid s) (geom_matid s) (geom_group s) (geom_size s) (geom_rbound s) (geom_rgba s) (site_type s) (site_bodyid s) (site_matid s) (site_group s) (site_size s) (site_rgba s) (cam_fovy s) (cam_ipd s) (light_directional s) (light_castshadow s) (light_active s) (light_attenuation s) (light_cutoff s) (light_exponent s) (light_ambient s) (light_diffuse s) (light_specular s) (mesh_texcoordadr s) (mesh_graphadr s) (skin_matid s) (skin_rgba s) (skin_inflate s) (skin_vertadr s) (skin_vertnum s) (skin_texcoordadr s) (skin_faceadr s) (skin_facenum s) (skin_boneadr s) (skin_bonenum s) (skin_vert s) (skin_face s) (skin_bonevertadr s) (skin_bonevertnum s) (skin_bonebindpos s) (skin_bonebindquat s) (skin_bonebodyid s) (skin_bonevertid s) (skin_bonevertweight s) (mat_texid s) (mat_texuniform s) (mat_texrepeat s) (mat_emission s) (mat_specular s) (mat_shininess s) (mat_reflectance s) (mat_rgba s) (eq_type s) (eq_obj1id s) (eq_obj2id s) (eq_active s) (eq_data s) (tendon_group s) (tendon_matid s) (tendon_width s) (tendon_rgba s) (actuator_trntype s) (actuator_dyntype s) (actuator_trnid s) (actuator_group s) (actuator_ctrllimited s) (actuator_actlimited s) (actuator_ctrlrange s) (actuator_actrange s) (actuator_cranklength s) (sensor_type s) (sensor_objid s) (sensor_adr s).
Definition set_vis_map_force (s : mjModel) (v : R) : mjModel :=
  Build_mjModel (nbody s) (njnt s) (ngeom s) (nsite s) (ncam s) (nlight s) (ntendon s) (nu s) (na s) (neq s) (nsensor s) (nskin s) (stat_meansize s) (stat_meanmass s) (stat_extent s) (vis_global_fovy s) (vis_global_ipd s) (vis_global_glow s) v (vis_map_alpha s) (vis_map_znear s) (vis_map_zfar s) (vis_map_actuatortendon s) (vis_scale_forcewidth s) (vis_scale_contactwidth s) (vis_scale_contactheight s) (vis_scale_connect s) (vis_scale_com s) (vis_scale_camera s) (vis_scale_light s) (vis_scale_selectpoint s) (vis_scale_jointlength s) (vis_scale_jointwidth s) (vis_scale_actuatorlength s) (vis_scale_actuatorwidth s) (vis_scale_framelength s) (vis_scale_framewidth s) (vis_scale_constraint s) (vis_scale_slidercrank s) (vis_rgba_joint s) (vis_rgba_actuator s) (vis_rgba_actuatornegative s) (vis_rgba_actuatorpositive s) (vis_rgba_com s) (vis_rgba_camera s) (vis_rgba_light s) (vis_rgba_selectpoint s) (vis_rgba_connect s) (vis_rgba_contactpoint s) (vis_rgba_contactforce s) (vis_rgba_contactfriction s) (vis_rgba_contactgap s) (vis_rgba_rangefinder s) (vis_rgba_constraint s) (vis_rgba_slidercrank s) (vis_rgba_crankbroken s) (vis_rgba_inertia s) (vis_rgba_force s) (vis_headlight_active s) (vis_headlight_ambient s) (vis_headlight_diffuse s) (vis_headlight_specular s) (body_parentid s) (body_rootid s) (body_weldid s) (body_mocapid s) (body_jntnum s) (body_jntadr s) (body_mass s) (body_inertia s) (jnt_type s) (jnt_bodyid s) (jnt_group s) (geom_type s) (geom_bodyid s) (geom_dataid s) (geom_matid s) (geom_group s) (geom_size s) (geom_rbound s) (geom_rgba s) (site_type s) (site_bodyid s) (site_matid s) (site_group s) (site_size s) (site_rgba s) (cam_fovy s) (cam_ipd s) (light_directional s) (light_castshadow s) (light_active s) (light_attenuation s) (light_cutoff s) (light_exponent s) (light_ambient s) (light_diffuse s) (light_specular s) (mesh_texcoordadr s) (mesh_graphadr s) (skin_matid s) (skin_rgba s) (skin_inflate s) (skin_vertadr s) (skin_vertnum s) (skin_texcoordadr s) (skin_faceadr s) (skin_facenum s) (skin_boneadr s) (skin_bonenum s) (skin_vert s) (skin_face s) (skin_bonevertadr s) (skin_bonevertnum s) (skin_bonebindpos s) (skin_bonebindquat s) (skin_bonebodyid s) (skin_bonevertid s) (skin_bonevertweight s) (mat_texid s) (mat_texuniform s) (mat_texrepeat s) (mat_emission s) (mat_specular s) (mat_shininess s) (mat_reflectance s) (mat_rgba s) (eq_type s) (eq_obj1id s) (eq_obj2id s) (eq_active s) (eq_data s) (tendon_group s) (tendon_matid s) (tendon_width s) (tendon_rgba s) (actuator_trntype s) (actuator_dyntype s) (actuator_trnid s) (actuator_group s) (actuator_ctrllimited s) (actuator_actlimited s) (actuator_ctrlrange s) (actuator_actrange s) (actuator_cranklength s) (sensor_type s) (sensor_objid s) (sensor_adr s).
Definition set_vis_map_alpha (s : mjModel) (v : R) : mjModel :=
  Build_mjModel (nbody s) (njnt s) (ngeom s) (nsite s) (ncam s) (nlight s) (ntendon s) (nu s) (na s) (neq s) (nsensor s) (nskin s) (stat_meansize s) (stat_meanmass s) (stat_extent s) (vis_global_fovy s) (vis_global_ipd s) (vis_global_glow s) (vis_map_force s) v (vis_map_znear s) (vis_map_zfar s) (vis_map_actuatortendon s) (vis_scale_forcewidth s) (vis_scale_contactwidth s) (vis_scale_contactheight s) (vis_scale_connect s) (vis_scale_com s) (vis_scale_camera s) (vis_scale_light s) (vis_scale_selectpoint s) (vis_scale_jointlength s) (vis_scale_jointwidth s) (vis_scale_actuatorlength s) (vis_scale_actuatorwidth s) (vis_scale_framelength s) (vis_scale_framewidth s) (vis_scale_constraint s) (vis_scale_slidercrank s) (vis_rgba_joint s) (vis_rgba_actuator s) (vis_rgba_actuatornegative s) (vis_rgba_actuatorpositive s) (vis_rgba_com s) (vis_rgba_camera s) (vis_rgba_light s) (vis_rgba_selectpoint s) (vis_rgba_connect s) (vis_rgba_contactpoint s) (vis_rgba_contactforce s) (vis_rgba_contactfriction s) (vis_rgba_contactgap s) (vis_rgba_rangefinder s) (vis_rgba_constraint s) (vis_rgba_slidercrank s) (vis_rgba_crankbroken s) (vis_rgba_inertia s) (vis_rgba_force s) (vis_headlight_active s) (vis_headlight_ambient s) (vis_headlight_diffuse s) (vis_headlight_specular s) (body_parentid s) (body_rootid s) (body_weldid s) (body_mocapid s) (body_jntnum s) (body_jntadr s) (body_mass s) (body_inertia s) (jnt_type s) (jnt_bodyid s) (jnt_group s) (geom_type s) (geom_bodyid s) (geom_dataid s) (geom_matid s) (geom_group s) (geom_size s) (geom_rbound s) (geom_rgba s) (site_type s) (site_bodyid s) (site_matid s) (site_group s) (site_size s) (site_rgba s) (cam_fovy s) (cam_ipd s) (light_directional s) (light_castshadow s) (light_active s) (light_attenuation s) (light_cutoff s) (light_exponent s) (light_ambient s) (light_diffuse s) (light_specular s) (mesh_texcoordadr s) (mesh_graphadr s) (skin_matid s) (skin_rgba s) (skin_inflate s) (skin_vertadr s) (skin_vertnum s) (skin_texcoordadr s) (skin_faceadr s) (skin_facenum s) (skin_boneadr s) (skin_bonenum s) (skin_vert s) (skin_face s) (skin_bonevertadr s) (skin_bonevertnum s) (skin_bonebindpos s) (skin_bonebindquat s) (skin_bonebodyid s) (skin_bonevertid s) (skin_bonevertweight s) (mat_texid s) (mat_texuniform s) (mat_texrepeat s) (mat_emission s) (mat_specular s) (mat_shininess s) (mat_reflectance s) (mat_rgba s) (eq_type s) (eq_obj1id s) (eq_obj2id s) (eq_active s) (eq_data s) (tendon_group s) (tendon_matid s) (tendon_width s) (tendon_rgba s) (actuator_trntype s) (actuator_dyntype s) (actuator_trnid s) (actuator_group s) (actuator_ctrllimited s) (actuator_actlimited s) (actuator_ctrlrange s) (actuator_actrange s) (actuator_cranklength s) (sensor_type s) (sensor_objid s) (sensor_adr s).
Definition set_vis_rgba_actuator (s : mjModel) (v : vec4) : mjModel :=
  Build_mjModel (nbody s) (njnt s) (ngeom s) (nsite s) (ncam s) (nlight s) (ntendon s) (nu s) (na s) (neq s) (nsensor s) (nskin s) (stat_meansize s) (stat_meanmass s) (stat_extent s) (vis_global_fovy s) (vis_global_ipd s) (vis_global_glow s) (vis_map_force s) (vis_map_alpha s) (vis_map_znear s) (vis_map_zfar s) (vis_map_actuatortendon s) (vis_scale_forcewidth s) (vis_scale_contactwidth s) (vis_scale_contactheight s) (vis_scale_connect s) (vis_scale_com s) (vis_scale_camera s) (vis_scale_light s) (vis_scale_selectpoint s) (vis_scale_jointlength s) (vis_scale_jointwidth s) (vis_scale_actuatorlength s) (vis_scale_actuatorwidth s) (vis_scale_framelength s) (vis_scale_framewidth s) (vis_scale_constraint s) (vis_scale_slidercrank s) (vis_rgba_joint s) v (vis_rgba_actuatornegative s) (vis_rgba_actuatorpositive s) (vis_rgba_com s) (vis_rgba_camera s) (vis_rgba_light s) (vis_rgba_selectpoint s) (vis_rgba_connect s) (vis_rgba_contactpoint s) (vis_rgba_contactforce s) (vis_rgba_contactfriction s) (vis_rgba_contactgap s) (vis_rgba_rangefinder s) (vis_rgba_constraint s) (vis_rgba_slidercrank s) (vis_rgba_crankbroken s) (vis_rgba_inertia s) (vis_rgba_force s) (vis_headlight_active s) (vis_headlight_ambient s) (vis_headlight_diffuse s) (vis_headlight_specular s) (body_parentid s) (body_rootid s) (body_weldid s) (body_mocapid s) (body_jntnum s) (body_jntadr s) (body_mass s) (body_inertia s) (jnt_type s) (jnt_bodyid s) (jnt_group s) (geom_type s) (geom_bodyid s) (geom_dataid s) (geom_matid s) (geom_group s) (geom_size s) (geom_rbound s) (geom_rgba s) (site_type s) (site_bodyid s) (site_matid s) (site_group s) (site_size s) (site_rgba s) (cam_fovy s) (cam_ipd s) (light_directional s) (light_castshadow s) (light_active s) (light_attenuation s) (light_cutoff s) (light_exponent s) (light_ambient s) (light_diffuse s) (light_specular s) (mesh_texcoordadr s) (mesh_graphadr s) (skin_matid s) (skin_rgba s) (skin_inflate s) (skin_vertadr s) (skin_vertnum s) (skin_texcoordadr s) (skin_faceadr s) (skin_facenum s) (skin_boneadr s) (skin_bonenum s) (skin_vert s) (skin_face s) (skin_bonevertadr s) (skin_bonevertnum s) (skin_bonebindpos s) (skin_bonebindquat s) (skin_bonebodyid s) (skin_bonevertid s) (skin_bonevertweight s) (mat_texid s) (mat_texuniform s) (mat_texrepeat s) (mat_emission s) (mat_specular s) (mat_shininess s) (mat_reflectance s) (mat_rgba s) (eq_type s) (eq_obj1id s) (eq_obj2id s) (eq_active s) (eq_data s) (tendon_group s) (tendon_matid s) (tendon_width s) (tendon_rgba s) (actuator_trntype s) (actuator_dyntype s) (actuator_trnid s) (actuator_group s) (actuator_ctrllimited s) (actuator_actlimited s) (actuator_ctrlrange s) (actuator_actrange s) (actuator_cranklength s) (sensor_type s) (sensor_objid s) (sensor_adr s).
Definition set_vis_rgba_actuatornegative (s : mjModel) (v : vec4) : mjModel :=
  Build_mjModel (nbody s) (njnt s) (ngeom s) (nsite s) (ncam s) (nlight s) (ntendon s) (nu s) (na s) (neq s) (nsensor s) (nskin s) (stat_meansize s) (stat_meanmass s) (stat_extent s) (vis_global_fovy s) (vis_global_ipd s) (vis_global_glow s) (vis_map_force s) (vis_map_alpha s) (vis_map_znear s) (vis_map_zfar s) (vis_map_actuatortendon s) (vis_scale_forcewidth s) (vis_scale_contactwidth s) (vis_scale_contactheight s) (vis_scale_connect s) (vis_scale_com s) (vis_scale_camera s) (vis_scale_light s) (vis_scale_selectpoint s) (vis_scale_jointlength s) (vis_scale_jointwidth s) (vis_scale_actuatorlength s) (vis_scale_actuatorwidth s) (vis_scale_framelength s) (vis_scale_framewidth s) (vis_scale_constraint s) (vis_scale_slidercrank s) (vis_rgba_joint s) (vis_rgba_actuator s) v (vis_rgba_actuatorpositive s) (vis_rgba_com s) (vis_rgba_camera s) (vis_rgba_light s) (vis_rgba_selectpoint s) (vis_rgba_connect s) (vis_rgba_contactpoint s) (vis_rgba_contactforce s) (vis_rgba_contactfriction s) (vis_rgba_contactgap s) (vis_rgba_rangefinder s) (vis_rgba_constraint s) (vis_rgba_slidercrank s) (vis_rgba_crankbroken s) (vis_rgba_inertia s) (vis_rgba_force s) (vis_headlight_active s) (vis_headlight_ambient s) (vis_headlight_diffuse s) (vis_headlight_specular s) (body_parentid s) (body_rootid s) (body_weldid s) (body_mocapid s) (body_jntnum s) (body_jntadr s) (body_mass s) (body_inertia s) (jnt_type s) (jnt_bodyid s) (jnt_group s) (geom_type s) (geom_bodyid s) (geom_dataid s) (geom_matid s) (geom_group s) (geom_size s) (geom_rbound s) (geom_rgba s) (site_type s) (site_bodyid s) (site_matid s) (site_group s) (site_size s) (site_rgba s) (cam_fovy s) (cam_ipd s) (light_directional s) (light_castshadow s) (light_active s) (light_attenuation s) (light_cutoff s) (light_exponent s) (light_ambient s) (light_diffuse s) (light_specular s) (mesh_texcoordadr s) (mesh_graphadr s) (skin_matid s) (skin_rgba s) (skin_inflate s) (skin_vertadr s) (skin_vertnum s) (skin_texcoordadr s) (skin_faceadr s) (skin_facenum s) (skin_boneadr s) (skin_bonenum s) (skin_vert s) (skin_face s) (skin_bonevertadr s) (skin_bonevertnum s) (skin_bonebindpos s) (skin_bonebindquat s) (skin_bonebodyid s) (skin_bonevertid s) (skin_bonevertweight s) (mat_texid s) (mat_texuniform s) (mat_texrepeat s) (mat_emission s) (mat_specular s) (mat_shininess s) (mat_reflectance s) (mat_rgba s) (eq_type s) (eq_obj1id s) (eq_obj2id s) (eq_active s) (eq_data s) (tendon_group s) (tendon_matid s) (tendon_width s) (tendon_rgba s) (actuator_trntype s) (actuator_dyntype s) (actuator_trnid s) (actuator_group s) (actuator_ctrllimited s) (actuator_actlimited s) (actuator_ctrlrange s) (actuator_actrange s) (actuator_cranklength s) (sensor_type s) (sensor_objid s) (sensor_adr s).
Definition set_vis_rgba_actuatorpositive (s : mjModel) (v : vec4) : mjModel :=
  Build_mjModel (nbody s) (njnt s) (ngeom s) (nsite s) (ncam s) (nlight s) (ntendon s) (nu s) (na s) (neq s) (nsensor s) (nskin s) (stat_meansize s) (stat_meanmass s) (stat_extent s) (vis_global_fovy s) (vis_global_ipd s) (vis_global_glow s) (vis_map_force s) (vis_map_alpha s) (vis_map_znear s) (vis_map_zfar s) (vis_map_actuatortendon s) (vis_scale_forcewidth s) (vis_scale_contactwidth s) (vis_scale_contactheight s) (vis_scale_connect s) (vis_scale_com s) (vis_scale_camera s) (vis_scale_light s) (vis_scale_selectpoint s) (vis_scale_jointlength s) (vis_scale_jointwidth s) (vis_scale_actuatorlength s) (vis_scale_actuatorwidth s) (vis_scale_framelength s) (vis_scale_framewidth s) (vis_scale_constraint s) (vis_scale_slidercrank s) (vis_rgba_joint s) (vis_rgba_actuator s) (vis_rgba_actuatornegative s) v (vis_rgba_com s) (vis_rgba_camera s) (vis_rgba_light s) (vis_rgba_selectpoint s) (vis_rgba_connect s) (vis_rgba_contactpoint s) (vis_rgba_contactforce s) (vis_rgba_contactfriction s) (vis_rgba_contactgap s) (vis_rgba_rangefinder s) (vis_rgba_constraint s) (vis_rgba_slidercrank s) (vis_rgba_crankbroken s) (vis_rgba_inertia s) (vis_rgba_force s) (vis_headlight_active s) (vis_headlight_ambient s) (vis_headlight_diffuse s) (vis_headlight_specular s) (body_parentid s) (body_rootid s) (body_weldid s) (body_mocapid s) (body_jntnum s) (body_jntadr s) (body_mass s) (body_inertia s) (jnt_type s) (jnt_bodyid s) (jnt_group s) (geom_type s) (geom_bodyid s) (geom_dataid s) (geom_matid s) (geom_group s) (geom_size s) (geom_rbound s) (geom_rgba s) (site_type s) (site_bodyid s) (site_matid s) (site_group s) (site_size s) (site_rgba s) (cam_fovy s) (cam_ipd s) (light_directional s) (light_castshadow s) (light_active s) (light_attenuation s) (light_cutoff s) (light_exponent s) (light_ambient s) (light_diffuse s) (light_specular s) (mesh_texcoordadr s) (mesh_graphadr s) (skin_matid s) (skin_rgba s) (skin_inflate s) (skin_vertadr s) (skin_vertnum s) (skin_texcoordadr s) (skin_faceadr s) (skin_facenum s) (skin_boneadr s) (skin_bonenum s) (skin_vert s) (skin_face s) (skin_bonevertadr s) (skin_bonevertnum s) (skin_bonebindpos s) (skin_bonebindquat s) (skin_bonebodyid s) (skin_bonevertid s) (skin_bonevertweight s) (mat_texid s) (mat_texuniform s) (mat_texrepeat s) (mat_emission s) (mat_specular s) (mat_shininess s) (mat_reflectance s) (mat_rgba s) (eq_type s) (eq_obj1id s) (eq_obj2id s) (eq_active s) (eq_data s) (tendon_group s) (tendon_matid s) (tendon_width s) (tendon_rgba s) (actuator_trntype s) (actuator_dyntype s) (actuator_trnid s) (actuator_group s) (actuator_ctrllimited s) (actuator_actlimited s) (actuator_ctrlrange s) (actuator_actrange s) (actuator_cranklength s) (sensor_type s) (sensor_objid s) (sensor_adr s).
Definition set_body_mocapid (s : mjModel) (v : array Z) : mjModel :=
  Build_mjModel (nbody s) (njnt s) (ngeom s) (nsite s) (ncam s) (nlight s) (ntendon s) (nu s) (na s) (neq s) (nsensor s) (nskin s) (stat_meansize s) (stat_meanmass s) (stat_extent s) (vis_global_fovy s) (vis_global_ipd s) (vis_global_glow s) (vis_map_force s) (vis_map_alpha s) (vis_map_znear s) (vis_map_zfar s) (vis_map_actuatortendon s) (vis_scale_forcewidth s) (vis_scale_contactwidth s) (vis_scale_contactheight s) (vis_scale_connect s) (vis_scale_com s) (vis_scale_camera s) (vis_scale_light s) (vis_scale_selectpoint s) (vis_scale_jointlength s) (vis_scale_jointwidth s) (vis_scale_actuatorlength s) (vis_scale_actuatorwidth s) (vis_scale_framelength s) (vis_scale_framewidth s) (vis_scale_constraint s) (vis_scale_slidercrank s) (vis_rgba_joint s) (vis_rgba_actuator s) (vis_rgba_actuatornegative s) (vis_rgba_actuatorpositive s) (vis_rgba_com s) (vis_rgba_camera s) (vis_rgba_light s) (vis_rgba_selectpoint s) (vis_rgba_connect s) (vis_rgba_contactpoint s) (vis_rgba_contactforce s) (vis_rgba_contactfriction s) (vis_rgba_contactgap s) (vis_rgba_rangefinder s) (vis_rgba_constraint s) (vis_rgba_slidercrank s) (vis_rgba_crankbroken s) (vis_rgba_inertia s) (vis_rgba_force s) (vis_headlight_active s) (vis_headlight_ambient s) (vis_headlight_diffuse s) (vis_headlight_specular s) (body_parentid s) (body_rootid s) (body_weldid s) v (body_jntnum s) (body_jntadr s) (body_mass s) (body_inertia s) (jnt_type s) (jnt_bodyid s) (jnt_group s) (geom_type s) (geom_bodyid s) (geom_dataid s) (geom_matid s) (geom_group s) (geom_size s) (geom_rbound s) (geom_rgba s) (site_type s) (site_bodyid s) (site_matid s) (site_group s) (site_size s) (site_rgba s) (cam_fovy s) (cam_ipd s) (light_directional s) (light_castshadow s) (light_active s) (light_attenuation s) (light_cutoff s) (light_exponent s) (light_ambient s) (light_diffuse s) (light_specular s) (mesh_texcoordadr s) (mesh_graphadr s) (skin_matid s) (skin_rgba s) (skin_inflate s) (skin_vertadr s) (skin_vertnum s) (skin_texcoordadr s) (skin_faceadr s) (skin_facenum s) (skin_boneadr s) (skin_bonenum s) (skin_vert s) (skin_face s) (skin_bonevertadr s) (skin_bonevertnum s) (skin_bonebindpos s) (skin_bonebindquat s) (skin_bonebodyid s) (skin_bonevertid s) (skin_bonevertweight s) (mat_texid s) (mat_texuniform s) (mat_texrepeat s) (mat_emission s) (mat_specular s) (mat_shininess s) (mat_reflectance s) (mat_rgba s) (eq_type s) (eq_obj1id s) (eq_obj2id s) (eq_active s) (eq_data s) (tendon_group s) (tendon_matid s) (tendon_width s) (tendon_rgba s) (actuator_trntype s) (actuator_dyntype s) (actuator_trnid s) (actuator_group s) (actuator_ctrllimited s) (actuator_actlimited s) (actuator_ctrlrange s) (actuator_actrange s) (actuator_cranklength s) (sensor_type s) (sensor_objid s) (sensor_adr s).
Definition set_jnt_group (s : mjModel) (v : array Z) : mjModel :=
  Build_mjModel (nbody s) (njnt s) (ngeom s) (nsite s) (ncam s) (nlight s) (ntendon s) (nu s) (na s) (neq s) (nsensor s) (nskin s) (stat_meansize s) (stat_meanmass s) (stat_extent s) (vis_global_fovy s) (vis_global_ipd s) (vis_global_glow s) (vis_map_force s) (vis_map_alpha s) (vis_map_znear s) (vis_map_zfar s) (vis_map_actuatortendon s) (vis_scale_forcewidth s) (vis_scale_contactwidth s) (vis_scale_contactheight s) (vis_scale_connect s) (vis_scale_com s) (vis_scale_camera s) (vis_scale_light s) (vis_scale_selectpoint s) (vis_scale_jointlength s) (vis_scale_jointwidth s) (vis_scale_actuatorlength s) (vis_scale_actuatorwidth s) (vis_scale_framelength s) (vis_scale_framewidth s) (vis_scale_constraint s) (vis_scale_slidercrank s) (vis_rgba_joint s) (vis_rgba_actuator s) (vis_rgba_actuatornegative s) (vis_rgba_actuatorpositive s) (vis_rgba_com s) (vis_rgba_camera s) (vis_rgba_light s) (vis_rgba_selectpoint s) (vis_rgba_connect s) (vis_rgba_contactpoint s) (vis_rgba_contactforce s) (vis_rgba_contactfriction s) (vis_rgba_contactgap s) (vis_rgba_rangefinder s) (vis_rgba_constraint s) (vis_rgba_slidercrank s) (vis_rgba_crankbroken s) (vis_rgba_inertia s) (vis_rgba_force s) (vis_headlight_active s) (vis_headlight_ambient s) (vis_headlight_diffuse s) (vis_headlight_specular s) (body_parentid s) (body_rootid s) (body_weldid s) (body_mocapid s) (body_jntnum s) (body_jntadr s) (body_mass s) (body_inertia s) (jnt_type s) (jnt_bodyid s) v (geom_type s) (geom_bodyid s) (geom_dataid s) (geom_matid s) (geom_group s) (geom_size s) (geom_rbound s) (geom_rgba s) (site_type s) (site_bodyid s) (site_matid s) (site_group s) (site_size s) (site_rgba s) (cam_fovy s) (cam_ipd s) (light_directional s) (light_castshadow s) (light_active s) (light_attenuation s) (light_cutoff s) (light_exponent s) (light_ambient s) (light_diffuse s) (light_specular s) (mesh_texcoordadr s) (mesh_graphadr s) (skin_matid s) (skin_rgba s) (skin_inflate s) (skin_vertadr s) (skin_vertnum s) (skin_texcoordadr s) (skin_faceadr s) (skin_facenum s) (skin_boneadr s) (skin_bonenum s) (skin_vert s) (skin_face s) (skin_bonevertadr s) (skin_bonevertnum s) (skin_bonebindpos s) (skin_bonebindquat s) (skin_bonebodyid s) (skin_bonevertid s) (skin_bonevertweight s) (mat_texid s) (mat_texuniform s) (mat_texrepeat s) (mat_emission s) (mat_specular s) (mat_shininess s) (mat_reflectance s) (mat_rgba s) (eq_type s) (eq_obj1id s) (eq_obj2id s) (eq_active s) (eq_data s) (tendon_group s) (tendon_matid s) (tendon_width s) (tendon_rgba s) (actuator_trntype s) (actuator_dyntype s) (actuator_trnid s) (actuator_group s) (actuator_ctrllimited s) (actuator_actlimited s) (actuator_ctrlrange s) (actuator_actrange s) (actuator_cranklength s) (sensor_type s) (sensor_objid s) (sensor_adr s).
Definition set_geom_type (s : mjModel) (v : array Z) : mjModel :=
  Build_mjModel (nbody s) (njnt s) (ngeom s) (nsite s) (ncam s) (nlight s) (ntendon s) (nu s) (na s) (neq s) (nsensor s) (nskin s) (stat_meansize s) (stat_meanmass s) (stat_extent s) (vis_global_fovy s) (vis_global_ipd s) (vis_global_glow s) (vis_map_force s) (vis_map_alpha s) (vis_map_znear s) (vis_map_zfar s) (vis_map_actuatortendon s) (vis_scale_forcewidth s) (vis_scale_contactwidth s) (vis_scale_contactheight s) (vis_scale_connect s) (vis_scale_com s) (vis_scale_camera s) (vis_scale_light s) (vis_scale_selectpoint s) (vis_scale_jointlength s) (vis_scale_jointwidth s) (vis_scale_actuatorlength s) (vis_scale_actuatorwidth s) (vis_scale_framelength s) (vis_scale_framewidth s) (vis_scale_constraint s) (vis_scale_slidercrank s) (vis_rgba_joint s) (vis_rgba_actuator s) (vis_rgba_actuatornegative s) (vis_rgba_actuatorpositive s) (vis_rgba_com s) (vis_rgba_camera s) (vis_rgba_light s) (vis_rgba_selectpoint s) (vis_rgba_connect s) (vis_rgba_contactpoint s) (vis_rgba_contactforce s) (vis_rgba_contactfriction s) (vis_rgba_contactgap s) (vis_rgba_rangefinder s) (vis_rgba_constraint s) (vis_rgba_slidercrank s) (vis_rgba_crankbroken s) (vis_rgba_inertia s) (vis_rgba_force s) (vis_headlight_active s) (vis_headlight_ambient s) (vis_headlight_diffuse s) (vis_headlight_specular s) (body_parentid s) (body_rootid s) (body_weldid s) (body_mocapid s) (body_jntnum s) (body_jntadr s) (body_mass s) (body_inertia s) (jnt_type s) (jnt_bodyid s) (jnt_group s) v (geom_bodyid s) (geom_dataid s) (geom_matid s) (geom_group s) (geom_size s) (geom_rbound s) (geom_rgba s) (site_type s) (site_bodyid s) (site_matid s) (site_group s) (site_size s) (site_rgba s) (cam_fovy s) (cam_ipd s) (light_directional s) (light_castshadow s) (light_active s) (light_attenuation s) (light_cutoff s) (light_exponent s) (light_ambient s) (light_diffuse s) (light_specular s) (mesh_texcoordadr s) (mesh_graphadr s) (skin_matid s) (skin_rgba s) (skin_inflate s) (skin_vertadr s) (skin_vertnum s) (skin_texcoordadr s) (skin_faceadr s) (skin_facenum s) (skin_boneadr s) (skin_bonenum s) (skin_vert s) (skin_face s) (skin_bonevertadr s) (skin_bonevertnum s) (skin_bonebindpos s) (skin_bonebindquat s) (skin_bonebodyid s) (skin_bonevertid s) (skin_bonevertweight s) (mat_texid s) (mat_texuniform s) (mat_texrepeat s) (mat_emission s) (mat_specular s) (mat_shininess s) (mat_reflectance s) (mat_rgba s) (eq_type s) (eq_obj1id s) (eq_obj2id s) (eq_active s) (eq_data s) (tendon_group s) (tendon_matid s) (tendon_width s) (tendon_rgba s) (actuator_trntype s) (actuator_dyntype s) (actuator_trnid s) (actuator_group s) (actuator_ctrllimited s) (actuator_actlimited s) (actuator_ctrlrange s) (actuator_actrange s) (actuator_cranklength s) (sensor_type s) (sensor_objid s) (sensor_adr s).
Definition set_geom_bodyid (s : mjModel) (v : array Z) : mjModel :=
  Build_mjModel (nbody s) (njnt s) (ngeom s) (nsite s) (ncam s) (nlight s) (ntendon s) (nu s) (na s) (neq s) (nsensor s) (nskin s) (stat_meansize s) (stat_meanmass s) (stat_extent s) (vis_global_fovy s) (vis_global_ipd s) (vis_global_glow s) (vis_map_force s) (vis_map_alpha s) (vis_map_znear s) (vis_map_zfar s) (vis_map_actuatortendon s) (vis_scale_forcewidth s) (vis_scale_contactwidth s) (vis_scale_contactheight s) (vis_scale_connect s) (vis_scale_com s) (vis_scale_camera s) (vis_scale_light s) (vis_scale_selectpoint s) (vis_scale_jointlength s) (vis_scale_jointwidth s) (vis_scale_actuatorlength s) (vis_scale_actuatorwidth s) (vis_scale_framelength s) (vis_scale_framewidth s) (vis_scale_constraint s) (vis_scale_slidercrank s) (vis_rgba_joint s) (vis_rgba_actuator s) (vis_rgba_actuatornegative s) (vis_rgba_actuatorpositive s) (vis_rgba_com s) (vis_rgba_camera s) (vis_rgba_light s) (vis_rgba_selectpoint s) (vis_rgba_connect s) (vis_rgba_contactpoint s) (vis_rgba_contactforce s) (vis_rgba_contactfriction s) (vis_rgba_contactgap s) (vis_rgba_rangefinder s) (vis_rgba_constraint s) (vis_rgba_slidercrank s) (vis_rgba_crankbroken s) (vis_rgba_inertia s) (vis_rgba_force s) (vis_headlight_active s) (vis_headlight_ambient s) (vis_headlight_diffuse s) (vis_headlight_specular s) (body_parentid s) (body_rootid s) (body_weldid s) (body_mocapid s) (body_jntnum s) (body_jntadr s) (body_mass s) (body_inertia s) (jnt_type s) (jnt_bodyid s) (jnt_group s) (geom_type s) v (geom_dataid s) (geom_matid s) (geom_group s) (geom_size s) (geom_rbound s) (geom_rgba s) (site_type s) (site_bodyid s) (site_matid s) (site_group s) (site_size s) (site_rgba s) (cam_fovy s) (cam_ipd s) (light_directional s) (light_castshadow s) (light_active s) (light_attenuation s) (light_cutoff s) (light_exponent s) (light_ambient s) (light_diffuse s) (light_specular s) (mesh_texcoordadr s) (mesh_graphadr s) (skin_matid s) (skin_rgba s) (skin_inflate s) (skin_vertadr s) (skin_vertnum s) (skin_texcoordadr s) (skin_faceadr s) (skin_facenum s) (skin_boneadr s) (skin_bonenum s) (skin_vert s) (skin_face s) (skin_bonevertadr s) (skin_bonevertnum s) (skin_bonebindpos s) (skin_bonebindquat s) (skin_bonebodyid s) (skin_bonevertid s) (skin_bonevertweight s) (mat_texid s) (mat_texuniform s) (mat_texrepeat s) (mat_emission s) (mat_specular s) (mat_shininess s) (mat_reflectance s) (mat_rgba s) (eq_type s) (eq_obj1id s) (eq_obj2id s) (eq_active s) (eq_data s) (tendon_group s) (tendon_matid s) (tendon_width s) (tendon_rgba s) (actuator_trntype s) (actuator_dyntype s) (actuator_trnid s) (actuator_group s) (actuator_ctrllimited s) (actuator_actlimited s) (actuator_ctrlrange s) (actuator_actrange s) (actuator_cranklength s) (sensor_type s) (sensor_objid s) (sensor_adr s).
Definition set_geom_matid (s : mjModel) (v : array Z) : mjModel :=
  Build_mjModel (nbody s) (njnt s) (ngeom s) (nsite s) (ncam s) (nlight s) (ntendon s) (nu s) (na s) (neq s) (nsensor s) (nskin s) (stat_meansize s) (stat_meanmass s) (stat_extent s) (vis_global_fovy s) (vis_global_ipd s) (vis_global_glow s) (vis_map_force s) (vis_map_alpha s) (vis_map_znear s) (vis_map_zfar s) (vis_map_actuatortendon s) (vis_scale_forcewidth s) (vis_scale_contactwidth s) (vis_scale_contactheight s) (vis_scale_connect s) (vis_scale_com s) (vis_scale_camera s) (vis_scale_light s) (vis_scale_selectpoint s) (vis_scale_jointlength s) (vis_scale_jointwidth s) (vis_scale_actuatorlength s) (vis_scale_actuatorwidth s) (vis_scale_framelength s) (vis_scale_framewidth s) (vis_scale_constraint s) (vis_scale_slidercrank s) (vis_rgba_joint s) (vis_rgba_actuator s) (vis_rgba_actuatornegative s) (vis_rgba_actuatorpositive s) (vis_rgba_com s) (vis_rgba_camera s) (vis_rgba_light s) (vis_rgba_selectpoint s) (vis_rgba_connect s) (vis_rgba_contactpoint s) (vis_rgba_contactforce s) (vis_rgba_contactfriction s) (vis_rgba_contactgap s) (vis_rgba_rangefinder s) (vis_rgba_constraint s) (vis_rgba_slidercrank s) (vis_rgba_crankbroken s) (vis_rgba_inertia s) (vis_rgba_force s) (vis_headlight_active s) (vis_headlight_ambient s) (vis_headlight_diffuse s) (vis_headlight_specular s) (body_parentid s) (body_rootid s) (body_weldid s) (body_mocapid s) (body_jntnum s) (body_jntadr s) (body_mass s) (body_inertia s) (jnt_type s) (jnt_bodyid s) (jnt_group s) (geom_type s) (geom_bodyid s) (geom_dataid s) v (geom_group s) (geom_size s) (geom_rbound s) (geom_rgba s) (site_type s) (site_bodyid s) (site_matid s) (site_group s) (site_size s) (site_rgba s) (cam_fovy s) (cam_ipd s) (light_directional s) (light_castshadow s) (light_active s) (light_attenuation s) (light_cutoff s) (light_exponent s) (light_ambient s) (light_diffuse s) (light_specular s) (mesh_texcoordadr s) (mesh_graphadr s) (skin_matid s) (skin_rgba s) (skin_inflate s) (skin_vertadr s) (skin_vertnum s) (skin_texcoordadr s) (skin_faceadr s) (skin_facenum s) (skin_boneadr s) (skin_bonenum s) (skin_vert s) (skin_face s) (skin_bonevertadr s) (skin_bonevertnum s) (skin_bonebindpos s) (skin_bonebindquat s) (skin_bonebodyid s) (skin_bonevertid s) (skin_bonevertweight s) (mat_texid s) (mat_texuniform s) (mat_texrepeat s) (mat_emission s) (mat_specular s) (mat_shininess s) (mat_reflectance s) (mat_rgba s) (eq_type s) (eq_obj1id s) (eq_obj2id s) (eq_active s) (eq_data s) (tendon_group s) (tendon_matid s) (tendon_width s) (tendon_rgba s) (actuator_trntype s) (actuator_dyntype s) (actuator_trnid s) (actuator_group s) (actuator_ctrllimited s) (actuator_actlimited s) (actuator_ctrlrange s) (actuator_actrange s) (actuator_cranklength s) (sensor_type s) (sensor_objid s) (sensor_adr s).
Definition set_geom_group (s : mjModel) (v : array Z) : mjModel :=
  Build_mjModel (nbody s) (njnt s) (ngeom s) (nsite s) (ncam s) (nlight s) (ntendon s) (nu s) (na s) (neq s) (nsensor s) (nskin s) (stat_meansize s) (stat_meanmass s) (stat_extent s) (vis_global_fovy s) (vis_global_ipd s) (vis_global_glow s) (vis_map_force s) (vis_map_alpha s) (vis_map_znear s) (vis_map_zfar s) (vis_map_actuatortendon s) (vis_scale_forcewidth s) (vis_scale_contactwidth s) (vis_scale_contactheight s) (vis_scale_connect s) (vis_scale_com s) (vis_scale_camera s) (vis_scale_light s) (vis_scale_selectpoint s) (vis_scale_jointlength s) (vis_scale_jointwidth s) (vis_scale_actuatorlength s) (vis_scale_actuatorwidth s) (vis_scale_framelength s) (vis_scale_framewidth s) (vis_scale_constraint s) (vis_scale_slidercrank s) (vis_rgba_joint s) (vis_rgba_actuator s) (vis_rgba_actuatornegative s) (vis_rgba_actuatorpositive s) (vis_rgba_com s) (vis_rgba_camera s) (vis_rgba_light s) (vis_rgba_selectpoint s) (vis_rgba_connect s) (vis_rgba_contactpoint s) (vis_rgba_contactforce s) (vis_rgba_contactfriction s) (vis_rgba_contactgap s) (vis_rgba_rangefinder s) (vis_rgba_constraint s) (vis_rgba_slidercrank s) (vis_rgba_crankbroken s) (vis_rgba_inertia s) (vis_rgba_force s) (vis_headlight_active s) (vis_headlight_ambient s) (vis_headlight_diffuse s) (vis_headlight_specular s) (body_parentid s) (body_rootid s) (body_weldid s) (body_mocapid s) (body_jntnum s) (body_jntadr s) (body_mass s) (body_inertia s) (jnt_type s) (jnt_bodyid s) (jnt_group s) (geom_type s) (geom_bodyid s) (geom_dataid s) (geom_matid s) v (geom_size s) (geom_rbound s) (geom_rgba s) (site_type s) (site_bodyid s) (site_matid s) (site_group s) (site_size s) (site_rgba s) (cam_fovy s) (cam_ipd s) (light_directional s) (light_castshadow s) (light_active s) (light_attenuation s) (light_cutoff s) (light_exponent s) (light_ambient s) (light_diffuse s) (light_specular s) (mesh_texcoordadr s) (mesh_graphadr s) (skin_matid s) (skin_rgba s) (skin_inflate s) (skin_vertadr s) (skin_vertnum s) (skin_texcoordadr s) (skin_faceadr s) (skin_facenum s) (skin_boneadr s) (skin_bonenum s) (skin_vert s) (skin_face s) (skin_bonevertadr s) (skin_bonevertnum s) (skin_bonebindpos s) (skin_bonebindquat s) (skin_bonebodyid s) (skin_bonevertid s) (skin_bonevertweight s) (mat_texid s) (mat_texuniform s) (mat_texrepeat s) (mat_emission s) (mat_specular s) (mat_shininess s) (mat_reflectance s) (mat_rgba s) (eq_type s) (eq_obj1id s) (eq_obj2id s) (eq_active s) (eq_data s) (tendon_group s) (tendon_matid s) (tendon_width s) (tendon_rgba s) (actuator_trntype s) (actuator_dyntype s) (actuator_trnid s) (actuator_group s) (actuator_ctrllimited s) (actuator_actlimited s) (actuator_ctrlrange s) (actuator_actrange s) (actuator_cranklength s) (sensor_type s) (sensor_objid s) (sensor_adr s).
Definition set_geom_size (s : mjModel) (v : array R) : mjModel :=
  Build_mjModel (nbody s) (njnt s) (ngeom s) (nsite s) (ncam s) (nlight s) (ntendon s) (nu s) (na s) (neq s) (nsensor s) (nskin s) (stat_meansize s) (stat_meanmass s) (stat_extent s) (vis_global_fovy s) (vis_global_ipd s) (vis_global_glow s) (vis_map_force s) (vis_map_alpha s) (vis_map_znear s) (vis_map_zfar s) (vis_map_actuatortendon s) (vis_scale_forcewidth s) (vis_scale_contactwidth s) (vis_scale_contactheight s) (vis_scale_connect s) (vis_scale_com s) (vis_scale_camera s) (vis_scale_light s) (vis_scale_selectpoint s) (vis_scale_jointlength s) (vis_scale_jointwidth s) (vis_scale_actuatorlength s) (vis_scale_actuatorwidth s) (vis_scale_framelength s) (vis_scale_framewidth s) (vis_scale_constraint s) (vis_scale_slidercrank s) (vis_rgba_joint s) (vis_rgba_actuator s) (vis_rgba_actuatornegative s) (vis_rgba_actuatorpositive s) (vis_rgba_com s) (vis_rgba_camera s) (vis_rgba_light s) (vis_rgba_selectpoint s) (vis_rgba_connect s) (vis_rgba_contactpoint s) (vis_rgba_contactforce s) (vis_rgba_contactfriction s) (vis_rgba_contactgap s) (vis_rgba_rangefinder s) (vis_rgba_constraint s) (vis_rgba_slidercrank s) (vis_rgba_crankbroken s) (vis_rgba_inertia s) (vis_rgba_force s) (vis_headlight_active s) (vis_headlight_ambient s) (vis_headlight_diffuse s) (vis_headlight_specular s) (body_parentid s) (body_rootid s) (body_weldid s) (body_mocapid s) (body_jntnum s) (body_jntadr s) (body_mass s) (body_inertia s) (jnt_type s) (jnt_bodyid s) (jnt_group s) (geom_type s) (geom_bodyid s) (geom_dataid s) (geom_matid s) (geom_group s) v (geom_rbound s) (geom_rgba s) (site_type s) (site_bodyid s) (site_matid s) (site_group s) (site_size s) (site_rgba s) (cam_fovy s) (cam_ipd s) (light_directional s) (light_castshadow s) (light_active s) (light_attenuation s) (light_cutoff s) (light_exponent s) (light_ambient s) (light_diffuse s) (light_specular s) (mesh_texcoordadr s) (mesh_graphadr s) (skin_matid s) (skin_rgba s) (skin_inflate s) (skin_vertadr s) (skin_vertnum s) (skin_texcoordadr s) (skin_faceadr s) (skin_facenum s) (skin_boneadr s) (skin_bonenum s) (skin_vert s) (skin_face s) (skin_bonevertadr s) (skin_bonevertnum s) (skin_bonebindpos s) (skin_bonebindquat s) (skin_bonebodyid s) (skin_bonevertid s) (skin_bonevertweight s) (mat_texid s) (mat_texuniform s) (mat_texrepeat s) (mat_emission s) (mat_specular s) (mat_shininess s) (mat_reflectance s) (mat_rgba s) (eq_type s) (eq_obj1id s) (eq_obj2id s) (eq_active s) (eq_data s) (tendon_group s) (tendon_matid s) (tendon_width s) (tendon_rgba s) (actuator_trntype s) (actuator_dyntype s) (actuator_trnid s) (actuator_group s) (actuator_ctrllimited s) (actuator_actlimited s) (actuator_ctrlrange s) (actuator_actrange s) (actuator_cranklength s) (sensor_type s) (sensor_objid s) (sensor_adr s).
Definition set_geom_rgba (s : mjModel) (v : array R) : mjModel :=
  Build_mjModel (nbody s) (njnt s) (ngeom s) (nsite s) (ncam s) (nlight s) (ntendon s) (nu s) (na s) (neq s) (nsensor s) (nskin s) (stat_meansize s) (stat_meanmass s) (stat_extent s) (vis_global_fovy s) (vis_global_ipd s) (vis_global_glow s) (vis_map_force s) (vis_map_alpha s) (vis_map_znear s) (vis_map_zfar s) (vis_map_actuatortendon s) (vis_scale_forcewidth s) (vis_scale_contactwidth s) (vis_scale_contactheight s) (vis_scale_connect s) (vis_scale_com s) (vis_scale_camera s) (vis_scale_light s) (vis_scale_selectpoint s) (vis_scale_jointlength s) (vis_scale_jointwidth s) (vis_scale_actuatorlength s) (vis_scale_actuatorwidth s) (vis_scale_framelength s) (vis_scale_framewidth s) (vis_scale_constraint s) (vis_scale_slidercrank s) (vis_rgba_joint s) (vis_rgba_actuator s) (vis_rgba_actuatornegative s) (vis_rgba_actuatorpositive s) (vis_rgba_com s) (vis_rgba_camera s) (vis_rgba_light s) (vis_rgba_selectpoint s) (vis_rgba_connect s) (vis_rgba_contactpoint s) (vis_rgba_contactforce s) (vis_rgba_contactfriction s) (vis_rgba_contactgap s) (vis_rgba_rangefinder s) (vis_rgba_constraint s) (vis_rgba_slidercrank s) (vis_rgba_crankbroken s) (vis_rgba_inertia s) (vis_rgba_force s) (vis_headlight_active s) (vis_headlight_ambient s) (vis_headlight_diffuse s) (vis_headlight_specular s) (body_parentid s) (body_rootid s) (body_weldid s) (body_mocapid s) (body_jntnum s) (body_jntadr s) (body_mass s) (body_inertia s) (jnt_type s) (jnt_bodyid s) (jnt_group s) (geom_type s) (geom_bodyid s) (geom_dataid s) (geom_matid s) (geom_group s) (geom_size s) (geom_rbound s) v (site_type s) (site_bodyid s) (site_matid s) (site_group s) (site_size s) (site_rgba s) (cam_fovy s) (cam_ipd s) (light_directional s) (light_castshadow s) (light_active s) (light_attenuation s) (light_cutoff s) (light_exponent s) (light_ambient s) (light_diffuse s) (light_specular s) (mesh_texcoordadr s) (mesh_graphadr s) (skin_matid s) (skin_rgba s) (skin_inflate s) (skin_vertadr s) (skin_vertnum s) (skin_texcoordadr s) (skin_faceadr s) (skin_facenum s) (skin_boneadr s) (skin_bonenum s) (skin_vert s) (skin_face s) (skin_bonevertadr s) (skin_bonevertnum s) (skin_bonebindpos s) (skin_bonebindquat s) (skin_bonebodyid s) (skin_bonevertid s) (skin_bonevertweight s) (mat_texid s) (mat_texuniform s) (mat_texrepeat s) (mat_emission s) (mat_specular s) (mat_shininess s) (mat_reflectance s) (mat_rgba s) (eq_type s) (eq_obj1id s) (eq_obj2id s) (eq_active s) (eq_data s) (tendon_group s) (tendon_matid s) (tendon_width s) (tendon_rgba s) (actuator_trntype s) (actuator_dyntype s) (actuator_trnid s) (actuator_group s) (actuator_ctrllimited s) (actuator_actlimited s) (actuator_ctrlrange s) (actuator_actrange s) (actuator_cranklength s) (sensor_type s) (sensor_objid s) (sensor_adr s).
Definition set_site_type (s : mjModel) (v : array Z) : mjModel :=
  Build_mjModel (nbody s) (njnt s) (ngeom s) (nsite s) (ncam s) (nlight s) (ntendon s) (nu s) (na s) (neq s) (nsensor s) (nskin s) (stat_meansize s) (stat_meanmass s) (stat_extent s) (vis_global_fovy s) (vis_global_ipd s) (vis_global_glow s) (vis_map_force s) (vis_map_alpha s) (vis_map_znear s) (vis_map_zfar s) (vis_map_actuatortendon s) (vis_scale_forcewidth s) (vis_scale_contactwidth s) (vis_scale_contactheight s) (vis_scale_connect s) (vis_scale_com s) (vis_scale_camera s) (vis_scale_light s) (vis_scale_selectpoint s) (vis_scale_jointlength s) (vis_scale_jointwidth s) (vis_scale_actuatorlength s) (vis_scale_actuatorwidth s) (vis_scale_framelength s) (vis_scale_framewidth s) (vis_scale_constraint s) (vis_scale_slidercrank s) (vis_rgba_joint s) (vis_rgba_actuator s) (vis_rgba_actuatornegative s) (vis_rgba_actuatorpositive s) (vis_rgba_com s) (vis_rgba_camera s) (vis_rgba_light s) (vis_rgba_selectpoint s) (vis_rgba_connect s) (vis_rgba_contactpoint s) (vis_rgba_contactforce s) (vis_rgba_contactfriction s) (vis_rgba_contactgap s) (vis_rgba_rangefinder s) (vis_rgba_constraint s) (vis_rgba_slidercrank s) (vis_rgba_crankbroken s) (vis_rgba_inertia s) (vis_rgba_force s) (vis_headlight_active s) (vis_headlight_ambient s) (vis_headlight_diffuse s) (vis_headlight_specular s) (body_parentid s) (body_rootid s) (body_weldid s) (body_mocapid s) (body_jntnum s) (body_jntadr s) (body_mass s) (body_inertia s) (jnt_type s) (jnt_bodyid s) (jnt_group s) (geom_type s) (geom_bodyid s) (geom_dataid s) (geom_matid s) (geom_group s) (geom_size s) (geom_rbound s) (geom_rgba s) v (site_bodyid s) (site_matid s) (site_group s) (site_size s) (site_rgba s) (cam_fovy s) (cam_ipd s) (light_directional s) (light_castshadow s) (light_active s) (light_attenuation s) (light_cutoff s) (light_exponent s) (light_ambient s) (light_diffuse s) (light_specular s) (mesh_texcoordadr s) (mesh_graphadr s) (skin_matid s) (skin_rgba s) (skin_inflate s) (skin_vertadr s) (skin_vertnum s) (skin_texcoordadr s) (skin_faceadr s) (skin_facenum s) (skin_boneadr s) (skin_bonenum s) (skin_vert s) (skin_face s) (skin_bonevertadr s) (skin_bonevertnum s) (skin_bonebindpos s) (skin_bonebindquat s) (skin_bonebodyid s) (skin_bonevertid s) (skin_bonevertweight s) (mat_texid s) (mat_texuniform s) (mat_texrepeat s) (mat_emission s) (mat_specular s) (mat_shininess s) (mat_reflectance s) (mat_rgba s) (eq_type s) (eq_obj1id s) (eq_obj2id s) (eq_active s) (eq_data s) (tendon_group s) (tendon_matid s) (tendon_width s) (tendon_rgba s) (actuator_trntype s) (actuator_dyntype s) (actuator_trnid s) (actuator_group s) (actuator_ctrllimited s) (actuator_actlimited s) (actuator_ctrlrange s) (actuator_actrange s) (actuator_cranklength s) (sensor_type s) (sensor_objid s) (sensor_adr s).
Definition set_site_matid (s : mjModel) (v : array Z) : mjModel :=
  Build_mjModel (nbody s) (njnt s) (ngeom s) (nsite s) (ncam s) (nlight s) (ntendon s) (nu s) (na s) (neq s) (nsensor s) (nskin s) (stat_meansize s) (stat_meanmass s) (stat_extent s) (vis_global_fovy s) (vis_global_ipd s) (vis_global_glow s) (vis_map_force s) (vis_map_alpha s) (vis_map_znear s) (vis_map_zfar s) (vis_map_actuatortendon s) (vis_scale_forcewidth s) (vis_scale_contactwidth s) (vis_scale_contactheight s) (vis_scale_connect s) (vis_scale_com s) (vis_scale_camera s) (vis_scale_light s) (vis_scale_selectpoint s) (vis_scale_jointlength s) (vis_scale_jointwidth s) (vis_scale_actuatorlength s) (vis_scale_actuatorwidth s) (vis_scale_framelength s) (vis_scale_framewidth s) (vis_scale_constraint s) (vis_scale_slidercrank s) (vis_rgba_joint s) (vis_rgba_actuator s) (vis_rgba_actuatornegative s) (vis_rgba_actuatorpositive s) (vis_rgba_com s) (vis_rgba_camera s) (vis_rgba_light s) (vis_rgba_selectpoint s) (vis_rgba_connect s) (vis_rgba_contactpoint s) (vis_rgba_contactforce s) (vis_rgba_contactfriction s) (vis_rgba_contactgap s) (vis_rgba_rangefinder s) (vis_rgba_constraint s) (vis_rgba_slidercrank s) (vis_rgba_crankbroken s) (vis_rgba_inertia s) (vis_rgba_force s) (vis_headlight_active s) (vis_headlight_ambient s) (vis_headlight_diffuse s) (vis_headlight_specular s) (body_parentid s) (body_rootid s) (body_weldid s) (body_mocapid s) (body_jntnum s) (body_jntadr s) (body_mass s) (body_inertia s) (jnt_type s) (jnt_bodyid s) (jnt_group s) (geom_type s) (geom_bodyid s) (geom_dataid s) (geom_matid s) (geom_group s) (geom_size s) (geom_rbound s) (geom_rgba s) (site_type s) (site_bodyid s) v (site_group s) (site_size s) (site_rgba s) (cam_fovy s) (cam_ipd s) (light_directional s) (light_castshadow s) (light_active s) (light_attenuation s) (light_cutoff s) (light_exponent s) (light_ambient s) (light_diffuse s) (light_specular s) (mesh_texcoordadr s) (mesh_graphadr s) (skin_matid s) (skin_rgba s) (skin_inflate s) (skin_vertadr s) (skin_vertnum s) (skin_texcoordadr s) (skin_faceadr s) (skin_facenum s) (skin_boneadr s) (skin_bonenum s) (skin_vert s) (skin_face s) (skin_bonevertadr s) (skin_bonevertnum s) (skin_bonebindpos s) (skin_bonebindquat s) (skin_bonebodyid s) (skin_bonevertid s) (skin_bonevertweight s) (mat_texid s) (mat_texuniform s) (mat_texrepeat s) (mat_emission s) (mat_specular s) (mat_shininess s) (mat_reflectance s) (mat_rgba s) (eq_type s) (eq_obj1id s) (eq_obj2id s) (eq_active s) (eq_data s) (tendon_group s) (tendon_matid s) (tendon_width s) (tendon_rgba s) (actuator_trntype s) (actuator_dyntype s) (actuator_trnid s) (actuator_group s) (actuator_ctrllimited s) (actuator_actlimited s) (actuator_ctrlrange s) (actuator_actrange s) (actuator_cranklength s) (sensor_type s) (sensor_objid s) (sensor_adr s).
Definition set_site_size (s : mjModel) (v : array R) : mjModel :=
  Build_mjModel (nbody s) (njnt s) (ngeom s) (nsite s) (ncam s) (nlight s) (ntendon s) (nu s) (na s) (neq s) (nsensor s) (nskin s) (stat_meansize s) (stat_meanmass s) (stat_extent s) (vis_global_fovy s) (vis_global_ipd s) (vis_global_glow s) (vis_map_force s) (vis_map_alpha s) (vis_map_znear s) (vis_map_zfar s) (vis_map_actuatortendon s) (vis_scale_forcewidth s) (vis_scale_contactwidth s) (vis_scale_contactheight s) (vis_scale_connect s) (vis_scale_com s) (vis_scale_camera s) (vis_scale_light s) (vis_scale_selectpoint s) (vis_scale_jointlength s) (vis_scale_jointwidth s) (vis_scale_actuatorlength s) (vis_scale_actuatorwidth s) (vis_scale_framelength s) (vis_scale_framewidth s) (vis_scale_constraint s) (vis_scale_slidercrank s) (vis_rgba_joint s) (vis_rgba_actuator s) (vis_rgba_actuatornegative s) (vis_rgba_actuatorpositive s) (vis_rgba_com s) (vis_rgba_camera s) (vis_rgba_light s) (vis_rgba_selectpoint s) (vis_rgba_connect s) (vis_rgba_contactpoint s) (vis_rgba_contactforce s) (vis_rgba_contactfriction s) (vis_rgba_contactgap s) (vis_rgba_rangefinder s) (vis_rgba_constraint s) (vis_rgba_slidercrank s) (vis_rgba_crankbroken s) (vis_rgba_inertia s) (vis_rgba_force s) (vis_headlight_active s) (vis_headlight_ambient s) (vis_headlight_diffuse s) (vis_headlight_specular s) (body_parentid s) (body_rootid s) (body_weldid s) (body_mocapid s) (body_jntnum s) (body_jntadr s) (body_mass s) (body_inertia s) (jnt_type s) (jnt_bodyid s) (jnt_group s) (geom_type s) (geom_bodyid s) (geom_dataid s) (geom_matid s) (geom_group s) (geom_size s) (geom_rbound s) (geom_rgba s) (site_type s) (site_bodyid s) (site_matid s) (site_group s) v (site_rgba s) (cam_fovy s) (cam_ipd s) (light_directional s) (light_castshadow s) (light_active s) (light_attenuation s) (light_cutoff s) (light_exponent s) (light_ambient s) (light_diffuse s) (light_specular s) (mesh_texcoordadr s) (mesh_graphadr s) (skin_matid s) (skin_rgba s) (skin_inflate s) (skin_vertadr s) (skin_vertnum s) (skin_texcoordadr s) (skin_faceadr s) (skin_facenum s) (skin_boneadr s) (skin_bonenum s) (skin_vert s) (skin_face s) (skin_bonevertadr s) (skin_bonevertnum s) (skin_bonebindpos s) (skin_bonebindquat s) (skin_bonebodyid s) (skin_bonevertid s) (skin_bonevertweight s) (mat_texid s) (mat_texuniform s) (mat_texrepeat s) (mat_emission s) (mat_specular s) (mat_shininess s) (mat_reflectance s) (mat_rgba s) (eq_type s) (eq_obj1id s) (eq_obj2id s) (eq_active s) (eq_data s) (tendon_group s) (tendon_matid s) (tendon_width s) (tendon_rgba s) (actuator_trntype s) (actuator_dyntype s) (actuator_trnid s) (actuator_group s) (actuator_ctrllimited s) (actuator_actlimited s) (actuator_ctrlrange s) (actuator_actrange s) (actuator_cranklength s) (sensor_type s) (sensor_objid s) (sensor_adr s).
Definition set_site_rgba (s : mjModel) (v : array R) : mjModel :=
  Build_mjModel (nbody s) (njnt s) (ngeom s) (nsite s) (ncam s) (nlight s) (ntendon s) (nu s) (na s) (neq s) (nsensor s) (nskin s) (stat_meansize s) (stat_meanmass s) (stat_extent s) (vis_global_fovy s) (vis_global_ipd s) (vis_global_glow s) (vis_map_force s) (vis_map_alpha s) (vis_map_znear s) (vis_map_zfar s) (vis_map_actuatortendon s) (vis_scale_forcewidth s) (vis_scale_contactwidth s) (vis_scale_contactheight s) (vis_scale_connect s) (vis_scale_com s) (vis_scale_camera s) (vis_scale_light s) (vis_scale_selectpoint s) (vis_scale_jointlength s) (vis_scale_jointwidth s) (vis_scale_actuatorlength s) (vis_scale_actuatorwidth s) (vis_scale_framelength s) (vis_scale_framewidth s) (vis_scale_constraint s) (vis_scale_slidercrank s) (vis_rgba_joint s) (vis_rgba_actuator s) (vis_rgba_actuatornegative s) (vis_rgba_actuatorpositive s) (vis_rgba_com s) (vis_rgba_camera s) (vis_rgba_light s) (vis_rgba_selectpoint s) (vis_rgba_connect s) (vis_rgba_contactpoint s) (vis_rgba_contactforce s) (vis_rgba_contactfriction s) (vis_rgba_contactgap s) (vis_rgba_rangefinder s) (vis_rgba_constraint s) (vis_rgba_slidercrank s) (vis_rgba_crankbroken s) (vis_rgba_inertia s) (vis_rgba_force s) (vis_headlight_active s) (vis_headlight_ambient s) (vis_headlight_diffuse s) (vis_headlight_specular s) (body_parentid s) (body_rootid s) (body_weldid s) (body_mocapid s) (body_jntnum s) (body_jntadr s) (body_mass s) (body_inertia s) (jnt_type s) (jnt_bodyid s) (jnt_group s) (geom_type s) (geom_bodyid s) (geom_dataid s) (geom_matid s) (geom_group s) (geom_size s) (geom_rbound s) (geom_rgba s) (site_type s) (site_bodyid s) (site_matid s) (site_group s) (site_size s) v (cam_fovy s) (cam_ipd s) (light_directional s) (light_castshadow s) (light_active s) (light_attenuation s) (light_cutoff s) (light_exponent s) (light_ambient s) (light_diffuse s) (light_specular s) (mesh_texcoordadr s) (mesh_graphadr s) (skin_matid s) (skin_rgba s) (skin_inflate s) (skin_vertadr s) (skin_vertnum s) (skin_texcoordadr s) (skin_faceadr s) (skin_facenum s) (skin_boneadr s) (skin_bonenum s) (skin_vert s) (skin_face s) (skin_bonevertadr s) (skin_bonevertnum s) (skin_bonebindpos s) (skin_bonebindquat s) (skin_bonebodyid s) (skin_bonevertid s) (skin_bonevertweight s) (mat_texid s) (mat_texuniform s) (mat_texrepeat s) (mat_emission s) (mat_specular s) (mat_shininess s) (mat_reflectance s) (mat_rgba s) (eq_type s) (eq_obj1id s) (eq_obj2id s) (eq_active s) (eq_data s) (tendon_group s) (tendon_matid s) (tendon_width s) (tendon_rgba s) (actuator_trntype s) (actuator_dyntype s) (actuator_trnid s) (actuator_group s) (actuator_ctrllimited s) (actuator_actlimited s) (actuator_ctrlrange s) (actuator_actrange s) (actuator_cranklength s) (sensor_type s) (sensor_objid s) (sensor_adr s).
Definition set_cam_ipd (s : mjModel) (v : array R) : mjModel :=
  Build_mjModel (nbody s) (njnt s) (ngeom s) (nsite s) (ncam s) (nlight s) (ntendon s) (nu s) (na s) (neq s) (nsensor s) (nskin s) (stat_meansize s) (stat_meanmass s) (stat_extent s) (vis_global_fovy s) (vis_global_ipd s) (vis_global_glow s) (vis_map_force s) (vis_map_alpha s) (vis_map_znear s) (vis_map_zfar s) (vis_map_actuatortendon s) (vis_scale_forcewidth s) (vis_scale_contactwidth s) (vis_scale_contactheight s) (vis_scale_connect s) (vis_scale_com s) (vis_scale_camera s) (vis_scale_light s) (vis_scale_selectpoint s) (vis_scale_jointlength s) (vis_scale_jointwidth s) (vis_scale_actuatorlength s) (vis_scale_actuatorwidth s) (vis_scale_framelength s) (vis_scale_framewidth s) (vis_scale_constraint s) (vis_scale_slidercrank s) (vis_rgba_joint s) (vis_rgba_actuator s) (vis_rgba_actuatornegative s) (vis_rgba_actuatorpositive s) (vis_rgba_com s) (vis_rgba_camera s) (vis_rgba_light s) (vis_rgba_selectpoint s) (vis_rgba_connect s) (vis_rgba_contactpoint s) (vis_rgba_contactforce s) (vis_rgba_contactfriction s) (vis_rgba_contactgap s) (vis_rgba_rangefinder s) (vis_rgba_constraint s) (vis_rgba_slidercrank s) (vis_rgba_crankbroken s) (vis_rgba_inertia s) (vis_rgba_force s) (vis_headlight_active s) (vis_headlight_ambient s) (vis_headlight_diffuse s) (vis_headlight_specular s) (body_parentid s) (body_rootid s) (body_weldid s) (body_mocapid s) (body_jntnum s) (body_jntadr s) (body_mass s) (body_inertia s) (jnt_type s) (jnt_bodyid s) (jnt_group s) (geom_type s) (geom_bodyid s) (geom_dataid s) (geom_matid s) (geom_group s) (geom_size s) (geom_rbound s) (geom_rgba s) (site_type s) (site_bodyid s) (site_matid s) (site_group s) (site_size s) (site_rgba s) (cam_fovy s) v (light_directional s) (light_castshadow s) (light_active s) (light_attenuation s) (light_cutoff s) (light_exponent s) (light_ambient s) (light_diffuse s) (light_specular s) (mesh_texcoordadr s) (mesh_graphadr s) (skin_matid s) (skin_rgba s) (skin_inflate s) (skin_vertadr s) (skin_vertnum s) (skin_texcoordadr s) (skin_faceadr s) (skin_facenum s) (skin_boneadr s) (skin_bonenum s) (skin_vert s) (skin_face s) (skin_bonevertadr s) (skin_bonevertnum s) (skin_bonebindpos s) (skin_bonebindquat s) (skin_bonebodyid s) (skin_bonevertid s) (skin_bonevertweight s) (mat_texid s) (mat_texuniform s) (mat_texrepeat s) (mat_emission s) (mat_specular s) (mat_shininess s) (mat_reflectance s) (mat_rgba s) (eq_type s) (eq_obj1id s) (eq_obj2id s) (eq_active s) (eq_data s) (tendon_group s) (tendon_matid s) (tendon_width s) (tendon_rgba s) (actuator_trntype s) (actuator_dyntype s) (actuator_trnid s) (actuator_group s) (actuator_ctrllimited s) (actuator_actlimited s) (actuator_ctrlrange s) (actuator_actrange s) (actuator_cranklength s) (sensor_type s) (sensor_objid s) (sensor_adr s).
Definition set_skin_matid (s : mjModel) (v : array Z) : mjModel :=
  Build_mjModel (nbody s) (njnt s) (ngeom s) (nsite s) (ncam s) (nlight s) (ntendon s) (nu s) (na s) (neq s) (nsensor s) (nskin s) (stat_meansize s) (stat_meanmass s) (stat_extent s) (vis_global_fovy s) (vis_global_ipd s) (vis_global_glow s) (vis_map_force s) (vis_map_alpha s) (vis_map_znear s) (vis_map_zfar s) (vis_map_actuatortendon s) (vis_scale_forcewidth s) (vis_scale_contactwidth s) (vis_scale_contactheight s) (vis_scale_connect s) (vis_scale_com s) (vis_scale_camera s) (vis_scale_light s) (vis_scale_selectpoint s) (vis_scale_jointlength s) (vis_scale_jointwidth s) (vis_scale_actuatorlength s) (vis_scale_actuatorwidth s) (vis_scale_framelength s) (vis_scale_framewidth s) (vis_scale_constraint s) (vis_scale_slidercrank s) (vis_rgba_joint s) (vis_rgba_actuator s) (vis_rgba_actuatornegative s) (vis_rgba_actuatorpositive s) (vis_rgba_com s) (vis_rgba_camera s) (vis_rgba_light s) (vis_rgba_selectpoint s) (vis_rgba_connect s) (vis_rgba_contactpoint s) (vis_rgba_contactforce s) (vis_rgba_contactfriction s) (vis_rgba_contactgap s) (vis_rgba_rangefinder s) (vis_rgba_constraint s) (vis_rgba_slidercrank s) (vis_rgba_crankbroken s) (vis_rgba_inertia s) (vis_rgba_force s) (vis_headlight_active s) (vis_headlight_ambient s) (vis_headlight_diffuse s) (vis_headlight_specular s) (body_parentid s) (body_rootid s) (body_weldid s) (body_mocapid s) (body_jntnum s) (body_jntadr s) (body_mass s) (body_inertia s) (jnt_type s) (jnt_bodyid s) (jnt_group s) (geom_type s) (geom_bodyid s) (geom_dataid s) (geom_matid s) (geom_group s) (geom_size s) (geom_rbound s) (geom_rgba s) (site_type s) (site_bodyid s) (site_matid s) (site_group s) (site_size s) (site_rgba s) (cam_fovy s) (cam_ipd s) (light_directional s) (light_castshadow s) (light_active s) (light_attenuation s) (light_cutoff s) (light_exponent s) (light_ambient s) (light_diffuse s) (light_specular s) (mesh_texcoordadr s) (mesh_graphadr s) v (skin_rgba s) (skin_inflate s) (skin_vertadr s) (skin_vertnum s) (skin_texcoordadr s) (skin_faceadr s) (skin_facenum s) (skin_boneadr s) (skin_bonenum s) (skin_vert s) (skin_face s) (skin_bonevertadr s) (skin_bonevertnum s) (skin_bonebindpos s) (skin_bonebindquat s) (skin_bonebodyid s) (skin_bonevertid s) (skin_bonevertweight s) (mat_texid s) (mat_texuniform s) (mat_texrepeat s) (mat_emission s) (mat_specular s) (mat_shininess s) (mat_reflectance s) (mat_rgba s) (eq_type s) (eq_obj1id s) (eq_obj2id s) (eq_active s) (eq_data s) (tendon_group s) (tendon_matid s) (tendon_width s) (tendon_rgba s) (actuator_trntype s) (actuator_dyntype s) (actuator_trnid s) (actuator_group s) (actuator_ctrllimited s) (actuator_actlimited s) (actuator_ctrlrange s) (actuator_actrange s) (actuator_cranklength s) (sensor_type s) (sensor_objid s) (sensor_adr s).
Definition set_skin_rgba (s : mjModel) (v : array R) : mjModel :=
  Build_mjModel (nbody s) (njnt s) (ngeom s) (nsite s) (ncam s) (nlight s) (ntendon s) (nu s) (na s) (neq s) (nsensor s) (nskin s) (stat_meansize s) (stat_meanmass s) (stat_extent s) (vis_global_fovy s) (vis_global_ipd s) (vis_global_glow s) (vis_map_force s) (vis_map_alpha s) (vis_map_znear s) (vis_map_zfar s) (vis_map_actuatortendon s) (vis_scale_forcewidth s) (vis_scale_contactwidth s) (vis_scale_contactheight s) (vis_scale_connect s) (vis_scale_com s) (vis_scale_camera s) (vis_scale_light s) (vis_scale_selectpoint s) (vis_scale_jointlength s) (vis_scale_jointwidth s) (vis_scale_actuatorlength s) (vis_scale_actuatorwidth s) (vis_scale_framelength s) (vis_scale_framewidth s) (vis_scale_constraint s) (vis_scale_slidercrank s) (vis_rgba_joint s) (vis_rgba_actuator s) (vis_rgba_actuatornegative s) (vis_rgba_actuatorpositive s) (vis_rgba_com s) (vis_rgba_camera s) (vis_rgba_light s) (vis_rgba_selectpoint s) (vis_rgba_connect s) (vis_rgba_contactpoint s) (vis_rgba_contactforce s) (vis_rgba_contactfriction s) (vis_rgba_contactgap s) (vis_rgba_rangefinder s) (vis_rgba_constraint s) (vis_rgba_slidercrank s) (vis_rgba_crankbroken s) (vis_rgba_inertia s) (vis_rgba_force s) (vis_headlight_active s) (vis_headlight_ambient s) (vis_headlight_diffuse s) (vis_headlight_specular s) (body_parentid s) (body_rootid s) (body_weldid s) (body_mocapid s) (body_jntnum s) (body_jntadr s) (body_mass s) (body_inertia s) (jnt_type s) (jnt_bodyid s) (jnt_group s) (geom_type s) (geom_bodyid s) (geom_dataid s) (geom_matid s) (geom_group s) (geom_size s) (geom_rbound s) (geom_rgba s) (site_type s) (site_bodyid s) (site_matid s) (site_group s) (site_size s) (site_rgba s) (cam_fovy s) (cam_ipd s) (light_directional s) (light_castshadow s) (light_active s) (light_attenuation s) (light_cutoff s) (light_exponent s) (light_ambient s) (light_diffuse s) (light_specular s) (mesh_texcoordadr s) (mesh_graphadr s) (skin_matid s) v (skin_inflate s) (skin_vertadr s) (skin_vertnum s) (skin_texcoordadr s) (skin_faceadr s) (skin_facenum s) (skin_boneadr s) (skin_bonenum s) (skin_vert s) (skin_face s) (skin_bonevertadr s) (skin_bonevertnum s) (skin_bonebindpos s) (skin_bonebindquat s) (skin_bonebodyid s) (skin_bonevertid s) (skin_bonevertweight s) (mat_texid s) (mat_texuniform s) (mat_texrepeat s) (mat_emission s) (mat_specular s) (mat_shininess s) (mat_reflectance s) (mat_rgba s) (eq_type s) (eq_obj1id s) (eq_obj2id s) (eq_active s) (eq_data s) (tendon_group s) (tendon_matid s) (tendon_width s) (tendon_rgba s) (actuator_trntype s) (actuator_dyntype s) (actuator_trnid s) (actuator_group s) (actuator_ctrllimited s) (actuator_actlimited s) (actuator_ctrlrange s) (actuator_actrange s) (actuator_cranklength s) (sensor_type s) (sensor_objid s) (sensor_adr s).
Definition set_skin_vertnum (s : mjModel) (v : array Z) : mjModel :=
  Build_mjModel (nbody s) (njnt s) (ngeom s) (nsite s) (ncam s) (nlight s) (ntendon s) (nu s) (na s) (neq s) (nsensor s) (nskin s) (stat_meansize s) (stat_meanmass s) (stat_extent s) (vis_global_fovy s) (vis_global_ipd s) (vis_global_glow s) (vis_map_force s) (vis_map_alpha s) (vis_map_znear s) (vis_map_zfar s) (vis_map_actuatortendon s) (vis_scale_forcewidth s) (vis_scale_contactwidth s) (vis_scale_contactheight s) (vis_scale_connect s) (vis_scale_com s) (vis_scale_camera s) (vis_scale_light s) (vis_scale_selectpoint s) (vis_scale_jointlength s) (vis_scale_jointwidth s) (vis_scale_actuatorlength s) (vis_scale_actuatorwidth s) (vis_scale_framelength s) (vis_scale_framewidth s) (vis_scale_constraint s) (vis_scale_slidercrank s) (vis_rgba_joint s) (vis_rgba_actuator s) (vis_rgba_actuatornegative s) (vis_rgba_actuatorpositive s) (vis_rgba_com s) (vis_rgba_camera s) (vis_rgba_light s) (vis_rgba_selectpoint s) (vis_rgba_connect s) (vis_rgba_contactpoint s) (vis_rgba_contactforce s) (vis_rgba_contactfriction s) (vis_rgba_contactgap s) (vis_rgba_rangefinder s) (vis_rgba_constraint s) (vis_rgba_slidercrank s) (vis_rgba_crankbroken s) (vis_rgba_inertia s) (vis_rgba_force s) (vis_headlight_active s) (vis_headlight_ambient s) (vis_headlight_diffuse s) (vis_headlight_specular s) (body_parentid s) (body_rootid s) (body_weldid s) (body_mocapid s) (body_jntnum s) (body_jntadr s) (body_mass s) (body_inertia s) (jnt_type s) (jnt_bodyid s) (jnt_group s) (geom_type s) (geom_bodyid s) (geom_dataid s) (geom_matid s) (geom_group s) (geom_size s) (geom_rbound s) (geom_rgba s) (site_type s) (site_bodyid s) (site_matid s) (site_group s) (site_size s) (site_rgba s) (cam_fovy s) (cam_ipd s) (light_directional s) (light_castshadow s) (light_active s) (light_attenuation s) (light_cutoff s) (light_exponent s) (light_ambient s) (light_diffuse s) (light_specular s) (mesh_texcoordadr s) (mesh_graphadr s) (skin_matid s) (skin_rgba s) (skin_inflate s) (skin_vertadr s) v (skin_texcoordadr s) (skin_faceadr s) (skin_facenum s) (skin_boneadr s) (skin_bonenum s) (skin_vert s) (skin_face s) (skin_bonevertadr s) (skin_bonevertnum s) (skin_bonebindpos s) (skin_bonebindquat s) (skin_bonebodyid s) (skin_bonevertid s) (skin_bonevertweight s) (mat_texid s) (mat_texuniform s) (mat_texrepeat s) (mat_emission s) (mat_specular s) (mat_shininess s) (mat_reflectance s) (mat_rgba s) (eq_type s) (eq_obj1id s) (eq_obj2id s) (eq_active s) (eq_data s) (tendon_group s) (tendon_matid s) (tendon_width s) (tendon_rgba s) (actuator_trntype s) (actuator_dyntype s) (actuator_trnid s) (actuator_group s) (actuator_ctrllimited s) (actuator_actlimited s) (actuator_ctrlrange s) (actuator_actrange s) (actuator_cranklength s) (sensor_type s) (sensor_objid s) (sensor_adr s).
Definition set_skin_bonenum (s : mjModel) (v : array Z) : mjModel :=
  Build_mjModel (nbody s) (njnt s) (ngeom s) (nsite s) (ncam s) (nlight s) (ntendon s) (nu s) (na s) (neq s) (nsensor s) (nskin s) (stat_meansize s) (stat_meanmass s) (stat_extent s) (vis_global_fovy s) (vis_global_ipd s) (vis_global_glow s) (vis_map_force s) (vis_map_alpha s) (vis_map_znear s) (vis_map_zfar s) (vis_map_actuatortendon s) (vis_scale_forcewidth s) (vis_scale_contactwidth s) (vis_scale_contactheight s) (vis_scale_connect s) (vis_scale_com s) (vis_scale_camera s) (vis_scale_light s) (vis_scale_selectpoint s) (vis_scale_jointlength s) (vis_scale_jointwidth s) (vis_scale_actuatorlength s) (vis_scale_actuatorwidth s) (vis_scale_framelength s) (vis_scale_framewidth s) (vis_scale_constraint s) (vis_scale_slidercrank s) (vis_rgba_joint s) (vis_rgba_actuator s) (vis_rgba_actuatornegative s) (vis_rgba_actuatorpositive s) (vis_rgba_com s) (vis_rgba_camera s) (vis_rgba_light s) (vis_rgba_selectpoint s) (vis_rgba_connect s) (vis_rgba_contactpoint s) (vis_rgba_contactforce s) (vis_rgba_contactfriction s) (vis_rgba_contactgap s) (vis_rgba_rangefinder s) (vis_rgba_constraint s) (vis_rgba_slidercrank s) (vis_rgba_crankbroken s) (vis_rgba_inertia s) (vis_rgba_force s) (vis_headlight_active s) (vis_headlight_ambient s) (vis_headlight_diffuse s) (vis_headlight_specular s) (body_parentid s) (body_rootid s) (body_weldid s) (body_mocapid s) (body_jntnum s) (body_jntadr s) (body_mass s) (body_inertia s) (jnt_type s) (jnt_bodyid s) (jnt_group s) (geom_type s) (geom_bodyid s) (geom_dataid s) (geom_matid s) (geom_group s) (geom_size s) (geom_rbound s) (geom_rgba s) (site_type s) (site_bodyid s) (site_matid s) (site_group s) (site_size s) (site_rgba s) (cam_fovy s) (cam_ipd s) (light_directional s) (light_castshadow s) (light_active s) (light_attenuation s) (light_cutoff s) (light_exponent s) (light_ambient s) (light_diffuse s) (light_specular s) (mesh_texcoordadr s) (mesh_graphadr s) (skin_matid s) (skin_rgba s) (skin_inflate s) (skin_vertadr s) (skin_vertnum s) (skin_texcoordadr s) (skin_faceadr s) (skin_facenum s) (skin_boneadr s) v (skin_vert s) (skin_face s) (skin_bonevertadr s) (skin_bonevertnum s) (skin_bonebindpos s) (skin_bonebindquat s) (skin_bonebodyid s) (skin_bonevertid s) (skin_bonevertweight s) (mat_texid s) (mat_texuniform s) (mat_texrepeat s) (mat_emission s) (mat_specular s) (mat_shininess s) (mat_reflectance s) (mat_rgba s) (eq_type s) (eq_obj1id s) (eq_obj2id s) (eq_active s) (eq_data s) (tendon_group s) (tendon_matid s) (tendon_width s) (tendon_rgba s) (actuator_trntype s) (actuator_dyntype s) (actuator_trnid s) (actuator_group s) (actuator_ctrllimited s) (actuator_actlimited s) (actuator_ctrlrange s) (actuator_actrange s) (actuator_cranklength s) (sensor_type s) (sensor_objid s) (sensor_adr s).
Definition set_skin_vert (s : mjModel) (v : array R) : mjModel :=
  Build_mjModel (nbody s) (njnt s) (ngeom s) (nsite s) (ncam s) (nlight s) (ntendon s) (nu s) (na s) (neq s) (nsensor s) (nskin s) (stat_meansize s) (stat_meanmass s) (stat_extent s) (vis_global_fovy s) (vis_global_ipd s) (vis_global_glow s) (vis_map_force s) (vis_map_alpha s) (vis_map_znear s) (vis_map_zfar s) (vis_map_actuatortendon s) (vis_scale_forcewidth s) (vis_scale_contactwidth s) (vis_scale_contactheight s) (vis_scale_connect s) (vis_scale_com s) (vis_scale_camera s) (vis_scale_light s) (vis_scale_selectpoint s) (vis_scale_jointlength s) (vis_scale_jointwidth s) (vis_scale_actuatorlength s) (vis_scale_actuatorwidth s) (vis_scale_framelength s) (vis_scale_framewidth s) (vis_scale_constraint s) (vis_scale_slidercrank s) (vis_rgba_joint s) (vis_rgba_actuator s) (vis_rgba_actuatornegative s) (vis_rgba_actuatorpositive s) (vis_rgba_com s) (vis_rgba_camera s) (vis_rgba_light s) (vis_rgba_selectpoint s) (vis_rgba_connect s) (vis_rgba_contactpoint s) (vis_rgba_contactforce s) (vis_rgba_contactfriction s) (vis_rgba_contactgap s) (vis_rgba_rangefinder s) (vis_rgba_constraint s) (vis_rgba_slidercrank s) (vis_rgba_crankbroken s) (vis_rgba_inertia s) (vis_rgba_force s) (vis_headlight_active s) (vis_headlight_ambient s) (vis_headlight_diffuse s) (vis_headlight_specular s) (body_parentid s) (body_rootid s) (body_weldid s) (body_mocapid s) (body_jntnum s) (body_jntadr s) (body_mass s) (body_inertia s) (jnt_type s) (jnt_bodyid s) (jnt_group s) (geom_type s) (geom_bodyid s) (geom_dataid s) (geom_matid s) (geom_group s) (geom_size s) (geom_rbound s) (geom_rgba s) (site_type s) (site_bodyid s) (site_matid s) (site_group s) (site_size s) (site_rgba s) (cam_fovy s) (cam_ipd s) (light_directional s) (light_castshadow s) (light_active s) (light_attenuation s) (light_cutoff s) (light_exponent s) (light_ambient s) (light_diffuse s) (light_specular s) (mesh_texcoordadr s) (mesh_graphadr s) (skin_matid s) (skin_rgba s) (skin_inflate s) (skin_vertadr s) (skin_vertnum s) (skin_texcoordadr s) (skin_faceadr s) (skin_facenum s) (skin_boneadr s) (skin_bonenum s) v (skin_face s) (skin_bonevertadr s) (skin_bonevertnum s) (skin_bonebindpos s) (skin_bonebindquat s) (skin_bonebodyid s) (skin_bonevertid s) (skin_bonevertweight s) (mat_texid s) (mat_texuniform s) (mat_texrepeat s) (mat_emission s) (mat_specular s) (mat_shininess s) (mat_reflectance s) (mat_rgba s) (eq_type s) (eq_obj1id s) (eq_obj2id s) (eq_active s) (eq_data s) (tendon_group s) (tendon_matid s) (tendon_width s) (tendon_rgba s) (actuator_trntype s) (actuator_dyntype s) (actuator_trnid s) (actuator_group s) (actuator_ctrllimited s) (actuator_actlimited s) (actuator_ctrlrange s) (actuator_actrange s) (actuator_cranklength s) (sensor_type s) (sensor_objid s) (sensor_adr s).
Definition set_skin_bonevertnum (s : mjModel) (v : array Z) : mjModel :=
  Build_mjModel (nbody s) (njnt s) (ngeom s) (nsite s) (ncam s) (nlight s) (ntendon s) (nu s) (na s) (neq s) (nsensor s) (nskin s) (stat_meansize s) (stat_meanmass s) (stat_extent s) (vis_global_fovy s) (vis_global_ipd s) (vis_global_glow s) (vis_map_force s) (vis_map_alpha s) (vis_map_znear s) (vis_map_zfar s) (vis_map_actuatortendon s) (vis_scale_forcewidth s) (vis_scale_contactwidth s) (vis_scale_contactheight s) (vis_scale_connect s) (vis_scale_com s) (vis_scale_camera s) (vis_scale_light s) (vis_scale_selectpoint s) (vis_scale_jointlength s) (vis_scale_jointwidth s) (vis_scale_actuatorlength s) (vis_scale_actuatorwidth s) (vis_scale_framelength s) (vis_scale_framewidth s) (vis_scale_constraint s) (vis_scale_slidercrank s) (vis_rgba_joint s) (vis_rgba_actuator s) (vis_rgba_actuatornegative s) (vis_rgba_actuatorpositive s) (vis_rgba_com s) (vis_rgba_camera s) (vis_rgba_light s) (vis_rgba_selectpoint s) (vis_rgba_connect s) (vis_rgba_contactpoint s) (vis_rgba_contactforce s) (vis_rgba_contactfriction s) (vis_rgba_contactgap s) (vis_rgba_rangefinder s) (vis_rgba_constraint s) (vis_rgba_slidercrank s) (vis_rgba_crankbroken s) (vis_rgba_inertia s) (vis_rgba_force s) (vis_headlight_active s) (vis_headlight_ambient s) (vis_headlight_diffuse s) (vis_headlight_specular s) (body_parentid s) (body_rootid s) (body_weldid s) (body_mocapid s) (body_jntnum s) (body_jntadr s) (body_mass s) (body_inertia s) (jnt_type s) (jnt_bodyid s) (jnt_group s) (geom_type s) (geom_bodyid s) (geom_dataid s) (geom_matid s) (geom_group s) (geom_size s) (geom_rbound s) (geom_rgba s) (site_type s) (site_bodyid s) (site_matid s) (site_group s) (site_size s) (site_rgba s) (cam_fovy s) (cam_ipd s) (light_directional s) (light_castshadow s) (light_active s) (light_attenuation s) (light_cutoff s) (light_exponent s) (light_ambient s) (light_diffuse s) (light_specular s) (mesh_texcoordadr s) (mesh_graphadr s) (skin_matid s) (skin_rgba s) (skin_inflate s) (skin_vertadr s) (skin_vertnum s) (skin_texcoordadr s) (skin_faceadr s) (skin_facenum s) (skin_boneadr s) (skin_bonenum s) (skin_vert s) (skin_face s) (skin_bonevertadr s) v (skin_bonebindpos s) (skin_bonebindquat s) (skin_bonebodyid s) (skin_bonevertid s) (skin_bonevertweight s) (mat_texid s) (mat_texuniform s) (mat_texrepeat s) (mat_emission s) (mat_specular s) (mat_shininess s) (mat_reflectance s) (mat_rgba s) (eq_type s) (eq_obj1id s) (eq_obj2id s) (eq_active s) (eq_data s) (tendon_group s) (tendon_matid s) (tendon_width s) (tendon_rgba s) (actuator_trntype s) (actuator_dyntype s) (actuator_trnid s) (actuator_group s) (actuator_ctrllimited s) (actuator_actlimited s) (actuator_ctrlrange s) (actuator_actrange s) (actuator_cranklength s) (sensor_type s) (sensor_objid s) (sensor_adr s).
Definition set_skin_bonebindquat (s : mjModel) (v : array R) : mjModel :=
  Build_mjModel (nbody s) (njnt s) (ngeom s) (nsite s) (ncam s) (nlight s) (ntendon s) (nu s) (na s) (neq s) (nsensor s) (nskin s) (stat_meansize s) (stat_meanmass s) (stat_extent s) (vis_global_fovy s) (vis_global_ipd s) (vis_global_glow s) (vis_map_force s) (vis_map_alpha s) (vis_map_znear s) (vis_map_zfar s) (vis_map_actuatortendon s) (vis_scale_forcewidth s) (vis_scale_contactwidth s) (vis_scale_contactheight s) (vis_scale_connect s) (vis_scale_com s) (vis_scale_camera s) (vis_scale_light s) (vis_scale_selectpoint s) (vis_scale_jointlength s) (vis_scale_jointwidth s) (vis_scale_actuatorlength s) (vis_scale_actuatorwidth s) (vis_scale_framelength s) (vis_scale_framewidth s) (vis_scale_constraint s) (vis_scale_slidercrank s) (vis_rgba_joint s) (vis_rgba_actuator s) (vis_rgba_actuatornegative s) (vis_rgba_actuatorpositive s) (vis_rgba_com s) (vis_rgba_camera s) (vis_rgba_light s) (vis_rgba_selectpoint s) (vis_rgba_connect s) (vis_rgba_contactpoint s) (vis_rgba_contactforce s) (vis_rgba_contactfriction s) (vis_rgba_contactgap s) (vis_rgba_rangefinder s) (vis_rgba_constraint s) (vis_rgba_slidercrank s) (vis_rgba_crankbroken s) (vis_rgba_inertia s) (vis_rgba_force s) (vis_headlight_active s) (vis_headlight_ambient s) (vis_headlight_diffuse s) (vis_headlight_specular s) (body_parentid s) (body_rootid s) (body_weldid s) (body_mocapid s) (body_jntnum s) (body_jntadr s) (body_mass s) (body_inertia s) (jnt_type s) (jnt_bodyid s) (jnt_group s) (geom_type s) (geom_bodyid s) (geom_dataid s) (geom_matid s) (geom_group s) (geom_size s) (geom_rbound s) (geom_rgba s) (site_type s) (site_bodyid s) (site_matid s) (site_group s) (site_size s) (site_rgba s) (cam_fovy s) (cam_ipd s) (light_directional s) (light_castshadow s) (light_active s) (light_attenuation s) (light_cutoff s) (light_exponent s) (light_ambient s) (light_diffuse s) (light_specular s) (mesh_texcoordadr s) (mesh_graphadr s) (skin_matid s) (skin_rgba s) (skin_inflate s) (skin_vertadr s) (skin_vertnum s) (skin_texcoordadr s) (skin_faceadr s) (skin_facenum s) (skin_boneadr s) (skin_bonenum s) (skin_vert s) (skin_face s) (skin_bonevertadr s) (skin_bonevertnum s) (skin_bonebindpos s) v (skin_bonebodyid s) (skin_bonevertid s) (skin_bonevertweight s) (mat_texid s) (mat_texuniform s) (mat_texrepeat s) (mat_emission s) (mat_specular s) (mat_shininess s) (mat_reflectance s) (mat_rgba s) (eq_type s) (eq_obj1id s) (eq_obj2id s) (eq_active s) (eq_data s) (tendon_group s) (tendon_matid s) (tendon_width s) (tendon_rgba s) (actuator_trntype s) (actuator_dyntype s) (actuator_trnid s) (actuator_group s) (actuator_ctrllimited s) (actuator_actlimited s) (actuator_ctrlrange s) (actuator_actrange s) (actuator_cranklength s) (sensor_type s) (sensor_objid s) (sensor_adr s).
Definition set_skin_bonevertweight (s : mjModel) (v : array R) : mjModel :=
  Build_mjModel (nbody s) (njnt s) (ngeom s) (nsite s) (ncam s) (nlight s) (ntendon s) (nu s) (na s) (neq s) (nsensor s) (nskin s) (stat_meansize s) (stat_meanmass s) (stat_extent s) (vis_global_fovy s) (vis_global_ipd s) (vis_global_glow s) (vis_map_force s) (vis_map_alpha s) (vis_map_znear s) (vis_map_zfar s) (vis_map_actuatortendon s) (vis_scale_forcewidth s) (vis_scale_contactwidth s) (vis_scale_contactheight s) (vis_scale_connect s) (vis_scale_com s) (vis_scale_camera s) (vis_scale_light s) (vis_scale_selectpoint s) (vis_scale_jointlength s) (vis_scale_jointwidth s) (vis_scale_actuatorlength s) (vis_scale_actuatorwidth s) (vis_scale_framelength s) (vis_scale_framewidth s) (vis_scale_constraint s) (vis_scale_slidercrank s) (vis_rgba_joint s) (vis_rgba_actuator s) (vis_rgba_actuatornegative s) (vis_rgba_actuatorpositive s) (vis_rgba_com s) (vis_rgba_camera s) (vis_rgba_light s) (vis_rgba_selectpoint s) (vis_rgba_connect s) (vis_rgba_contactpoint s) (vis_rgba_contactforce s) (vis_rgba_contactfriction s) (vis_rgba_contactgap s) (vis_rgba_rangefinder s) (vis_rgba_constraint s) (vis_rgba_slidercrank s) (vis_rgba_crankbroken s) (vis_rgba_inertia s) (vis_rgba_force s) (vis_headlight_active s) (vis_headlight_ambient s) (vis_headlight_diffuse s) (vis_headlight_specular s) (body_parentid s) (body_rootid s) (body_weldid s) (body_mocapid s) (body_jntnum s) (body_jntadr s) (body_mass s) (body_inertia s) (jnt_type s) (jnt_bodyid s) (jnt_group s) (geom_type s) (geom_bodyid s) (geom_dataid s) (geom_matid s) (geom_group s) (geom_size s) (geom_rbound s) (geom_rgba s) (site_type s) (site_bodyid s) (site_matid s) (site_group s) (site_size s) (site_rgba s) (cam_fovy s) (cam_ipd s) (light_directional s) (light_castshadow s) (light_active s) (light_attenuation s) (light_cutoff s) (light_exponent s) (light_ambient s) (light_diffuse s) (light_specular s) (mesh_texcoordadr s) (mesh_graphadr s) (skin_matid s) (skin_rgba s) (skin_inflate s) (skin_vertadr s) (skin_vertnum s) (skin_texcoordadr s) (skin_faceadr s) (skin_facenum s) (skin_boneadr s) (skin_bonenum s) (skin_vert s) (skin_face s) (skin_bonevertadr s) (skin_bonevertnum s) (skin_bonebindpos s) (skin_bonebindquat s) (skin_bonebodyid s) (skin_bonevertid s) v (mat_texid s) (mat_texuniform s) (mat_texrepeat s) (mat_emission s) (mat_specular s) (mat_shininess s) (mat_reflectance s) (mat_rgba s) (eq_type s) (eq_obj1id s) (eq_obj2id s) (eq_active s) (eq_data s) (tendon_group s) (tendon_matid s) (tendon_width s) (tendon_rgba s) (actuator_trntype s) (actuator_dyntype s) (actuator_trnid s) (actuator_group s) (actuator_ctrllimited s) (actuator_actlimited s) (actuator_ctrlrange s) (actuator_actrange s) (actuator_cranklength s) (sensor_type s) (sensor_objid s) (sensor_adr s).
Definition set_mat_rgba (s : mjModel) (v : array R) : mjModel :=
  Build_mjModel (nbody s) (njnt s) (ngeom s) (nsite s) (ncam s) (nlight s) (ntendon s) (nu s) (na s) (neq s) (nsensor s) (nskin s) (stat_meansize s) (stat_meanmass s) (stat_extent s) (vis_global_fovy s) (vis_global_ipd s) (vis_global_glow s) (vis_map_force s) (vis_map_alpha s) (vis_map_znear s) (vis_map_zfar s) (vis_map_actuatortendon s) (vis_scale_forcewidth s) (vis_scale_contactwidth s) (vis_scale_contactheight s) (vis_scale_connect s) (vis_scale_com s) (vis_scale_camera s) (vis_scale_light s) (vis_scale_selectpoint s) (vis_scale_jointlength s) (vis_scale_jointwidth s) (vis_scale_actuatorlength s) (vis_scale_actuatorwidth s) (vis_scale_framelength s) (vis_scale_framewidth s) (vis_scale_constraint s) (vis_scale_slidercrank s) (vis_rgba_joint s) (vis_rgba_actuator s) (vis_rgba_actuatornegative s) (vis_rgba_actuatorpositive s) (vis_rgba_com s) (vis_rgba_camera s) (vis_rgba_light s) (vis_rgba_selectpoint s) (vis_rgba_connect s) (vis_rgba_contactpoint s) (vis_rgba_contactforce s) (vis_rgba_contactfriction s) (vis_rgba_contactgap s) (vis_rgba_rangefinder s) (vis_rgba_constraint s) (vis_rgba_slidercrank s) (vis_rgba_crankbroken s) (vis_rgba_inertia s) (vis_rgba_force s) (vis_headlight_active s) (vis_headlight_ambient s) (vis_headlight_diffuse s) (vis_headlight_specular s) (body_parentid s) (body_rootid s) (body_weldid s) (body_mocapid s) (body_jntnum s) (body_jntadr s) (body_mass s) (body_inertia s) (jnt_type s) (jnt_bodyid s) (jnt_group s) (geom_type s) (geom_bodyid s) (geom_dataid s) (geom_matid s) (geom_group s) (geom_size s) (geom_rbound s) (geom_rgba s) (site_type s) (site_bodyid s) (site_matid s) (site_group s) (site_size s) (site_rgba s) (cam_fovy s) (cam_ipd s) (light_directional s) (light_castshadow s) (light_active s) (light_attenuation s) (light_cutoff s) (light_exponent s) (light_ambient s) (light_diffuse s) (light_specular s) (mesh_texcoordadr s) (mesh_graphadr s) (skin_matid s) (skin_rgba s) (skin_inflate s) (skin_vertadr s) (skin_vertnum s) (skin_texcoordadr s) (skin_faceadr s) (skin_facenum s) (skin_boneadr s) (skin_bonenum s) (skin_vert s) (skin_face s) (skin_bonevertadr s) (skin_bonevertnum s) (skin_bonebindpos s) (skin_bonebindquat s) (skin_bonebodyid s) (skin_bonevertid s) (skin_bonevertweight s) (mat_texid s) (mat_texuniform s) (mat_texrepeat s) (mat_emission s) (mat_specular s) (mat_shininess s) (mat_reflectance s) v (eq_type s) (eq_obj1id s) (eq_obj2id s) (eq_active s) (eq_data s) (tendon_group s) (tendon_matid s) (tendon_width s) (tendon_rgba s) (actuator_trntype s) (actuator_dyntype s) (actuator_trnid s) (actuator_group s) (actuator_ctrllimited s) (actuator_actlimited s) (actuator_ctrlrange s) (actuator_actrange s) (actuator_cranklength s) (sensor_type s) (sensor_objid s) (sensor_adr s).
Definition set_actuator_ctrllimited (s : mjModel) (v : array bool) : mjModel :=
  Build_mjModel (nbody s) (njnt s) (ngeom s) (nsite s) (ncam s) (nlight s) (ntendon s) (nu s) (na s) (neq s) (nsensor s) (nskin s) (stat_meansize s) (stat_meanmass s) (stat_extent s) (vis_global_fovy s) (vis_global_ipd s) (vis_global_glow s) (vis_map_force s) (vis_map_alpha s) (vis_map_znear s) (vis_map_zfar s) (vis_map_actuatortendon s) (vis_scale_forcewidth s) (vis_scale_contactwidth s) (vis_scale_contactheight s) (vis_scale_connect s) (vis_scale_com s) (vis_scale_camera s) (vis_scale_light s) (vis_scale_selectpoint s) (vis_scale_jointlength s) (vis_scale_jointwidth s) (vis_scale_actuatorlength s) (vis_scale_actuatorwidth s) (vis_scale_framelength s) (vis_scale_framewidth s) (vis_scale_constraint s) (vis_scale_slidercrank s) (vis_rgba_joint s) (vis_rgba_actuator s) (vis_rgba_actuatornegative s) (vis_rgba_actuatorpositive s) (vis_rgba_com s) (vis_rgba_camera s) (vis_rgba_light s) (vis_rgba_selectpoint s) (vis_rgba_connect s) (vis_rgba_contactpoint s) (vis_rgba_contactforce s) (vis_rgba_contactfriction s) (vis_rgba_contactgap s) (vis_rgba_rangefinder s) (vis_rgba_constraint s) (vis_rgba_slidercrank s) (vis_rgba_crankbroken s) (vis_rgba_inertia s) (vis_rgba_force s) (vis_headlight_active s) (vis_headlight_ambient s) (vis_headlight_diffuse s) (vis_headlight_specular s) (body_parentid s) (body_rootid s) (body_weldid s) (body_mocapid s) (body_jntnum s) (body_jntadr s) (body_mass s) (body_inertia s) (jnt_type s) (jnt_bodyid s) (jnt_group s) (geom_type s) (geom_bodyid s) (geom_dataid s) (geom_matid s) (geom_group s) (geom_size s) (geom_rbound s) (geom_rgba s) (site_type s) (site_bodyid s) (site_matid s) (site_group s) (site_size s) (site_rgba s) (cam_fovy s) (cam_ipd s) (light_directional s) (light_castshadow s) (light_active s) (light_attenuation s) (light_cutoff s) (light_exponent s) (light_ambient s) (light_diffuse s) (light_specular s) (mesh_texcoordadr s) (mesh_graphadr s) (skin_matid s) (skin_rgba s) (skin_inflate s) (skin_vertadr s) (skin_vertnum s) (skin_texcoordadr s) (skin_faceadr s) (skin_facenum s) (skin_boneadr s) (skin_bonenum s) (skin_vert s) (skin_face s) (skin_bonevertadr s) (skin_bonevertnum s) (skin_bonebindpos s) (skin_bonebindquat s) (skin_bonebodyid s) (skin_bonevertid s) (skin_bonevertweight s) (mat_texid s) (mat_texuniform s) (mat_texrepeat s) (mat_emission s) (mat_specular s) (mat_shininess s) (mat_reflectance s) (mat_rgba s) (eq_type s) (eq_obj1id s) (eq_obj2id s) (eq_active s) (eq_data s) (tendon_group s) (tendon_matid s) (tendon_width s) (tendon_rgba s) (actuator_trntype s) (actuator_dyntype s) (actuator_trnid s) (actuator_group s) v (actuator_actlimited s) (actuator_ctrlrange s) (actuator_actrange s) (actuator_cranklength s) (sensor_type s) (sensor_objid s) (sensor_adr s).
Definition set_actuator_ctrlrange (s : mjModel) (v : array R) : mjModel :=
  Build_mjModel (nbody s) (njnt s) (ngeom s) (nsite s) (ncam s) (nlight s) (ntendon s) (nu s) (na s) (neq s) (nsensor s) (nskin s) (stat_meansize s) (stat_meanmass s) (stat_extent s) (vis_global_fovy s) (vis_global_ipd s) (vis_global_glow s) (vis_map_force s) (vis_map_alpha s) (vis_map_znear s) (vis_map_zfar s) (vis_map_actuatortendon s) (vis_scale_forcewidth s) (vis_scale_contactwidth s) (vis_scale_contactheight s) (vis_scale_connect s) (vis_scale_com s) (vis_scale_camera s) (vis_scale_light s) (vis_scale_selectpoint s) (vis_scale_jointlength s) (vis_scale_jointwidth s) (vis_scale_actuatorlength s) (vis_scale_actuatorwidth s) (vis_scale_framelength s) (vis_scale_framewidth s) (vis_scale_constraint s) (vis_scale_slidercrank s) (vis_rgba_joint s) (vis_rgba_actuator s) (vis_rgba_actuatornegative s) (vis_rgba_actuatorpositive s) (vis_rgba_com s) (vis_rgba_camera s) (vis_rgba_light s) (vis_rgba_selectpoint s) (vis_rgba_connect s) (vis_rgba_contactpoint s) (vis_rgba_contactforce s) (vis_rgba_contactfriction s) (vis_rgba_contactgap s) (vis_rgba_rangefinder s) (vis_rgba_constraint s) (vis_rgba_slidercrank s) (vis_rgba_crankbroken s) (vis_rgba_inertia s) (vis_rgba_force s) (vis_headlight_active s) (vis_headlight_ambient s) (vis_headlight_diffuse s) (vis_headlight_specular s) (body_parentid s) (body_rootid s) (body_weldid s) (body_mocapid s) (body_jntnum s) (body_jntadr s) (body_mass s) (body_inertia s) (jnt_type s) (jnt_bodyid s) (jnt_group s) (geom_type s) (geom_bodyid s) (geom_dataid s) (geom_matid s) (geom_group s) (geom_size s) (geom_rbound s) (geom_rgba s) (site_type s) (site_bodyid s) (site_matid s) (site_group s) (site_size s) (site_rgba s) (cam_fovy s) (cam_ipd s) (light_directional s) (light_castshadow s) (light_active s) (light_attenuation s) (light_cutoff s) (light_exponent s) (light_ambient s) (light_diffuse s) (light_specular s) (mesh_texcoordadr s) (mesh_graphadr s) (skin_matid s) (skin_rgba s) (skin_inflate s) (skin_vertadr s) (skin_vertnum s) (skin_texcoordadr s) (skin_faceadr s) (skin_facenum s) (skin_boneadr s) (skin_bonenum s) (skin_vert s) (skin_face s) (skin_bonevertadr s) (skin_bonevertnum s) (skin_bonebindpos s) (skin_bonebindquat s) (skin_bonebodyid s) (skin_bonevertid s) (skin_bonevertweight s) (mat_texid s) (mat_texuniform s) (mat_texrepeat s) (mat_emission s) (mat_specular s) (mat_shininess s) (mat_reflectance s) (mat_rgba s) (eq_type s) (eq_obj1id s) (eq_obj2id s) (eq_active s) (eq_data s) (tendon_group s) (tendon_matid s) (tendon_width s) (tendon_rgba s) (actuator_trntype s) (actuator_dyntype s) (actuator_trnid s) (actuator_group s) (actuator_ctrllimited s) (actuator_actlimited s) v (actuator_actrange s) (actuator_cranklength s) (sensor_type s) (sensor_objid s) (sensor_adr s).

(** [mjContact]: one active contact. *)
Record mjContact := {
  con_dist : R;
  con_pos : vec3;
  con_frame : mat9;
  con_dim : Z;
  con_geom1 : Z;
  con_geom2 : Z;
  con_exclude : Z;
  con_efc_address : Z
}.

Definition zero_mjContact : mjContact :=
  {| con_dist := 0%R;
     con_pos := (V3 0 0 0);
     con_frame := (M9 0 0 0 0 0 0 0 0 0);
     con_dim := 0%Z;
     con_geom1 := 0%Z;
     con_geom2 := 0%Z;
     con_exclude := 0%Z;
     con_efc_address := 0%Z |}.
Definition set_con_dist (s : mjContact) (v : R) : mjContact :=
  Build_mjContact v (con_pos s) (con_frame s) (con_dim s) (con_geom1 s) (con_geom2 s) (con_exclude s) (con_efc_address s).
Definition set_con_pos (s : mjContact) (v : vec3) : mjContact :=
  Build_mjContact (con_dist s) v (con_frame s) (con_dim s) (con_geom1 s) (con_geom2 s) (con_exclude s) (con_efc_address s).
Definition set_con_frame (s : mjContact) (v : mat9) : mjContact :=
  Build_mjContact (con_dist s) (con_pos s) v (con_dim s) (con_geom1 s) (con_geom2 s) (con_exclude s) (con_efc_address s).
Definition set_con_dim (s : mjContact) (v : Z) : mjContact :=
  Build_mjContact (con_dist s) (con_pos s) (con_frame s) v (con_geom1 s) (con_geom2 s) (con_exclude s) (con_efc_address s).
Definition set_con_geom1 (s : mjContact) (v : Z) : mjContact :=
  Build_mjContact (con_dist s) (con_pos s) (con_frame s) (con_dim s) v (con_geom2 s) (con_exclude s) (con_efc_address s).
Definition set_con_geom2 (s : mjContact) (v : Z) : mjContact :=
  Build_mjContact (con_dist s) (con_pos s) (con_frame s) (con_dim s) (con_geom1 s) v (con_exclude s) (con_efc_address s).
Definition set_con_exclude (s : mjContact) (v : Z) : mjContact :=
  Build_mjContact (con_dist s) (con_pos s) (con_frame s) (con_dim s) (con_geom1 s) (con_geom2 s) v (con_efc_address s).
Definition set_con_efc_address (s : mjContact) (v : Z) : mjContact :=
  Build_mjContact (con_dist s) (con_pos s) (con_frame s) (con_dim s) (con_geom1 s) (con_geom2 s) (con_exclude s) v.

(** [mjData]: the state computed by the solver.  [contact_force i] is the
    result that [mj_contactForce (m, d, i, confrc)] stores in [confrc]: the
    function is part of the solver, not of the translated file. *)
Record mjData := {
  ncon : Z;
  contact : array mjContact;
  contact_force : array vec6;
  act : array R;
  ctrl : array R;
  xfrc_applied : array R;
  sensordata : array R;
  xpos : array R;
  xquat : array R;
  xmat : array R;
  xipos : array R;
  ximat : array R;
  xanchor : array R;
  xaxis : array R;
  geom_xpos : array R;
  geom_xmat : array R;
  site_xpos : array R;
  site_xmat : array R;
  cam_xpos : array R;
  cam_xmat : array R;
  light_xpos : array R;
  light_xdir : array R;
  subtree_com : array R;
  ten_wrapadr : array Z;
  ten_wrapnum : array Z;
  wrap_obj : array Z;
  wrap_xpos : array R
}.

Definition zero_mjData : mjData :=
  {| ncon := 0%Z;
     contact := (fun _ => zero_mjContact);
     contact_force := (fun _ => (V6 0 0 0 0 0 0));
     act := (fun _ => 0%R);
     ctrl := (fun _ => 0%R);
     xfrc_applied := (fun _ => 0%R);
     sensordata := (fun _ => 0%R);
     xpos := (fun _ => 0%R);
     xquat := (fun _ => 0%R);
     xmat := (fun _ => 0%R);
     xipos := (fun _ => 0%R);
     ximat := (fun _ => 0%R);
     xanchor := (fun _ => 0%R);
     xaxis := (fun _ => 0%R);
     geom_xpos := (fun _ => 0%R);
     geom_xmat := (fun _ => 0%R);
     site_xpos := (fun _ => 0%R);
     site_xmat := (fun _ => 0%R);
     cam_xpos := (fun _ => 0%R);
     cam_xmat := (fun _ => 0%R);
     light_xpos := (fun _ => 0%R);
     light_xdir := (fun _ => 0%R);
     subtree_com := (fun _ => 0%R);
     ten_wrapadr := (fun _ => 0%Z);
     ten_wrapnum := (fun _ => 0%Z);
     wrap_obj := (fun _ => 0%Z);
     wrap_xpos := (fun _ => 0%R) |}.
Definition set_ncon (s : mjData) (v : Z) : mjData :=
  Build_mjData v (contact s) (contact_force s) (act s) (ctrl s) (xfrc_applied s) (sensordata s) (xpos s) (xquat s) (xmat s) (xipos s) (ximat s) (xanchor s) (xaxis s) (geom_xpos s) (geom_xmat s) (site_xpos s) (site_xmat s) (cam_xpos s) (cam_xmat s) (light_xpos s) (light_xdir s) (subtree_com s) (ten_wrapadr s) (ten_wrapnum s) (wrap_obj s) (wrap_xpos s).
Definition set_contact (s : mjData) (v : array mjContact) : mjData :=
  Build_mjData (ncon s) v (contact_force s) (act s) (ctrl s) (xfrc_applied s) (sensordata s) (xpos s) (xquat s) (xmat s) (xipos s) (ximat s) (xanchor s) (xaxis s) (geom_xpos s) (geom_xmat s) (site_xpos s) (site_xmat s) (cam_xpos s) (cam_xmat s) (light_xpos s) (light_xdir s) (subtree_com s) (ten_wrapadr s) (ten_wrapnum s) (wrap_obj s) (wrap_xpos s).
Definition set_contact_force (s : mjData) (v : array vec6) : mjData :=
  Build_mjData (ncon s) (contact s) v (act s) (ctrl s) (xfrc_applied s) (sensordata s) (xpos s) (xquat s) (xmat s) (xipos s) (ximat s) (xanchor s) (xaxis s) (geom_xpos s) (geom_xmat s) (site_xpos s) (site_xmat s) (cam_xpos s) (cam_xmat s) (light_xpos s) (light_xdir s) (subtree_com s) (ten_wrapadr s) (ten_wrapnum s) (wrap_obj s) (wrap_xpos s).
Definition set_ctrl (s : mjData) (v : array R) : mjData :=
  Build_mjData (ncon s) (contact s) (contact_force s) (act s) v (xfrc_applied s) (sensordata s) (xpos s) (xquat s) (xmat s) (xipos s) (ximat s) (xanchor s) (xaxis s) (geom_xpos s) (geom_xmat s) (site_xpos s) (site_xmat s) (cam_xpos s) (cam_xmat s) (light_xpos s) (light_xdir s) (subtree_com s) (ten_wrapadr s) (ten_wrapnum s) (wrap_obj s) (wrap_xpos s).
Definition set_xquat (s : mjData) (v : array R) : mjData :=
  Build_mjData (ncon s) (contact s) (contact_force s) (act s) (ctrl s) (xfrc_applied s) (sensordata s) (xpos s) v (xmat s) (xipos s) (ximat s) (xanchor s) (xaxis s) (geom_xpos s) (geom_xmat s) (site_xpos s) (site_xmat s) (cam_xpos s) (cam_xmat s) (light_xpos s) (light_xdir s) (subtree_com s) (ten_wrapadr s) (ten_wrapnum s) (wrap_obj s) (wrap_xpos s).
Definition set_cam_xmat (s : mjData) (v : array R) : mjData :=
  Build_mjData (ncon s) (contact s) (contact_force s) (act s) (ctrl s) (xfrc_applied s) (sensordata s) (xpos s) (xquat s) (xmat s) (xipos s) (ximat s) (xanchor s) (xaxis s) (geom_xpos s) (geom_xmat s) (site_xpos s) (site_xmat s) (cam_xpos s) v (light_xpos s) (light_xdir s) (subtree_com s) (ten_wrapadr s) (ten_wrapnum s) (wrap_obj s) (wrap_xpos s).

(** [mjvOption]: flags, groups, label and frame modes. *)
Record mjvOption := {
  vopt_label : mjtLabel;
  vopt_frame : mjtFrame;
  geomgroup : array bool;
  sitegroup : array bool;
  jointgroup : array bool;
  tendongroup : array bool;
  actuatorgroup : array bool;
  vopt_flags : mjtVisFlag -> bool
}.

Definition zero_mjvOption : mjvOption :=
  {| vopt_label := mjLABEL_NONE;
     vopt_frame := mjFRAME_NONE;
     geomgroup := (fun _ => false);
     sitegroup := (fun _ => false);
     jointgroup := (fun _ => false);
     tendongroup := (fun _ => false);
     actuatorgroup := (fun _ => false);
     vopt_flags := (fun _ => false) |}.
Definition set_vopt_label (s : mjvOption) (v : mjtLabel) : mjvOption :=
  Build_mjvOption v (vopt_frame s) (geomgroup s) (sitegroup s) (jointgroup s) (tendongroup s) (actuatorgroup s) (vopt_flags s).
Definition set_vopt_frame (s : mjvOption) (v : mjtFrame) : mjvOption :=
  Build_mjvOption (vopt_label s) v (geomgroup s) (sitegroup s) (jointgroup s) (tendongroup s) (actuatorgroup s) (vopt_flags s).
Definition set_geomgroup (s : mjvOption) (v : array bool) : mjvOption :=
  Build_mjvOption (vopt_label s) (vopt_frame s) v (sitegroup s) (jointgroup s) (tendongroup s) (actuatorgroup s) (vopt_flags s).
Definition set_sitegroup (s : mjvOption) (v : array bool) : mjvOption :=
  Build_mjvOption (vopt_label s) (vopt_frame s) (geomgroup s) v (jointgroup s) (tendongroup s) (actuatorgroup s) (vopt_flags s).
Definition set_jointgroup (s : mjvOption) (v : array bool) : mjvOption :=
  Build_mjvOption (vopt_label s) (vopt_frame s) (geomgroup s) (sitegroup s) v (tendongroup s) (actuatorgroup s) (vopt_flags s).
Definition set_tendongroup (s : mjvOption) (v : array bool) : mjvOption :=
  Build_mjvOption (vopt_label s) (vopt_frame s) (geomgroup s) (sitegroup s) (jointgroup s) v (actuatorgroup s) (vopt_flags s).
Definition set_actuatorgroup (s : mjvOption) (v : array bool) : mjvOption :=
  Build_mjvOption (vopt_label s) (vopt_frame s) (geomgroup s) (sitegroup s) (jointgroup s) (tendongroup s) v (vopt_flags s).
Definition set_vopt_flags (s : mjvOption) (v : mjtVisFlag -> bool) : mjvOption :=
  Build_mjvOption (vopt_label s) (vopt_frame s) (geomgroup s) (sitegroup s) (jointgroup s) (tendongroup s) (actuatorgroup s) v.

(** [mjvPerturb]: the selection and the perturbation of the user. *)
Record mjvPerturb := {
  select : Z;
  skinselect : Z;
  active : Z;
  active2 : Z;
  refpos : vec3;
  refquat : vec4;
  localpos : vec3;
  pert_scale : R
}.

Definition zero_mjvPerturb : mjvPerturb :=
  {| select := 0%Z;
     skinselect := 0%Z;
     active := 0%Z;
     active2 := 0%Z;
     refpos := (V3 0 0 0);
     refquat := (V4 0 0 0 0);
     localpos := (V3 0 0 0);
     pert_scale := 0%R |}.
Definition set_select (s : mjvPerturb) (v : Z) : mjvPerturb :=
  Build_mjvPerturb v (skinselect s) (active s) (active2 s) (refpos s) (refquat s) (localpos s) (pert_scale s).
Definition set_skinselect (s : mjvPerturb) (v : Z) : mjvPerturb :=
  Build_mjvPerturb (select s) v (active s) (active2 s) (refpos s) (refquat s) (localpos s) (pert_scale s).
Definition set_active (s : mjvPerturb) (v : Z) : mjvPerturb :=
  Build_mjvPerturb (select s) (skinselect s) v (active2 s) (refpos s) (refquat s) (localpos s) (pert_scale s).
Definition set_active2 (s : mjvPerturb) (v : Z) : mjvPerturb :=
  Build_mjvPerturb (select s) (skinselect s) (active s) v (refpos s) (refquat s) (localpos s) (pert_scale s).
Definition set_refpos (s : mjvPerturb) (v : vec3) : mjvPerturb :=
  Build_mjvPerturb (select s) (skinselect s) (active s) (active2 s) v (refquat s) (localpos s) (pert_scale s).
Definition set_refquat (s : mjvPerturb) (v : vec4) : mjvPerturb :=
  Build_mjvPerturb (select s) (skinselect s) (active s) (active2 s) (refpos s) v (localpos s) (pert_scale s).
Definition set_localpos (s : mjvPerturb) (v : vec3) : mjvPerturb :=
  Build_mjvPerturb (select s) (skinselect s) (active s) (active2 s) (refpos s) (refquat s) v (pert_scale s).
Definition set_pert_scale (s : mjvPerturb) (v : R) : mjvPerturb :=
  Build_mjvPerturb (select s) (skinselect s) (active s) (active2 s) (refpos s) (refquat s) (localpos s) v.

(** [mjvCamera]: the abstract camera. *)
Record mjvCamera := {
  cam_type : Z;
  fixedcamid : Z;
  trackbodyid : Z;
  lookat : vec3;
  distance : R;
  azimuth : R;
  elevation : R
}.

Definition zero_mjvCamera : mjvCamera :=
  {| cam_type := 0%Z;
     fixedcamid := 0%Z;
     trackbodyid := 0%Z;
     lookat := (V3 0 0 0);
     distance := 0%R;
     azimuth := 0%R;
     elevation := 0%R |}.
Definition set_cam_type (s : mjvCamera) (v : Z) : mjvCamera :=
  Build_mjvCamera v (fixedcamid s) (trackbodyid s) (lookat s) (distance s) (azimuth s) (elevation s).
Definition set_fixedcamid (s : mjvCamera) (v : Z) : mjvCamera :=
  Build_mjvCamera (cam_type s) v (trackbodyid s) (lookat s) (distance s) (azimuth s) (elevation s).
Definition set_trackbodyid (s : mjvCamera) (v : Z) : mjvCamera :=
  Build_mjvCamera (cam_type s) (fixedcamid s) v (lookat s) (distance s) (azimuth s) (elevation s).
Definition set_lookat (s : mjvCamera) (v : vec3) : mjvCamera :=
  Build_mjvCamera (cam_type s) (fixedcamid s) (trackbodyid s) v (distance s) (azimuth s) (elevation s).
Definition set_distance (s : mjvCamera) (v : R) : mjvCamera :=
  Build_mjvCamera (cam_type s) (fixedcamid s) (trackbodyid s) (lookat s) v (azimuth s) (elevation s).
Definition set_azimuth (s : mjvCamera) (v : R) : mjvCamera :=
  Build_mjvCamera (cam_type s) (fixedcamid s) (trackbodyid s) (lookat s) (distance s) v (elevation s).
Definition set_elevation (s : mjvCamera) (v : R) : mjvCamera :=
  Build_mjvCamera (cam_type s) (fixedcamid s) (trackbodyid s) (lookat s) (distance s) (azimuth s) v.

(** [mjvGLCamera]: one eye of the stereo pair. *)
Record mjvGLCamera := {
  gl_pos : vec3;
  gl_forward : vec3;
  gl_up : vec3;
  frustum_center : R;
  frustum_bottom : R;
  frustum_top : R;
  frustum_near : R;
  frustum_far : R
}.

Definition zero_mjvGLCamera : mjvGLCamera :=
  {| gl_pos := (V3 0 0 0);
     gl_forward := (V3 0 0 0);
     gl_up := (V3 0 0 0);
     frustum_center := 0%R;
     frustum_bottom := 0%R;
     frustum_top := 0%R;
     frustum_near := 0%R;
     frustum_far := 0%R |}.

(** [mjvLight]: one light of the scene. *)
Record mjvLight := {
  l_pos : vec3;
  l_dir : vec3;
  l_attenuation : vec3;
  l_cutoff : R;
  l_exponent : R;
  l_ambient : vec3;
  l_diffuse : vec3;
  l_specular : vec3;
  l_headlight : bool;
  l_directional : bool;
  l_castshadow : bool
}.

Definition zero_mjvLight : mjvLight :=
  {| l_pos := (V3 0 0 0);
     l_dir := (V3 0 0 0);
     l_attenuation := (V3 0 0 0);
     l_cutoff := 0%R;
     l_exponent := 0%R;
     l_ambient := (V3 0 0 0);
     l_diffuse := (V3 0 0 0);
     l_specular := (V3 0 0 0);
     l_headlight := false;
     l_directional := false;
     l_castshadow := false |}.

Definition zero_mjvGeom : mjvGeom :=
  Build_mjvGeom 0 0 mjOBJ_UNKNOWN 0 0 0 0 0 0 (0, 0) (V3 0 0 0) (V3 0 0 0)
    (M9 0 0 0 0 0 0 0 0 0) (V4 0 0 0 0) 0 0 0 0 LabelNone 0.

(** [mjvScene]: the output.  [geoms] is the buffer of [maxgeom] abstract geoms,
    of which the first [scn_ngeom] are in use ([ngeom] in C; the model has a
    field of that name too); [camera0] and [camera1] are [camera[0]] and
    [camera[1]]. *)
Record mjvScene := {
  maxgeom : Z;
  scn_ngeom : Z;
  geoms : array mjvGeom;
  scn_nlight : Z;
  lights : array mjvLight;
  camera0 : mjvGLCamera;
  camera1 : mjvGLCamera;
  enabletransform : bool;
  skinvert : array R;
  skinnormal : array R
}.

Definition zero_mjvScene : mjvScene :=
  {| maxgeom := 0%Z;
     scn_ngeom := 0%Z;
     geoms := (fun _ => zero_mjvGeom);
     scn_nlight := 0%Z;
     lights := (fun _ => zero_mjvLight);
     camera0 := zero_mjvGLCamera;
     camera1 := zero_mjvGLCamera;
     enabletransform := false;
     skinvert := (fun _ => 0%R);
     skinnormal := (fun _ => 0%R) |}.
Definition set_maxgeom (s : mjvScene) (v : Z) : mjvScene :=
  Build_mjvScene v (scn_ngeom s) (geoms s) (scn_nlight s) (lights s) (camera0 s) (camera1 s) (enabletransform s) (skinvert s) (skinnormal s).
Definition set_scn_ngeom (s : mjvScene) (v : Z) : mjvScene :=
  Build_mjvScene (maxgeom s) v (geoms s) (scn_nlight s) (lights s) (camera0 s) (camera1 s) (enabletransform s) (skinvert s) (skinnormal s).
Definition set_geoms (s : mjvScene) (v : array mjvGeom) : mjvScene :=
  Build_mjvScene (maxgeom s) (scn_ngeom s) v (scn_nlight s) (lights s) (camera0 s) (camera1 s) (enabletransform s) (skinvert s) (skinnormal s).
Definition set_scn_nlight (s : mjvScene) (v : Z) : mjvScene :=
  Build_mjvScene (maxgeom s) (scn_ngeom s) (geoms s) v (lights s) (camera0 s) (camera1 s) (enabletransform s) (skinvert s) (skinnormal s).
Definition set_lights (s : mjvScene) (v : array mjvLight) : mjvScene :=
  Build_mjvScene (maxgeom s) (scn_ngeom s) (geoms s) (scn_nlight s) v (camera0 s) (camera1 s) (enabletransform s) (skinvert s) (skinnormal s).
Definition set_camera0 (s : mjvScene) (v : mjvGLCamera) : mjvScene :=
  Build_mjvScene (maxgeom s) (scn_ngeom s) (geoms s) (scn_nlight s) (lights s) v (camera1 s) (enabletransform s) (skinvert s) (skinnormal s).
Definition set_camera1 (s : mjvScene) (v : mjvGLCamera) : mjvScene :=
  Build_mjvScene (maxgeom s) (scn_ngeom s) (geoms s) (scn_nlight s) (lights s) (camera0 s) v (enabletransform s) (skinvert s) (skinnormal s).
Definition set_enabletransform (s : mjvScene) (v : bool) : mjvScene :=
  Build_mjvScene (maxgeom s) (scn_ngeom s) (geoms s) (scn_nlight s) (lights s) (camera0 s) (camera1 s) v (skinvert s) (skinnormal s).
Definition set_skinvert (s : mjvScene) (v : array R) : mjvScene :=
  Build_mjvScene (maxgeom s) (scn_ngeom s) (geoms s) (scn_nlight s) (lights s) (camera0 s) (camera1 s) (enabletransform s) v (skinnormal s).
Definition set_skinnormal (s : mjvScene) (v : array R) : mjvScene :=
  Build_mjvScene (maxgeom s) (scn_ngeom s) (geoms s) (scn_nlight s) (lights s) (camera0 s) (camera1 s) (enabletransform s) (skinvert s) v.

(** [mjWarningStat]: the statistics of one warning type, here
    [d->warning[mjWARN_VGEOMFULL]]. *)
Record mjWarningStat := {
  lastinfo : Z;
  number : Z
}.

Definition zero_mjWarningStat : mjWarningStat :=
  {| lastinfo := 0%Z;
     number := 0%Z |}.

Local Close Scope R_scope.
(** ** Effects

    The functions of the file write into the scene and may record a warning
    in [mjData]; the macro START leaves the enclosing function by [return],
    and [mju_error] aborts the program.  A computation of [M A] maps the
    state to one of three outcomes. *)

Inductive mjError :=
  | Invalid_geom_type_for_connector (type : Z)
  | Unknown_joint_type (type : Z)
  | Track_body_id_outside_valid_range
  | Fixed_camera_id_outside_valid_range
  | Unknown_camera_type.

Record vstate := {
  scn : mjvScene;                 (* the scene being filled *)
  warning_vgeomfull : mjWarningStat  (* d->warning[mjWARN_VGEOMFULL] *)
}.

Inductive outcome (A : Type) :=
  | Next (a : A) (s : vstate)     (* falls through to the next statement *)
  | Return (s : vstate)           (* the C statement [return;] *)
  | Fatal (e : mjError).          (* mju_error: the call does not return *)
Arguments Next {A} a s.
Arguments Return {A} s.
Arguments Fatal {A} e.

Definition M (A : Type) := vstate -> outcome A.

Definition ret {A} (a : A) : M A := fun s => Next a s.
Definition bind {A B} (c : M A) (k : A -> M B) : M B :=
  fun s => match c s with
           | Next a s' => k a s'
           | Return s' => Return s'
           | Fatal e => Fatal e
           end.
Definition return_ {A} : M A := fun s => Return s.
Definition mju_error {A} (e : mjError) : M A := fun _ => Fatal e.
Definition get_scn : M mjvScene := fun s => Next (scn s) s.
Definition put_scn (sc : mjvScene) : M unit :=
  fun s => Next tt {| scn := sc; warning_vgeomfull := warning_vgeomfull s |}.

Declare Scope vis_scope.
Delimit Scope vis_scope with vis.
Notation "x <- c ;; k" := (bind c (fun x => k))
  (at level 61, c at next level, right associativity) : vis_scope.
Notation "c ;; k" := (bind c (fun _ => k))
  (at level 61, right associativity) : vis_scope.
Notation "'when' b 'then' c" := (if b then c else ret tt)
  (at level 60, b at level 9, c at level 60) : vis_scope.
Local Open Scope vis_scope.

(** [for (i=lo; i<hi; i++) body(i)]: a [continue] is the end of [body]. *)
Fixpoint for_each {A} (l : list A) (body : A -> M unit) : M unit :=
  match l with
  | [] => ret tt
  | i :: l' => body i ;; for_each l' body
  end.
Definition for_ (lo hi : Z) (body : Z -> M unit) : M unit :=
  for_each (range lo hi) body.

(** A loop that carries a local variable from one iteration to the next. *)
Fixpoint for_each_acc {A S} (l : list A) (acc : S) (body : A -> S -> M S) : M S :=
  match l with
  | [] => ret acc
  | i :: l' => acc' <- body i acc ;; for_each_acc l' acc' body
  end.

(** [for (j=hi; j>=lo; j--)]: the indices in descending order. *)
Definition range_down (hi lo : Z) : list Z := rev (range lo (hi + 1)).

(** A call of a void function: its [return] ends the callee only. *)
Definition call (c : M unit) : M unit :=
  fun s => match c s with
           | Next _ s' => Next tt s'
           | Return s' => Next tt s'
           | Fatal e => Fatal e
           end.

(** Modelled from the spec: [mj_warning (d, warning, info)] of
    engine_util_errmem.c, absent from the translated file: a non-fatal
    diagnostic that stores [info] and counts the warning. *)
Definition mj_warning (info : Z) : M unit :=
  fun s => Next tt
    {| scn := scn s;
       warning_vgeomfull :=
         {| lastinfo := info; number := (number (warning_vgeomfull s) + 1)%Z |} |}.
(** ** Utility functions and macros *)

Module Vis.
Import Util.
Local Open Scope Z_scope.
Local Open Scope vis_scope.

(** The result of a function that may call [mju_error]. *)
Inductive result (A : Type) :=
  | Ok (a : A)
  | Err (e : mjError).
Arguments Ok {A} a.
Arguments Err {A} e.

(** [makeLabel (m, type, id, label)]. *)
Definition makeLabel (type : mjtObj) (id : Z) : label_text := LabelObject type id.

(** [mjv_initGeom]: initialize given fields when not NULL, set the rest to
    their default values. *)
Definition mjv_initGeom (geom : mjvGeom) (type : Z)
    (size pos : option vec3) (mat : option mat9) (rgba : option vec4) : mjvGeom :=
  let geom := set_type geom type in
  let geom :=
    set_size geom
      match size with
      | Some size =>
          if type =? mjGEOM_SPHERE then V3 (c0 size) (c0 size) (c0 size)
          else if type =? mjGEOM_CAPSULE then V3 (c0 size) (c0 size) (c1 size)
          else if type =? mjGEOM_CYLINDER then V3 (c0 size) (c0 size) (c1 size)
          else size
      | None => V3 (1/10) (1/10) (1/10)
      end in
  let geom := set_pos geom match pos with Some pos => pos | None => V3 0 0 0 end in
  let geom := set_mat geom match mat with Some mat => mat | None => M9 1 0 0 0 1 0 0 0 1 end in
  let geom :=
    set_rgba geom match rgba with Some rgba => rgba | None => V4 (1/2) (1/2) (1/2) 1 end in
  let geom := set_dataid geom (-1) in
  let geom := set_texid geom (-1) in
  let geom := set_texuniform geom 0 in
  let geom := set_texcoord geom 0 in
  let geom := set_texrepeat geom (1%R, 1%R) in
  let geom := set_emission geom 0 in
  let geom := set_specular geom (1/2) in
  let geom := set_shininess geom (1/2) in
  let geom := set_reflectance geom 0 in
  let geom := set_label geom LabelNone in
  set_modelrbound geom 0.

(** The types that [mjv_makeConnector] accepts. *)
Definition connector_type (type : Z) : bool :=
  (type =? mjGEOM_CAPSULE) || (type =? mjGEOM_CYLINDER) || (type =? mjGEOM_ARROW)
  || (type =? mjGEOM_ARROW1) || (type =? mjGEOM_ARROW2) || (type =? mjGEOM_LINE).

(** [mjv_makeConnector]: set (type, size, pos, mat) connector-type geom
    between given points. *)
Definition mjv_makeConnector (geom : mjvGeom) (type : Z) (width : R)
    (a0 a1 a2 b0 b1 b2 : R) : result mjvGeom :=
  let dif := V3 (b0 - a0) (b1 - a1) (b2 - a2) in
  if negb (type =? mjGEOM_CAPSULE) && negb (type =? mjGEOM_CYLINDER)
     && negb (type =? mjGEOM_ARROW) && negb (type =? mjGEOM_ARROW1)
     && negb (type =? mjGEOM_ARROW2) && negb (type =? mjGEOM_LINE)
  then Err (Invalid_geom_type_for_connector type)
  else
    let geom := set_type geom type in
    let geom := set_size geom (V3 width width (mju_norm3 dif)) in
    let geom :=
      if (type =? mjGEOM_CAPSULE) || (type =? mjGEOM_CYLINDER) then
        let geom := set_pos geom (V3 (1/2 * (a0 + b0)) (1/2 * (a1 + b1)) (1/2 * (a2 + b2))) in
        set_size geom (V3 (c0 (size geom)) (c1 (size geom)) (c2 (size geom) * (1/2)))
      else set_pos geom (V3 a0 a1 a2) in
    let quat := mju_quatZ2Vec dif in
    let mat := mju_quat2Mat quat in
    Ok (set_mat geom mat).

(** [setMaterial]: copy material fields from model to visual geom; [rgba'] is
    the argument [rgba] of the C function. *)
Definition setMaterial (m : mjModel) (geom : mjvGeom) (matid : Z) (rgba' : vec4)
    (flags : mjtVisFlag -> bool) : mjvGeom :=
  let geom :=
    if matid >=? 0 then
      let geom := set_texrepeat geom (mat_texrepeat m (2 * matid), mat_texrepeat m (2 * matid + 1)) in
      let geom := set_rgba geom (vec4_at (offset (mat_rgba m) (4 * matid))) in
      let geom := set_texuniform geom (mat_texuniform m matid) in
      let geom := set_emission geom (mat_emission m matid) in
      let geom := set_specular geom (mat_specular m matid) in
      let geom := set_shininess geom (mat_shininess m matid) in
      set_reflectance geom (mat_reflectance m matid)
    else set_texrepeat geom (0%R, 0%R) in
  let geom :=
    if negb (Reqb (q0 rgba') (1/2)) || negb (Reqb (q1 rgba') (1/2))
       || negb (Reqb (q2 rgba') (1/2)) || negb (Reqb (q3 rgba') 1) || (matid <? 0)
    then set_rgba geom rgba' else geom in
  let geom :=
    if flags mjVIS_TEXTURE && (matid >=? 0) then set_texid geom (mat_texid m matid)
    else geom in
  if flags mjVIS_TRANSPARENT && (category geom =? mjCAT_DYNAMIC) then
    set_rgba geom (V4 (q0 (rgba geom)) (q1 (rgba geom)) (q2 (rgba geom))
                      (q3 (rgba geom) * vis_map_alpha m))
  else geom.

(** [markselected]: add emission, make opaque. *)
Definition markselected (m : mjModel) (geom : mjvGeom) : mjvGeom :=
  let geom := set_emission geom (emission geom + vis_global_glow m) in
  set_rgba geom (V4 (q0 (rgba geom)) (q1 (rgba geom)) (q2 (rgba geom)) 1).

(** [mixcolor]: mix colors for perturbation object. *)
Definition mixcolor (ref : vec4) (flg1 flg2 : bool) : vec4 :=
  let r0 := if flg1 then q0 ref else 0%R in
  let r0 := if flg2 then mjMAX r0 (q1 ref) else r0 in
  let r1 := if flg1 then q1 ref else 0%R in
  let r1 := if flg2 then mjMAX r1 (q0 ref) else r1 in
  V4 r0 r1 (q2 ref) (q3 ref).

(** [bodycategory]: a body is static if it is welded to the world and is not
    a mocap body. *)
Definition bodycategory (m : mjModel) (bodyid : Z) : Z :=
  if (body_weldid m bodyid =? 0) && (body_mocapid m bodyid =? -1)
  then mjCAT_STATIC else mjCAT_DYNAMIC.

(** *** Writing through [thisgeom]

    Between START and FINISH the pointer [thisgeom] is [scn->geoms +
    scn->ngeom]; the counter does not move in between, so an assignment
    through [thisgeom] is an update of the buffer at index [scn_ngeom]. *)
Definition thisgeom : M mjvGeom :=
  sc <- get_scn ;; ret (geoms sc (scn_ngeom sc)).
Definition assign (f : mjvGeom -> mjvGeom) : M unit :=
  sc <- get_scn ;;
  put_scn (set_geoms sc (upd (geoms sc) (scn_ngeom sc) (f (geoms sc (scn_ngeom sc))))).
(** An assignment by a function that may call [mju_error]. *)
Definition assign_result (f : mjvGeom -> result mjvGeom) : M unit :=
  g <- thisgeom ;;
  match f g with
  | Ok g' => assign (fun _ => g')
  | Err e => mju_error e
  end.

(** The macro START: return if there is no space in buffer. *)
Definition START (objtype : mjtObj) (i : Z) (category : Z) : M unit :=
  sc <- get_scn ;;
  if scn_ngeom sc >=? maxgeom sc then
    mj_warning (maxgeom sc) ;; return_
  else
    assign (fun g =>
      let g := mjv_initGeom g mjGEOM_NONE None None None None in
      let g := set_objtype g objtype in
      let g := set_objid g i in
      let g := set_category g category in
      set_segid g (scn_ngeom sc)).

(** The macro FINISH: advance counter. *)
Definition FINISH : M unit :=
  sc <- get_scn ;; put_scn (set_scn_ngeom sc (scn_ngeom sc + 1)).

(** The three axes of a frame drawn as cylinders: the loop
<<
  for (int j=0; j<3; j++) { START ... mjv_makeConnector ... FINISH }
>>
    which the file repeats for contacts, bodies, geoms, sites, cameras and
    lights, with the position [p], the orientation [mat], the length and
    the width of the axes. *)
Definition frame_axes (objtype : mjtObj) (i category : Z)
    (p : vec3) (mat : mat9) (length width : R) : M unit :=
  for_ 0 3 (fun j =>
    START objtype i category ;;
    let axis := V3 (if j =? 0 then length else 0%R)
                   (if j =? 1 then length else 0%R)
                   (if j =? 2 then length else 0%R) in
    let vec := mju_mulMatVec mat axis in
    assign_result (fun g =>
      mjv_makeConnector g mjGEOM_CYLINDER width
        (c0 p) (c1 p) (c2 p)
        (c0 p + c0 vec)%R (c1 p + c1 vec)%R (c2 p + c2 vec)%R) ;;
    assign (fun g =>
      set_rgba g (V4 (if j =? 0 then 9/10 else 0%R) (if j =? 1 then 9/10 else 0%R)
                     (if j =? 2 then 9/10 else 0%R) 1)) ;;
    FINISH).

(** ** Contacts *)

(** The marker of contact [i]: the block under [flags[mjVIS_CONTACTPOINT]]. *)
Definition contact_point (m : mjModel) (d : mjData) (i : Z) : M unit :=
  let objtype := mjOBJ_UNKNOWN in
  let category := mjCAT_DECOR in
  let scl := stat_meansize m in
  let con := contact d i in
  (* mat = contact rotation matrix (normal along z) *)
  let fr := con_frame con in
  let tmp := M9 (e3 fr) (e4 fr) (e5 fr) (e6 fr) (e7 fr) (e8 fr) (e0 fr) (e1 fr) (e2 fr) in
  let mat := mju_transpose tmp in
  START objtype i category ;;
  assign (fun g =>
    let g := set_type g mjGEOM_CYLINDER in
    let g := set_size g (V3 (vis_scale_contactwidth m * scl) (vis_scale_contactwidth m * scl)
                            (vis_scale_contactheight m * scl)) in
    let g := set_pos g (con_pos con) in
    let g := set_mat g mat in
    (* different colors for included and excluded contacts *)
    if con_efc_address (contact d i) >=? 0
    then set_rgba g (vis_rgba_contactpoint m)
    else set_rgba g (vis_rgba_contactgap m)) ;;
  FINISH.

(** The vector of the force arrow [j] of contact [i], in world frame: the
    part of the loop over [j] from the [switch] to the change of sign. *)
Definition contact_vec (m : mjModel) (d : mjData) (i : Z) (frc : vec3) (j : Z) : vec3 :=
  let con := contact d i in
  (* mat = contact frame rotation matrix (normal along x) *)
  let mat := mju_transpose (con_frame con) in
  (* set vec to combined, normal or friction force, in world frame *)
  let vec :=
    if j =? 0 then mju_mulMatVec mat frc
    else if j =? 1 then
      V3 (e0 mat * c0 frc) (e3 mat * c0 frc) (e6 mat * c0 frc)
    else if j =? 2 then
      V3 (e1 mat * c1 frc + e2 mat * c2 frc)
         (e4 mat * c1 frc + e5 mat * c2 frc)
         (e7 mat * c1 frc + e8 mat * c2 frc)
    else V3 0 0 0 in
  (* scale vector *)
  let vec := mju_scl3 vec (vis_map_force m / stat_meanmass m) in
  (* get body ids *)
  let body1 := geom_bodyid m (con_geom1 con) in
  let body2 := geom_bodyid m (con_geom2 con) in
  (* make sure arrow points towards body with higher id *)
  if body1 >? body2 then mju_scl3 vec (-1) else vec.

(** The force arrow [j] of contact [i]: the body of the loop over [j], with
    the force [frc] and the flag [split] computed before the loop. *)
Definition contact_arrow (m : mjModel) (d : mjData) (vopt : mjvOption) (i : Z)
    (frc : vec3) (split : bool) (j : Z) : M unit :=
  let objtype := mjOBJ_UNKNOWN in
  let category := mjCAT_DECOR in
  let scl := stat_meansize m in
  let con := contact d i in
  let vec := contact_vec m d i frc j in
  (* get body ids *)
  let body1 := geom_bodyid m (con_geom1 con) in
  let body2 := geom_bodyid m (con_geom2 con) in
  (* one-directional arrow for friction and world, symmetric otherwise *)
  START objtype i category ;;
  assign_result (fun g =>
    mjv_makeConnector g
      (if (body1 >? 0) && (body2 >? 0) && negb split then mjGEOM_ARROW2 else mjGEOM_ARROW)
      (vis_scale_forcewidth m * scl)
      (c0 (con_pos con)) (c1 (con_pos con)) (c2 (con_pos con))
      (c0 (con_pos con) + c0 vec)%R (c1 (con_pos con) + c1 vec)%R
      (c2 (con_pos con) + c2 vec)%R) ;;
  assign (fun g =>
    let g := set_rgba g (if j =? 2 then vis_rgba_contactfriction m
                         else vis_rgba_contactforce m) in
    if label_is (vopt_label vopt) mjLABEL_CONTACTFORCE
       && (j =? (if split then 1 else 0))
    then set_label g (LabelForce (mju_norm3 frc)) else g) ;;
  FINISH.

(** [addContactGeom]: add contact-related geoms in mjvObject. *)
Definition addContactGeom (m : mjModel) (d : mjData) (flags : mjtVisFlag -> bool)
    (vopt : mjvOption) : M unit :=
  let objtype := mjOBJ_UNKNOWN in
  let category := mjCAT_DECOR in
  let scl := stat_meansize m in
  (* fast return if all relevant features are disabled *)
  if negb (flags mjVIS_CONTACTPOINT) && negb (flags mjVIS_CONTACTFORCE)
     && negb (frame_is (vopt_frame vopt) mjFRAME_CONTACT)
  then return_
  else
  (* loop over contacts included in impulse solver *)
  for_ 0 (ncon d) (fun i =>
    let con := contact d i in
    (* mat = contact rotation matrix (normal along z) *)
    let fr := con_frame con in
    let tmp := M9 (e3 fr) (e4 fr) (e5 fr) (e6 fr) (e7 fr) (e8 fr) (e0 fr) (e1 fr) (e2 fr) in
    let mat := mju_transpose tmp in
    (* contact point *)
    when (flags mjVIS_CONTACTPOINT) then contact_point m d i ;;
    (* contact frame *)
    when (frame_is (vopt_frame vopt) mjFRAME_CONTACT) then (
      (* set length and width of axis cylinders using half regular frame scaling *)
      let framelength := (vis_scale_framelength m * scl / 2)%R in
      let framewidth := (vis_scale_framewidth m * scl / 2)%R in
      frame_axes objtype i category (con_pos con) mat framelength framewidth) ;;
    (* nothing else to do for excluded contacts *)
    if con_efc_address (contact d i) <? 0 then ret tt
    else
    (* mat = contact frame rotation matrix (normal along x) *)
    let mat := mju_transpose (con_frame con) in
    (* get contact force:torque in contact frame *)
    let confrc := contact_force d i in
    (* contact force *)
    when (flags mjVIS_CONTACTFORCE) then (
      (* get force, fill zeros if only normal *)
      let n := mjMINi 3 (con_dim con) in
      let frc := V3 (if 0 <? n then f0 confrc else 0%R)
                    (if 1 <? n then f1 confrc else 0%R)
                    (if 2 <? n then f2 confrc else 0%R) in
      if Rltb (mju_norm3 frc) mjMINVAL then ret tt
      else
      (* render combined or split *)
      let split := flags mjVIS_CONTACTSPLIT && (con_dim con >? 1) in
      for_ (if split then 1 else 0) (if split then 3 else 1)
        (contact_arrow m d vopt i frc split))).

(** ** mjv_addGeoms

    The C function is one long sequence of blocks, one per category of
    abstract geoms; each block is a definition here and [mjv_addGeoms] runs
    them in the order of the source.  The local variables [objtype] and
    [category] that START reads are passed to START explicitly; where a
    loop changes them without resetting them (cameras, lights) they are
    carried from one iteration to the next. *)

(** The C truth value of [a & b]. *)
Definition band (a b : Z) : bool := negb (Z.land a b =? 0).

(** Modelled from the spec: [mjv_defaultPerturb] of engine_vis_init.c, the
    "no interaction" value used when no perturbation is supplied. *)
Definition mjv_defaultPerturb : mjvPerturb :=
  {| select := 0; skinselect := -1; active := 0; active2 := 0;
     refpos := V3 0 0 0; refquat := V4 1 0 0 0; localpos := V3 0 0 0;
     pert_scale := 1 |}.

(** The index of a visibility group: [mjMAX(0, mjMIN(mjNGROUP-1, group))]. *)
Definition group_index (group : Z) : Z := mjMAXi 0 (mjMINi (mjNGROUP - 1) group).

Section AddGeoms.
Variables (m : mjModel) (d : mjData) (vopt : mjvOption) (pert : mjvPerturb) (catmask : Z).

Let scl : R := stat_meansize m.
Let flags := vopt_flags vopt.

(** skin: the body of the loop, for skin [i] *)
Definition skin_body (i : Z) : M unit :=
      let objtype := mjOBJ_SKIN in
      let category := mjCAT_DYNAMIC in
      START objtype i category ;;
      (* construct geom, pos = first bone *)
      assign (fun g =>
        mjv_initGeom g mjGEOM_SKIN None
          (Some (vec3_at (offset (xpos d) (3 * skin_bonebodyid m (skin_boneadr m i)))))
          None None) ;;
      (* set material properties *)
      assign (fun g =>
        setMaterial m g (skin_matid m i) (vec4_at (offset (skin_rgba m) (4 * i))) flags) ;;
      (* glow skin if selected *)
      when (skinselect pert =? i) then assign (markselected m) ;;
      (* set texcoord *)
      when (skin_texcoordadr m i >=? 0) then assign (fun g => set_texcoord g 1) ;;
      (* skip if alpha is 0 *)
      g <- thisgeom ;;
      if Reqb (q3 (rgba g)) 0 then ret tt
      else
        when (label_is (vopt_label vopt) mjLABEL_SKIN) then
          assign (fun g => set_label g (makeLabel mjOBJ_SKIN i)) ;;
        FINISH.

(** skin *)
Definition addGeoms_skin : M unit :=
  let objtype := mjOBJ_SKIN in
  let category := mjCAT_DYNAMIC in
  when (flags mjVIS_SKIN && band category catmask) then
    for_ 0 (nskin m) skin_body.

(** inertia; [category] still has the value of the skin block *)
Definition addGeoms_inertia : M unit :=
  let objtype := mjOBJ_BODY in
  let category := mjCAT_DYNAMIC in
  when (flags mjVIS_INERTIA) then
    for_ 1 (nbody m) (fun i =>
      (* skip if mass too small or if this body is static and static bodies are masked *)
      when (Rltb mjMINVAL (body_mass m i) && band (bodycategory m i) catmask) then (
        START objtype i category ;;
        (* compute sizes of equivalent box *)
        let I0 := body_inertia m (3 * i + 0) in
        let I1 := body_inertia m (3 * i + 1) in
        let I2 := body_inertia m (3 * i + 2) in
        let sz0 := (sqrt ((I1 + I2 - I0) * 6 / body_mass m i) / 2)%R in
        let sz1 := (sqrt ((I0 + I2 - I1) * 6 / body_mass m i) / 2)%R in
        let sz2 := (sqrt ((I0 + I1 - I2) * 6 / body_mass m i) / 2)%R in
        (* scale with mass if enabled: box with density of 1000 has same mass *)
        let sz :=
          if flags mjVIS_SCLINERTIA then
            let density := (body_mass m i / Rmax mjMINVAL (8 * sz0 * sz1 * sz2))%R in
            let scl := mju_pow (density * (1 / 1000)) (1 / 3) in
            V3 (sz0 * scl) (sz1 * scl) (sz2 * scl)
          else V3 sz0 sz1 sz2 in
        (* construct geom *)
        assign (fun g =>
          mjv_initGeom g mjGEOM_BOX (Some sz)
            (Some (vec3_at (offset (xipos d) (3 * i))))
            (Some (mat9_at (offset (ximat d) (9 * i))))
            (Some (vis_rgba_inertia m))) ;;
        (* glow *)
        when (select pert =? i) then assign (markselected m) ;;
        when (label_is (vopt_label vopt) mjLABEL_BODY
              || (label_is (vopt_label vopt) mjLABEL_SELECTION && (select pert =? i))) then
          assign (fun g => set_label g (makeLabel mjOBJ_BODY i)) ;;
        FINISH)).

(** connector to mouse perturbation target *)
Definition addGeoms_pertobj : M unit :=
  let objtype := mjOBJ_UNKNOWN in
  let category := mjCAT_DECOR in
  when (flags mjVIS_PERTOBJ && band category catmask && (select pert >? 0)) then (
    let i := select pert in
    when (band (Z.lor (active pert) (active2 pert)) mjPERT_TRANSLATE) then (
      START objtype i category ;;
      (* construct geom *)
      let sz0 := (scl * vis_scale_constraint m)%R in
      assign_result (fun g =>
        mjv_makeConnector g mjGEOM_CAPSULE sz0
          (xipos d (3 * i)) (xipos d (3 * i + 1)) (xipos d (3 * i + 2))
          (c0 (refpos pert)) (c1 (refpos pert)) (c2 (refpos pert))) ;;
      (* prepare color *)
      let rgba := mixcolor (vis_rgba_constraint m)
                    (Z.land (active pert) mjPERT_TRANSLATE >? 0)
                    (Z.land (active2 pert) mjPERT_TRANSLATE >? 0) in
      assign (fun g => set_rgba g rgba) ;;
      FINISH ;;
      (* add small sphere at end-effector *)
      START objtype i category ;;
      let sz0 := (2 * sz0)%R in
      let mat := mju_quat2Mat (refquat pert) in
      assign (fun g =>
        mjv_initGeom g mjGEOM_SPHERE (Some (V3 sz0 sz0 sz0)) (Some (refpos pert))
          (Some mat) (Some rgba)) ;;
      FINISH) ;;
    when (band (Z.lor (active pert) (active2 pert)) mjPERT_ROTATE) then (
      START objtype i category ;;
      (* prepare color, use inertia color *)
      let rgba := mixcolor (vis_rgba_inertia m)
                    (Z.land (active pert) mjPERT_ROTATE >? 0)
                    (Z.land (active2 pert) mjPERT_ROTATE >? 0) in
      (* construct geom *)
      let mat := mju_quat2Mat (refquat pert) in
      assign (fun g =>
        mjv_initGeom g mjGEOM_BOX (Some (V3 scl scl scl))
          (Some (vec3_at (offset (xipos d) (3 * i)))) (Some mat) (Some rgba)) ;;
      FINISH)).

(** world and body frame *)
Definition addGeoms_bodyframe : M unit :=
  let objtype := mjOBJ_UNKNOWN in
  let category := mjCAT_DECOR in
  when (band category catmask) then
    for_ (if frame_is (vopt_frame vopt) mjFRAME_WORLD then 0 else 1)
         (if frame_is (vopt_frame vopt) mjFRAME_BODY then nbody m else 1) (fun i =>
      (* set length(1) and width(0) of the axis cylinders *)
      let sz1 := if i =? 0 then (vis_scale_framelength m * scl * 2)%R
                 else (vis_scale_framelength m * scl)%R in
      let sz0 := if i =? 0 then (vis_scale_framewidth m * scl * 2)%R
                 else (vis_scale_framewidth m * scl)%R in
      (* skip if body is static and static bodies are masked *)
      if (i >? 0) && band (bodycategory m i) (Z.lnot catmask) then ret tt
      else
        (* draw the three axes (separate geoms) *)
        frame_axes objtype i category (vec3_at (offset (xpos d) (3 * i)))
          (mat9_at (offset (xmat d) (9 * i))) sz1 sz0).

(** selection point *)
Definition addGeoms_selectpoint : M unit :=
  let objtype := mjOBJ_UNKNOWN in
  let category := mjCAT_DECOR in
  when (band category catmask && (select pert >? 0) && flags mjVIS_SELECT) then (
    let i := 0 in
    (* compute selection point in world coordinates *)
    let selpos := mju_rotVecMat (localpos pert) (mat9_at (offset (xmat d) (9 * select pert))) in
    let selpos := mju_add3 selpos (vec3_at (offset (xpos d) (3 * select pert))) in
    START objtype i category ;;
    assign (fun g =>
      let g := set_type g mjGEOM_SPHERE in
      let s := (scl * vis_scale_selectpoint m)%R in
      let g := set_size g (V3 s s s) in
      let g := set_pos g selpos in
      let g := set_mat g IDENTITY in
      let g := set_rgba g (vis_rgba_selectpoint m) in
      if label_is (vopt_label vopt) mjLABEL_SELPNT
      then set_label g (LabelSelpnt selpos (localpos pert)) else g) ;;
    FINISH).

(** label bodies when inertia boxes are not shown *)
Definition addGeoms_bodylabel : M unit :=
  let objtype := mjOBJ_UNKNOWN in
  let category := mjCAT_DECOR in
  when (band category catmask
        && (label_is (vopt_label vopt) mjLABEL_SELECTION
            || label_is (vopt_label vopt) mjLABEL_BODY)
        && negb (flags mjVIS_INERTIA)) then
    for_ 1 (nbody m) (fun i =>
      when (label_is (vopt_label vopt) mjLABEL_BODY
            || (label_is (vopt_label vopt) mjLABEL_SELECTION && (select pert =? i))) then (
        (* skip if body is static and static bodies are masked *)
        if band (bodycategory m i) (Z.lnot catmask) then ret tt
        else
          START objtype i category ;;
          (* construct geom *)
          assign (fun g =>
            let g := set_type g mjGEOM_LABEL in
            let g := set_pos g (vec3_at (offset (xipos d) (3 * i))) in
            let g := set_mat g (mat9_at (offset (ximat d) (9 * i))) in
            set_label g (makeLabel mjOBJ_BODY i)) ;;
          FINISH)).

(** joint *)
Definition addGeoms_joint : M unit :=
  let objtype := mjOBJ_JOINT in
  let category := mjCAT_DECOR in
  when (flags mjVIS_JOINT && band category catmask) then
    for_ 0 (njnt m) (fun i =>
      when (jointgroup vopt (group_index (jnt_group m i))) then (
        (* set length(1) and width(0) of the connectors *)
        let sz1 := (vis_scale_jointlength m * scl)%R in
        let sz0 := (vis_scale_jointwidth m * scl)%R in
        START objtype i category ;;
        (* set type, size, pos, mat depending on joint type *)
        let j := jnt_bodyid m i in
        (if jnt_type m i =? mjJNT_FREE then
           assign (fun g =>
             let g := set_type g mjGEOM_BOX in
             let s := (3 / 10 * sz1)%R in
             let g := set_size g (V3 s s s) in
             let g := set_pos g (vec3_at (offset (xanchor d) (3 * i))) in
             set_mat g (mat9_at (offset (xmat d) (9 * j))))
         else if jnt_type m i =? mjJNT_BALL then
           assign (fun g =>
             let g := set_type g mjGEOM_SPHERE in
             let s := (3 / 10 * sz1)%R in
             let g := set_size g (V3 s s s) in
             let g := set_pos g (vec3_at (offset (xanchor d) (3 * i))) in
             set_mat g (mat9_at (offset (xmat d) (9 * j))))
         else if (jnt_type m i =? mjJNT_SLIDE) || (jnt_type m i =? mjJNT_HINGE) then
           assign_result (fun g =>
             mjv_makeConnector g
               (if jnt_type m i =? mjJNT_SLIDE then mjGEOM_ARROW else mjGEOM_ARROW1) sz0
               (xanchor d (3 * i + 0)) (xanchor d (3 * i + 1)) (xanchor d (3 * i + 2))
               (xanchor d (3 * i + 0)%Z + sz1 * xaxis d (3 * i + 0)%Z)%R
               (xanchor d (3 * i + 1)%Z + sz1 * xaxis d (3 * i + 1)%Z)%R
               (xanchor d (3 * i + 2)%Z + sz1 * xaxis d (3 * i + 2)%Z)%R)
         else mju_error (Unknown_joint_type (jnt_type m i))) ;;
        assign (fun g => set_rgba g (vis_rgba_joint m)) ;;
        when (label_is (vopt_label vopt) mjLABEL_JOINT) then
          assign (fun g => set_label g (makeLabel mjOBJ_JOINT i)) ;;
        FINISH)).

(** actuator: the extended range [rng[3]] of actuator [i] *)
Definition actuator_rng (i : Z) : vec3 :=
  (* determine extended range *)
  let rmin :=
    if actuator_ctrllimited m i then actuator_ctrlrange m (2 * i)
    else if flags mjVIS_ACTIVATION && actuator_actlimited m i then actuator_actrange m (2 * i)
    else (-1)%R in
  let rmax :=
    if actuator_ctrllimited m i then actuator_ctrlrange m (2 * i + 1)
    else if flags mjVIS_ACTIVATION && actuator_actlimited m i then actuator_actrange m (2 * i + 1)
    else 1%R in
  let rng :=
    if Rleb 0 rmin then V3 (-1) rmin rmax
    else if Rleb rmax 0 then V3 rmin rmax 1
    else V3 rmin 0 rmax in
  (* adjust small ranges *)
  let rng :=
    if Rltb (c1 rng - c0 rng) mjMINVAL then V3 (c1 rng - mjMINVAL) (c1 rng) (c2 rng)
    else rng in
  if Rltb (c2 rng - c1 rng) mjMINVAL then V3 (c0 rng) (c1 rng) (c1 rng + mjMINVAL)
  else rng.

(** actuator: [act], the control or activation clamped to the extended range *)
Definition actuator_act (i : Z) : R :=
  let rng := actuator_rng i in
  if flags mjVIS_ACTIVATION && negb (actuator_dyntype m i =? 0)
  then mjMIN (c2 rng) (mjMAX (c0 rng) (act d (i - (nu m - na m))))
  else mjMIN (c2 rng) (mjMAX (c0 rng) (ctrl d i)).

(** actuator: the interpolated color [rgba[4]] *)
Definition actuator_rgba (i : Z) : vec4 :=
  let rng := actuator_rng i in
  let act := actuator_act i in
  (* compute interpolants *)
  let '(amin, amean, amax) :=
    if Rleb act (c1 rng) then
      let amin := ((c1 rng - act) / mjMAX mjMINVAL (c1 rng - c0 rng))%R in
      (amin, (1 - amin)%R, 0%R)
    else
      let amax := ((act - c1 rng) / mjMAX mjMINVAL (c2 rng - c1 rng))%R in
      (0%R, (1 - amax)%R, amax) in
  (* interpolated color *)
  let mix (neg mean pos : R) : R := (amin * neg + amean * mean + amax * pos)%R in
  V4 (mix (q0 (vis_rgba_actuatornegative m)) (q0 (vis_rgba_actuator m))
          (q0 (vis_rgba_actuatorpositive m)))
     (mix (q1 (vis_rgba_actuatornegative m)) (q1 (vis_rgba_actuator m))
          (q1 (vis_rgba_actuatorpositive m)))
     (mix (q2 (vis_rgba_actuatornegative m)) (q2 (vis_rgba_actuator m))
          (q2 (vis_rgba_actuatorpositive m)))
     (mix (q3 (vis_rgba_actuatornegative m)) (q3 (vis_rgba_actuator m))
          (q3 (vis_rgba_actuatorpositive m))).

(** actuator *)
Definition addGeoms_actuator : M unit :=
  let objtype := mjOBJ_ACTUATOR in
  let category := mjCAT_DECOR in
  when (flags mjVIS_ACTUATOR && band category catmask) then
    for_ 0 (nu m) (fun i =>
      when (actuatorgroup vopt (group_index (actuator_group m i))) then (
        let rgba' := actuator_rgba i in
        (* get transmission object id *)
        let j := actuator_trnid m (2 * i) in
        (* slide and hinge joint actuators *)
        when (((actuator_trntype m i =? mjTRN_JOINT)
               || (actuator_trntype m i =? mjTRN_JOINTINPARENT))
              && ((jnt_type m j =? mjJNT_HINGE) || (jnt_type m j =? mjJNT_SLIDE))) then (
          (* set length(1) and width(0) of the connectors *)
          let sz1 := (vis_scale_actuatorlength m * scl)%R in
          let sz0 := (vis_scale_actuatorwidth m * scl)%R in
          START objtype i category ;;
          (* make geom *)
          assign_result (fun g =>
            mjv_makeConnector g
              (if jnt_type m j =? mjJNT_SLIDE then mjGEOM_ARROW else mjGEOM_ARROW1) sz0
              (xanchor d (3 * j + 0)) (xanchor d (3 * j + 1)) (xanchor d (3 * j + 2))
              (xanchor d (3 * j + 0)%Z + sz1 * xaxis d (3 * j + 0)%Z)%R
              (xanchor d (3 * j + 1)%Z + sz1 * xaxis d (3 * j + 1)%Z)%R
              (xanchor d (3 * j + 2)%Z + sz1 * xaxis d (3 * j + 2)%Z)%R) ;;
          (* set interpolated color *)
          assign (fun g => set_rgba g rgba') ;;
          when (label_is (vopt_label vopt) mjLABEL_ACTUATOR) then
            assign (fun g => set_label g (makeLabel mjOBJ_ACTUATOR i)) ;;
          FINISH) ;;
        (* site actuators *)
        if actuator_trntype m i =? mjTRN_SITE then
          (* actuator size is site size scaled by 1.1 *)
          let sz := mju_scl3 (vec3_at (offset (site_size m) (3 * j))) (11 / 10) in
          START objtype i category ;;
          (* make geom overlapping the actuated site *)
          assign (fun g =>
            mjv_initGeom g (site_type m j) (Some sz)
              (Some (vec3_at (offset (site_xpos d) (3 * j))))
              (Some (mat9_at (offset (site_xmat d) (9 * j))))
              (Some (rgba g))) ;;
          (* set interpolated color *)
          assign (fun g => set_rgba g rgba') ;;
          when (label_is (vopt_label vopt) mjLABEL_ACTUATOR) then
            assign (fun g => set_label g (makeLabel mjOBJ_ACTUATOR i)) ;;
          FINISH
        (* spatial tendon actuators *)
        else when ((actuator_trntype m i =? mjTRN_TENDON)
                   && negb (ten_wrapnum d j =? 0)) then
          for_ (ten_wrapadr d j) (ten_wrapadr d j + ten_wrapnum d j - 1) (fun k =>
            when (negb (wrap_obj d k =? -2) && negb (wrap_obj d (k + 1) =? -2)) then (
              START objtype i category ;;
              (* determine width: smaller for segments inside wrapping objects *)
              let sz0 := if (wrap_obj d k >=? 0) && (wrap_obj d (k + 1) >=? 0)
                         then (1 / 2 * tendon_width m j)%R else tendon_width m j in
              (* increase width for actuator *)
              let sz0 := (sz0 * vis_map_actuatortendon m)%R in
              (* construct geom *)
              assign_result (fun g =>
                mjv_makeConnector g mjGEOM_CAPSULE sz0
                  (wrap_xpos d (3 * k)) (wrap_xpos d (3 * k + 1)) (wrap_xpos d (3 * k + 2))
                  (wrap_xpos d (3 * k + 3)) (wrap_xpos d (3 * k + 4))
                  (wrap_xpos d (3 * k + 5))) ;;
              (* set material if given *)
              assign (fun g =>
                setMaterial m g (tendon_matid m j) (vec4_at (offset (tendon_rgba m) (4 * j)))
                  flags) ;;
              (* set interpolated color *)
              assign (fun g => set_rgba g rgba') ;;
              (* label: only the first segment *)
              when (label_is (vopt_label vopt) mjLABEL_ACTUATOR && (k =? ten_wrapadr d j)) then
                assign (fun g => set_label g (makeLabel mjOBJ_ACTUATOR i)) ;;
              FINISH)))).

(** geom: the position of an infinite plane, re-centered around the camera *)
Definition plane_pos (sc : mjvScene) (i : Z) : vec3 :=
  (* save initial pos *)
  let tmp := vec3_at (offset (geom_xpos d) (3 * i)) in
  (* re-center infinite plane *)
  if Rleb (geom_size m (3 * i)) 0 || Rleb (geom_size m (3 * i + 1)) 0 then
    (* vec = headpos - geompos *)
    let head k0 k1 := (1 / 2 * (k0 + k1))%R in
    let vec :=
      V3 (head (c0 (gl_pos (camera0 sc))) (c0 (gl_pos (camera1 sc))) - geom_xpos d (3 * i + 0)%Z)%R
         (head (c1 (gl_pos (camera0 sc))) (c1 (gl_pos (camera1 sc))) - geom_xpos d (3 * i + 1)%Z)%R
         (head (c2 (gl_pos (camera0 sc))) (c2 (gl_pos (camera1 sc))) - geom_xpos d (3 * i + 2)%Z)%R in
    (* construct axes *)
    let ax := mju_transpose (mat9_at (offset (geom_xmat d) (9 * i))) in
    let step (k : Z) (axk : vec3) (tmp : vec3) : vec3 :=
      if Rleb (geom_size m (3 * i + k)) 0 then
        (* compute zfar *)
        let zfar := (vis_map_zfar m * stat_extent m)%R in
        (* get size increment *)
        let matid := geom_matid m i in
        let sX :=
          if (matid >=? 0) && Rltb 0 (mat_texrepeat m (2 * matid + k))
          then (2 / mat_texrepeat m (2 * matid + k)%Z)%R
          else (21 / 10 * zfar / IZR (mjMAXPLANEGRID - 2))%R in
        (* project on frame, round to integer increment of size *)
        let dX := mju_dot3 vec axk in
        let dX := (2 * sX * IZR (mju_round (1 / 2 * dX / sX)))%R in
        (* translate *)
        mju_addScl3 tmp axk dX
      else tmp in
    (* loop over (x,y) *)
    let tmp := step 0 (V3 (e0 ax) (e1 ax) (e2 ax)) tmp in
    step 1 (V3 (e3 ax) (e4 ax) (e5 ax)) tmp
  else tmp.

(** geom: the body of the loop, for geom [i]; [planeid] counts the planes *)
Definition geom_body (i planeid : Z) : M Z :=
    (* count planes, put current plane number in geom->dataid *)
    let planeid := if geom_type m i =? mjGEOM_PLANE then planeid + 1 else planeid in
    (* set type and category: geom *)
    let objtype := mjOBJ_GEOM in
    let category := bodycategory m (geom_bodyid m i) in
    (* skip if category is masked *)
    if negb (band category catmask) then ret planeid
    else
    (* get geom group and clamp *)
    let j := group_index (geom_group m i) in
    when (geomgroup vopt j) then (
      START objtype i category ;;
      (* construct geom *)
      assign (fun g =>
        let g := mjv_initGeom g (geom_type m i) (Some (vec3_at (offset (geom_size m) (3 * i))))
                   (Some (vec3_at (offset (geom_xpos d) (3 * i))))
                   (Some (mat9_at (offset (geom_xmat d) (9 * i)))) None in
        let g := set_dataid g (geom_dataid m i) in
        (* copy rbound from model *)
        set_modelrbound g (geom_rbound m i)) ;;
      (* set material properties *)
      assign (fun g =>
        setMaterial m g (geom_matid m i) (vec4_at (offset (geom_rgba m) (4 * i))) flags) ;;
      (* set texcoord *)
      when ((geom_type m i =? mjGEOM_MESH) && (geom_dataid m i >=? 0)
            && (mesh_texcoordadr m (geom_dataid m i) >=? 0)) then
        assign (fun g => set_texcoord g 1) ;;
      (* skip if alpha is 0 *)
      g <- thisgeom ;;
      if Reqb (q3 (rgba g)) 0 then ret tt
      else
      (* glow geoms of selected body *)
      when ((select pert >? 0) && (select pert =? geom_bodyid m i)) then
        assign (markselected m) ;;
      when (label_is (vopt_label vopt) mjLABEL_GEOM) then
        assign (fun g => set_label g (makeLabel mjOBJ_GEOM i)) ;;
      (* mesh: 2*i is original, 2*i+1 is convex hull *)
      (if geom_type m i =? mjGEOM_MESH then
         assign (fun g =>
           let g := set_dataid g (dataid g * 2) in
           if (mesh_graphadr m (geom_dataid m i) >=? 0) && flags mjVIS_CONVEXHULL
           then set_dataid g (dataid g + 1) else g)
       (* plane *)
       else when (geom_type m i =? mjGEOM_PLANE) then (
         sc <- get_scn ;;
         assign (fun g =>
           (* use current planeid *)
           let g := set_dataid g planeid in
           (* set final pos *)
           set_pos g (plane_pos sc i)))) ;;
      FINISH ;;
      (* set type and category: frame *)
      let objtype := mjOBJ_UNKNOWN in
      let category := mjCAT_DECOR in
      if negb (band category catmask) || negb (frame_is (vopt_frame vopt) mjFRAME_GEOM)
      then ret tt
      else
        (* construct geom frame *)
        let sz0 := (vis_scale_framewidth m * scl)%R in
        let sz1 := (vis_scale_framelength m * scl)%R in
        frame_axes objtype i category (vec3_at (offset (geom_xpos d) (3 * i)))
          (mat9_at (offset (geom_xmat d) (9 * i))) sz1 sz0) ;;
    ret planeid.

(** geom *)
Definition addGeoms_geom : M unit :=
  for_each_acc (range 0 (ngeom m)) (-1) geom_body ;; ret tt.

(** site: the body of the loop, for site [i] *)
Definition site_body (i : Z) : M unit :=
    (* set type and category *)
    let objtype := mjOBJ_SITE in
    let category := bodycategory m (site_bodyid m i) in
    (* skip if category is masked *)
    if negb (band category catmask) then ret tt
    else
    (* show if group enabled *)
    when (sitegroup vopt (group_index (site_group m i))) then (
      START objtype i category ;;
      (* construct geom *)
      assign (fun g =>
        mjv_initGeom g (site_type m i) (Some (vec3_at (offset (site_size m) (3 * i))))
          (Some (vec3_at (offset (site_xpos d) (3 * i))))
          (Some (mat9_at (offset (site_xmat d) (9 * i)))) None) ;;
      (* set material if given *)
      assign (fun g =>
        setMaterial m g (site_matid m i) (vec4_at (offset (site_rgba m) (4 * i))) flags) ;;
      (* skip if alpha is 0 *)
      g <- thisgeom ;;
      if Reqb (q3 (rgba g)) 0 then ret tt
      else
      (* glow *)
      when ((select pert >? 0) && (select pert =? site_bodyid m i)) then
        assign (markselected m) ;;
      when (label_is (vopt_label vopt) mjLABEL_SITE) then
        assign (fun g => set_label g (makeLabel mjOBJ_SITE i)) ;;
      FINISH ;;
      (* set category for site frame *)
      let category := mjCAT_DECOR in
      if negb (band category catmask) || negb (frame_is (vopt_frame vopt) mjFRAME_SITE)
      then ret tt
      else
        (* construct site frame *)
        let objtype := mjOBJ_UNKNOWN in
        let sz0 := (vis_scale_framewidth m * scl)%R in
        let sz1 := (vis_scale_framelength m * scl)%R in
        frame_axes objtype i category (vec3_at (offset (site_xpos d) (3 * i)))
          (mat9_at (offset (site_xmat d) (9 * i))) sz1 sz0).

(** site *)
Definition addGeoms_site : M unit :=
  for_ 0 (nsite m) site_body.

(** cameras; the frame block sets [objtype] to mjOBJ_UNKNOWN and the loop does
    not set it back *)
Definition addGeoms_camera : M unit :=
  let category := mjCAT_DECOR in
  when (flags mjVIS_CAMERA && band category catmask) then (
    for_each_acc (range 0 (ncam m)) mjOBJ_CAMERA (fun i objtype =>
      let s := (scl * vis_scale_camera m)%R in
      START objtype i category ;;
      (* construct geom: camera body *)
      assign (fun g =>
        let g := set_type g mjGEOM_BOX in
        let g := set_size g (V3 (s * 1) (s * (8 / 10)) (s * (4 / 10))) in
        let g := set_pos g (vec3_at (offset (cam_xpos d) (3 * i))) in
        let g := set_mat g (mat9_at (offset (cam_xmat d) (9 * i))) in
        let g := set_rgba g (vis_rgba_camera m) in
        if label_is (vopt_label vopt) mjLABEL_CAMERA
        then set_label g (makeLabel mjOBJ_CAMERA i) else g) ;;
      FINISH ;;
      START objtype i category ;;
      (* construct geom: lens *)
      assign (fun g =>
        let g := set_pos g
          (V3 (cam_xpos d (3 * i)%Z - s * (6 / 10) * cam_xmat d (9 * i + 2)%Z)%R
              (cam_xpos d (3 * i + 1)%Z - s * (6 / 10) * cam_xmat d (9 * i + 5)%Z)%R
              (cam_xpos d (3 * i + 2)%Z - s * (6 / 10) * cam_xmat d (9 * i + 8)%Z)%R) in
        let g := set_type g mjGEOM_CYLINDER in
        let g := set_size g (V3 (s * (4 / 10)) (s * (4 / 10)) (s * (3 / 10))) in
        let g := set_mat g (mat9_at (offset (cam_xmat d) (9 * i))) in
        let c := vis_rgba_camera m in
        (* make lens body darker *)
        set_rgba g (V4 (q0 c * (1 / 2)) (q1 c * (1 / 2)) (q2 c * (1 / 2)) (q3 c))) ;;
      FINISH ;;
      (* set category for camera frame *)
      if negb (band category catmask) || negb (frame_is (vopt_frame vopt) mjFRAME_CAMERA)
      then ret objtype
      else
        (* construct camera frame *)
        let objtype := mjOBJ_UNKNOWN in
        let sz0 := (vis_scale_framewidth m * scl)%R in
        let sz1 := (vis_scale_framelength m * scl)%R in
        frame_axes objtype i category (vec3_at (offset (cam_xpos d) (3 * i)))
          (mat9_at (offset (cam_xmat d) (9 * i))) sz1 sz0 ;;
        ret objtype) ;;
    ret tt).

(** lights; [objtype] is carried as for the cameras *)
Definition addGeoms_light : M unit :=
  let category := mjCAT_DECOR in
  when (flags mjVIS_LIGHT && band category catmask) then (
    for_each_acc (range 0 (nlight m)) mjOBJ_LIGHT (fun i objtype =>
      (* make light frame *)
      let quat := mju_quatZ2Vec (vec3_at (offset (light_xdir d) (3 * i))) in
      let mat := mju_quat2Mat quat in
      (* make light position: offset backward, to avoid casting shadow *)
      let vec := mju_addScl3 (vec3_at (offset (light_xpos d) (3 * i)))
                   (vec3_at (offset (light_xdir d) (3 * i)))
                   (- scl * vis_scale_light m - 1 / 10000) in
      let s := (scl * vis_scale_light m)%R in
      START objtype i category ;;
      (* construct geom *)
      assign (fun g =>
        let g := set_type g mjGEOM_CYLINDER in
        let g := set_size g (V3 (s * (8 / 10)) (s * (8 / 10)) (s * 1)) in
        let g := set_pos g vec in
        let g := set_mat g mat in
        let g := set_rgba g (vis_rgba_light m) in
        if label_is (vopt_label vopt) mjLABEL_LIGHT
        then set_label g (makeLabel mjOBJ_LIGHT i) else g) ;;
      FINISH ;;
      (* set category for light frame *)
      if negb (band category catmask) || negb (frame_is (vopt_frame vopt) mjFRAME_LIGHT)
      then ret objtype
      else
        (* construct light frame *)
        let objtype := mjOBJ_UNKNOWN in
        let sz0 := (vis_scale_framewidth m * scl)%R in
        let sz1 := (vis_scale_framelength m * scl)%R in
        frame_axes objtype i category (vec3_at (offset (light_xpos d) (3 * i))) mat sz1 sz0 ;;
        ret objtype) ;;
    ret tt).

(** spatial tendons *)
Definition addGeoms_tendon : M unit :=
  let objtype := mjOBJ_TENDON in
  let category := mjCAT_DYNAMIC in
  when (flags mjVIS_TENDON && band category catmask) then
    for_ 0 (ntendon m) (fun i =>
      when (tendongroup vopt (group_index (tendon_group m i))) then
        for_ (ten_wrapadr d i) (ten_wrapadr d i + ten_wrapnum d i - 1) (fun j =>
          when (negb (wrap_obj d j =? -2) && negb (wrap_obj d (j + 1) =? -2)) then (
            START objtype i category ;;
            (* determine width: smaller for segments inside wrapping objects *)
            let sz0 := if (wrap_obj d j >=? 0) && (wrap_obj d (j + 1) >=? 0)
                       then (1 / 2 * tendon_width m i)%R else tendon_width m i in
            (* construct geom *)
            assign_result (fun g =>
              mjv_makeConnector g mjGEOM_CAPSULE sz0
                (wrap_xpos d (3 * j)) (wrap_xpos d (3 * j + 1)) (wrap_xpos d (3 * j + 2))
                (wrap_xpos d (3 * j + 3)) (wrap_xpos d (3 * j + 4))
                (wrap_xpos d (3 * j + 5))) ;;
            (* set material if given *)
            assign (fun g =>
              setMaterial m g (tendon_matid m i) (vec4_at (offset (tendon_rgba m) (4 * i)))
                flags) ;;
            (* label: only the first segment *)
            when (label_is (vopt_label vopt) mjLABEL_TENDON && (j =? ten_wrapadr d i)) then
              assign (fun g => set_label g (makeLabel mjOBJ_TENDON i)) ;;
            FINISH))).

(** slider-crank *)
Definition addGeoms_slidercrank : M unit :=
  let objtype := mjOBJ_ACTUATOR in
  let category := mjCAT_DYNAMIC in
  when (band category catmask) then
    for_ 0 (nu m) (fun i =>
      when (actuator_trntype m i =? mjTRN_SLIDERCRANK) then (
        (* get data *)
        let j := actuator_trnid m (2 * i) in       (* crank *)
        let k := actuator_trnid m (2 * i + 1) in   (* slider *)
        let rod := actuator_cranklength m i in
        let axis := V3 (site_xmat d (9 * k + 2)) (site_xmat d (9 * k + 5))
                       (site_xmat d (9 * k + 8)) in
        (* compute crank length *)
        let vec := mju_sub3 (vec3_at (offset (site_xpos d) (3 * j)))
                            (vec3_at (offset (site_xpos d) (3 * k))) in
        let len := mju_dot3 vec axis in
        let det := (len * len + rod * rod - mju_dot3 vec vec)%R in
        let broken := Rltb det 0 in
        let det := if Rltb det 0 then 0%R else det in
        let len := (len - sqrt det)%R in
        (* compute slider endpoint *)
        let end_ := mju_add3 (mju_scl3 axis len) (vec3_at (offset (site_xpos d) (3 * k))) in
        (* render slider *)
        START objtype i category ;;
        assign_result (fun g =>
          mjv_makeConnector g mjGEOM_CYLINDER (scl * vis_scale_slidercrank m)
            (site_xpos d (3 * k)) (site_xpos d (3 * k + 1)) (site_xpos d (3 * k + 2))
            (c0 end_) (c1 end_) (c2 end_)) ;;
        assign (fun g =>
          let g := set_rgba g (vis_rgba_slidercrank m) in
          if label_is (vopt_label vopt) mjLABEL_ACTUATOR
          then set_label g (makeLabel mjOBJ_ACTUATOR i) else g) ;;
        FINISH ;;
        (* render crank *)
        START objtype i category ;;
        assign_result (fun g =>
          mjv_makeConnector g mjGEOM_CAPSULE (scl * vis_scale_slidercrank m / 2)
            (c0 end_) (c1 end_) (c2 end_)
            (site_xpos d (3 * j + 0)) (site_xpos d (3 * j + 1)) (site_xpos d (3 * j + 2))) ;;
        assign (fun g =>
          if broken then set_rgba g (vis_rgba_crankbroken m)
          else set_rgba g (vis_rgba_slidercrank m)) ;;
        FINISH)).

(** center of mass for root bodies *)
Definition addGeoms_com : M unit :=
  let objtype := mjOBJ_UNKNOWN in
  let category := mjCAT_DECOR in
  when (flags mjVIS_COM && band category catmask) then
    for_ 1 (nbody m) (fun i =>
      when (body_rootid m i =? i) then (
        START objtype i category ;;
        assign (fun g =>
          let g := set_type g mjGEOM_SPHERE in
          let s := (scl * vis_scale_com m)%R in
          let g := set_size g (V3 s s s) in
          let g := set_pos g (vec3_at (offset (subtree_com d) (3 * i))) in
          let g := set_mat g IDENTITY in
          set_rgba g (vis_rgba_com m)) ;;
        FINISH)).

(** auto connect *)
Definition addGeoms_autoconnect : M unit :=
  let objtype := mjOBJ_UNKNOWN in
  let category := mjCAT_DECOR in
  when (flags mjVIS_AUTOCONNECT && band category catmask) then
    for_ 1 (nbody m) (fun i =>
      (* do not connect to world *)
      if body_parentid m i =? 0 then ret tt
      else
        (* start at body com, connect joint centers in reverse order *)
        let cur := vec3_at (offset (xipos d) (3 * i)) in
        cur <-
          (if negb (body_jntnum m i =? 0) then
             for_each_acc
               (range_down (body_jntadr m i + body_jntnum m i - 1) (body_jntadr m i)) cur
               (fun j cur =>
                  START objtype i category ;;
                  let nxt := vec3_at (offset (xanchor d) (3 * j)) in
                  (* construct geom *)
                  assign_result (fun g =>
                    mjv_makeConnector g mjGEOM_CAPSULE (scl * vis_scale_connect m)
                      (c0 cur) (c1 cur) (c2 cur) (c0 nxt) (c1 nxt) (c2 nxt)) ;;
                  assign (fun g => set_rgba g (vis_rgba_connect m)) ;;
                  FINISH ;;
                  ret nxt)
           else ret cur) ;;
        (* connect first joint (or com) to parent com *)
        START objtype i category ;;
        let nxt := vec3_at (offset (xipos d) (3 * body_parentid m i)) in
        assign_result (fun g =>
          mjv_makeConnector g mjGEOM_CAPSULE (scl * vis_scale_connect m)
            (c0 cur) (c1 cur) (c2 cur) (c0 nxt) (c1 nxt) (c2 nxt)) ;;
        assign (fun g => set_rgba g (vis_rgba_connect m)) ;;
        FINISH).

(** rangefinders *)
Definition addGeoms_rangefinder : M unit :=
  let objtype := mjOBJ_UNKNOWN in
  let category := mjCAT_DECOR in
  when (flags mjVIS_RANGEFINDER && band category catmask) then
    for_ 0 (nsensor m) (fun i =>
      when (sensor_type m i =? mjSENS_RANGEFINDER) then (
        (* sensor data *)
        let dst := sensordata d (sensor_adr m i) in
        let sid := sensor_objid m i in
        (* null output: nothing to render *)
        if Rltb dst 0 then ret tt
        else
          (* make ray *)
          START objtype i category ;;
          assign_result (fun g =>
            mjv_makeConnector g mjGEOM_LINE (1 / 100)
              (site_xpos d (3 * sid)) (site_xpos d (3 * sid + 1)) (site_xpos d (3 * sid + 2))
              (site_xpos d (3 * sid)%Z + site_xmat d (9 * sid + 2)%Z * dst)%R
              (site_xpos d (3 * sid + 1)%Z + site_xmat d (9 * sid + 5)%Z * dst)%R
              (site_xpos d (3 * sid + 2)%Z + site_xmat d (9 * sid + 8)%Z * dst)%R) ;;
          assign (fun g => set_rgba g (vis_rgba_rangefinder m)) ;;
          FINISH)).

(** external perturbations *)
Definition addGeoms_pertforce : M unit :=
  let objtype := mjOBJ_UNKNOWN in
  let category := mjCAT_DECOR in
  for_ 1 (nbody m) (fun i =>
    when (negb (mju_isZero (offset (xfrc_applied d) (6 * i)) 6) && band category catmask) then (
      (* point of application and force *)
      let xpos := vec3_at (offset (xipos d) (3 * i)) in
      let xfrc := vec3_at (offset (xfrc_applied d) (6 * i)) in
      (* force perturbation *)
      when (flags mjVIS_PERTFORCE && Rltb mjMINVAL (mju_norm3 xfrc)) then (
        (* map force to spatial vector in world frame *)
        let vec := mju_scl3 xfrc (vis_map_force m / stat_meanmass m) in
        START objtype i category ;;
        assign_result (fun g =>
          mjv_makeConnector g mjGEOM_ARROW (vis_scale_forcewidth m * scl)
            (c0 xpos) (c1 xpos) (c2 xpos)
            (c0 xpos + c0 vec)%R (c1 xpos + c1 vec)%R (c2 xpos + c2 vec)%R) ;;
        assign (fun g => set_rgba g (vis_rgba_force m)) ;;
        FINISH))).

(** [while (j>=0 && cond(j)) { body(j); j--; }] over the candidates [l]. *)
Fixpoint while_each (l : list Z) (cond : Z -> bool) (body : Z -> M unit) : M unit :=
  match l with
  | [] => ret tt
  | j :: l' => if cond j then body j ;; while_each l' cond body else ret tt
  end.

(** connect and distance constraints *)
Definition addGeoms_constraint : M unit :=
  let objtype := mjOBJ_EQUALITY in
  let category := mjCAT_DECOR in
  when (flags mjVIS_CONSTRAINT && band category catmask && negb (neq m =? 0)) then (
    (* connect *)
    for_ 0 (neq m) (fun i =>
      when (eq_active m i && (eq_type m i =? mjEQ_CONNECT)) then (
        (* compute endpoints in global coordinates *)
        let j := eq_obj1id m i in
        let k := eq_obj2id m i in
        let vec := mju_rotVecMat (vec3_at (offset (eq_data m) (mjNEQDATA * i)))
                     (mat9_at (offset (xmat d) (9 * j))) in
        let vec := mju_add3 vec (vec3_at (offset (xpos d) (3 * j))) in
        let end_ := mju_rotVecMat (vec3_at (offset (eq_data m) (mjNEQDATA * i + 3)))
                      (mat9_at (offset (xmat d) (9 * k))) in
        let end_ := mju_add3 end_ (vec3_at (offset (xpos d) (3 * k))) in
        (* connect endpoints *)
        START objtype i category ;;
        (* construct geom *)
        let sz0 := (scl * vis_scale_constraint m)%R in
        assign_result (fun g =>
          mjv_makeConnector g mjGEOM_CAPSULE sz0
            (c0 vec) (c1 vec) (c2 vec) (c0 end_) (c1 end_) (c2 end_)) ;;
        assign (fun g =>
          let g := set_rgba g (vis_rgba_constraint m) in
          if label_is (vopt_label vopt) mjLABEL_CONSTRAINT
          then set_label g (makeLabel mjOBJ_EQUALITY i) else g) ;;
        FINISH)) ;;
    (* distance: find constraints at the end of the contact list *)
    while_each (range_down (ncon d - 1) 0)
      (fun j => con_exclude (contact d j) =? 3)
      (fun j =>
        (* recover constraint id *)
        let i := - con_efc_address (contact d j) - 2 in
        (* segment = pos +/- normal*len *)
        let con := contact d j in
        let len := (con_dist con - eq_data m (mjNEQDATA * i)%Z)%R in
        let normal := V3 (e0 (con_frame con)) (e1 (con_frame con)) (e2 (con_frame con)) in
        let vec := mju_addScl3 (con_pos con) normal (1 / 2 * len) in
        let end_ := mju_addScl3 (con_pos con) normal (- (1 / 2) * len) in
        (* connect endpoints *)
        START objtype i category ;;
        (* construct geom *)
        let sz0 := (scl * vis_scale_constraint m)%R in
        assign_result (fun g =>
          mjv_makeConnector g mjGEOM_CAPSULE sz0
            (c0 vec) (c1 vec) (c2 vec) (c0 end_) (c1 end_) (c2 end_)) ;;
        assign (fun g =>
          let g := set_rgba g (vis_rgba_constraint m) in
          if label_is (vopt_label vopt) mjLABEL_CONSTRAINT
          then set_label g (makeLabel mjOBJ_EQUALITY i) else g) ;;
        FINISH)).

(** contact *)
Definition addGeoms_contact : M unit :=
  when (band catmask mjCAT_DECOR) then call (addContactGeom m d flags vopt).

End AddGeoms.

(** [mjv_addGeoms]: add abstract geoms.  [pert] is [None] for a NULL pointer. *)
Definition mjv_addGeoms (m : mjModel) (d : mjData) (vopt : mjvOption)
    (pert : option mjvPerturb) (catmask : Z) : M unit :=
  (* make default pert if missing *)
  let pert := match pert with Some pert => pert | None => mjv_defaultPerturb end in
  (* clear mjCAT_STATIC bit if mjVIS_STATIC is not set *)
  let catmask := if negb (vopt_flags vopt mjVIS_STATIC)
                 then Z.land catmask (Z.lnot mjCAT_STATIC) else catmask in
  addGeoms_skin m d vopt pert catmask ;;
  addGeoms_inertia m d vopt pert catmask ;;
  addGeoms_pertobj m d vopt pert catmask ;;
  addGeoms_bodyframe m d vopt catmask ;;
  addGeoms_selectpoint m d vopt pert catmask ;;
  addGeoms_bodylabel m d vopt pert catmask ;;
  addGeoms_joint m d vopt catmask ;;
  addGeoms_actuator m d vopt catmask ;;
  addGeoms_geom m d vopt pert catmask ;;
  addGeoms_site m d vopt pert catmask ;;
  addGeoms_camera m d vopt catmask ;;
  addGeoms_light m d vopt catmask ;;
  addGeoms_tendon m d vopt catmask ;;
  addGeoms_slidercrank m d vopt catmask ;;
  addGeoms_com m d vopt catmask ;;
  addGeoms_autoconnect m d vopt catmask ;;
  addGeoms_rangefinder m d vopt catmask ;;
  addGeoms_pertforce m d vopt catmask ;;
  addGeoms_constraint m d vopt catmask ;;
  addGeoms_contact m d vopt catmask.

(** ** Lights *)

(** [mjv_makeLights]: make list of lights only. *)
Definition mjv_makeLights (m : mjModel) (d : mjData) (scn : mjvScene) : mjvScene :=
  (* clear counter *)
  let scn := set_scn_nlight scn 0 in
  (* headlight *)
  let scn :=
    if vis_headlight_active m then
      let thislight :=
        {| l_pos := V3 0 0 0; l_dir := V3 0 0 0; l_attenuation := V3 0 0 0;
           l_cutoff := 0; l_exponent := 0;
           l_ambient := vis_headlight_ambient m;
           l_diffuse := vis_headlight_diffuse m;
           l_specular := vis_headlight_specular m;
           l_headlight := true; l_directional := true; l_castshadow := false |} in
      set_scn_nlight (set_lights scn (upd (lights scn) 0 thislight)) (scn_nlight scn + 1)
    else scn in
  (* remaining lights: the loop runs while [scn->nlight < mjMAXLIGHT] *)
  fold_left (fun scn i =>
    if scn_nlight scn <? mjMAXLIGHT then
      if light_active m i then
        let directional := light_directional m i in
        let thislight :=
          {| l_pos := vec3_at (offset (light_xpos d) (3 * i));
             l_dir := vec3_at (offset (light_xdir d) (3 * i));
             l_attenuation := if directional then V3 0 0 0
                              else vec3_at (offset (light_attenuation m) (3 * i));
             l_cutoff := if directional then 0%R else light_cutoff m i;
             l_exponent := if directional then 0%R else light_exponent m i;
             l_ambient := vec3_at (offset (light_ambient m) (3 * i));
             l_diffuse := vec3_at (offset (light_diffuse m) (3 * i));
             l_specular := vec3_at (offset (light_specular m) (3 * i));
             l_headlight := false;
             l_directional := directional;
             l_castshadow := light_castshadow m i |} in
        set_scn_nlight (set_lights scn (upd (lights scn) (scn_nlight scn) thislight))
          (scn_nlight scn + 1)
      else scn
    else scn) (range 0 (nlight m)) scn.

(** ** Camera *)

(** The two GL cameras computed at the end of [mjv_updateCamera]: [view] is 0
    for [camera[0]] and 1 for [camera[1]]. *)
Definition gl_camera (headpos forward up right : vec3) (ipd fovy znear zfar : R)
    (view : Z) : mjvGLCamera :=
  let off := ((if view =? 0 then - ipd else ipd) * (1 / 2))%R in
  let top := (znear * tan (fovy * (mjPI / 360)))%R in
  {| gl_pos := V3 (c0 headpos + off * c0 right) (c1 headpos + off * c1 right)
                  (c2 headpos + off * c2 right);
     gl_forward := forward;
     gl_up := up;
     frustum_center := 0;
     frustum_bottom := - top;
     frustum_top := top;
     frustum_near := znear;
     frustum_far := zfar |}.

(** [mjv_updateCamera]: update camera only.  The arguments [m] and [cam] are
    [None] for NULL pointers; the result is the camera (whose [lookat] a
    tracking camera moves) and the scene. *)
Definition mjv_updateCamera (m : option mjModel) (d : mjData) (cam : option mjvCamera)
    (scn : mjvScene) : result (option mjvCamera * mjvScene) :=
  match m, cam with
  | Some m, Some cam =>
    (* return if nothing to do *)
    if cam_type cam =? mjCAMERA_USER then Ok (Some cam, scn)
    else
    (* get znear, zfar *)
    let znear := (vis_map_znear m * stat_extent m)%R in
    let zfar := (vis_map_zfar m * stat_extent m)%R in
    let finish (cam : mjvCamera) (headpos forward up right : vec3) (ipd fovy : R) :=
      (* compute GL cameras *)
      let scn := set_camera0 scn (gl_camera headpos forward up right ipd fovy znear zfar 0) in
      let scn := set_camera1 scn (gl_camera headpos forward up right ipd fovy znear zfar 1) in
      (* disable model transformation *)
      Ok (Some cam, set_enabletransform scn false) in
    let free_or_tracking (cam : mjvCamera) :=
      (* get global ipd and fovy *)
      let ipd := vis_global_ipd m in
      let fovy := vis_global_fovy m in
      (* compute frame *)
      let ca := cos (azimuth cam / 180 * mjPI) in
      let sa := sin (azimuth cam / 180 * mjPI) in
      let ce := cos (elevation cam / 180 * mjPI) in
      let se := sin (elevation cam / 180 * mjPI) in
      let forward := V3 (ce * ca) (ce * sa) se in
      let up := V3 (- se * ca) (- se * sa) ce in
      let right := V3 sa (- ca) 0 in
      let headpos := mju_addScl3 (lookat cam) forward (- distance cam) in
      finish cam headpos forward up right ipd fovy in
    if cam_type cam =? mjCAMERA_FREE then free_or_tracking cam
    else if cam_type cam =? mjCAMERA_TRACKING then
      (* get id and check *)
      let bid := trackbodyid cam in
      if (bid <? 0) || (bid >=? nbody m) then Err Track_body_id_outside_valid_range
      else
        (* smooth tracking of subtree com *)
        let move := mju_sub3 (vec3_at (offset (subtree_com d) (3 * trackbodyid cam)))
                             (lookat cam) in
        let cam := set_lookat cam (mju_addScl3 (lookat cam) move (2 / 10)) in
        free_or_tracking cam
    else if cam_type cam =? mjCAMERA_FIXED then
      (* get id and check *)
      let cid := fixedcamid cam in
      if (cid <? 0) || (cid >=? ncam m) then Err Fixed_camera_id_outside_valid_range
      else
        (* get camera-specific ipd and fovy *)
        let ipd := cam_ipd m cid in
        let fovy := cam_fovy m cid in
        (* get pointer to camera orientation matrix *)
        let mat := mat9_at (offset (cam_xmat d) (9 * cid)) in
        (* get frame *)
        let forward := V3 (- e2 mat) (- e5 mat) (- e8 mat) in
        let up := V3 (e1 mat) (e4 mat) (e7 mat) in
        let right := V3 (e0 mat) (e3 mat) (e6 mat) in
        let headpos := vec3_at (offset (cam_xpos d) (3 * cid)) in
        finish cam headpos forward up right ipd fovy
    else Err Unknown_camera_type
  | _, _ => Ok (cam, scn)
  end.

(** ** Skins *)

Section UpdateSkin.
Variables (m : mjModel) (d : mjData).

(** [p[k] += v]. *)
Definition add_at (p : array R) (k : Z) (v : R) : array R := upd p k (p k + v)%R.

(** [memset (p + k, 0, n*sizeof(float))]. *)
Definition memset0 (p : array R) (k n : Z) : array R :=
  fun j => if (k <=? j) && (j <? k + n) then 0%R else p j.

(** The rigid transform of bone [j]: the rotation and the translation. *)
Definition bone_rotate (j : Z) : mat9 :=
  (* get bind pose *)
  let bindquat := vec4_at (offset (skin_bonebindquat m) (4 * j)) in
  (* compute rotation *)
  let bodyid := skin_bonebodyid m j in
  let quatneg := mju_negQuat bindquat in
  let quat := mju_mulQuat (vec4_at (offset (xquat d) (4 * bodyid))) quatneg in
  mju_quat2Mat quat.

Definition bone_translate (j : Z) : vec3 :=
  let bindpos := vec3_at (offset (skin_bonebindpos m) (3 * j)) in
  let bodyid := skin_bonebodyid m j in
  (* compute translation *)
  let translate := mju_rotVecMat bindpos (bone_rotate j) in
  mju_sub3 (vec3_at (offset (xpos d) (3 * bodyid))) translate.

(** process all bone vertices *)
Definition skin_bone (vertadr j : Z) (skinvert : array R) : array R :=
  let rotate := bone_rotate j in
  let translate := bone_translate j in
  fold_left (fun skinvert k =>
    (* vertex id and weight *)
    let vid := skin_bonevertid m k in
    let vweight := skin_bonevertweight m k in
    (* get original position *)
    let pos := vec3_at (offset (skin_vert m) (3 * (vertadr + vid))) in
    (* transform *)
    let pos1 := mju_add3 (mju_rotVecMat pos rotate) translate in
    (* accumulate position *)
    let skinvert := add_at skinvert (3 * (vertadr + vid)) (vweight * c0 pos1) in
    let skinvert := add_at skinvert (3 * (vertadr + vid) + 1) (vweight * c1 pos1) in
    add_at skinvert (3 * (vertadr + vid) + 2) (vweight * c2 pos1))
    (range (skin_bonevertadr m j) (skin_bonevertadr m j + skin_bonevertnum m j)) skinvert.

(** accumulate positions from all bones *)
Definition skin_positions (i : Z) (skinvert : array R) : array R :=
  fold_left (fun skinvert j => skin_bone (skin_vertadr m i) j skinvert)
    (range (skin_boneadr m i) (skin_boneadr m i + skin_bonenum m i)) skinvert.

(** compute vertex normals from face normals *)
Definition skin_face_normals (i : Z) (skinvert skinnormal : array R) : array R :=
  let vertadr := skin_vertadr m i in
  fold_left (fun skinnormal k =>
    (* get face vertex indices *)
    let vid0 := skin_face m (3 * k) in
    let vid1 := skin_face m (3 * k + 1) in
    let vid2 := skin_face m (3 * k + 2) in
    (* get triangle edges *)
    let v0 := vec3_at (offset skinvert (3 * (vertadr + vid0))) in
    let v1 := vec3_at (offset skinvert (3 * (vertadr + vid1))) in
    let v2 := vec3_at (offset skinvert (3 * (vertadr + vid2))) in
    let vec01 := mju_sub3 v1 v0 in
    let vec02 := mju_sub3 v2 v0 in
    (* compute face normal *)
    let nrm := mju_cross vec01 vec02 in
    (* add normal to each vertex with weight = area *)
    fold_left (fun skinnormal vid =>
      let skinnormal := add_at skinnormal (3 * (vertadr + vid)) (c0 nrm) in
      let skinnormal := add_at skinnormal (3 * (vertadr + vid) + 1) (c1 nrm) in
      add_at skinnormal (3 * (vertadr + vid) + 2) (c2 nrm))
      [vid0; vid1; vid2] skinnormal)
    (range (skin_faceadr m i) (skin_faceadr m i + skin_facenum m i)) skinnormal.

(** normalize normals *)
Definition skin_normalize (i : Z) (skinnormal : array R) : array R :=
  fold_left (fun skinnormal k =>
    let s := sqrt (skinnormal (3 * k) * skinnormal (3 * k)
                   + skinnormal (3 * k + 1) * skinnormal (3 * k + 1)
                   + skinnormal (3 * k + 2) * skinnormal (3 * k + 2)) in
    let scl := (1 / mjMAX mjMINVAL s)%R in
    let skinnormal := upd skinnormal (3 * k) (skinnormal (3 * k)%Z * scl)%R in
    let skinnormal := upd skinnormal (3 * k + 1) (skinnormal (3 * k + 1)%Z * scl)%R in
    upd skinnormal (3 * k + 2) (skinnormal (3 * k + 2)%Z * scl)%R)
    (range (skin_vertadr m i) (skin_vertadr m i + skin_vertnum m i)) skinnormal.

(** inflate *)
Definition skin_inflated (i : Z) (skinvert skinnormal : array R) : array R :=
  if negb (Reqb (skin_inflate m i) 0) then
    let inflate := skin_inflate m i in
    fold_left (fun skinvert k =>
      let skinvert := add_at skinvert (3 * k) (inflate * skinnormal (3 * k)%Z) in
      let skinvert := add_at skinvert (3 * k + 1) (inflate * skinnormal (3 * k + 1)%Z) in
      add_at skinvert (3 * k + 2) (inflate * skinnormal (3 * k + 2)%Z))
      (range (skin_vertadr m i) (skin_vertadr m i + skin_vertnum m i)) skinvert
  else skinvert.

(** The body of the loop over skins, for skin [i]. *)
Definition updateSkin_one (scn : mjvScene) (i : Z) : mjvScene :=
  (* get info *)
  let vertadr := skin_vertadr m i in
  let vertnum := skin_vertnum m i in
  (* clear positions and normals *)
  let skinvert := memset0 (skinvert scn) (3 * vertadr) (3 * vertnum) in
  let skinnormal := memset0 (skinnormal scn) (3 * vertadr) (3 * vertnum) in
  let skinvert := skin_positions i skinvert in
  let skinnormal := skin_face_normals i skinvert skinnormal in
  let skinnormal := skin_normalize i skinnormal in
  let skinvert := skin_inflated i skinvert skinnormal in
  set_skinnormal (set_skinvert scn skinvert) skinnormal.

(** [mjv_updateSkin]: update skins only. *)
Definition mjv_updateSkin (scn : mjvScene) : mjvScene :=
  fold_left updateSkin_one (range 0 (nskin m)) scn.

End UpdateSkin.

(** ** The whole scene *)

(** A pure function on the scene as a computation. *)
Definition on_scn (f : mjvScene -> mjvScene) : M unit :=
  sc <- get_scn ;; put_scn (f sc).

(** [mjv_updateScene]: update entire scene.  The result is the camera, which
    the function updates in place. *)
Definition mjv_updateScene (m : mjModel) (d : mjData) (opt : mjvOption)
    (pert : option mjvPerturb) (cam : option mjvCamera) (catmask : Z)
    : M (option mjvCamera) :=
  (* clear geoms and add all categories *)
  on_scn (fun sc => set_scn_ngeom sc 0) ;;
  call (mjv_addGeoms m d opt pert catmask) ;;
  (* add lights *)
  on_scn (mjv_makeLights m d) ;;
  (* update camera *)
  sc <- get_scn ;;
  match mjv_updateCamera (Some m) d cam sc with
  | Err e => mju_error e
  | Ok (cam, sc) =>
      put_scn sc ;;
      (* update skins *)
      when (vopt_flags opt mjVIS_SKIN) then on_scn (mjv_updateSkin m d) ;;
      ret cam
  end.

(** The outcome of a call of a void function from outside: the final state, or
    the error of [mju_error]. *)
Definition exec {A} (c : M A) (s : vstate) : result vstate :=
  match c s with
  | Next _ s' => Ok s'
  | Return s' => Ok s'
  | Fatal e => Err e
  end.

(** The abstract geoms of a scene, in the order of emission. *)
Definition scene_geoms (sc : mjvScene) : list mjvGeom :=
  map (geoms sc) (range 0 (scn_ngeom sc)).

End Vis.

(** * Properties *)

Import Util Vis.
Local Open Scope Z_scope.

(** ** Comparisons and constants *)

Lemma Rltb_true a b : Rltb a b = true <-> (a < b)%R.
Proof. unfold Rltb; destruct (Rlt_dec a b); split; intros; auto; discriminate. Qed.

Lemma Rltb_false a b : Rltb a b = false <-> (b <= a)%R.
Proof.
  unfold Rltb; destruct (Rlt_dec a b); split; intros; auto; try discriminate; lra.
Qed.

Lemma Rleb_true a b : Rleb a b = true <-> (a <= b)%R.
Proof. unfold Rleb; destruct (Rle_dec a b); split; intros; auto; discriminate. Qed.

Lemma Rleb_false a b : Rleb a b = false <-> (b < a)%R.
Proof.
  unfold Rleb; destruct (Rle_dec a b); split; intros; auto; try discriminate; lra.
Qed.

Lemma Reqb_true a b : Reqb a b = true <-> a = b.
Proof. unfold Reqb; destruct (Req_dec_T a b); split; intros; auto; discriminate. Qed.

Lemma Reqb_false a b : Reqb a b = false <-> a <> b.
Proof.
  unfold Reqb; destruct (Req_dec_T a b); split; intros; auto; try discriminate; contradiction.
Qed.

Lemma Reqb_refl a : Reqb a a = true.
Proof. now apply Reqb_true. Qed.

Lemma mjMINVAL_pos : (0 < mjMINVAL)%R.
Proof. unfold mjMINVAL. apply Rinv_0_lt_compat. apply pow_lt. lra. Qed.

Lemma mjMAX_spec a b : mjMAX a b = Rmax a b.
Proof.
  unfold mjMAX, Rmax. destruct (Rltb b a) eqn:E.
  - apply Rltb_true in E. destruct (Rle_dec a b); lra.
  - apply Rltb_false in E. destruct (Rle_dec a b); lra.
Qed.

Lemma mjMIN_spec a b : mjMIN a b = Rmin a b.
Proof.
  unfold mjMIN, Rmin. destruct (Rltb a b) eqn:E.
  - apply Rltb_true in E. destruct (Rle_dec a b); lra.
  - apply Rltb_false in E. destruct (Rle_dec a b); lra.
Qed.

(** Case analysis on every real comparison of the goal. *)
Ltac rcases :=
  repeat match goal with
  | |- context [Rltb ?a ?b] =>
      let E := fresh "E" in
      destruct (Rltb a b) eqn:E; [apply Rltb_true in E | apply Rltb_false in E]
  | |- context [Rleb ?a ?b] =>
      let E := fresh "E" in
      destruct (Rleb a b) eqn:E; [apply Rleb_true in E | apply Rleb_false in E]
  | |- context [Reqb ?a ?b] =>
      let E := fresh "E" in
      destruct (Reqb a b) eqn:E; [apply Reqb_true in E | apply Reqb_false in E]
  end.

(** Projections of updated geoms. *)
Ltac geom_simpl :=
  cbn [type dataid objtype objid category texid texuniform texcoord segid texrepeat size
       pos mat rgba emission specular shininess reflectance label modelrbound
       set_type set_dataid set_objtype set_objid set_category set_texid
       set_texuniform set_texcoord set_segid set_texrepeat set_size set_pos set_mat
       set_rgba set_emission set_specular set_shininess set_reflectance set_label
       set_modelrbound].

(** Evaluation of the walk on a concrete input: everything is computed but
    the operations on real numbers. *)
Ltac vis_eval :=
  lazy -[Rplus Rminus Rmult Rinv Rdiv Ropp sqrt sin cos tan acos IZR Rlt_dec Rle_dec
         Req_dec_T Rpower PI Int_part up Rmax Rmin Rabs].

(** ** Connectors: the type contract *)

Lemma connector_guard type :
  negb (type =? mjGEOM_CAPSULE) && negb (type =? mjGEOM_CYLINDER)
  && negb (type =? mjGEOM_ARROW) && negb (type =? mjGEOM_ARROW1)
  && negb (type =? mjGEOM_ARROW2) && negb (type =? mjGEOM_LINE)
  = negb (connector_type type).
Proof.
  unfold connector_type.
  destruct (type =? mjGEOM_CAPSULE), (type =? mjGEOM_CYLINDER), (type =? mjGEOM_ARROW),
    (type =? mjGEOM_ARROW1), (type =? mjGEOM_ARROW2), (type =? mjGEOM_LINE); reflexivity.
Qed.

Lemma connector_type_iff type :
  connector_type type = true <->
  type = mjGEOM_CAPSULE \/ type = mjGEOM_CYLINDER \/ type = mjGEOM_ARROW
  \/ type = mjGEOM_ARROW1 \/ type = mjGEOM_ARROW2 \/ type = mjGEOM_LINE.
Proof.
  unfold connector_type. rewrite !orb_true_iff, !Z.eqb_eq. tauto.
Qed.

Lemma makeConnector_accepts geom ty width a0 a1 a2 b0 b1 b2 :
  connector_type ty = true ->
  exists geom', mjv_makeConnector geom ty width a0 a1 a2 b0 b1 b2 = Ok geom'
                /\ type geom' = ty.
Proof.
  intros H. unfold mjv_makeConnector. rewrite connector_guard, H. simpl.
  eexists; split; [reflexivity|].
  destruct ((ty =? mjGEOM_CAPSULE) || (ty =? mjGEOM_CYLINDER)); reflexivity.
Qed.

(** C8.  [mjv_makeConnector] called with a type outside the set {capsule,
    cylinder, arrow, arrow1, arrow2, line} raises the fatal error and
    returns no geom: the geom passed in has not been assigned, and inside
    the scene walk the computation stops with [Fatal] whatever follows, so
    FINISH never counts the primitive.  For a type of the set the call
    returns a geom and no error. *)
Theorem makeConnector_type_contract :
  forall (geom : mjvGeom) (ty : Z) (width a0 a1 a2 b0 b1 b2 : R),
    (connector_type ty = false ->
       mjv_makeConnector geom ty width a0 a1 a2 b0 b1 b2
         = Err (Invalid_geom_type_for_connector ty)
       /\ forall (A : Type) (k : unit -> M A) (s : vstate),
            bind (assign_result (fun g => mjv_makeConnector g ty width a0 a1 a2 b0 b1 b2)) k s
              = Fatal (Invalid_geom_type_for_connector ty))
    /\ (connector_type ty = true ->
          exists geom', mjv_makeConnector geom ty width a0 a1 a2 b0 b1 b2 = Ok geom'
                        /\ type geom' = ty).
Proof.
  intros. split; intros H.
  - assert (E : forall g, mjv_makeConnector g ty width a0 a1 a2 b0 b1 b2
                          = Err (Invalid_geom_type_for_connector ty)).
    { intros g. unfold mjv_makeConnector. rewrite connector_guard, H. reflexivity. }
    split; [apply E|].
    intros A k s. unfold bind, assign_result, thisgeom, bind, get_scn, ret.
    rewrite E. reflexivity.
  - apply makeConnector_accepts, H.
Qed.

(** A use of the contract: a sphere is refused, a capsule is accepted. *)
Lemma makeConnector_type_contract_witness :
  mjv_makeConnector zero_mjvGeom mjGEOM_SPHERE 1 0 0 0 0 0 1
    = Err (Invalid_geom_type_for_connector mjGEOM_SPHERE)
  /\ exists geom', mjv_makeConnector zero_mjvGeom mjGEOM_CAPSULE 1 0 0 0 0 0 1 = Ok geom'
                   /\ type geom' = mjGEOM_CAPSULE.
Proof.
  split.
  - apply (makeConnector_type_contract zero_mjvGeom mjGEOM_SPHERE 1 0 0 0 0 0 1).
    reflexivity.
  - apply (makeConnector_type_contract zero_mjvGeom mjGEOM_CAPSULE 1 0 0 0 0 0 1).
    reflexivity.
Defined.

(** ** Connectors: size, position and orientation *)

Section Rotation.
Local Open Scope R_scope.

Lemma norm3_nonneg v : 0 <= mju_norm3 v.
Proof. apply sqrt_pos. Qed.

Lemma norm3_sqr v : mju_norm3 v * mju_norm3 v = mju_dot3 v v.
Proof. unfold mju_norm3, mju_dot3. apply sqrt_sqrt. nra. Qed.

Lemma norm3_zero_iff v : mju_norm3 v = 0 <-> v = V3 0 0 0.
Proof.
  split.
  - intros H. pose proof (norm3_sqr v) as S. rewrite H in S.
    unfold mju_dot3 in S. destruct v as [x y z]; simpl in *.
    assert (x = 0) by nra. assert (y = 0) by nra. assert (z = 0) by nra.
    subst; reflexivity.
  - intros ->. unfold mju_norm3; simpl.
    replace (0 * 0 + 0 * 0 + 0 * 0) with 0 by ring. apply sqrt_0.
Qed.

(** The unit vector of a direction of non-zero length. *)
Lemma unit_direction v :
  mju_norm3 v <> 0 ->
  mju_dot3 (mju_scl3 v (/ mju_norm3 v)) (mju_scl3 v (/ mju_norm3 v)) = 1.
Proof.
  intros H. pose proof (norm3_sqr v) as S. unfold mju_dot3, mju_scl3 in *; simpl.
  set (n := mju_norm3 v) in *.
  replace (c0 v * / n * (c0 v * / n) + c1 v * / n * (c1 v * / n) + c2 v * / n * (c2 v * / n))
    with ((c0 v * c0 v + c1 v * c1 v + c2 v * c2 v) * (/ n * / n)) by ring.
  rewrite <- S. field. exact H.
Qed.

(** Half-angle identities for the angle [acos c]. *)
Lemma half_angle c :
  -1 <= c <= 1 ->
  2 * sin (acos c * / 2) * cos (acos c * / 2) = sqrt (1 - c * c)
  /\ cos (acos c * / 2) * cos (acos c * / 2) - sin (acos c * / 2) * sin (acos c * / 2) = c.
Proof.
  intros H. split.
  - rewrite <- sin_2a. replace (2 * (acos c * / 2)) with (acos c) by field.
    rewrite sin_acos by exact H. unfold Rsqr. reflexivity.
  - rewrite <- cos_2a. replace (2 * (acos c * / 2)) with (acos c) by field.
    apply cos_acos; exact H.
Qed.

(** The matrix of a unit quaternion is orthonormal. *)
Definition orthonormal (r : mat9) : Prop :=
  e0 r * e0 r + e3 r * e3 r + e6 r * e6 r = 1
  /\ e1 r * e1 r + e4 r * e4 r + e7 r * e7 r = 1
  /\ e2 r * e2 r + e5 r * e5 r + e8 r * e8 r = 1
  /\ e0 r * e1 r + e3 r * e4 r + e6 r * e7 r = 0
  /\ e0 r * e2 r + e3 r * e5 r + e6 r * e8 r = 0
  /\ e1 r * e2 r + e4 r * e5 r + e7 r * e8 r = 0.

Lemma quat2Mat_orthonormal q :
  q0 q * q0 q + q1 q * q1 q + q2 q * q2 q + q3 q * q3 q = 1 ->
  orthonormal (mju_quat2Mat q).
Proof.
  intros H. destruct q as [a b c d]; simpl in H.
  assert (H2 : (a * a + b * b + c * c + d * d) * (a * a + b * b + c * c + d * d) = 1)
    by (rewrite H; ring).
  unfold orthonormal, mju_quat2Mat; simpl.
  repeat split; try (rewrite <- H2; ring);
    match goal with |- ?l = 0 => transitivity (0 * (a * a + b * b + c * c + d * d)); [ring | ring] end.
Qed.

(** The determinant of a matrix, as the triple product of its columns. *)
Definition det3 (r : mat9) : R :=
  e0 r * (e4 r * e8 r - e7 r * e5 r)
  + e3 r * (e7 r * e2 r - e1 r * e8 r)
  + e6 r * (e1 r * e5 r - e4 r * e2 r).

Lemma quat2Mat_det q :
  q0 q * q0 q + q1 q * q1 q + q2 q * q2 q + q3 q * q3 q = 1 ->
  det3 (mju_quat2Mat q) = 1.
Proof.
  intros H. destruct q as [a b c d]; simpl in H.
  transitivity ((a * a + b * b + c * c + d * d) * (a * a + b * b + c * c + d * d)
                * (a * a + b * b + c * c + d * d)).
  - unfold det3, mju_quat2Mat; simpl. ring.
  - rewrite H. ring.
Qed.

Lemma sum_sqr_zero x y z : x * x + y * y + z * z = 0 -> x = 0 /\ y = 0 /\ z = 0.
Proof. intros H. repeat split; nra. Qed.

(** In a rotation (orthonormal, determinant 1) every column is the cross
    product of the two others. *)
Lemma rotation_cofactors r :
  orthonormal r -> det3 r = 1 ->
  e0 r = e4 r * e8 r - e7 r * e5 r
  /\ e4 r = e8 r * e0 r - e2 r * e6 r
  /\ e8 r = e0 r * e4 r - e3 r * e1 r.
Proof.
  intros (A & B & C & AB & AC & BC) D. unfold det3 in D.
  destruct r as [r0 r1 r2 r3 r4 r5 r6 r7 r8]; cbn [e0 e1 e2 e3 e4 e5 e6 e7 e8] in *.
  assert (Ha : (r0 - (r4 * r8 - r7 * r5)) * (r0 - (r4 * r8 - r7 * r5))
               + (r3 - (r7 * r2 - r1 * r8)) * (r3 - (r7 * r2 - r1 * r8))
               + (r6 - (r1 * r5 - r4 * r2)) * (r6 - (r1 * r5 - r4 * r2)) = 0).
  { transitivity ((r0 * r0 + r3 * r3 + r6 * r6)
                  - 2 * (r0 * (r4 * r8 - r7 * r5) + r3 * (r7 * r2 - r1 * r8)
                         + r6 * (r1 * r5 - r4 * r2))
                  + ((r1 * r1 + r4 * r4 + r7 * r7) * (r2 * r2 + r5 * r5 + r8 * r8)
                     - (r1 * r2 + r4 * r5 + r7 * r8) * (r1 * r2 + r4 * r5 + r7 * r8)));
      [ring|]. rewrite A, B, C, BC, D. ring. }
  assert (Hb : (r1 - (r5 * r6 - r8 * r3)) * (r1 - (r5 * r6 - r8 * r3))
               + (r4 - (r8 * r0 - r2 * r6)) * (r4 - (r8 * r0 - r2 * r6))
               + (r7 - (r2 * r3 - r5 * r0)) * (r7 - (r2 * r3 - r5 * r0)) = 0).
  { transitivity ((r1 * r1 + r4 * r4 + r7 * r7)
                  - 2 * (r0 * (r4 * r8 - r7 * r5) + r3 * (r7 * r2 - r1 * r8)
                         + r6 * (r1 * r5 - r4 * r2))
                  + ((r2 * r2 + r5 * r5 + r8 * r8) * (r0 * r0 + r3 * r3 + r6 * r6)
                     - (r0 * r2 + r3 * r5 + r6 * r8) * (r0 * r2 + r3 * r5 + r6 * r8)));
      [ring|]. rewrite A, B, C, AC, D. ring. }
  assert (Hc : (r2 - (r3 * r7 - r6 * r4)) * (r2 - (r3 * r7 - r6 * r4))
               + (r5 - (r6 * r1 - r0 * r7)) * (r5 - (r6 * r1 - r0 * r7))
               + (r8 - (r0 * r4 - r3 * r1)) * (r8 - (r0 * r4 - r3 * r1)) = 0).
  { transitivity ((r2 * r2 + r5 * r5 + r8 * r8)
                  - 2 * (r0 * (r4 * r8 - r7 * r5) + r3 * (r7 * r2 - r1 * r8)
                         + r6 * (r1 * r5 - r4 * r2))
                  + ((r0 * r0 + r3 * r3 + r6 * r6) * (r1 * r1 + r4 * r4 + r7 * r7)
                     - (r0 * r1 + r3 * r4 + r6 * r7) * (r0 * r1 + r3 * r4 + r6 * r7)));
      [ring|]. rewrite A, B, C, AB, D. ring. }
  apply sum_sqr_zero in Ha as (Ha & _ & _).
  apply sum_sqr_zero in Hb as (_ & Hb & _).
  apply sum_sqr_zero in Hc as (_ & _ & Hc).
  repeat split; lra.
Qed.

(** The trace of a rotation is at most 1 + 2 r22: with S = 1 + r22 - r00 -
    r11, the squares of r10 - r01, r02 + r20, r12 + r21 and S add up to
    4 S.  The trace of a rotation by the angle theta is 1 + 2 cos theta, so
    the angle of a rotation that maps the z axis to u is at least the angle
    between the z axis and u. *)
Lemma rotation_trace_bound r :
  orthonormal r -> det3 r = 1 ->
  e0 r + e4 r + e8 r <= 1 + 2 * e8 r.
Proof.
  intros O D. destruct (rotation_cofactors O D) as (K0 & K4 & K8).
  destruct O as (A & B & C & _).
  destruct r as [r0 r1 r2 r3 r4 r5 r6 r7 r8]; cbn [e0 e1 e2 e3 e4 e5 e6 e7 e8] in *.
  set (S := 1 + r8 - r0 - r4).
  assert (I : (r3 - r1) * (r3 - r1) + (r2 + r6) * (r2 + r6) + (r5 + r7) * (r5 + r7)
              + S * S - 4 * S
              = (r0 * r0 + r3 * r3 + r6 * r6 - 1) + (r1 * r1 + r4 * r4 + r7 * r7 - 1)
                + (r2 * r2 + r5 * r5 + r8 * r8 - 1)
                - 2 * (r8 - (r0 * r4 - r3 * r1)) + 2 * (r4 - (r8 * r0 - r2 * r6))
                + 2 * (r0 - (r4 * r8 - r7 * r5))) by (unfold S; ring).
  rewrite A, B, C, <- K0, <- K4, <- K8 in I.
  pose proof (Rle_0_sqr (r3 - r1)) as P1. pose proof (Rle_0_sqr (r2 + r6)) as P2.
  pose proof (Rle_0_sqr (r5 + r7)) as P3. pose proof (Rle_0_sqr S) as P4.
  unfold Rsqr in P1, P2, P3, P4. unfold S in *. lra.
Qed.

(** What the orientation of a connector does: [r] is a rotation (an
    orthonormal matrix of determinant 1) that maps the z axis to the unit
    vector of [v] and leaves the common normal of the z axis and [v] in
    place; its angle [theta], read off the trace [1 + 2 cos theta], is the
    angle between the z axis and [v]; and it is minimal: no rotation that
    maps the z axis to the unit vector of [v] has a larger trace, that is,
    a smaller angle. *)
Definition minimal_rotation_z_to (v : vec3) (r : mat9) : Prop :=
  let u := mju_scl3 v (/ mju_norm3 v) in
  orthonormal r
  /\ det3 r = 1
  /\ mju_mulMatVec r (V3 0 0 1) = u
  /\ mju_mulMatVec r (mju_cross (V3 0 0 1) v) = mju_cross (V3 0 0 1) v
  /\ e0 r + e4 r + e8 r = 1 + 2 * c2 u
  /\ (forall r',
        orthonormal r' -> det3 r' = 1 -> mju_mulMatVec r' (V3 0 0 1) = u ->
        e0 r' + e4 r' + e8 r' <= e0 r + e4 r + e8 r).

End Rotation.

Section ConnectorProofs.
Local Open Scope R_scope.

Lemma quatZ2Vec_zero v : mju_norm3 v = 0 -> mju_quatZ2Vec v = V4 1 0 0 0.
Proof.
  intros H. unfold mju_quatZ2Vec. rewrite H, Reqb_refl. reflexivity.
Qed.

Lemma quat2Mat_identity : mju_quat2Mat (V4 1 0 0 0) = IDENTITY.
Proof.
  unfold mju_quat2Mat, IDENTITY; simpl. f_equal; ring.
Qed.

(** The three cases of [mju_quatZ2Vec] for a direction of non-zero length,
    in terms of the unit vector [(ux, uy, uz)]. *)
Lemma quatZ2Vec_cases x y z :
  let n := mju_norm3 (V3 x y z) in
  let ux := x * / n in let uy := y * / n in let uz := z * / n in
  let a := sqrt (ux * ux + uy * uy) in
  n <> 0 ->
  (a = 0 /\ uz < 0 /\ mju_quatZ2Vec (V3 x y z) = V4 0 1 0 0)
  \/ (a = 0 /\ 0 <= uz /\ mju_quatZ2Vec (V3 x y z) = V4 1 0 0 0)
  \/ (a <> 0 /\
      mju_quatZ2Vec (V3 x y z)
        = V4 (cos (acos uz * / 2)) (- uy * / a * sin (acos uz * / 2))
             (ux * / a * sin (acos uz * / 2)) (0 * / a * sin (acos uz * / 2))).
Proof.
  intros n ux uy uz a Hn.
  unfold mju_quatZ2Vec; cbv zeta. fold n.
  apply Reqb_false in Hn as En. rewrite En.
  unfold mju_scl3, mju_cross, mju_dot3, mju_norm3; cbn [c0 c1 c2].
  fold (mju_norm3 (V3 x y z)). fold n. fold ux uy uz.
  replace (0 * uz - 1 * uy) with (- uy) by ring.
  replace (1 * ux - 0 * uz) with ux by ring.
  replace (0 * uy - 0 * ux) with 0 by ring.
  replace (- uy * - uy + ux * ux + 0 * 0) with (ux * ux + uy * uy) by ring.
  replace (ux * 0 + uy * 0 + uz * 1) with uz by ring.
  fold a.
  destruct (Reqb a 0) eqn:Ea.
  - apply Reqb_true in Ea.
    destruct (Rltb uz 0) eqn:Eu.
    + apply Rltb_true in Eu. left. auto.
    + apply Rltb_false in Eu. right; left. auto.
  - apply Reqb_false in Ea. right; right. split; [exact Ea|].
    unfold mju_axisAngle2Quat; cbn [c0 c1 c2]. reflexivity.
Qed.

(** The orientation computed for a direction [v] of non-zero length. *)
Lemma quatZ2Vec_aligned v :
  mju_norm3 v <> 0 ->
  let u := mju_scl3 v (/ mju_norm3 v) in
  let r := mju_quat2Mat (mju_quatZ2Vec v) in
  orthonormal r
  /\ det3 r = 1
  /\ mju_mulMatVec r (V3 0 0 1) = u
  /\ mju_mulMatVec r (mju_cross (V3 0 0 1) v) = mju_cross (V3 0 0 1) v
  /\ e0 r + e4 r + e8 r = 1 + 2 * c2 u.
Proof.
  intros Hn. cbv zeta.
  pose proof (unit_direction v Hn) as Hu.
  pose proof (norm3_nonneg v) as Hpos.
  destruct v as [x y z].
  pose proof (quatZ2Vec_cases x y z Hn) as Hq. cbv zeta in Hq.
  unfold mju_scl3, mju_dot3 in Hu; cbn [c0 c1 c2] in Hu.
  unfold mju_scl3, mju_cross; cbn [c0 c1 c2].
  set (n := mju_norm3 (V3 x y z)) in *.
  assert (Hn0 : 0 < n) by lra.
  set (ux := x * / n) in *. set (uy := y * / n) in *. set (uz := z * / n) in *.
  assert (Hx : x = n * ux) by (unfold ux; field; lra).
  assert (Hy : y = n * uy) by (unfold uy; field; lra).
  set (a := sqrt (ux * ux + uy * uy)) in *.
  assert (Ha2 : a * a = ux * ux + uy * uy) by (apply sqrt_sqrt; nra).
  assert (Ha0 : 0 <= a) by apply sqrt_pos.
  destruct Hq as [(Ea & Eu & ->) | [(Ea & Eu & ->) | (Ea & ->)]].
  - (* the direction is the opposite of the z axis *)
    rewrite Ea in Ha2.
    assert (Hux : ux = 0) by nra. assert (Huy : uy = 0) by nra.
    assert (Huz : uz = -1) by nra.
    rewrite Hx, Hy, Hux, Huy, Huz.
    unfold orthonormal, det3, mju_quat2Mat, mju_mulMatVec;
      cbn [e0 e1 e2 e3 e4 e5 e6 e7 e8 q0 q1 q2 q3 c0 c1 c2].
    repeat split; try ring; f_equal; ring.
  - (* the direction is the z axis *)
    rewrite Ea in Ha2.
    assert (Hux : ux = 0) by nra. assert (Huy : uy = 0) by nra.
    assert (Huz : uz = 1) by nra.
    rewrite Hx, Hy, Hux, Huy, Huz.
    unfold orthonormal, det3, mju_quat2Mat, mju_mulMatVec;
      cbn [e0 e1 e2 e3 e4 e5 e6 e7 e8 q0 q1 q2 q3 c0 c1 c2].
    repeat split; try ring; f_equal; ring.
  - (* the general case: rotation about the common normal *)
    assert (Hapos : 0 < a) by lra.
    assert (Hc : -1 <= uz <= 1) by nra.
    destruct (half_angle Hc) as [Hs2 Hc2].
    assert (Hsq : sqrt (1 - uz * uz) = a).
    { unfold a. f_equal. nra. }
    rewrite Hsq in Hs2.
    pose proof (sin2_cos2 (acos uz * / 2)) as H1. unfold Rsqr in H1.
    set (s := sin (acos uz * / 2)) in *. set (c := cos (acos uz * / 2)) in *.
    assert (Hax : (- uy * / a) * (- uy * / a) + (ux * / a) * (ux * / a) = 1).
    { replace ((- uy * / a) * (- uy * / a) + (ux * / a) * (ux * / a))
        with ((ux * ux + uy * uy) * (/ a * / a)) by ring.
      rewrite <- Ha2. field. lra. }
    replace (0 * / a * s) with 0 by ring.
    set (p := - uy * / a) in *. set (q := ux * / a) in *.
    assert (Hux : ux = a * q) by (unfold q; field; lra).
    assert (Huy : uy = - (a * p)) by (unfold p; field; lra).
    assert (Hq1 : c * c + p * s * (p * s) + q * s * (q * s) + 0 * 0 = 1).
    { replace (c * c + p * s * (p * s) + q * s * (q * s) + 0 * 0)
        with (c * c + s * s * (p * p + q * q)) by ring.
      rewrite Hax. lra. }
    split; [apply quat2Mat_orthonormal; exact Hq1|].
    split; [apply quat2Mat_det; exact Hq1|].
    unfold mju_quat2Mat, mju_mulMatVec;
      cbn [e0 e1 e2 e3 e4 e5 e6 e7 e8 q0 q1 q2 q3 c0 c1 c2].
    split; [|split].
    + f_equal.
      * transitivity (2 * s * c * q); [ring|]. rewrite Hs2. rewrite Hux. ring.
      * transitivity (- (2 * s * c * p)); [ring|]. rewrite Hs2. rewrite Huy. ring.
      * transitivity (c * c - s * s * (p * p + q * q)); [ring|]. rewrite Hax. lra.
    + rewrite Hx, Hy, Hux, Huy.
      f_equal.
      * transitivity (n * a * p * (c * c + s * s * (p * p + q * q))); [ring|].
        rewrite Hax. transitivity (n * a * p * (s * s + c * c)); [ring|].
        rewrite H1. ring.
      * transitivity (n * a * q * (c * c + s * s * (p * p + q * q))); [ring|].
        rewrite Hax. transitivity (n * a * q * (s * s + c * c)); [ring|].
        rewrite H1. ring.
      * ring.
    + transitivity (3 * (c * c) - s * s * (p * p + q * q)); [ring|]. rewrite Hax.
      lra.
Qed.

(** The orientation computed for a direction [v] of non-zero length is the
    minimal rotation of the z axis onto it. *)
Lemma quatZ2Vec_minimal v :
  mju_norm3 v <> 0 ->
  minimal_rotation_z_to v (mju_quat2Mat (mju_quatZ2Vec v)).
Proof.
  intros Hn. destruct (@quatZ2Vec_aligned v Hn) as (O & D & Z & F & T).
  unfold minimal_rotation_z_to.
  split; [exact O|]. split; [exact D|]. split; [exact Z|]. split; [exact F|].
  split; [exact T|].
  intros r' O' D' Z'. rewrite T.
  pose proof (@rotation_trace_bound r' O' D') as B.
  assert (E : e8 r' = c2 (mju_scl3 v (/ mju_norm3 v))).
  { rewrite <- Z'. unfold mju_mulMatVec; cbn [c0 c1 c2]. ring. }
  rewrite <- E. exact B.
Qed.

End ConnectorProofs.

(** C2.  For a connector-compatible type, a width [w] and end points A and
    B, [mjv_makeConnector] sets the size to (w, w, L), where L is |B-A| for
    the arrows and the line and |B-A|/2 for capsule and cylinder; it puts
    capsule and cylinder at the midpoint of the segment and the other types
    at A; and the orientation is the minimal rotation that maps the local z
    axis onto the unit vector (B-A)/|B-A|, the identity (no rotation) when
    B-A has zero length. *)
Theorem makeConnector_geometry :
  forall (geom : mjvGeom) (ty : Z) (width a0 a1 a2 b0 b1 b2 : R),
    connector_type ty = true ->
    let dif := V3 (b0 - a0) (b1 - a1) (b2 - a2) in
    let L := mju_norm3 dif in
    let centered := (ty =? mjGEOM_CAPSULE) || (ty =? mjGEOM_CYLINDER) in
    exists g,
      mjv_makeConnector geom ty width a0 a1 a2 b0 b1 b2 = Ok g
      /\ type g = ty
      /\ size g = V3 width width (if centered then L / 2 else L)%R
      /\ pos g = (if centered
                  then V3 ((a0 + b0) / 2) ((a1 + b1) / 2) ((a2 + b2) / 2)
                  else V3 a0 a1 a2)
      /\ (L <> 0%R -> minimal_rotation_z_to dif (mat g))
      /\ (L = 0%R -> mat g = IDENTITY).
Proof.
  intros geom ty width a0 a1 a2 b0 b1 b2 H dif L centered.
  unfold mjv_makeConnector. rewrite connector_guard, H. cbn [negb].
  fold dif. fold centered.
  destruct centered eqn:Ec.
  - eexists. split; [reflexivity|].
    geom_simpl; cbn [c0 c1 c2].
    split; [reflexivity|]. split; [|split; [|split]].
    + f_equal. fold L. lra.
    + f_equal; lra.
    + intros HL. apply quatZ2Vec_minimal. exact HL.
    + intros HL. rewrite (quatZ2Vec_zero dif HL). apply quat2Mat_identity.
  - eexists. split; [reflexivity|].
    geom_simpl; cbn [c0 c1 c2].
    split; [reflexivity|]. split; [reflexivity|]. split; [reflexivity|]. split.
    + intros HL. apply quatZ2Vec_minimal. exact HL.
    + intros HL. rewrite (quatZ2Vec_zero dif HL). apply quat2Mat_identity.
Qed.

(** The theorem at an arrow from the origin to (3, 0, 4), of length 5. *)
Lemma makeConnector_geometry_witness :
  let dif := V3 (3 - 0) (0 - 0) (4 - 0) in
  let L := mju_norm3 dif in
  let centered := (mjGEOM_ARROW =? mjGEOM_CAPSULE) || (mjGEOM_ARROW =? mjGEOM_CYLINDER) in
  exists g,
    mjv_makeConnector zero_mjvGeom mjGEOM_ARROW (1 / 10) 0 0 0 3 0 4 = Ok g
    /\ type g = mjGEOM_ARROW
    /\ size g = V3 (1 / 10) (1 / 10) (if centered then L / 2 else L)%R
    /\ pos g = (if centered
                then V3 ((0 + 3) / 2) ((0 + 0) / 2) ((0 + 4) / 2)
                else V3 0 0 0)
    /\ (L <> 0%R -> minimal_rotation_z_to dif (mat g))
    /\ (L = 0%R -> mat g = IDENTITY).
Proof.
  apply (makeConnector_geometry zero_mjvGeom mjGEOM_ARROW (1 / 10) 0 0 0 3 0 4).
  reflexivity.
Defined.

(** ** Material resolution *)

(** The canonical "unset" color: mid-gray, alpha 1. *)
Definition unset_rgba : vec4 := V4 (1 / 2) (1 / 2) (1 / 2) 1.

(** The last step of [setMaterial]: alpha is scaled for dynamic geoms when
    transparency is enabled. *)
Definition scale_alpha (m : mjModel) (flags : mjtVisFlag -> bool) (cat : Z) (c : vec4) : vec4 :=
  if flags mjVIS_TRANSPARENT && (cat =? mjCAT_DYNAMIC)
  then V4 (q0 c) (q1 c) (q2 c) (q3 c * vis_map_alpha m) else c.

Lemma not_unset_rgba c :
  negb (Reqb (q0 c) (1 / 2)) || negb (Reqb (q1 c) (1 / 2))
  || negb (Reqb (q2 c) (1 / 2)) || negb (Reqb (q3 c) 1) = false
  <-> c = unset_rgba.
Proof.
  destruct c as [r g b a]; unfold unset_rgba; cbn [q0 q1 q2 q3].
  rewrite !orb_false_iff, !negb_false_iff, !Reqb_true. split.
  - intros [[[-> ->] ->] ->]. reflexivity.
  - intros E; inversion E; subst; auto.
Qed.

Lemma setMaterial_category m geom matid c flags :
  category (setMaterial m geom matid c flags) = category geom.
Proof.
  unfold setMaterial.
  destruct (matid >=? 0); geom_simpl;
    repeat match goal with |- context [if ?b then _ else _] => destruct b end; reflexivity.
Qed.

(** The color that [setMaterial] leaves in the geom. *)
Lemma setMaterial_rgba m geom matid c flags :
  rgba (setMaterial m geom matid c flags)
  = scale_alpha m flags (category geom)
      (if negb (Reqb (q0 c) (1 / 2)) || negb (Reqb (q1 c) (1 / 2))
          || negb (Reqb (q2 c) (1 / 2)) || negb (Reqb (q3 c) 1) || (matid <? 0)
       then c
       else if matid >=? 0 then vec4_at (offset (mat_rgba m) (4 * matid)) else rgba geom).
Proof.
  unfold setMaterial, scale_alpha.
  set (differs := negb (Reqb (q0 c) (1 / 2)) || negb (Reqb (q1 c) (1 / 2))
          || negb (Reqb (q2 c) (1 / 2)) || negb (Reqb (q3 c) 1) || (matid <? 0)).
  destruct (matid >=? 0), differs, (flags mjVIS_TEXTURE), (flags mjVIS_TRANSPARENT);
    cbn [andb]; geom_simpl; try reflexivity;
    destruct (category geom =? mjCAT_DYNAMIC); reflexivity.
Qed.

(** C6.  In [setMaterial], when a material is present its base color is
    copied onto the geom, and the fallback color [rgba'] replaces it exactly
    when the fallback differs from the unset color (0.5, 0.5, 0.5, 1) in some
    component or when no material is given: a fallback equal to the unset
    color leaves the color of the material in place.  The color chosen this
    way is then the color of the geom, its alpha scaled by the transparency
    factor for a dynamic geom when transparency is enabled. *)
Theorem setMaterial_color :
  forall (m : mjModel) (geom : mjvGeom) (matid : Z) (rgba' : vec4) (flags : mjtVisFlag -> bool),
    let material := vec4_at (offset (mat_rgba m) (4 * matid)) in
    let resolved := rgba (setMaterial m geom matid rgba' flags) in
    (0 <= matid -> rgba' = unset_rgba ->
       resolved = scale_alpha m flags (category geom) material)
    /\ (matid < 0 \/ rgba' <> unset_rgba ->
          resolved = scale_alpha m flags (category geom) rgba')
    /\ (flags mjVIS_TRANSPARENT = false \/ category geom <> mjCAT_DYNAMIC ->
          (0 <= matid -> rgba' = unset_rgba -> resolved = material)
          /\ (matid < 0 \/ rgba' <> unset_rgba -> resolved = rgba')).
Proof.
  intros m geom matid rgba' flags material resolved.
  assert (Hsent : 0 <= matid -> rgba' = unset_rgba ->
                  resolved = scale_alpha m flags (category geom) material).
  { intros Hm Hc. unfold resolved. rewrite setMaterial_rgba.
    apply not_unset_rgba in Hc. rewrite Hc.
    assert (E : (matid <? 0) = false) by (apply Z.ltb_ge; lia).
    assert (E' : (matid >=? 0) = true) by (apply Z.geb_le; lia).
    rewrite E, E'. reflexivity. }
  assert (Hover : matid < 0 \/ rgba' <> unset_rgba ->
                  resolved = scale_alpha m flags (category geom) rgba').
  { intros H. unfold resolved. rewrite setMaterial_rgba.
    destruct H as [H | H].
    - assert (E : (matid <? 0) = true) by (apply Z.ltb_lt; lia).
      rewrite E, orb_true_r. reflexivity.
    - destruct (negb (Reqb (q0 rgba') (1 / 2)) || negb (Reqb (q1 rgba') (1 / 2))
                || negb (Reqb (q2 rgba') (1 / 2)) || negb (Reqb (q3 rgba') 1)) eqn:E.
      + reflexivity.
      + apply not_unset_rgba in E. contradiction. }
  split; [exact Hsent|]. split; [exact Hover|].
  intros Hopaque.
  assert (Hid : forall c, scale_alpha m flags (category geom) c = c).
  { intros c. unfold scale_alpha. destruct Hopaque as [-> | Hc]; [reflexivity|].
    apply Z.eqb_neq in Hc. rewrite Hc, andb_false_r. reflexivity. }
  split.
  - intros Hm Hc. rewrite (Hsent Hm Hc). apply Hid.
  - intros H. rewrite (Hover H). apply Hid.
Qed.

(** The scenario of the specification: a material of color (0.2, 0.2, 0.2, 1)
    and the unset fallback color give the color of the material. *)
Definition gray_material_model : mjModel :=
  set_mat_rgba zero_mjModel
    (fun k => if k =? 3 then 1%R else if (0 <=? k) && (k <? 3) then (2 / 10)%R else 0%R).

Lemma setMaterial_color_witness :
  rgba (setMaterial gray_material_model zero_mjvGeom 0 unset_rgba (fun _ => false))
  = V4 (2 / 10) (2 / 10) (2 / 10) 1.
Proof.
  apply (setMaterial_color gray_material_model zero_mjvGeom 0 unset_rgba (fun _ => false)).
  - left; reflexivity.
  - lia.
  - reflexivity.
Defined.

(** ** Actuator colors *)

Section ActuatorColor.
Local Open Scope R_scope.
Variables (m : mjModel) (d : mjData) (vopt : mjvOption) (i : Z).

(** The value that colors actuator [i]: its activation when activations are
    shown and the actuator has one, its control otherwise. *)
Definition actuator_value : R :=
  if vopt_flags vopt mjVIS_ACTIVATION && negb (actuator_dyntype m i =? 0)%Z
  then act d (i - (nu m - na m))%Z else ctrl d i.

(** Linear interpolation between two colors: [a] at [t = 0], [b] at [t = 1]. *)
Definition lerp (a b : vec4) (t : R) : vec4 :=
  V4 ((1 - t) * q0 a + t * q0 b) ((1 - t) * q1 a + t * q1 b)
     ((1 - t) * q2 a + t * q2 b) ((1 - t) * q3 a + t * q3 b).

(** The three reference values are strictly increasing. *)
Lemma actuator_rng_increasing :
  c0 (actuator_rng m vopt i) + mjMINVAL <= c1 (actuator_rng m vopt i)
  /\ c1 (actuator_rng m vopt i) + mjMINVAL <= c2 (actuator_rng m vopt i).
Proof.
  pose proof mjMINVAL_pos as Hpos.
  unfold actuator_rng.
  repeat match goal with
  | |- context [if ?b then _ else _] =>
      match b with
      | Rltb _ _ => fail 1
      | Rleb _ _ => fail 1
      | _ => destruct b
      end
  end; rcases; cbn [c0 c1 c2] in *; lra.
Qed.

Lemma actuator_act_clamp :
  let rng := actuator_rng m vopt i in
  actuator_act m d vopt i = Rmin (c2 rng) (Rmax (c0 rng) actuator_value).
Proof.
  unfold actuator_act, actuator_value. cbv zeta.
  destruct (vopt_flags vopt mjVIS_ACTIVATION && negb (actuator_dyntype m i =? 0)%Z);
    rewrite mjMIN_spec, mjMAX_spec; reflexivity.
Qed.

(** The interpolated color in terms of the clamped value. *)
Lemma actuator_rgba_cases :
  let rng := actuator_rng m vopt i in
  let a := actuator_act m d vopt i in
  (a <= c1 rng ->
     actuator_rgba m d vopt i
       = lerp (vis_rgba_actuatornegative m) (vis_rgba_actuator m)
              ((a - c0 rng) / (c1 rng - c0 rng)))
  /\ (c1 rng < a ->
        actuator_rgba m d vopt i
          = lerp (vis_rgba_actuator m) (vis_rgba_actuatorpositive m)
                 ((a - c1 rng) / (c2 rng - c1 rng))).
Proof.
  intros rng a.
  destruct actuator_rng_increasing as [H01 H12]. fold rng in H01, H12.
  pose proof mjMINVAL_pos as Hpos.
  unfold actuator_rgba. fold rng. fold a.
  rewrite !mjMAX_spec.
  rewrite (Rmax_right mjMINVAL (c1 rng - c0 rng)) by lra.
  rewrite (Rmax_right mjMINVAL (c2 rng - c1 rng)) by lra.
  split; intros Ha.
  - apply Rleb_true in Ha as ->. unfold lerp. f_equal; field; lra.
  - apply Rleb_false in Ha as ->. unfold lerp. f_equal; field; lra.
Qed.

End ActuatorColor.


(** ** The buffer discipline of START and FINISH

    Every block of the scene walk appends geoms through START and FINISH
    only.  The proofs follow the phases of the buffer: [Closed] between two
    geoms, [Open] between START and FINISH, and [Full] once START has found
    no space, recorded the warning and left the function. *)

Inductive phase := Closed | Open.

Section Walk.
Variable s0 : vstate.   (* the state in which the walk started *)

(** What the walk keeps of the initial state: the capacity, the geoms that
    were already in the scene, the lights, cameras and skin buffers. *)
Definition kept (s : vstate) : Prop :=
  maxgeom (scn s) = maxgeom (scn s0)
  /\ scn_ngeom (scn s0) <= scn_ngeom (scn s)
  /\ (forall k, k < scn_ngeom (scn s0) -> geoms (scn s) k = geoms (scn s0) k)
  /\ scn_nlight (scn s) = scn_nlight (scn s0)
  /\ lights (scn s) = lights (scn s0)
  /\ camera0 (scn s) = camera0 (scn s0)
  /\ camera1 (scn s) = camera1 (scn s0)
  /\ enabletransform (scn s) = enabletransform (scn s0)
  /\ skinvert (scn s) = skinvert (scn s0)
  /\ skinnormal (scn s) = skinnormal (scn s0).

(** No warning so far; the counter is within the capacity, strictly so while
    a geom is under construction. *)
Definition in_phase (ph : phase) (s : vstate) : Prop :=
  kept s
  /\ warning_vgeomfull s = warning_vgeomfull s0
  /\ match ph with
     | Closed => scn_ngeom (scn s) <= maxgeom (scn s)
     | Open => scn_ngeom (scn s) < maxgeom (scn s)
     end.

(** The buffer is full and exactly one warning has been recorded, with the
    capacity as its information. *)
Definition full (s : vstate) : Prop :=
  kept s
  /\ scn_ngeom (scn s) = maxgeom (scn s)
  /\ number (warning_vgeomfull s) = number (warning_vgeomfull s0) + 1
  /\ lastinfo (warning_vgeomfull s) = maxgeom (scn s).

(** [c] started in phase [ph1] falls through in phase [ph2], or leaves the
    function with the buffer full, or aborts. *)
Definition walks {A} (ph1 : phase) (c : M A) (ph2 : phase) : Prop :=
  forall s, in_phase ph1 s ->
    match c s with
    | Next _ s' => in_phase ph2 s'
    | Return s' => full s'
    | Fatal _ => True
    end.

Lemma open_closed s : in_phase Open s -> in_phase Closed s.
Proof. intros (K & W & H). split; [exact K|]. split; [exact W|]. lia. Qed.

Lemma walks_ret {A} ph (a : A) : walks ph (ret a) ph.
Proof. intros s H. exact H. Qed.

Lemma walks_ret_weak {A} (a : A) : walks Open (ret a) Closed.
Proof. intros s H. apply open_closed, H. Qed.

Lemma walks_bind {A B} mid ph1 ph2 (c : M A) (k : A -> M B) :
  walks ph1 c mid -> (forall a, walks mid (k a) ph2) -> walks ph1 (bind c k) ph2.
Proof.
  intros Hc Hk s H. unfold bind. specialize (Hc s H).
  destruct (c s) as [a s' | s' | e]; auto. apply Hk, Hc.
Qed.

Lemma walks_error {A} ph1 ph2 e : walks ph1 (@mju_error A e) ph2.
Proof. intros s H. exact I. Qed.

Lemma walks_thisgeom ph : walks ph thisgeom ph.
Proof. intros s H. exact H. Qed.

Lemma walks_get_scn ph : walks ph get_scn ph.
Proof. intros s H. exact H. Qed.

Lemma kept_assign s f :
  kept s ->
  kept {| scn := set_geoms (scn s)
                   (upd (geoms (scn s)) (scn_ngeom (scn s)) (f (geoms (scn s) (scn_ngeom (scn s)))));
          warning_vgeomfull := warning_vgeomfull s |}.
Proof.
  unfold kept. intros (H1 & H2 & H3 & H4). cbn.
  split; [exact H1|]. split; [exact H2|]. split; [|exact H4].
  intros k Hk. unfold upd.
  destruct (k =? scn_ngeom (scn s)) eqn:E; [apply Z.eqb_eq in E; lia | auto].
Qed.

Lemma walks_assign f : walks Open (assign f) Open.
Proof.
  intros s (K & W & H). unfold assign, bind, get_scn, put_scn.
  split; [apply kept_assign, K|]. split; [exact W|]. cbn. exact H.
Qed.

Lemma walks_assign_result f : walks Open (assign_result f) Open.
Proof.
  intros s H. cbv beta iota delta [assign_result bind thisgeom get_scn ret].
  destruct (f (geoms (scn s) (scn_ngeom (scn s)))) as [g' | e]; [|exact I].
  apply (walks_assign (fun _ => g') H).
Qed.

Lemma walks_START objtype i category : walks Closed (START objtype i category) Open.
Proof.
  intros s (K & W & H). unfold START, bind, get_scn.
  destruct (scn_ngeom (scn s) >=? maxgeom (scn s)) eqn:E.
  - unfold mj_warning, return_, bind. apply Z.geb_le in E.
    split; [exact K|]. cbn. rewrite W. repeat split; lia.
  - assert (Ho : in_phase Open s).
    { split; [exact K|]. split; [exact W|]. rewrite Z.geb_leb in E. apply Z.leb_gt in E. lia. }
    exact (walks_assign _ Ho).
Qed.

Lemma walks_FINISH : walks Open FINISH Closed.
Proof.
  intros s (K & W & H). unfold FINISH, bind, get_scn, put_scn.
  destruct K as (H1 & H2 & H3 & H4).
  split; [|split; [exact W | cbn; lia]].
  unfold kept; cbn. split; [exact H1|]. split; [lia|]. split; [exact H3 | exact H4].
Qed.

Lemma walks_for_each {A} (l : list A) (body : A -> M unit) :
  (forall i, walks Closed (body i) Closed) -> walks Closed (for_each l body) Closed.
Proof.
  intros Hb. induction l as [|i l IH]; cbn [for_each].
  - apply walks_ret.
  - eapply walks_bind; [apply Hb | intros _; exact IH].
Qed.

Lemma walks_for lo hi (body : Z -> M unit) :
  (forall i, walks Closed (body i) Closed) -> walks Closed (for_ lo hi body) Closed.
Proof. intros Hb. apply walks_for_each, Hb. Qed.

Lemma walks_for_each_acc {A S} (l : list A) (acc : S) (body : A -> S -> M S) :
  (forall i acc, walks Closed (body i acc) Closed) ->
  walks Closed (for_each_acc l acc body) Closed.
Proof.
  intros Hb. revert acc. induction l as [|i l IH]; intros acc; cbn [for_each_acc].
  - apply walks_ret.
  - eapply walks_bind; [apply Hb | intros acc'; apply IH].
Qed.

Lemma walks_while_each (l : list Z) cond (body : Z -> M unit) :
  (forall j, walks Closed (body j) Closed) -> walks Closed (while_each l cond body) Closed.
Proof.
  intros Hb. induction l as [|j l IH]; cbn [while_each].
  - apply walks_ret.
  - destruct (cond j); [|apply walks_ret].
    eapply walks_bind; [apply Hb | intros _; exact IH].
Qed.

End Walk.

(** One step of the proof that a block respects the discipline. *)
Ltac walk_step :=
  cbv beta zeta;
  lazymatch goal with
  | |- context [skin_body] => unfold skin_body
  | |- context [contact_point] => unfold contact_point
  | |- context [contact_arrow] => unfold contact_arrow
  | |- context [geom_body] => unfold geom_body
  | |- context [site_body] => unfold site_body
  | |- walks _ _ (ret _) _ => first [apply walks_ret | apply walks_ret_weak]
  | |- walks _ _ (mju_error _) _ => apply walks_error
  | |- walks _ _ thisgeom _ => apply walks_thisgeom
  | |- walks _ _ get_scn _ => apply walks_get_scn
  | |- walks _ _ (assign _) _ => apply walks_assign
  | |- walks _ _ (assign_result _) _ => apply walks_assign_result
  | |- walks _ _ (START _ _ _) _ => apply walks_START
  | |- walks _ _ FINISH _ => apply walks_FINISH
  | |- walks _ _ (for_ _ _ _) _ => apply walks_for; intros ?
  | |- walks _ _ (for_each _ _) _ => apply walks_for_each; intros ?
  | |- walks _ _ (for_each_acc _ _ _) _ => apply walks_for_each_acc; intros ? ?
  | |- walks _ _ (while_each _ _ _) _ => apply walks_while_each; intros ?
  | |- walks _ _ (frame_axes _ _ _ _ _ _ _) _ => unfold frame_axes
  | |- walks _ _ (if ?b then _ else _) _ => destruct b
  | |- walks _ _ (bind _ _) _ =>
      first [ apply (@walks_bind _ _ _ Closed); [solve [walk] | intros ?; solve [walk]]
            | apply (@walks_bind _ _ _ Open); [solve [walk] | intros ?; solve [walk]] ]
  end
with walk := repeat walk_step.

(** ** Every block respects the discipline *)

Section Blocks.
Variables (s0 : vstate) (m : mjModel) (d : mjData) (vopt : mjvOption) (pert : mjvPerturb)
          (catmask : Z).

Lemma walks_frame_axes objtype i category p mat length width :
  walks s0 Closed (frame_axes objtype i category p mat length width) Closed.
Proof. unfold frame_axes. walk. Qed.

Lemma walks_skin : walks s0 Closed (addGeoms_skin m d vopt pert catmask) Closed.
Proof. unfold addGeoms_skin. walk. Qed.

Lemma walks_inertia : walks s0 Closed (addGeoms_inertia m d vopt pert catmask) Closed.
Proof. unfold addGeoms_inertia. walk. Qed.

Lemma walks_pertobj : walks s0 Closed (addGeoms_pertobj m d vopt pert catmask) Closed.
Proof. unfold addGeoms_pertobj. walk. Qed.

Lemma walks_bodyframe : walks s0 Closed (addGeoms_bodyframe m d vopt catmask) Closed.
Proof. unfold addGeoms_bodyframe. walk. Qed.

Lemma walks_selectpoint : walks s0 Closed (addGeoms_selectpoint m d vopt pert catmask) Closed.
Proof. unfold addGeoms_selectpoint. walk. Qed.

Lemma walks_bodylabel : walks s0 Closed (addGeoms_bodylabel m d vopt pert catmask) Closed.
Proof. unfold addGeoms_bodylabel. walk. Qed.

Lemma walks_joint : walks s0 Closed (addGeoms_joint m d vopt catmask) Closed.
Proof. unfold addGeoms_joint. walk. Qed.

Lemma walks_actuator : walks s0 Closed (addGeoms_actuator m d vopt catmask) Closed.
Proof. unfold addGeoms_actuator. walk. Qed.

Lemma walks_geom : walks s0 Closed (addGeoms_geom m d vopt pert catmask) Closed.
Proof. unfold addGeoms_geom. walk. Qed.

Lemma walks_site : walks s0 Closed (addGeoms_site m d vopt pert catmask) Closed.
Proof. unfold addGeoms_site. walk. Qed.

Lemma walks_camera : walks s0 Closed (addGeoms_camera m d vopt catmask) Closed.
Proof. unfold addGeoms_camera. walk. Qed.

Lemma walks_light : walks s0 Closed (addGeoms_light m d vopt catmask) Closed.
Proof. unfold addGeoms_light. walk. Qed.

Lemma walks_tendon : walks s0 Closed (addGeoms_tendon m d vopt catmask) Closed.
Proof. unfold addGeoms_tendon. walk. Qed.

Lemma walks_slidercrank : walks s0 Closed (addGeoms_slidercrank m d vopt catmask) Closed.
Proof. unfold addGeoms_slidercrank. walk. Qed.

Lemma walks_com : walks s0 Closed (addGeoms_com m d vopt catmask) Closed.
Proof. unfold addGeoms_com. walk. Qed.

Lemma walks_autoconnect : walks s0 Closed (addGeoms_autoconnect m d vopt catmask) Closed.
Proof. unfold addGeoms_autoconnect. walk. Qed.

Lemma walks_rangefinder : walks s0 Closed (addGeoms_rangefinder m d vopt catmask) Closed.
Proof. unfold addGeoms_rangefinder. walk. Qed.

Lemma walks_pertforce : walks s0 Closed (addGeoms_pertforce m d vopt catmask) Closed.
Proof. unfold addGeoms_pertforce. walk. Qed.

Lemma walks_constraint : walks s0 Closed (addGeoms_constraint m d vopt catmask) Closed.
Proof. unfold addGeoms_constraint. walk. Qed.

End Blocks.

(** ** The capacity of the scene *)

Section Capacity.
Variables (s0 : vstate) (m : mjModel) (d : mjData) (vopt : mjvOption) (catmask : Z).

(** [addContactGeom] may also leave by its own [return], with nothing
    changed, when no contact feature is enabled. *)
Lemma contact_outcome s :
  in_phase s0 Closed s ->
  match addContactGeom m d (vopt_flags vopt) vopt s with
  | Next _ s' => in_phase s0 Closed s'
  | Return s' => in_phase s0 Closed s' \/ full s0 s'
  | Fatal _ => True
  end.
Proof.
  intros H. unfold addContactGeom. cbv zeta.
  destruct (negb (vopt_flags vopt mjVIS_CONTACTPOINT)
            && negb (vopt_flags vopt mjVIS_CONTACTFORCE)
            && negb (frame_is (vopt_frame vopt) mjFRAME_CONTACT)).
  - left. exact H.
  - match goal with |- match ?c s with _ => _ end =>
      assert (W : walks s0 Closed c Closed) by walk; specialize (W s H);
      destruct (c s); auto
    end.
Qed.

(** The last block: the call of [addContactGeom] always falls through, with
    or without a full buffer. *)
Lemma contact_block s :
  in_phase s0 Closed s ->
  match addGeoms_contact m d vopt catmask s with
  | Next _ s' => in_phase s0 Closed s' \/ full s0 s'
  | Return s' => False
  | Fatal _ => True
  end.
Proof.
  intros H. unfold addGeoms_contact.
  destruct (band catmask mjCAT_DECOR); [|left; exact H].
  unfold call. pose proof (contact_outcome H) as C.
  destruct (addContactGeom m d (vopt_flags vopt) vopt s); auto.
Qed.

End Capacity.

(** What a walk started in [s0] and ended in [s'] guarantees: the capacity
    and the geoms already in the scene are kept, the counter has not
    decreased and does not exceed the capacity, and either no warning was
    recorded, or exactly one was and the scene then holds exactly [maxgeom]
    geoms. *)
Definition capacity_respected (s0 s' : vstate) : Prop :=
  maxgeom (scn s') = maxgeom (scn s0)
  /\ scn_ngeom (scn s0) <= scn_ngeom (scn s') <= maxgeom (scn s0)
  /\ (forall k, k < scn_ngeom (scn s0) -> geoms (scn s') k = geoms (scn s0) k)
  /\ (warning_vgeomfull s' = warning_vgeomfull s0
      \/ (number (warning_vgeomfull s') = number (warning_vgeomfull s0) + 1
          /\ lastinfo (warning_vgeomfull s') = maxgeom (scn s0)
          /\ scn_ngeom (scn s') = maxgeom (scn s0))).

Lemma closed_respected s0 s' :
  in_phase s0 Closed s' -> capacity_respected s0 s'.
Proof.
  intros ((H1 & H2 & H3 & _) & W & H). unfold capacity_respected.
  split; [exact H1|]. split; [lia|]. split; [exact H3|]. left; exact W.
Qed.

Lemma full_respected s0 s' :
  scn_ngeom (scn s0) <= maxgeom (scn s0) ->
  full s0 s' -> capacity_respected s0 s'.
Proof.
  intros H0 ((H1 & H2 & H3 & _) & F & N & L). unfold capacity_respected.
  split; [exact H1|]. split; [lia|]. split; [exact H3|]. right. repeat split; lia.
Qed.

Lemma in_phase_start s0 :
  scn_ngeom (scn s0) <= maxgeom (scn s0) -> in_phase s0 Closed s0.
Proof.
  intros H. split; [|split; [reflexivity | exact H]].
  unfold kept. repeat split; auto; lia.
Qed.

(** The outcome of [mjv_addGeoms]: it falls through with the discipline
    respected, or START has left it with the buffer full. *)
Lemma addGeoms_outcome m d vopt pert catmask s0 :
  scn_ngeom (scn s0) <= maxgeom (scn s0) ->
  match mjv_addGeoms m d vopt pert catmask s0 with
  | Next _ s' => in_phase s0 Closed s' \/ full s0 s'
  | Return s' => full s0 s'
  | Fatal _ => True
  end.
Proof.
  intros H0. pose proof (in_phase_start s0 H0) as Hs.
  unfold mjv_addGeoms. cbv zeta.
  set (pert' := match pert with Some p => p | None => mjv_defaultPerturb end).
  set (mask := if negb (vopt_flags vopt mjVIS_STATIC)
               then Z.land catmask (Z.lnot mjCAT_STATIC) else catmask).
  repeat match goal with
  | |- match bind ?c ?k ?s with _ => _ end =>
      let W := fresh "W" in
      assert (W : walks s0 Closed c Closed) by
        first [ apply walks_skin | apply walks_inertia | apply walks_pertobj
              | apply walks_bodyframe | apply walks_selectpoint | apply walks_bodylabel
              | apply walks_joint | apply walks_actuator | apply walks_geom
              | apply walks_site | apply walks_camera | apply walks_light
              | apply walks_tendon | apply walks_slidercrank | apply walks_com
              | apply walks_autoconnect | apply walks_rangefinder | apply walks_pertforce
              | apply walks_constraint ];
      let Hs' := fresh "Hs" in
      match goal with Hcur : in_phase s0 Closed s |- _ =>
        pose proof (W s Hcur) as Hs'
      end;
      unfold bind at 1;
      destruct (c s) as [[] ? | ? | ?]; [ | exact Hs' | exact I ]
  end.
  match goal with Hcur : in_phase s0 Closed ?s |- match _ ?s with _ => _ end =>
    pose proof (contact_block m d vopt mask Hcur) as C
  end.
  match goal with |- match ?c with _ => _ end => destruct c end; auto; contradiction.
Qed.

(** ** The walk does not abort

    [mju_error] is reached in two places of [mjv_addGeoms] only: a
    connector of a type that is not connector-compatible, which none of the
    calls asks for, and a joint of unknown type. *)

Definition never_fatal {A} (c : M A) : Prop :=
  forall s, match c s with Fatal _ => False | _ => True end.

Lemma safe_ret {A} (a : A) : never_fatal (ret a).
Proof. intros s. exact I. Qed.

Lemma safe_return {A} : never_fatal (@return_ A).
Proof. intros s. exact I. Qed.

Lemma safe_bind {A B} (c : M A) (k : A -> M B) :
  never_fatal c -> (forall a, never_fatal (k a)) -> never_fatal (bind c k).
Proof.
  intros Hc Hk s. unfold bind. specialize (Hc s).
  destruct (c s) as [a s' | s' | e]; auto. apply Hk.
Qed.

Lemma safe_thisgeom : never_fatal thisgeom.
Proof. intros s. exact I. Qed.

Lemma safe_get_scn : never_fatal get_scn.
Proof. intros s. exact I. Qed.

Lemma safe_assign f : never_fatal (assign f).
Proof. intros s. exact I. Qed.

Lemma safe_START objtype i category : never_fatal (START objtype i category).
Proof.
  intros s. unfold START, bind, get_scn.
  destruct (scn_ngeom (scn s) >=? maxgeom (scn s)); exact I.
Qed.

Lemma safe_FINISH : never_fatal FINISH.
Proof. intros s. exact I. Qed.

Lemma safe_connector ty width a0 a1 a2 b0 b1 b2 :
  connector_type ty = true ->
  never_fatal (assign_result (fun g => mjv_makeConnector g ty width a0 a1 a2 b0 b1 b2)).
Proof.
  intros H s. cbv beta iota delta [assign_result bind thisgeom get_scn ret].
  destruct (@makeConnector_accepts (geoms (scn s) (scn_ngeom (scn s)))
              ty width a0 a1 a2 b0 b1 b2 H) as (g' & -> & _).
  exact I.
Qed.

Lemma safe_for_each {A} (l : list A) (body : A -> M unit) :
  (forall i, never_fatal (body i)) -> never_fatal (for_each l body).
Proof.
  intros Hb. induction l as [|i l IH]; cbn [for_each].
  - apply safe_ret.
  - apply safe_bind; [apply Hb | intros _; exact IH].
Qed.

Lemma safe_for lo hi (body : Z -> M unit) :
  (forall i, never_fatal (body i)) -> never_fatal (for_ lo hi body).
Proof. intros Hb. apply safe_for_each, Hb. Qed.

Lemma safe_for_each_acc {A S} (l : list A) (acc : S) (body : A -> S -> M S) :
  (forall i acc, never_fatal (body i acc)) -> never_fatal (for_each_acc l acc body).
Proof.
  intros Hb. revert acc. induction l as [|i l IH]; intros acc; cbn [for_each_acc].
  - apply safe_ret.
  - apply safe_bind; [apply Hb | intros acc'; apply IH].
Qed.

Lemma safe_while_each (l : list Z) cond (body : Z -> M unit) :
  (forall j, never_fatal (body j)) -> never_fatal (while_each l cond body).
Proof.
  intros Hb. induction l as [|j l IH]; cbn [while_each].
  - apply safe_ret.
  - destruct (cond j); [|apply safe_ret].
    apply safe_bind; [apply Hb | intros _; exact IH].
Qed.

Lemma safe_call (c : M unit) : never_fatal c -> never_fatal (call c).
Proof. intros Hc s. unfold call. specialize (Hc s). destruct (c s); auto. Qed.

(** The type of a connector is one of the six, whatever the conditions that
    choose it. *)
Ltac connector_ok :=
  repeat match goal with |- context [if ?b then _ else _] => destruct b end; reflexivity.

Ltac safe_step :=
  cbv beta zeta;
  lazymatch goal with
  | |- context [skin_body] => unfold skin_body
  | |- context [contact_point] => unfold contact_point
  | |- context [contact_arrow] => unfold contact_arrow
  | |- context [geom_body] => unfold geom_body
  | |- context [site_body] => unfold site_body
  | |- never_fatal (ret _) => apply safe_ret
  | |- never_fatal return_ => apply safe_return
  | |- never_fatal thisgeom => apply safe_thisgeom
  | |- never_fatal get_scn => apply safe_get_scn
  | |- never_fatal (assign _) => apply safe_assign
  | |- never_fatal (assign_result _) => apply safe_connector; connector_ok
  | |- never_fatal (START _ _ _) => apply safe_START
  | |- never_fatal FINISH => apply safe_FINISH
  | |- never_fatal (call _) => apply safe_call
  | |- never_fatal (for_ _ _ _) => apply safe_for; intros ?
  | |- never_fatal (for_each _ _) => apply safe_for_each; intros ?
  | |- never_fatal (for_each_acc _ _ _) => apply safe_for_each_acc; intros ? ?
  | |- never_fatal (while_each _ _ _) => apply safe_while_each; intros ?
  | |- never_fatal (frame_axes _ _ _ _ _ _ _) => unfold frame_axes
  | |- never_fatal (if ?b then _ else _) => destruct b eqn:?
  | |- never_fatal (bind _ _) => apply safe_bind; [ | intros ? ]
  end.

Ltac safe := repeat safe_step.

Section Safe.
Variables (m : mjModel) (d : mjData) (vopt : mjvOption).

(** Every joint of the model has one of the four joint types. *)
Definition known_joint_types : Prop :=
  forall i, jnt_type m i = mjJNT_FREE \/ jnt_type m i = mjJNT_BALL
            \/ jnt_type m i = mjJNT_SLIDE \/ jnt_type m i = mjJNT_HINGE.

Lemma safe_joint catmask :
  known_joint_types -> never_fatal (addGeoms_joint m d vopt catmask).
Proof.
  intros Hj. unfold addGeoms_joint. safe.
  exfalso.
  match goal with i : Z |- _ =>
    specialize (Hj i);
    repeat match goal with
    | E : (_ =? _) = false |- _ => apply Z.eqb_neq in E
    | E : (_ || _) = false |- _ => apply orb_false_iff in E; destruct E
    end
  end.
  tauto.
Qed.

Lemma safe_addGeoms pert catmask :
  known_joint_types -> never_fatal (mjv_addGeoms m d vopt pert catmask).
Proof.
  intros Hj. unfold mjv_addGeoms. cbv zeta.
  repeat (apply safe_bind; [ | intros _ ]);
    first [ apply safe_joint; exact Hj
          | unfold addGeoms_skin, addGeoms_inertia, addGeoms_pertobj, addGeoms_bodyframe,
              addGeoms_selectpoint, addGeoms_bodylabel, addGeoms_actuator, addGeoms_geom,
              addGeoms_site, addGeoms_camera, addGeoms_light, addGeoms_tendon,
              addGeoms_slidercrank, addGeoms_com, addGeoms_autoconnect,
              addGeoms_rangefinder, addGeoms_pertforce, addGeoms_constraint,
              addGeoms_contact, addContactGeom; safe ].
Qed.

End Safe.

(** The stages of [mjv_updateScene] after the geoms leave the buffer of
    geoms alone. *)
Definition same_geoms (sc sc' : mjvScene) : Prop :=
  maxgeom sc' = maxgeom sc /\ scn_ngeom sc' = scn_ngeom sc /\ geoms sc' = geoms sc.

Lemma same_geoms_refl sc : same_geoms sc sc.
Proof. repeat split. Qed.

Lemma same_geoms_trans a b c : same_geoms a b -> same_geoms b c -> same_geoms a c.
Proof.
  intros (H1 & H2 & H3) (K1 & K2 & K3). unfold same_geoms.
  rewrite K1, K2, K3. auto.
Qed.

Lemma fold_left_same_geoms {A} (f : mjvScene -> A -> mjvScene) (l : list A) sc :
  (forall sc i, same_geoms sc (f sc i)) -> same_geoms sc (fold_left f l sc).
Proof.
  intros Hf. revert sc. induction l as [|i l IH]; intros sc; cbn [fold_left].
  - apply same_geoms_refl.
  - eapply same_geoms_trans; [apply Hf | apply IH].
Qed.

Lemma makeLights_same_geoms m d sc : same_geoms sc (mjv_makeLights m d sc).
Proof.
  unfold mjv_makeLights.
  eapply same_geoms_trans; [|apply fold_left_same_geoms].
  - destruct (vis_headlight_active m); repeat split.
  - intros sc' i.
    destruct (scn_nlight sc' <? mjMAXLIGHT), (light_active m i); repeat split.
Qed.

Lemma updateCamera_same_geoms m d cam sc cam' sc' :
  mjv_updateCamera m d cam sc = Ok (cam', sc') -> same_geoms sc sc'.
Proof.
  unfold mjv_updateCamera. intros H.
  destruct m as [m|], cam as [cam|]; try (inversion H; subst; apply same_geoms_refl).
  repeat match type of H with
  | (if ?b then _ else _) = _ => destruct b
  end; inversion H; subst; repeat split.
Qed.

Lemma updateSkin_same_geoms m d sc : same_geoms sc (mjv_updateSkin m d sc).
Proof.
  unfold mjv_updateSkin. apply fold_left_same_geoms.
  intros sc' i. repeat split.
Qed.

(** The outcome of [mjv_updateScene] for a scene of capacity [maxgeom >= 0]:
    the function does not leave early; the counter is within the capacity,
    and a warning was recorded at most once, in which case the scene holds
    exactly [maxgeom] geoms. *)
Lemma updateScene_outcome m d opt pert cam catmask s0 :
  0 <= maxgeom (scn s0) ->
  match mjv_updateScene m d opt pert cam catmask s0 with
  | Next _ s' =>
      maxgeom (scn s') = maxgeom (scn s0)
      /\ 0 <= scn_ngeom (scn s') <= maxgeom (scn s0)
      /\ (warning_vgeomfull s' = warning_vgeomfull s0
          \/ (number (warning_vgeomfull s') = number (warning_vgeomfull s0) + 1
              /\ lastinfo (warning_vgeomfull s') = maxgeom (scn s0)
              /\ scn_ngeom (scn s') = maxgeom (scn s0)))
  | Return _ => False
  | Fatal _ => True
  end.
Proof.
  intros H0. unfold mjv_updateScene.
  set (s1 := {| scn := set_scn_ngeom (scn s0) 0; warning_vgeomfull := warning_vgeomfull s0 |}).
  assert (H1 : scn_ngeom (scn s1) <= maxgeom (scn s1)) by (cbn; exact H0).
  pose proof (addGeoms_outcome m d opt pert catmask s1 H1) as Hadd.
  cbv beta iota delta [bind on_scn get_scn put_scn call]. fold s1.
  destruct (mjv_addGeoms m d opt pert catmask s1) as [[] s2 | s2 | e]; [| |exact I].
  - assert (R : capacity_respected s1 s2).
    { destruct Hadd; [apply closed_respected | apply full_respected]; auto. }
    clear Hadd. destruct R as (R1 & R2 & _ & R4). cbn in R1, R2, R4.
    pose proof (makeLights_same_geoms m d (scn s2)) as (L1 & L2 & _).
    cbn [scn warning_vgeomfull].
    destruct (mjv_updateCamera (Some m) d cam (mjv_makeLights m d (scn s2)))
      as [[cam' sc3] | e] eqn:Ecam; [|exact I].
    apply updateCamera_same_geoms in Ecam as (C1 & C2 & _).
    destruct (vopt_flags opt mjVIS_SKIN).
    + pose proof (updateSkin_same_geoms m d sc3) as (S1 & S2 & _).
      cbn [scn warning_vgeomfull ret]. rewrite S1, S2, C1, C2, L1, L2.
      split; [lia|]. split; [lia|]. exact R4.
    + cbn [scn warning_vgeomfull ret]. rewrite C1, C2, L1, L2.
      split; [lia|]. split; [lia|]. exact R4.
  - assert (R : capacity_respected s1 s2) by (apply full_respected; auto).
    destruct R as (R1 & R2 & _ & R4). cbn in R1, R2, R4.
    pose proof (makeLights_same_geoms m d (scn s2)) as (L1 & L2 & _).
    cbn [scn warning_vgeomfull].
    destruct (mjv_updateCamera (Some m) d cam (mjv_makeLights m d (scn s2)))
      as [[cam' sc3] | e] eqn:Ecam; [|exact I].
    apply updateCamera_same_geoms in Ecam as (C1 & C2 & _).
    destruct (vopt_flags opt mjVIS_SKIN).
    + pose proof (updateSkin_same_geoms m d sc3) as (S1 & S2 & _).
      cbn [scn warning_vgeomfull ret]. rewrite S1, S2, C1, C2, L1, L2.
      split; [lia|]. split; [lia|]. exact R4.
    + cbn [scn warning_vgeomfull ret]. rewrite C1, C2, L1, L2.
      split; [lia|]. split; [lia|]. exact R4.
Qed.

(** The outcome of a computation, read off its evaluation. *)
Lemma falls_through {A} (c : M A) (s : vstate) (P : A -> vstate -> Prop) :
  match c s with Next a s' => P a s' | _ => False end ->
  exists a s', c s = Next a s' /\ P a s'.
Proof. destruct (c s) as [a s' | s' | e]; intros H; try contradiction; eauto. Qed.

Lemma leaves_by_return {A} (c : M A) (s : vstate) (P : vstate -> Prop) :
  match c s with Return s' => P s' | _ => False end ->
  exists s', c s = Return s' /\ P s'.
Proof. destruct (c s) as [a s' | s' | e]; intros H; try contradiction; eauto. Qed.

(** *** A concrete scene: the world frame and one camera icon

    An empty model with one camera; the options show the world frame and
    the camera icons.  The walk attempts five geoms: the three axes of the
    world frame, then the body and the lens of the camera. *)
Definition one_camera_model : mjModel := set_ncam zero_mjModel 1.

Definition frame_and_camera_options : mjvOption :=
  set_vopt_flags (set_vopt_frame zero_mjvOption mjFRAME_WORLD)
    (fun f => match f with mjVIS_CAMERA => true | _ => false end).

(** An empty scene with room for [cap] geoms and no warning recorded. *)
Definition empty_scene (cap : Z) : vstate :=
  {| scn := set_maxgeom zero_mjvScene cap; warning_vgeomfull := zero_mjWarningStat |}.




(** ** Stereo cameras *)

Section Stereo.
Local Open Scope R_scope.

(** The distance between two points. *)
Definition dist3 (a b : vec3) : R := mju_norm3 (mju_sub3 a b).

Lemma norm3_scaled (v : vec3) (t : R) :
  mju_norm3 (V3 (t * c0 v) (t * c1 v) (t * c2 v)) = Rabs t * mju_norm3 v.
Proof.
  unfold mju_norm3; cbn [c0 c1 c2].
  replace (t * c0 v * (t * c0 v) + t * c1 v * (t * c1 v) + t * c2 v * (t * c2 v))
    with ((t * t) * (c0 v * c0 v + c1 v * c1 v + c2 v * c2 v)) by ring.
  rewrite sqrt_mult by nra.
  f_equal. replace (t * t) with (Rsqr t) by (unfold Rsqr; ring). apply sqrt_Rsqr_abs.
Qed.

(** The two eyes around a head position [headpos], along the axis [right],
    at the interpupillary distance [ipd]: each eye is offset by half of
    [ipd], one against and one along [right]; the eyes are at the same
    distance from the head position, and they are [|ipd| * |right|] apart. *)
Definition eyes_around (sc : mjvScene) (headpos right : vec3) (ipd : R) : Prop :=
  gl_pos (camera0 sc) = mju_addScl3 headpos right (- (ipd / 2))
  /\ gl_pos (camera1 sc) = mju_addScl3 headpos right (ipd / 2)
  /\ dist3 (gl_pos (camera0 sc)) headpos = Rabs ipd / 2 * mju_norm3 right
  /\ dist3 (gl_pos (camera1 sc)) headpos = Rabs ipd / 2 * mju_norm3 right
  /\ dist3 (gl_pos (camera0 sc)) (gl_pos (camera1 sc)) = Rabs ipd * mju_norm3 right.

Lemma gl_camera_eyes sc headpos forward up right ipd fovy znear zfar :
  eyes_around
    (set_enabletransform
       (set_camera1
          (set_camera0 sc (gl_camera headpos forward up right ipd fovy znear zfar 0))
          (gl_camera headpos forward up right ipd fovy znear zfar 1)) false)
    headpos right ipd.
Proof.
  unfold eyes_around, set_enabletransform, set_camera1, set_camera0, gl_camera, dist3;
    cbn [camera0 camera1 gl_pos Z.eqb].
  unfold mju_addScl3, mju_sub3; cbn [c0 c1 c2].
  split; [f_equal; field|]. split; [f_equal; field|].
  split; [|split].
  - replace (V3 (c0 headpos + - ipd * (1 / 2) * c0 right - c0 headpos)
                (c1 headpos + - ipd * (1 / 2) * c1 right - c1 headpos)
                (c2 headpos + - ipd * (1 / 2) * c2 right - c2 headpos))
      with (V3 (- (ipd / 2) * c0 right) (- (ipd / 2) * c1 right) (- (ipd / 2) * c2 right))
      by (f_equal; field).
    rewrite norm3_scaled. f_equal. rewrite Rabs_Ropp.
    unfold Rdiv. rewrite Rabs_mult. f_equal. apply Rabs_pos_eq. lra.
  - replace (V3 (c0 headpos + ipd * (1 / 2) * c0 right - c0 headpos)
                (c1 headpos + ipd * (1 / 2) * c1 right - c1 headpos)
                (c2 headpos + ipd * (1 / 2) * c2 right - c2 headpos))
      with (V3 ((ipd / 2) * c0 right) ((ipd / 2) * c1 right) ((ipd / 2) * c2 right))
      by (f_equal; field).
    rewrite norm3_scaled. f_equal.
    unfold Rdiv. rewrite Rabs_mult. f_equal. apply Rabs_pos_eq. lra.
  - replace (V3 (c0 headpos + - ipd * (1 / 2) * c0 right - (c0 headpos + ipd * (1 / 2) * c0 right))
                (c1 headpos + - ipd * (1 / 2) * c1 right - (c1 headpos + ipd * (1 / 2) * c1 right))
                (c2 headpos + - ipd * (1 / 2) * c2 right - (c2 headpos + ipd * (1 / 2) * c2 right)))
      with (V3 (- ipd * c0 right) (- ipd * c1 right) (- ipd * c2 right))
      by (f_equal; field).
    rewrite norm3_scaled. f_equal. apply Rabs_Ropp.
Qed.

(** The right axis of a free or tracking camera is a unit vector. *)
Lemma free_right_unit a : mju_norm3 (V3 (sin a) (- cos a) 0) = 1.
Proof.
  unfold mju_norm3; cbn [c0 c1 c2].
  replace (sin a * sin a + - cos a * - cos a + 0 * 0) with (Rsqr (sin a) + Rsqr (cos a))
    by (unfold Rsqr; ring).
  rewrite sin2_cos2. apply sqrt_1.
Qed.

End Stereo.

(** The frame of a free or tracking camera, from its azimuth and elevation. *)
Definition free_forward (cam : mjvCamera) : vec3 :=
  let ca := cos (azimuth cam / 180 * mjPI) in
  let sa := sin (azimuth cam / 180 * mjPI) in
  let ce := cos (elevation cam / 180 * mjPI) in
  let se := sin (elevation cam / 180 * mjPI) in
  V3 (ce * ca) (ce * sa) se.

Definition free_right (cam : mjvCamera) : vec3 :=
  V3 (sin (azimuth cam / 180 * mjPI)) (- cos (azimuth cam / 180 * mjPI)) 0.

(** C7.  For a free, tracking or fixed camera, [mjv_updateCamera] puts the
    two eyes at the head position minus and plus half the interpupillary
    distance along the right axis: the eyes are at the same distance from
    the head position, and their separation is the configured
    interpupillary distance (times the length of the right axis, which is 1
    for a free or tracking camera and for a fixed camera whose orientation
    is a rotation matrix).  The distance is the global one for free and
    tracking cameras and the one of the camera for fixed cameras.  The call
    fails only for a tracking or fixed camera whose index is out of range
    and for an unknown camera type. *)
Theorem stereo_eyes :
  forall (m : mjModel) (d : mjData) (cam : mjvCamera) (sc : mjvScene),
    match mjv_updateCamera (Some m) d (Some cam) sc with
    | Ok (cam', sc') =>
        (cam_type cam = mjCAMERA_USER /\ cam' = Some cam /\ sc' = sc)
        \/ (cam_type cam = mjCAMERA_FREE /\ cam' = Some cam
            /\ mju_norm3 (free_right cam) = 1%R
            /\ eyes_around sc'
                 (mju_addScl3 (lookat cam) (free_forward cam) (- distance cam))
                 (free_right cam) (vis_global_ipd m))
        \/ (cam_type cam = mjCAMERA_TRACKING
            /\ exists cam1, cam' = Some cam1
               /\ mju_norm3 (free_right cam) = 1%R
               /\ eyes_around sc'
                    (mju_addScl3 (lookat cam1) (free_forward cam) (- distance cam))
                    (free_right cam) (vis_global_ipd m))
        \/ (cam_type cam = mjCAMERA_FIXED /\ cam' = Some cam
            /\ let mat := mat9_at (offset (cam_xmat d) (9 * fixedcamid cam)) in
               let right := V3 (e0 mat) (e3 mat) (e6 mat) in
               (orthonormal mat -> mju_norm3 right = 1%R)
               /\ eyes_around sc' (vec3_at (offset (cam_xpos d) (3 * fixedcamid cam)))
                    right (cam_ipd m (fixedcamid cam)))
    | Err e =>
        (cam_type cam = mjCAMERA_TRACKING /\ e = Track_body_id_outside_valid_range
         /\ ~ (0 <= trackbodyid cam < nbody m))
        \/ (cam_type cam = mjCAMERA_FIXED /\ e = Fixed_camera_id_outside_valid_range
            /\ ~ (0 <= fixedcamid cam < ncam m))
        \/ (e = Unknown_camera_type /\ cam_type cam <> mjCAMERA_FREE
            /\ cam_type cam <> mjCAMERA_TRACKING /\ cam_type cam <> mjCAMERA_FIXED
            /\ cam_type cam <> mjCAMERA_USER)
    end.
Proof.
  intros m d cam sc. unfold mjv_updateCamera.
  destruct (cam_type cam =? mjCAMERA_USER) eqn:Euser.
  { apply Z.eqb_eq in Euser. left. auto. }
  apply Z.eqb_neq in Euser.
  destruct (cam_type cam =? mjCAMERA_FREE) eqn:Efree.
  { apply Z.eqb_eq in Efree. right; left.
    split; [exact Efree|]. split; [reflexivity|]. split; [apply free_right_unit|].
    apply gl_camera_eyes. }
  apply Z.eqb_neq in Efree.
  destruct (cam_type cam =? mjCAMERA_TRACKING) eqn:Etrack.
  { apply Z.eqb_eq in Etrack.
    destruct ((trackbodyid cam <? 0) || (trackbodyid cam >=? nbody m)) eqn:Eid.
    - left. split; [exact Etrack|]. split; [reflexivity|].
      apply orb_true_iff in Eid. rewrite Z.ltb_lt, Z.geb_le in Eid. lia.
    - right; right; left. split; [exact Etrack|]. eexists. split; [reflexivity|].
      split; [apply free_right_unit|]. apply gl_camera_eyes. }
  apply Z.eqb_neq in Etrack.
  destruct (cam_type cam =? mjCAMERA_FIXED) eqn:Efixed.
  { apply Z.eqb_eq in Efixed.
    destruct ((fixedcamid cam <? 0) || (fixedcamid cam >=? ncam m)) eqn:Eid.
    - right; left. split; [exact Efixed|]. split; [reflexivity|].
      apply orb_true_iff in Eid. rewrite Z.ltb_lt, Z.geb_le in Eid. lia.
    - right; right; right. split; [exact Efixed|]. split; [reflexivity|].
      cbv zeta. split; [|apply gl_camera_eyes].
      intros (H1 & _). unfold mju_norm3; cbn [c0 c1 c2]. rewrite H1. apply sqrt_1. }
  apply Z.eqb_neq in Efixed.
  right; right. auto.
Qed.

(** ** Visibility groups *)

Lemma group_index_range g :
  0 <= group_index g <= mjNGROUP - 1
  /\ (g < 0 -> group_index g = 0)
  /\ (mjNGROUP - 1 < g -> group_index g = mjNGROUP - 1)
  /\ (0 <= g <= mjNGROUP - 1 -> group_index g = g).
Proof.
  unfold group_index, mjMAXi, mjMINi, mjNGROUP.
  destruct (6 - 1 <? g) eqn:?;
  repeat match goal with |- context [if ?b then _ else _] => destruct b eqn:? end;
    repeat match goal with
    | H : (_ <? _) = true |- _ => apply Z.ltb_lt in H
    | H : (_ <? _) = false |- _ => apply Z.ltb_ge in H
    | H : (_ >? _) = true |- _ => apply Z.gtb_lt in H
    | H : (_ >? _) = false |- _ => rewrite Z.gtb_ltb in H; apply Z.ltb_ge in H
    end; lia.
Qed.

(** Two computations with the same outcome in every state. *)
Definition same_outcome {A} (c c' : M A) : Prop := forall s, c s = c' s.

Lemma same_refl {A} (c : M A) : same_outcome c c.
Proof. intros s. reflexivity. Qed.

Lemma same_bind {A B} (c c' : M A) (k k' : A -> M B) :
  same_outcome c c' -> (forall a, same_outcome (k a) (k' a)) ->
  same_outcome (bind c k) (bind c' k').
Proof.
  intros Hc Hk s. unfold bind. rewrite Hc. destruct (c' s); auto. apply Hk.
Qed.

Lemma same_for_each {A} (l : list A) (f g : A -> M unit) :
  (forall i, same_outcome (f i) (g i)) -> same_outcome (for_each l f) (for_each l g).
Proof.
  intros H. induction l as [|i l IH]; cbn [for_each].
  - apply same_refl.
  - apply same_bind; [apply H | intros _; exact IH].
Qed.

Lemma same_for_each_acc {A S} (l : list A) (acc : S) (f g : A -> S -> M S) :
  (forall i acc, same_outcome (f i acc) (g i acc)) ->
  same_outcome (for_each_acc l acc f) (for_each_acc l acc g).
Proof.
  intros H. revert acc. induction l as [|i l IH]; intros acc; cbn [for_each_acc].
  - apply same_refl.
  - apply same_bind; [apply H | intros acc'; apply IH].
Qed.

(** Two option records that differ at most in the entries of the group
    arrays outside [0, mjNGROUP-1]. *)
Definition groups_agree (v v' : mjvOption) : Prop :=
  vopt_label v = vopt_label v' /\ vopt_frame v = vopt_frame v'
  /\ vopt_flags v = vopt_flags v'
  /\ forall k, 0 <= k <= mjNGROUP - 1 ->
       geomgroup v k = geomgroup v' k /\ sitegroup v k = sitegroup v' k
       /\ jointgroup v k = jointgroup v' k /\ tendongroup v k = tendongroup v' k
       /\ actuatorgroup v k = actuatorgroup v' k.

Section Groups.
Variables (m : mjModel) (d : mjData) (pert : mjvPerturb) (catmask : Z).
Variables (v v' : mjvOption).
Hypothesis agree : groups_agree v v'.

Lemma agree_at g :
  geomgroup v (group_index g) = geomgroup v' (group_index g)
  /\ sitegroup v (group_index g) = sitegroup v' (group_index g)
  /\ jointgroup v (group_index g) = jointgroup v' (group_index g)
  /\ tendongroup v (group_index g) = tendongroup v' (group_index g)
  /\ actuatorgroup v (group_index g) = actuatorgroup v' (group_index g).
Proof.
  destruct agree as (_ & _ & _ & H). apply H. apply group_index_range.
Qed.

Ltac use_agree :=
  destruct agree as (Hl & Hf & Hfl & _);
  repeat rewrite Hl; repeat rewrite Hf; repeat rewrite Hfl.

Lemma same_joint : same_outcome (addGeoms_joint m d v catmask) (addGeoms_joint m d v' catmask).
Proof.
  unfold addGeoms_joint. use_agree. cbv zeta.
  destruct (vopt_flags v' mjVIS_JOINT && band mjCAT_DECOR catmask); [|apply same_refl].
  apply same_for_each. intros i.
  destruct (agree_at (jnt_group m i)) as (_ & _ & -> & _). apply same_refl.
Qed.

Lemma same_actuator_rgba i : actuator_rgba m d v i = actuator_rgba m d v' i.
Proof.
  unfold actuator_rgba, actuator_act, actuator_rng.
  destruct agree as (_ & _ & Hfl & _). rewrite Hfl. reflexivity.
Qed.

Lemma same_actuator :
  same_outcome (addGeoms_actuator m d v catmask) (addGeoms_actuator m d v' catmask).
Proof.
  unfold addGeoms_actuator. use_agree. cbv zeta.
  destruct (vopt_flags v' mjVIS_ACTUATOR && band mjCAT_DECOR catmask); [|apply same_refl].
  apply same_for_each. intros i.
  rewrite same_actuator_rgba.
  destruct (agree_at (actuator_group m i)) as (_ & _ & _ & _ & ->). apply same_refl.
Qed.

Lemma same_geom :
  same_outcome (addGeoms_geom m d v pert catmask) (addGeoms_geom m d v' pert catmask).
Proof.
  unfold addGeoms_geom, geom_body. use_agree. cbv zeta.
  apply same_bind; [|intros; apply same_refl].
  apply same_for_each_acc. intros i acc.
  destruct (agree_at (geom_group m i)) as (-> & _). apply same_refl.
Qed.

Lemma same_site :
  same_outcome (addGeoms_site m d v pert catmask) (addGeoms_site m d v' pert catmask).
Proof.
  unfold addGeoms_site, site_body. use_agree. cbv zeta.
  apply same_for_each. intros i.
  destruct (agree_at (site_group m i)) as (_ & -> & _). apply same_refl.
Qed.

Lemma same_tendon :
  same_outcome (addGeoms_tendon m d v catmask) (addGeoms_tendon m d v' catmask).
Proof.
  unfold addGeoms_tendon. use_agree. cbv zeta.
  destruct (vopt_flags v' mjVIS_TENDON && band mjCAT_DYNAMIC catmask); [|apply same_refl].
  apply same_for_each. intros i.
  destruct (agree_at (tendon_group m i)) as (_ & _ & _ & -> & _). apply same_refl.
Qed.

(** The blocks that do not read the group arrays. *)
Ltac same_block := intros s; use_agree; reflexivity.

Lemma same_others :
  same_outcome (addGeoms_skin m d v pert catmask) (addGeoms_skin m d v' pert catmask)
  /\ same_outcome (addGeoms_inertia m d v pert catmask) (addGeoms_inertia m d v' pert catmask)
  /\ same_outcome (addGeoms_pertobj m d v pert catmask) (addGeoms_pertobj m d v' pert catmask)
  /\ same_outcome (addGeoms_bodyframe m d v catmask) (addGeoms_bodyframe m d v' catmask)
  /\ same_outcome (addGeoms_selectpoint m d v pert catmask)
       (addGeoms_selectpoint m d v' pert catmask)
  /\ same_outcome (addGeoms_bodylabel m d v pert catmask)
       (addGeoms_bodylabel m d v' pert catmask)
  /\ same_outcome (addGeoms_camera m d v catmask) (addGeoms_camera m d v' catmask)
  /\ same_outcome (addGeoms_light m d v catmask) (addGeoms_light m d v' catmask)
  /\ same_outcome (addGeoms_slidercrank m d v catmask) (addGeoms_slidercrank m d v' catmask)
  /\ same_outcome (addGeoms_com m d v catmask) (addGeoms_com m d v' catmask)
  /\ same_outcome (addGeoms_autoconnect m d v catmask) (addGeoms_autoconnect m d v' catmask)
  /\ same_outcome (addGeoms_rangefinder m d v catmask) (addGeoms_rangefinder m d v' catmask)
  /\ same_outcome (addGeoms_pertforce m d v catmask) (addGeoms_pertforce m d v' catmask)
  /\ same_outcome (addGeoms_constraint m d v catmask) (addGeoms_constraint m d v' catmask)
  /\ same_outcome (addGeoms_contact m d v catmask) (addGeoms_contact m d v' catmask).
Proof.
  unfold addGeoms_skin, skin_body, addGeoms_inertia, addGeoms_pertobj, addGeoms_bodyframe,
    addGeoms_selectpoint, addGeoms_bodylabel, addGeoms_camera, addGeoms_light,
    addGeoms_slidercrank, addGeoms_com, addGeoms_autoconnect, addGeoms_rangefinder,
    addGeoms_pertforce, addGeoms_constraint, addGeoms_contact, addContactGeom,
    contact_point, contact_arrow.
  repeat split; same_block.
Qed.

End Groups.

Lemma same_addGeoms m d pert catmask v v' :
  groups_agree v v' ->
  same_outcome (mjv_addGeoms m d v pert catmask) (mjv_addGeoms m d v' pert catmask).
Proof.
  intros H. unfold mjv_addGeoms. cbv zeta.
  pose proof H as (Hl & Hf & Hfl & Hg). rewrite Hfl.
  set (pert' := match pert with Some p => p | None => mjv_defaultPerturb end).
  set (mask := if negb (vopt_flags v' mjVIS_STATIC)
               then Z.land catmask (Z.lnot mjCAT_STATIC) else catmask).
  destruct (same_others m d pert' mask H)
    as (S1 & S2 & S3 & S4 & S5 & S6 & S7 & S8 & S9 & S10 & S11 & S12 & S13 & S14 & S15).
  repeat (lazymatch goal with
          | |- same_outcome (bind _ _) (bind _ _) => apply same_bind; [ | intros _ ]
          end);
    first [ assumption
          | apply same_joint; exact H | apply same_actuator; exact H
          | apply same_geom; exact H | apply same_site; exact H
          | apply same_tendon; exact H ].
Qed.


(** Two option records that differ in entry 7 of the joint groups, outside
    the array of mjNGROUP = 6 entries. *)
Definition options_with_stray_entry : mjvOption :=
  set_jointgroup zero_mjvOption (fun k => k =? 7).

Lemma stray_entry_agrees : groups_agree zero_mjvOption options_with_stray_entry.
Proof.
  unfold groups_agree, options_with_stray_entry; cbn.
  repeat split; auto.
  unfold mjNGROUP in *. symmetry. apply Z.eqb_neq. lia.
Qed.


(** ** Fully transparent elements *)

(** The geom under construction and its update. *)
Definition slot (s : vstate) : mjvGeom := geoms (scn s) (scn_ngeom (scn s)).

Definition with_slot (s : vstate) (g : mjvGeom) : vstate :=
  {| scn := set_geoms (scn s) (upd (geoms (scn s)) (scn_ngeom (scn s)) g);
     warning_vgeomfull := warning_vgeomfull s |}.

(** The geom that START leaves in the slot. *)
Definition started (objtype : mjtObj) (i category : Z) (s : vstate) : mjvGeom :=
  set_segid
    (set_category
       (set_objid (set_objtype (mjv_initGeom (slot s) mjGEOM_NONE None None None None) objtype) i)
       category)
    (scn_ngeom (scn s)).

(** The state after FINISH. *)
Definition advanced (s : vstate) : vstate :=
  {| scn := set_scn_ngeom (scn s) (scn_ngeom (scn s) + 1);
     warning_vgeomfull := warning_vgeomfull s |}.

Lemma slot_with_slot s g : slot (with_slot s g) = g.
Proof. unfold slot, with_slot, upd; cbn. rewrite Z.eqb_refl. reflexivity. Qed.

Lemma geoms_with_slot s g k :
  k <> scn_ngeom (scn s) -> geoms (scn (with_slot s g)) k = geoms (scn s) k.
Proof.
  intros H. unfold with_slot, upd; cbn. apply Z.eqb_neq in H. rewrite H. reflexivity.
Qed.

Lemma bind_START_space objtype i category {A} (k : unit -> M A) s :
  scn_ngeom (scn s) < maxgeom (scn s) ->
  bind (START objtype i category) k s = k tt (with_slot s (started objtype i category s)).
Proof.
  intros H. cbv beta iota delta [bind START get_scn].
  assert (E : (scn_ngeom (scn s) >=? maxgeom (scn s)) = false).
  { rewrite Z.geb_leb. apply Z.leb_gt. exact H. }
  rewrite E. reflexivity.
Qed.

Lemma bind_START_full objtype i category {A} (k : unit -> M A) s :
  maxgeom (scn s) <= scn_ngeom (scn s) ->
  bind (START objtype i category) k s
  = Return {| scn := scn s;
              warning_vgeomfull :=
                {| lastinfo := maxgeom (scn s);
                   number := number (warning_vgeomfull s) + 1 |} |}.
Proof.
  intros H. cbv beta iota delta [bind START get_scn].
  assert (E : (scn_ngeom (scn s) >=? maxgeom (scn s)) = true) by (apply Z.geb_le; exact H).
  rewrite E. reflexivity.
Qed.

Lemma bind_assign f {A} (k : unit -> M A) s :
  bind (assign f) k s = k tt (with_slot s (f (slot s))).
Proof. reflexivity. Qed.

Lemma bind_assign_ok f g' {A} (k : unit -> M A) s :
  f (slot s) = Ok g' -> bind (assign_result f) k s = k tt (with_slot s g').
Proof.
  intros H. cbv beta iota delta [bind assign_result thisgeom get_scn ret].
  fold (slot s). rewrite H. reflexivity.
Qed.

Lemma bind_thisgeom {A} (k : mjvGeom -> M A) s : bind thisgeom k s = k (slot s) s.
Proof. reflexivity. Qed.

Lemma bind_FINISH {A} (k : unit -> M A) s : bind FINISH k s = k tt (advanced s).
Proof. reflexivity. Qed.

Lemma bind_when_assign (b : bool) f {A} (k : unit -> M A) s :
  bind (if b then assign f else ret tt) k s
  = k tt (if b then with_slot s (f (slot s)) else s).
Proof. destruct b; reflexivity. Qed.

(** The color in which material resolution ends, for a geom of category
    [cat], the material [matid] and the color [c] of the element. *)
Definition material_rgba (m : mjModel) (flags : mjtVisFlag -> bool) (cat matid : Z)
    (c : vec4) : vec4 :=
  scale_alpha m flags cat
    (if negb (Reqb (q0 c) (1 / 2)) || negb (Reqb (q1 c) (1 / 2))
        || negb (Reqb (q2 c) (1 / 2)) || negb (Reqb (q3 c) 1) || (matid <? 0)
     then c else vec4_at (offset (mat_rgba m) (4 * matid))).

Lemma setMaterial_material_rgba m g matid c flags :
  rgba (setMaterial m g matid c flags) = material_rgba m flags (category g) matid c.
Proof.
  rewrite setMaterial_rgba. unfold material_rgba.
  destruct (negb (Reqb (q0 c) (1 / 2)) || negb (Reqb (q1 c) (1 / 2))
            || negb (Reqb (q2 c) (1 / 2)) || negb (Reqb (q3 c) 1)); cbn [orb]; [reflexivity|].
  destruct (matid <? 0) eqn:E; [reflexivity|].
  assert (E' : (matid >=? 0) = true) by (apply Z.geb_le; apply Z.ltb_ge in E; lia).
  rewrite E'. reflexivity.
Qed.

Lemma setMaterial_objtype m g matid c flags :
  objtype (setMaterial m g matid c flags) = objtype g.
Proof.
  unfold setMaterial.
  destruct (matid >=? 0); geom_simpl;
    repeat match goal with |- context [if ?b then _ else _] => destruct b end; reflexivity.
Qed.

Lemma setMaterial_objid m g matid c flags :
  objid (setMaterial m g matid c flags) = objid g.
Proof.
  unfold setMaterial.
  destruct (matid >=? 0); geom_simpl;
    repeat match goal with |- context [if ?b then _ else _] => destruct b end; reflexivity.
Qed.

(** The outcome of a loop body that emits nothing: the counter and the
    geoms in use are as before (the body may have left by the return of
    START, with the warning recorded). *)
Definition nothing_emitted {A} (s : vstate) (out : outcome A) : Prop :=
  match out with
  | Next _ s' | Return s' =>
      scn_ngeom (scn s') = scn_ngeom (scn s)
      /\ maxgeom (scn s') = maxgeom (scn s)
      /\ forall k, k < scn_ngeom (scn s) -> geoms (scn s') k = geoms (scn s) k
  | Fatal _ => False
  end.

Lemma nothing_emitted_same {A} (a : A) s : nothing_emitted s (Next a s).
Proof. cbn. auto. Qed.

Lemma nothing_emitted_start {A} objtype i category (k : unit -> M A) s :
  (scn_ngeom (scn s) < maxgeom (scn s) ->
   nothing_emitted s (k tt (with_slot s (started objtype i category s)))) ->
  nothing_emitted s (bind (START objtype i category) k s).
Proof.
  intros H. destruct (Z_lt_le_dec (scn_ngeom (scn s)) (maxgeom (scn s))) as [Hs | Hf].
  - rewrite bind_START_space by exact Hs. apply H, Hs.
  - rewrite bind_START_full by exact Hf. cbn. auto.
Qed.

(** A state that differs from [s] in the slot under construction only. *)
Definition slot_only (s s' : vstate) : Prop :=
  scn_ngeom (scn s') = scn_ngeom (scn s)
  /\ maxgeom (scn s') = maxgeom (scn s)
  /\ forall k, k < scn_ngeom (scn s) -> geoms (scn s') k = geoms (scn s) k.

Lemma slot_only_refl s : slot_only s s.
Proof. repeat split. Qed.

Lemma slot_only_with_slot s s' g : slot_only s s' -> slot_only s (with_slot s' g).
Proof.
  intros (H1 & H2 & H3). unfold slot_only. cbn.
  split; [exact H1|]. split; [exact H2|].
  intros k Hk. unfold upd. destruct (k =? scn_ngeom (scn s')) eqn:E.
  - apply Z.eqb_eq in E. lia.
  - apply H3, Hk.
Qed.

Lemma slot_only_nothing {A} (a : A) s s' : slot_only s s' -> nothing_emitted s (Next a s').
Proof. intros H. exact H. Qed.

Section Transparent.
Variables (m : mjModel) (d : mjData) (vopt : mjvOption) (pert : mjvPerturb) (catmask : Z).

(** A skin that is not selected and whose resolved alpha is 0 is skipped. *)
Lemma transparent_skin i s :
  q3 (material_rgba m (vopt_flags vopt) mjCAT_DYNAMIC (skin_matid m i)
        (vec4_at (offset (skin_rgba m) (4 * i)))) = 0%R ->
  skinselect pert <> i ->
  nothing_emitted s (skin_body m d vopt pert i s).
Proof.
  intros Ha Hsel. unfold skin_body. cbv zeta.
  apply nothing_emitted_start. intros Hs.
  rewrite !bind_assign.
  apply Z.eqb_neq in Hsel. rewrite Hsel.
  unfold bind at 1; cbn [ret].
  rewrite bind_when_assign, bind_thisgeom.
  rewrite !slot_with_slot.
  match goal with |- context [Reqb ?x 0] => assert (Hx : x = 0%R) end.
  { destruct (skin_texcoordadr m i >=? 0); rewrite ?slot_with_slot; geom_simpl;
      rewrite setMaterial_material_rgba; exact Ha. }
  rewrite Hx, Reqb_refl.
  apply slot_only_nothing.
  destruct (skin_texcoordadr m i >=? 0);
    repeat apply slot_only_with_slot; apply slot_only_refl.
Qed.

(** A skin that is selected is emitted, opaque, whatever its alpha. *)
Lemma selected_skin i s :
  skinselect pert = i ->
  scn_ngeom (scn s) < maxgeom (scn s) ->
  exists s', skin_body m d vopt pert i s = Next tt s'
             /\ scn_ngeom (scn s') = scn_ngeom (scn s) + 1
             /\ q3 (rgba (geoms (scn s') (scn_ngeom (scn s)))) = 1%R
             /\ objtype (geoms (scn s') (scn_ngeom (scn s))) = mjOBJ_SKIN
             /\ objid (geoms (scn s') (scn_ngeom (scn s))) = i.
Proof.
  intros Hsel Hs. unfold skin_body. cbv zeta.
  rewrite bind_START_space by exact Hs.
  rewrite !bind_assign.
  apply Z.eqb_eq in Hsel. rewrite Hsel.
  rewrite bind_assign, bind_when_assign, bind_thisgeom.
  assert (E : Reqb 1 0 = false) by (apply Reqb_false; lra).
  destruct (skin_texcoordadr m i >=? 0); rewrite !slot_with_slot;
    geom_simpl; unfold markselected; geom_simpl; cbn [q3].
  all: rewrite E.
  all: destruct (label_is (vopt_label vopt) mjLABEL_SKIN);
    rewrite ?bind_assign, ?slot_with_slot; unfold FINISH;
    cbv beta iota delta [bind get_scn put_scn ret];
    eexists; (split; [reflexivity|]);
    cbn [scn scn_ngeom advanced with_slot set_scn_ngeom set_geoms geoms];
    unfold upd; rewrite ?Z.eqb_refl; geom_simpl; cbn [q3];
    rewrite ?setMaterial_objtype, ?setMaterial_objid;
    (split; [reflexivity|]); repeat split; reflexivity.
Qed.

Lemma nothing_emitted_then {A B} (c : M A) (b : B) s :
  nothing_emitted s (c s) -> nothing_emitted s (bind c (fun _ => ret b) s).
Proof. unfold bind. destruct (c s); intros H; exact H. Qed.

(** A geom whose resolved alpha is 0 is skipped, selected or not. *)
Lemma transparent_geom i planeid s :
  q3 (material_rgba m (vopt_flags vopt) (bodycategory m (geom_bodyid m i)) (geom_matid m i)
        (vec4_at (offset (geom_rgba m) (4 * i)))) = 0%R ->
  nothing_emitted s (geom_body m d vopt pert catmask i planeid s).
Proof.
  intros Ha. unfold geom_body. cbv zeta.
  destruct (negb (band (bodycategory m (geom_bodyid m i)) catmask));
    [apply nothing_emitted_same|].
  apply nothing_emitted_then.
  destruct (geomgroup vopt (group_index (geom_group m i))); [|apply nothing_emitted_same].
  apply nothing_emitted_start. intros Hs.
  rewrite !bind_assign, bind_when_assign, bind_thisgeom.
  match goal with |- context [Reqb ?x 0] => assert (Hx : x = 0%R) end.
  { destruct ((geom_type m i =? mjGEOM_MESH) && (geom_dataid m i >=? 0)
              && (mesh_texcoordadr m (geom_dataid m i) >=? 0));
      rewrite !slot_with_slot; geom_simpl; rewrite setMaterial_material_rgba;
      unfold mjv_initGeom, started; geom_simpl; exact Ha. }
  rewrite Hx, Reqb_refl.
  apply slot_only_nothing.
  destruct ((geom_type m i =? mjGEOM_MESH) && (geom_dataid m i >=? 0)
            && (mesh_texcoordadr m (geom_dataid m i) >=? 0));
    repeat apply slot_only_with_slot; apply slot_only_refl.
Qed.

(** A site whose resolved alpha is 0 is skipped, selected or not. *)
Lemma transparent_site i s :
  q3 (material_rgba m (vopt_flags vopt) (bodycategory m (site_bodyid m i)) (site_matid m i)
        (vec4_at (offset (site_rgba m) (4 * i)))) = 0%R ->
  nothing_emitted s (site_body m d vopt pert catmask i s).
Proof.
  intros Ha. unfold site_body. cbv zeta.
  destruct (negb (band (bodycategory m (site_bodyid m i)) catmask));
    [apply nothing_emitted_same|].
  destruct (sitegroup vopt (group_index (site_group m i))); [|apply nothing_emitted_same].
  apply nothing_emitted_start. intros Hs.
  rewrite !bind_assign, bind_thisgeom.
  match goal with |- context [Reqb ?x 0] => assert (Hx : x = 0%R) end.
  { rewrite !slot_with_slot; geom_simpl; rewrite setMaterial_material_rgba;
      unfold mjv_initGeom, started; geom_simpl; exact Ha. }
  rewrite Hx, Reqb_refl.
  apply slot_only_nothing.
  repeat apply slot_only_with_slot; apply slot_only_refl.
Qed.

End Transparent.

(** *** A concrete scene: one selected skin of alpha 0 *)

(** One skin without material, of color (0, 0, 0, 0). *)
Definition clear_skin_model : mjModel :=
  set_skin_rgba (set_skin_matid (set_nskin zero_mjModel 1) (fun _ => -1)) (fun _ => 0%R).

Definition skin_options : mjvOption :=
  set_vopt_flags zero_mjvOption (fun f => match f with mjVIS_SKIN => true | _ => false end).

(** The perturbation object after a click on skin 0. *)
Definition skin0_selected : mjvPerturb := set_skinselect mjv_defaultPerturb 0.

Lemma clear_skin_alpha :
  q3 (material_rgba clear_skin_model (vopt_flags skin_options) mjCAT_DYNAMIC
        (skin_matid clear_skin_model 0)
        (vec4_at (offset (skin_rgba clear_skin_model) (4 * 0)))) = 0%R.
Proof.
  unfold material_rgba, scale_alpha.
  change (vopt_flags skin_options mjVIS_TRANSPARENT) with false.
  cbn [andb].
  change (skin_matid clear_skin_model 0 <? 0) with true.
  rewrite !orb_true_r. reflexivity.
Qed.

(** The rest of the walk does nothing in this scene. *)
Lemma clear_skin_walk s1 :
  skin_body clear_skin_model zero_mjData skin_options skin0_selected 0 (empty_scene 10)
  = Next tt s1 ->
  mjv_addGeoms clear_skin_model zero_mjData skin_options (Some skin0_selected) 7
    (empty_scene 10) = Next tt s1.
Proof.
  intros E.
  lazy -[skin_body Rplus Rminus Rmult Rinv Rdiv Ropp sqrt sin cos tan acos IZR Rlt_dec
         Rle_dec Req_dec_T Rpower PI Int_part up Rmax Rmin Rabs] in E.
  lazy -[skin_body Rplus Rminus Rmult Rinv Rdiv Ropp sqrt sin cos tan acos IZR Rlt_dec
         Rle_dec Req_dec_T Rpower PI Int_part up Rmax Rmin Rabs].
  rewrite E. reflexivity.
Qed.

(** The selected skin is emitted whatever its resolved alpha: the skin loop
    marks the selected skin, which sets its alpha to 1, before it tests the
    alpha, so the test does not see the alpha of the material resolution.
    (The geom and site loops test the alpha first and mark afterwards.)
    With room in the buffer the counter advances by one and the new geom is
    the skin, with alpha 1. *)
Theorem transparent_selected_skin_emitted :
  forall (m : mjModel) (d : mjData) (vopt : mjvOption) (pert : mjvPerturb) (i : Z)
         (s : vstate),
    skinselect pert = i ->
    scn_ngeom (scn s) < maxgeom (scn s) ->
    exists s', skin_body m d vopt pert i s = Next tt s'
               /\ scn_ngeom (scn s') = scn_ngeom (scn s) + 1
               /\ objtype (geoms (scn s') (scn_ngeom (scn s))) = mjOBJ_SKIN
               /\ objid (geoms (scn s') (scn_ngeom (scn s))) = i
               /\ q3 (rgba (geoms (scn s') (scn_ngeom (scn s)))) = 1%R.
Proof.
  intros m d vopt pert i s Hsel Hs.
  destruct (@selected_skin m d vopt pert i s Hsel Hs) as (s' & E & Hn & Ha & Ht & Hi).
  exists s'. split; [exact E|]. split; [exact Hn|].
  split; [exact Ht|]. split; [exact Hi | exact Ha].
Qed.

Lemma transparent_selected_skin_emitted_witness :
  exists s', skin_body clear_skin_model zero_mjData skin_options skin0_selected 0
               (empty_scene 10) = Next tt s'
             /\ scn_ngeom (scn s') = scn_ngeom (scn (empty_scene 10)) + 1
             /\ objtype (geoms (scn s') (scn_ngeom (scn (empty_scene 10)))) = mjOBJ_SKIN
             /\ objid (geoms (scn s') (scn_ngeom (scn (empty_scene 10)))) = 0
             /\ q3 (rgba (geoms (scn s') (scn_ngeom (scn (empty_scene 10))))) = 1%R.
Proof.
  refine (@transparent_selected_skin_emitted clear_skin_model zero_mjData skin_options
            skin0_selected 0 (empty_scene 10) _ _).
  - reflexivity.
  - cbn. lia.
Defined.

(** C10: where the code departs from the claim.  In the scene above the
    resolved color of the skin has alpha 0 after material resolution, and
    the skin is the selected one: [mjv_addGeoms] does not skip it.  The
    counter goes from 0 to 1, and geom 0 is the skin, with alpha 1 from the
    mark of the selection, which the skin loop sets before its test of the
    alpha. *)
Theorem transparent_selected_skin_in_scene :
  q3 (material_rgba clear_skin_model (vopt_flags skin_options) mjCAT_DYNAMIC
        (skin_matid clear_skin_model 0)
        (vec4_at (offset (skin_rgba clear_skin_model) (4 * 0)))) = 0%R
  /\ exists s', mjv_addGeoms clear_skin_model zero_mjData skin_options (Some skin0_selected) 7
                  (empty_scene 10) = Next tt s'
                /\ scn_ngeom (scn s') = 1
                /\ objtype (geoms (scn s') 0) = mjOBJ_SKIN
                /\ objid (geoms (scn s') 0) = 0
                /\ q3 (rgba (geoms (scn s') 0)) = 1%R.
Proof.
  split; [exact clear_skin_alpha|].
  assert (Hs : scn_ngeom (scn (empty_scene 10)) < maxgeom (scn (empty_scene 10)))
    by (cbn; lia).
  destruct (@selected_skin clear_skin_model zero_mjData skin_options skin0_selected
              0 (empty_scene 10) eq_refl Hs) as (s' & E & Hn & Ha & Ht & Hi).
  exists s'. split; [apply clear_skin_walk, E|].
  change (scn_ngeom (scn (empty_scene 10))) with 0 in *.
  split; [exact Hn|]. split; [exact Ht|]. split; [exact Hi | exact Ha].
Qed.

(** The part of C10 that the code has.  A geom or a site whose resolved
    alpha is 0 is skipped before the counter is advanced, and so is a skin
    of resolved alpha 0 that is not the selected skin: the body of the loop
    leaves the counter and the geoms in use as they were. *)
Theorem transparent_elements_skipped :
  forall (m : mjModel) (d : mjData) (vopt : mjvOption) (pert : mjvPerturb)
         (catmask i planeid : Z) (s : vstate),
    (q3 (material_rgba m (vopt_flags vopt) mjCAT_DYNAMIC (skin_matid m i)
           (vec4_at (offset (skin_rgba m) (4 * i)))) = 0%R ->
     skinselect pert <> i ->
     nothing_emitted s (skin_body m d vopt pert i s))
    /\ (q3 (material_rgba m (vopt_flags vopt) (bodycategory m (geom_bodyid m i))
              (geom_matid m i) (vec4_at (offset (geom_rgba m) (4 * i)))) = 0%R ->
        nothing_emitted s (geom_body m d vopt pert catmask i planeid s))
    /\ (q3 (material_rgba m (vopt_flags vopt) (bodycategory m (site_bodyid m i))
              (site_matid m i) (vec4_at (offset (site_rgba m) (4 * i)))) = 0%R ->
        nothing_emitted s (site_body m d vopt pert catmask i s)).
Proof.
  intros m d vopt pert catmask i planeid s.
  split; [|split].
  - intros Ha Hsel. apply transparent_skin; assumption.
  - intros Ha. apply transparent_geom, Ha.
  - intros Ha. apply transparent_site, Ha.
Qed.

(** The three cases on the scene above, with no skin selected. *)
Lemma transparent_elements_skipped_witness :
  nothing_emitted (empty_scene 10)
    (skin_body clear_skin_model zero_mjData skin_options mjv_defaultPerturb 0 (empty_scene 10))
  /\ nothing_emitted (empty_scene 10)
       (geom_body clear_skin_model zero_mjData skin_options mjv_defaultPerturb 7 0 (-1)
          (empty_scene 10))
  /\ nothing_emitted (empty_scene 10)
       (site_body clear_skin_model zero_mjData skin_options mjv_defaultPerturb 7 0
          (empty_scene 10)).
Proof.
  pose proof (transparent_elements_skipped clear_skin_model zero_mjData skin_options
                mjv_defaultPerturb 7 0 (-1) (empty_scene 10)) as (Hk & Hg & Hs).
  split; [|split].
  - apply Hk; [exact clear_skin_alpha | discriminate].
  - apply Hg. unfold material_rgba, scale_alpha.
    change (vopt_flags skin_options mjVIS_TRANSPARENT) with false. cbn [andb].
    assert (E : Reqb (q3 (vec4_at (offset (geom_rgba clear_skin_model) (4 * 0)))) 1 = false)
      by (apply Reqb_false; cbn; lra).
    rewrite E. cbn [negb]. rewrite !orb_true_r. cbn [orb]. reflexivity.
  - apply Hs. unfold material_rgba, scale_alpha.
    change (vopt_flags skin_options mjVIS_TRANSPARENT) with false. cbn [andb].
    assert (E : Reqb (q3 (vec4_at (offset (site_rgba clear_skin_model) (4 * 0)))) 1 = false)
      by (apply Reqb_false; cbn; lra).
    rewrite E. cbn [negb]. rewrite !orb_true_r. cbn [orb]. reflexivity.
Defined.

(** ** Contact forces *)

Lemma bind_assoc {A B C} (c : M A) (f : A -> M B) (k : B -> M C) s :
  bind (bind c f) k s = bind c (fun x => bind (f x) k) s.
Proof. unfold bind. destruct (c s); reflexivity. Qed.

Lemma bind_ret {A B} (a : A) (k : A -> M B) s : bind (ret a) k s = k a s.
Proof. reflexivity. Qed.

Lemma for_one (body : Z -> M unit) s :
  for_ 0 1 body s = bind (body 0) (fun _ => ret tt) s.
Proof. reflexivity. Qed.

Lemma for_one_two (body : Z -> M unit) :
  for_ 1 3 body = bind (body 1) (fun _ => bind (body 2) (fun _ => ret tt)).
Proof. reflexivity. Qed.

(** [s'] is [s] with the geom [g] emitted: [g] stands at the former
    position of the counter, the counter is one further, the rest is as
    before. *)
Definition emitted (s : vstate) (g : mjvGeom) (s' : vstate) : Prop :=
  scn_ngeom (scn s') = scn_ngeom (scn s) + 1
  /\ maxgeom (scn s') = maxgeom (scn s)
  /\ geoms (scn s') (scn_ngeom (scn s)) = g
  /\ forall k, k < scn_ngeom (scn s) -> geoms (scn s') k = geoms (scn s) k.

Lemma emitted_advanced s s1 g :
  slot_only s s1 -> slot s1 = g -> emitted s g (advanced s1).
Proof.
  intros (H1 & H2 & H3) <-. unfold emitted, slot. cbn.
  rewrite H1. split; [reflexivity|]. split; [exact H2|]. split; [reflexivity | exact H3].
Qed.

(** The arrow that [mjv_makeConnector] makes of [g]. *)
Definition arrow_of (g : mjvGeom) (width : R) (a dif : vec3) : mjvGeom :=
  set_mat (set_pos (set_size (set_type g mjGEOM_ARROW) (V3 width width (mju_norm3 dif))) a)
    (mju_quat2Mat (mju_quatZ2Vec dif)).

Lemma makeConnector_arrow g width a0 a1 a2 b0 b1 b2 :
  mjv_makeConnector g mjGEOM_ARROW width a0 a1 a2 b0 b1 b2
  = Ok (arrow_of g width (V3 a0 a1 a2) (V3 (b0 - a0) (b1 - a1) (b2 - a2))).
Proof. reflexivity. Qed.

(** One geom assigned field by field: START, the assignments, FINISH. *)
Lemma plain_emitted objtype i category (f : mjvGeom -> mjvGeom) s :
  scn_ngeom (scn s) < maxgeom (scn s) ->
  exists s',
    (forall A (k : unit -> M A),
        bind (START objtype i category ;; assign f ;; FINISH) k s = k tt s')
    /\ emitted s (f (started objtype i category s)) s'.
Proof.
  intros Hs.
  exists (advanced (with_slot (with_slot s (started objtype i category s))
                      (f (started objtype i category s)))).
  split.
  - intros A k. rewrite bind_assoc, bind_START_space by exact Hs.
    rewrite bind_assoc, bind_assign, bind_FINISH, slot_with_slot. reflexivity.
  - apply emitted_advanced; [|apply slot_with_slot].
    repeat apply slot_only_with_slot. apply slot_only_refl.
Qed.

(** One arrow: START, [mjv_makeConnector] with the type arrow, the color
    and the label, FINISH. *)
Lemma arrow_emitted i category width a0 a1 a2 b0 b1 b2 (f : mjvGeom -> mjvGeom) s :
  scn_ngeom (scn s) < maxgeom (scn s) ->
  exists s',
    (forall A (k : unit -> M A),
        bind (START mjOBJ_UNKNOWN i category ;;
              assign_result (fun g =>
                mjv_makeConnector g mjGEOM_ARROW width a0 a1 a2 b0 b1 b2) ;;
              assign f ;;
              FINISH) k s
        = k tt s')
    /\ emitted s
         (f (arrow_of (started mjOBJ_UNKNOWN i category s) width (V3 a0 a1 a2)
               (V3 (b0 - a0) (b1 - a1) (b2 - a2))))
         s'.
Proof.
  intros Hs.
  set (g1 := arrow_of (started mjOBJ_UNKNOWN i category s) width (V3 a0 a1 a2)
               (V3 (b0 - a0) (b1 - a1) (b2 - a2))).
  exists (advanced (with_slot (with_slot (with_slot s (started mjOBJ_UNKNOWN i category s))
                                 g1) (f g1))).
  split.
  - intros A k. rewrite bind_assoc, bind_START_space by exact Hs.
    rewrite bind_assoc.
    erewrite bind_assign_ok by (rewrite slot_with_slot; apply makeConnector_arrow).
    rewrite bind_assoc, bind_assign, bind_FINISH, slot_with_slot. reflexivity.
  - apply emitted_advanced; [|apply slot_with_slot].
    repeat apply slot_only_with_slot. apply slot_only_refl.
Qed.

Lemma emitted_space s g s' n :
  emitted s g s' -> scn_ngeom (scn s) + n <= maxgeom (scn s) ->
  scn_ngeom (scn s') + (n - 1) <= maxgeom (scn s').
Proof. intros (H1 & H2 & _) H. rewrite H1, H2. lia. Qed.

(** The force of contact [i], for a contact of dimension 3 or more. *)
Definition contact_frc (d : mjData) (i : Z) : vec3 :=
  V3 (f0 (contact_force d i)) (f1 (contact_force d i)) (f2 (contact_force d i)).

(** The label of the arrow that carries the force magnitude. *)
Definition force_label (d : mjData) (vopt : mjvOption) (i : Z) : label_text :=
  if label_is (vopt_label vopt) mjLABEL_CONTACTFORCE
  then LabelForce (mju_norm3 (contact_frc d i)) else LabelNone.

(** The marker of an included contact. *)
Lemma contact_point_emitted m d i s :
  0 <= con_efc_address (contact d i) ->
  scn_ngeom (scn s) < maxgeom (scn s) ->
  exists s' g,
    (forall A (k : unit -> M A), bind (contact_point m d i) k s = k tt s')
    /\ emitted s g s'
    /\ type g = mjGEOM_CYLINDER
    /\ pos g = con_pos (contact d i)
    /\ rgba g = vis_rgba_contactpoint m
    /\ label g = LabelNone.
Proof.
  intros He Hs. unfold contact_point. cbv zeta.
  assert (E : (con_efc_address (contact d i) >=? 0) = true) by (apply Z.geb_le; exact He).
  rewrite E.
  match goal with |- context [assign ?f] =>
    destruct (@plain_emitted mjOBJ_UNKNOWN i mjCAT_DECOR f s Hs) as (s' & Hk & Hem) end.
  eexists s', _. split; [exact Hk|]. split; [exact Hem|].
  repeat split; reflexivity.
Qed.

(** One colored arrow with its label. *)
Lemma labelled_arrow_emitted i category width a0 a1 a2 b0 b1 b2 (c : vec4) (bl : bool)
    (l : label_text) s :
  scn_ngeom (scn s) < maxgeom (scn s) ->
  exists s' g,
    (forall A (k : unit -> M A),
        bind (START mjOBJ_UNKNOWN i category ;;
              assign_result (fun g =>
                mjv_makeConnector g mjGEOM_ARROW width a0 a1 a2 b0 b1 b2) ;;
              assign (fun g => if bl then set_label (set_rgba g c) l else set_rgba g c) ;;
              FINISH) k s
        = k tt s')
    /\ emitted s g s'
    /\ type g = mjGEOM_ARROW
    /\ size g = V3 width width (mju_norm3 (V3 (b0 - a0) (b1 - a1) (b2 - a2)))
    /\ pos g = V3 a0 a1 a2
    /\ rgba g = c
    /\ label g = (if bl then l else LabelNone).
Proof.
  intros Hs.
  destruct (@arrow_emitted i category width a0 a1 a2 b0 b1 b2
              (fun g => if bl then set_label (set_rgba g c) l else set_rgba g c) s Hs)
    as (s' & Hk & Hem).
  eexists s', _. split; [exact Hk|]. split; [exact Hem|].
  destruct bl; repeat split; reflexivity.
Qed.

Lemma vec3_eta (v : vec3) : V3 (c0 v) (c1 v) (c2 v) = v.
Proof. destruct v; reflexivity. Qed.

Lemma shifted_back (p v : vec3) :
  V3 (c0 p + c0 v - c0 p) (c1 p + c1 v - c1 p) (c2 p + c2 v - c2 p) = v.
Proof. destruct v as [x y z]. cbn [c0 c1 c2]. f_equal; ring. Qed.

(** The arrow [j] of a split contact force: the normal force for [j = 1],
    the friction force for [j = 2]. *)
Lemma contact_arrow_emitted m d vopt i frc j s :
  scn_ngeom (scn s) < maxgeom (scn s) ->
  exists s' g,
    (forall A (k : unit -> M A), bind (contact_arrow m d vopt i frc true j) k s = k tt s')
    /\ emitted s g s'
    /\ type g = mjGEOM_ARROW
    /\ size g = V3 (vis_scale_forcewidth m * stat_meansize m)
                   (vis_scale_forcewidth m * stat_meansize m)
                   (mju_norm3 (contact_vec m d i frc j))
    /\ pos g = con_pos (contact d i)
    /\ rgba g = (if j =? 2 then vis_rgba_contactfriction m else vis_rgba_contactforce m)
    /\ label g = (if label_is (vopt_label vopt) mjLABEL_CONTACTFORCE && (j =? 1)
                  then LabelForce (mju_norm3 frc) else LabelNone).
Proof.
  intros Hs. unfold contact_arrow. cbv zeta.
  cbn [negb]. rewrite andb_false_r. cbv iota.
  match goal with
  | |- context [bind (START _ _ _)
                  (fun _ => bind (assign_result
                     (fun g => mjv_makeConnector g _ ?w ?a0 ?a1 ?a2 ?b0 ?b1 ?b2)) _)] =>
      destruct (@labelled_arrow_emitted i mjCAT_DECOR w a0 a1 a2 b0 b1 b2
                  (if j =? 2 then vis_rgba_contactfriction m else vis_rgba_contactforce m)
                  (label_is (vopt_label vopt) mjLABEL_CONTACTFORCE && (j =? 1))
                  (LabelForce (mju_norm3 frc)) s Hs)
        as (s' & g & Hk & Hem & Ht & Hz & Hp & Hr & Hl)
  end.
  exists s', g. split; [exact Hk|]. split; [exact Hem|].
  split; [exact Ht|].
  split.
  { rewrite Hz. rewrite (shifted_back (con_pos (contact d i))). reflexivity. }
  split; [rewrite Hp; apply vec3_eta|]. split; [exact Hr | exact Hl].
Qed.

Section ContactSplit.
Variables (m : mjModel) (d : mjData) (flags : mjtVisFlag -> bool) (vopt : mjvOption).
Hypothesis one_contact : ncon d = 1.
Hypothesis dim3 : con_dim (contact d 0) = 3.
Hypothesis included : 0 <= con_efc_address (contact d 0).
Hypothesis show_force : flags mjVIS_CONTACTFORCE = true.
Hypothesis show_split : flags mjVIS_CONTACTSPLIT = true.
Hypothesis no_frame : frame_is (vopt_frame vopt) mjFRAME_CONTACT = false.
Hypothesis force_seen : (mjMINVAL <= mju_norm3 (contact_frc d 0))%R.

(** The walk over the contact: the marker if contact points are shown,
    then the normal arrow, then the friction arrow. *)
Lemma contact_split_walk s :
  scn_ngeom (scn s) + 3 <= maxgeom (scn s) ->
  exists s1 s2 s3 gn gf,
    addContactGeom m d flags vopt s = Next tt s3
    /\ (if flags mjVIS_CONTACTPOINT
        then exists gm, emitted s gm s1
                        /\ type gm = mjGEOM_CYLINDER
                        /\ pos gm = con_pos (contact d 0)
                        /\ rgba gm = vis_rgba_contactpoint m
                        /\ label gm = LabelNone
        else s1 = s)
    /\ emitted s1 gn s2
    /\ type gn = mjGEOM_ARROW
    /\ c2 (size gn) = mju_norm3 (contact_vec m d 0 (contact_frc d 0) 1)
    /\ pos gn = con_pos (contact d 0)
    /\ rgba gn = vis_rgba_contactforce m
    /\ label gn = force_label d vopt 0
    /\ emitted s2 gf s3
    /\ type gf = mjGEOM_ARROW
    /\ c2 (size gf) = mju_norm3 (contact_vec m d 0 (contact_frc d 0) 2)
    /\ pos gf = con_pos (contact d 0)
    /\ rgba gf = vis_rgba_contactfriction m
    /\ label gf = LabelNone.
Proof.
  intros Hs.
  (* the marker *)
  assert (Hmark : exists s1,
             (forall A (k : unit -> M A),
                 bind (when (flags mjVIS_CONTACTPOINT) then contact_point m d 0) k s = k tt s1)
             /\ scn_ngeom (scn s1) + 2 <= maxgeom (scn s1)
             /\ (if flags mjVIS_CONTACTPOINT
                 then exists gm, emitted s gm s1
                                 /\ type gm = mjGEOM_CYLINDER
                                 /\ pos gm = con_pos (contact d 0)
                                 /\ rgba gm = vis_rgba_contactpoint m
                                 /\ label gm = LabelNone
                 else s1 = s)).
  { destruct (flags mjVIS_CONTACTPOINT).
    - assert (Hs1 : scn_ngeom (scn s) < maxgeom (scn s)) by lia.
      destruct (@contact_point_emitted m d 0 s included Hs1) as (s1 & gm & Hk & Hem & Hf).
      exists s1. split; [exact Hk|]. split.
      + pose proof (@emitted_space s gm s1 3 Hem Hs) as H. lia.
      + exists gm. split; [exact Hem | exact Hf].
    - exists s. split; [intros A k; reflexivity|]. split; [lia | reflexivity]. }
  destruct Hmark as (s1 & Hk1 & Hs1 & Hm).
  (* the normal arrow *)
  assert (Hs1' : scn_ngeom (scn s1) < maxgeom (scn s1)) by lia.
  destruct (@contact_arrow_emitted m d vopt 0 (contact_frc d 0) 1 s1 Hs1')
    as (s2 & gn & Hk2 & Hem2 & Htn & Hzn & Hpn & Hrn & Hln).
  (* the friction arrow *)
  assert (Hs2 : scn_ngeom (scn s2) < maxgeom (scn s2)).
  { pose proof (@emitted_space s1 gn s2 2 Hem2 Hs1) as H. lia. }
  destruct (@contact_arrow_emitted m d vopt 0 (contact_frc d 0) 2 s2 Hs2)
    as (s3 & gf & Hk3 & Hem3 & Htf & Hzf & Hpf & Hrf & Hlf).
  exists s1, s2, s3, gn, gf.
  split.
  - unfold addContactGeom. cbv zeta.
    rewrite show_force, show_split, no_frame, one_contact.
    cbn [negb]. rewrite andb_false_r. cbn [andb].
    rewrite for_one, dim3.
    assert (E1 : (con_efc_address (contact d 0) <? 0) = false)
      by (apply Z.ltb_ge; exact included).
    rewrite E1.
    change (mjMINi 3 3) with 3. change (3 >? 1) with true.
    change (0 <? 3) with true. change (1 <? 3) with true. change (2 <? 3) with true.
    cbv iota. fold (contact_frc d 0).
    assert (E3 : Rltb (mju_norm3 (contact_frc d 0)) mjMINVAL = false)
      by (apply Rltb_false; exact force_seen).
    rewrite E3.
    rewrite bind_assoc, Hk1, bind_assoc, bind_ret. cbv beta.
    rewrite for_one_two, !bind_assoc, Hk2, bind_assoc, Hk3.
    reflexivity.
  - split; [exact Hm|]. split; [exact Hem2|]. split; [exact Htn|].
    split; [rewrite Hzn; reflexivity|]. split; [exact Hpn|].
    split; [exact Hrn|].
    split; [rewrite Hln; unfold force_label; rewrite andb_true_r; reflexivity|].
    split; [exact Hem3|]. split; [exact Htf|].
    split; [rewrite Hzf; reflexivity|]. split; [exact Hpf|].
    split; [exact Hrf|].
    rewrite Hlf. rewrite andb_false_r. reflexivity.
Qed.

End ContactSplit.

(** Two and three geoms emitted one after the other. *)
Lemma emitted_twice s g1 s1 g2 s2 :
  emitted s g1 s1 -> emitted s1 g2 s2 ->
  scn_ngeom (scn s2) = scn_ngeom (scn s) + 2
  /\ geoms (scn s2) (scn_ngeom (scn s)) = g1
  /\ geoms (scn s2) (scn_ngeom (scn s) + 1) = g2
  /\ forall k, k < scn_ngeom (scn s) -> geoms (scn s2) k = geoms (scn s) k.
Proof.
  intros (A1 & A2 & A3 & A4) (B1 & B2 & B3 & B4).
  split; [lia|]. split; [|split].
  - rewrite B4 by lia. exact A3.
  - rewrite <- A1. exact B3.
  - intros k Hk. rewrite B4 by lia. apply A4, Hk.
Qed.

Lemma emitted_thrice s g1 s1 g2 s2 g3 s3 :
  emitted s g1 s1 -> emitted s1 g2 s2 -> emitted s2 g3 s3 ->
  scn_ngeom (scn s3) = scn_ngeom (scn s) + 3
  /\ geoms (scn s3) (scn_ngeom (scn s)) = g1
  /\ geoms (scn s3) (scn_ngeom (scn s) + 1) = g2
  /\ geoms (scn s3) (scn_ngeom (scn s) + 2) = g3
  /\ forall k, k < scn_ngeom (scn s) -> geoms (scn s3) k = geoms (scn s) k.
Proof.
  intros H1 H2 (C1 & C2 & C3 & C4).
  destruct (emitted_twice H1 H2) as (D1 & D2 & D3 & D4).
  split; [lia|]. split; [|split; [|split]].
  - rewrite C4 by lia. exact D2.
  - rewrite C4 by lia. exact D3.
  - rewrite <- D1. exact C3.
  - intros k Hk. rewrite C4 by lia. apply D4, Hk.
Qed.

Lemma frame_is_false (a b : mjtFrame) : a <> b -> frame_is a b = false.
Proof.
  intros H. unfold frame_is. destruct (mjtFrame_beq a b) eqn:E; [|reflexivity].
  apply internal_mjtFrame_dec_bl in E. contradiction.
Qed.

(** The normal of contact [i] in world frame: the first row of the frame. *)
Definition contact_normal (d : mjData) (i : Z) : vec3 :=
  V3 (e0 (con_frame (contact d i))) (e1 (con_frame (contact d i)))
     (e2 (con_frame (contact d i))).

(** The two tangents: the second and the third row of the frame. *)
Definition contact_tangent1 (d : mjData) (i : Z) : vec3 :=
  V3 (e3 (con_frame (contact d i))) (e4 (con_frame (contact d i)))
     (e5 (con_frame (contact d i))).

Definition contact_tangent2 (d : mjData) (i : Z) : vec3 :=
  V3 (e6 (con_frame (contact d i))) (e7 (con_frame (contact d i)))
     (e8 (con_frame (contact d i))).

(** The vector of the normal arrow is along the normal, with the normal
    force for length; the vector of the friction arrow is in the tangent
    plane. *)
Lemma contact_vec_normal m d i frc :
  exists k, contact_vec m d i frc 1 = mju_scl3 (contact_normal d i) (c0 frc * k).
Proof.
  unfold contact_vec. cbv zeta. change (1 =? 0) with false. change (1 =? 1) with true.
  cbv iota.
  destruct (geom_bodyid m (con_geom1 (contact d i)) >? geom_bodyid m (con_geom2 (contact d i))).
  - exists (vis_map_force m / stat_meanmass m * -1)%R.
    unfold mju_scl3, contact_normal, mju_transpose; cbn [c0 c1 c2 e0 e3 e6]. f_equal; ring.
  - exists (vis_map_force m / stat_meanmass m)%R.
    unfold mju_scl3, contact_normal, mju_transpose; cbn [c0 c1 c2 e0 e3 e6]. f_equal; ring.
Qed.

Lemma contact_vec_friction m d i frc :
  exists k, contact_vec m d i frc 2
            = mju_add3 (mju_scl3 (contact_tangent1 d i) (c1 frc * k))
                       (mju_scl3 (contact_tangent2 d i) (c2 frc * k)).
Proof.
  unfold contact_vec. cbv zeta. change (2 =? 0) with false. change (2 =? 1) with false.
  change (2 =? 2) with true. cbv iota.
  destruct (geom_bodyid m (con_geom1 (contact d i)) >? geom_bodyid m (con_geom2 (contact d i))).
  - exists (vis_map_force m / stat_meanmass m * -1)%R.
    unfold mju_add3, mju_scl3, contact_tangent1, contact_tangent2, mju_transpose;
      cbn [c0 c1 c2 e1 e2 e4 e5 e7 e8]. f_equal; ring.
  - exists (vis_map_force m / stat_meanmass m)%R.
    unfold mju_add3, mju_scl3, contact_tangent1, contact_tangent2, mju_transpose;
      cbn [c0 c1 c2 e1 e2 e4 e5 e7 e8]. f_equal; ring.
Qed.

(** *** A concrete contact: normal force 3, friction force 4 *)

Definition pushing_contact : mjData :=
  set_contact_force
    (set_contact (set_ncon zero_mjData 1) (fun _ => set_con_dim zero_mjContact 3))
    (fun _ => V6 3 4 0 0 0 0).

(** The flags of the claim: contact forces, split. *)
Definition force_split_flags (f : mjtVisFlag) : bool :=
  match f with mjVIS_CONTACTFORCE | mjVIS_CONTACTSPLIT => true | _ => false end.

(** The same with the contact points. *)
Definition point_force_split_flags (f : mjtVisFlag) : bool :=
  match f with
  | mjVIS_CONTACTPOINT | mjVIS_CONTACTFORCE | mjVIS_CONTACTSPLIT => true
  | _ => false
  end.

Lemma pushing_contact_seen : (mjMINVAL <= mju_norm3 (contact_frc pushing_contact 0))%R.
Proof.
  apply Rle_trans with 1%R.
  - unfold mjMINVAL. rewrite <- Rinv_1.
    apply Rinv_le_contravar; [lra|]. apply pow_R1_Rle. lra.
  - unfold mju_norm3, contact_frc. cbn. rewrite <- sqrt_1 at 1.
    apply sqrt_le_1; lra.
Qed.

(** C5 as stated fails.  The contact has dimension 3, is included in the
    solve and carries a normal force and a friction force; contact forces
    and the split are enabled, nothing else.  The visualizer emits the two
    arrows and nothing more: no marker of the contact point, which is under
    the flag of the contact points, and no label, which is written only in
    the label mode of the contact forces. *)
Lemma contact_split_counterexample :
  ncon pushing_contact = 1
  /\ con_dim (contact pushing_contact 0) = 3
  /\ 0 <= con_efc_address (contact pushing_contact 0)
  /\ f0 (contact_force pushing_contact 0) <> 0%R
  /\ f1 (contact_force pushing_contact 0) <> 0%R
  /\ force_split_flags mjVIS_CONTACTFORCE = true
  /\ force_split_flags mjVIS_CONTACTSPLIT = true
  /\ exists s',
       addContactGeom zero_mjModel pushing_contact force_split_flags zero_mjvOption
         (empty_scene 10) = Next tt s'
       /\ scn_ngeom (scn s') = 2
       /\ type (geoms (scn s') 0) = mjGEOM_ARROW
       /\ type (geoms (scn s') 1) = mjGEOM_ARROW
       /\ label (geoms (scn s') 0) = LabelNone
       /\ label (geoms (scn s') 1) = LabelNone.
Proof.
  split; [reflexivity|]. split; [reflexivity|]. split; [cbn; lia|].
  split; [cbn; lra|]. split; [cbn; lra|]. split; [reflexivity|]. split; [reflexivity|].
  assert (Hs : scn_ngeom (scn (empty_scene 10)) + 3 <= maxgeom (scn (empty_scene 10)))
    by (cbn; lia).
  destruct (@contact_split_walk zero_mjModel pushing_contact force_split_flags zero_mjvOption
              eq_refl eq_refl ltac:(cbn; lia) eq_refl eq_refl eq_refl pushing_contact_seen
              (empty_scene 10) Hs)
    as (s1 & s2 & s3 & gn & gf & E & Hm & Hen & Htn & _ & _ & _ & Hln
        & Hef & Htf & _ & _ & _ & Hlf).
  change (force_split_flags mjVIS_CONTACTPOINT) with false in Hm. cbv iota in Hm.
  subst s1.
  destruct (emitted_twice Hen Hef) as (N & G0 & G1 & _).
  change (scn_ngeom (scn (empty_scene 10))) with 0 in *.
  exists s3. split; [exact E|]. split; [exact N|].
  rewrite G0. change (0 + 1) with 1 in G1. rewrite G1.
  split; [exact Htn|]. split; [exact Htf|]. split; [exact Hln | exact Hlf].
Qed.

(** C5, amended.  For a single contact of dimension 3 that is included in
    the solve and whose force has a norm of at least mjMINVAL, with the
    contact points, the contact forces and the split enabled, with the
    label mode of the contact forces, with a frame mode other than the
    contact frame and with room for three geoms, [addContactGeom] emits
    exactly three geoms, in this order: the marker of the contact point (a
    cylinder at the contact position, without label), the normal arrow
    (along the contact normal, in the color of the contact forces, with the
    one label, which carries the norm of the whole force), and the friction
    arrow (in the tangent plane, in the color of the friction, without
    label).  The geoms emitted before stay. *)
Theorem contact_force_split :
  forall (m : mjModel) (d : mjData) (flags : mjtVisFlag -> bool) (vopt : mjvOption)
         (s : vstate),
    ncon d = 1 ->
    con_dim (contact d 0) = 3 ->
    0 <= con_efc_address (contact d 0) ->
    flags mjVIS_CONTACTPOINT = true ->
    flags mjVIS_CONTACTFORCE = true ->
    flags mjVIS_CONTACTSPLIT = true ->
    vopt_label vopt = mjLABEL_CONTACTFORCE ->
    vopt_frame vopt <> mjFRAME_CONTACT ->
    (mjMINVAL <= mju_norm3 (contact_frc d 0))%R ->
    scn_ngeom (scn s) + 3 <= maxgeom (scn s) ->
    exists s',
      addContactGeom m d flags vopt s = Next tt s'
      /\ scn_ngeom (scn s') = scn_ngeom (scn s) + 3
      /\ (forall k, k < scn_ngeom (scn s) -> geoms (scn s') k = geoms (scn s) k)
      (* the marker *)
      /\ type (geoms (scn s') (scn_ngeom (scn s))) = mjGEOM_CYLINDER
      /\ pos (geoms (scn s') (scn_ngeom (scn s))) = con_pos (contact d 0)
      /\ label (geoms (scn s') (scn_ngeom (scn s))) = LabelNone
      (* the normal arrow *)
      /\ type (geoms (scn s') (scn_ngeom (scn s) + 1)) = mjGEOM_ARROW
      /\ pos (geoms (scn s') (scn_ngeom (scn s) + 1)) = con_pos (contact d 0)
      /\ (exists k, c2 (size (geoms (scn s') (scn_ngeom (scn s) + 1)))
                    = mju_norm3 (mju_scl3 (contact_normal d 0)
                                   (f0 (contact_force d 0) * k)))
      /\ rgba (geoms (scn s') (scn_ngeom (scn s) + 1)) = vis_rgba_contactforce m
      /\ label (geoms (scn s') (scn_ngeom (scn s) + 1))
         = LabelForce (mju_norm3 (contact_frc d 0))
      (* the friction arrow *)
      /\ type (geoms (scn s') (scn_ngeom (scn s) + 2)) = mjGEOM_ARROW
      /\ pos (geoms (scn s') (scn_ngeom (scn s) + 2)) = con_pos (contact d 0)
      /\ (exists k, c2 (size (geoms (scn s') (scn_ngeom (scn s) + 2)))
                    = mju_norm3
                        (mju_add3
                           (mju_scl3 (contact_tangent1 d 0) (f1 (contact_force d 0) * k))
                           (mju_scl3 (contact_tangent2 d 0) (f2 (contact_force d 0) * k))))
      /\ rgba (geoms (scn s') (scn_ngeom (scn s) + 2)) = vis_rgba_contactfriction m
      /\ label (geoms (scn s') (scn_ngeom (scn s) + 2)) = LabelNone.
Proof.
  intros m d flags vopt s Hn Hdim Hefc Hpoint Hforce Hsplit Hlabel Hframe Hnorm Hs.
  destruct (@contact_split_walk m d flags vopt Hn Hdim Hefc Hforce Hsplit
              (frame_is_false Hframe) Hnorm s Hs)
    as (s1 & s2 & s3 & gn & gf & E & Hm & Hen & Htn & Hzn & Hpn & Hrn & Hln
        & Hef & Htf & Hzf & Hpf & Hrf & Hlf).
  rewrite Hpoint in Hm. destruct Hm as (gm & Hem & Htm & Hpm & _ & Hlm).
  destruct (emitted_thrice Hem Hen Hef) as (N & G0 & G1 & G2 & Hold).
  exists s3. rewrite G0, G1, G2.
  split; [exact E|]. split; [exact N|]. split; [exact Hold|].
  split; [exact Htm|]. split; [exact Hpm|]. split; [exact Hlm|].
  split; [exact Htn|]. split; [exact Hpn|].
  split.
  { destruct (contact_vec_normal m d 0 (contact_frc d 0)) as (k & Hk).
    exists k. rewrite Hzn, Hk. reflexivity. }
  split; [exact Hrn|].
  split.
  { rewrite Hln. unfold force_label. rewrite Hlabel. reflexivity. }
  split; [exact Htf|]. split; [exact Hpf|].
  split.
  { destruct (contact_vec_friction m d 0 (contact_frc d 0)) as (k & Hk).
    exists k. rewrite Hzf, Hk. reflexivity. }
  split; [exact Hrf | exact Hlf].
Qed.

(** The options of the amended claim: the label mode of the contact
    forces, no frame. *)
Definition force_label_options : mjvOption :=
  set_vopt_label zero_mjvOption mjLABEL_CONTACTFORCE.

Lemma contact_force_split_witness :
  exists s',
    addContactGeom zero_mjModel pushing_contact point_force_split_flags force_label_options
      (empty_scene 10) = Next tt s'
    /\ scn_ngeom (scn s') = scn_ngeom (scn (empty_scene 10)) + 3
    /\ (forall k, k < scn_ngeom (scn (empty_scene 10)) ->
                  geoms (scn s') k = geoms (scn (empty_scene 10)) k)
    /\ type (geoms (scn s') (scn_ngeom (scn (empty_scene 10)))) = mjGEOM_CYLINDER
    /\ pos (geoms (scn s') (scn_ngeom (scn (empty_scene 10))))
       = con_pos (contact pushing_contact 0)
    /\ label (geoms (scn s') (scn_ngeom (scn (empty_scene 10)))) = LabelNone
    /\ type (geoms (scn s') (scn_ngeom (scn (empty_scene 10)) + 1)) = mjGEOM_ARROW
    /\ pos (geoms (scn s') (scn_ngeom (scn (empty_scene 10)) + 1))
       = con_pos (contact pushing_contact 0)
    /\ (exists k, c2 (size (geoms (scn s') (scn_ngeom (scn (empty_scene 10)) + 1)))
                  = mju_norm3 (mju_scl3 (contact_normal pushing_contact 0)
                                 (f0 (contact_force pushing_contact 0) * k)))
    /\ rgba (geoms (scn s') (scn_ngeom (scn (empty_scene 10)) + 1))
       = vis_rgba_contactforce zero_mjModel
    /\ label (geoms (scn s') (scn_ngeom (scn (empty_scene 10)) + 1))
       = LabelForce (mju_norm3 (contact_frc pushing_contact 0))
    /\ type (geoms (scn s') (scn_ngeom (scn (empty_scene 10)) + 2)) = mjGEOM_ARROW
    /\ pos (geoms (scn s') (scn_ngeom (scn (empty_scene 10)) + 2))
       = con_pos (contact pushing_contact 0)
    /\ (exists k, c2 (size (geoms (scn s') (scn_ngeom (scn (empty_scene 10)) + 2)))
                  = mju_norm3
                      (mju_add3
                         (mju_scl3 (contact_tangent1 pushing_contact 0)
                            (f1 (contact_force pushing_contact 0) * k))
                         (mju_scl3 (contact_tangent2 pushing_contact 0)
                            (f2 (contact_force pushing_contact 0) * k))))
    /\ rgba (geoms (scn s') (scn_ngeom (scn (empty_scene 10)) + 2))
       = vis_rgba_contactfriction zero_mjModel
    /\ label (geoms (scn s') (scn_ngeom (scn (empty_scene 10)) + 2)) = LabelNone.
Proof.
  refine (@contact_force_split zero_mjModel pushing_contact point_force_split_flags
            force_label_options (empty_scene 10) _ _ _ _ _ _ _ _ pushing_contact_seen _).
  - reflexivity.
  - reflexivity.
  - cbn. lia.
  - reflexivity.
  - reflexivity.
  - reflexivity.
  - reflexivity.
  - cbn. discriminate.
  - cbn. lia.
Defined.

(** ** Skinning *)

Local Open Scope Z_scope.

Lemma in_range lo hi k : In k (range lo hi) <-> lo <= k < hi.
Proof.
  unfold range. rewrite in_map_iff. split.
  - intros (n & <- & Hn). apply in_seq in Hn. lia.
  - intros H. exists (Z.to_nat (k - lo)). split; [lia|]. apply in_seq. lia.
Qed.

(** The contribution of an addition at index [k] to the entry [x]. *)
Definition hit (x k : Z) (v : R) : R := if x =? k then v else 0%R.

Lemma add_at_get p k v x : add_at p k v x = (p x + hit x k v)%R.
Proof.
  unfold add_at, upd, hit. destruct (x =? k) eqn:E.
  - apply Z.eqb_eq in E. subst. reflexivity.
  - ring.
Qed.

(** A loop that adds to three consecutive entries per iteration. *)
Lemma fold_add3 {K} (I : K -> Z) (A B C : K -> R) (l : list K) (p : array R) (x : Z) :
  fold_left (fun p k => add_at (add_at (add_at p (I k) (A k)) (I k + 1) (B k))
                          (I k + 2) (C k)) l p x
  = (p x + fold_right (fun k acc =>
                         hit x (I k) (A k) + hit x (I k + 1) (B k) + hit x (I k + 2) (C k)
                         + acc) 0 l)%R.
Proof.
  revert p. induction l as [|k l IH]; intros p; cbn [fold_left fold_right].
  - ring.
  - rewrite IH, !add_at_get. ring.
Qed.

Lemma sum_zero {K} (t : K -> R) (l : list K) :
  (forall k, In k l -> t k = 0%R) -> fold_right (fun k acc => t k + acc)%R 0%R l = 0%R.
Proof.
  induction l as [|k l IH]; intros H; cbn [fold_right].
  - reflexivity.
  - rewrite (H k) by (left; reflexivity). rewrite IH by (intros; apply H; right; assumption).
    ring.
Qed.

Lemma sum_scaled {K} (t : K -> R) (c : R) (l : list K) :
  fold_right (fun k acc => t k * c + acc)%R 0%R l
  = (fold_right (fun k acc => t k + acc) 0 l * c)%R.
Proof.
  induction l as [|k l IH]; cbn [fold_right].
  - ring.
  - rewrite IH. ring.
Qed.

Lemma sum_ext {K} (t t' : K -> R) (l : list K) :
  (forall k, In k l -> t k = t' k) ->
  fold_right (fun k acc => t k + acc)%R 0%R l = fold_right (fun k acc => t' k + acc)%R 0%R l.
Proof.
  induction l as [|k l IH]; intros H; cbn [fold_right].
  - reflexivity.
  - rewrite (H k) by (left; reflexivity). rewrite IH by (intros; apply H; right; assumption).
    reflexivity.
Qed.

(** The component [r] of a vector, for [r] = 0, 1, 2. *)
Definition comp (r : Z) (v : vec3) : R :=
  if r =? 0 then c0 v else if r =? 1 then c1 v else c2 v.

(** The rest position of vertex [v] of skin [i]. *)
Definition rest_position (m : mjModel) (i v : Z) : vec3 :=
  vec3_at (offset (skin_vert m) (3 * (skin_vertadr m i + v))).

(** The weight that bone [j] gives to vertex [v], and the sum of the
    weights of the vertex over the bones of skin [i]. *)
Definition bone_weight (m : mjModel) (j v : Z) : R :=
  fold_right (fun k acc =>
                ((if skin_bonevertid m k =? v then skin_bonevertweight m k else 0) + acc)%R)
    0%R (range (skin_bonevertadr m j) (skin_bonevertadr m j + skin_bonevertnum m j)).

Definition vertex_weight (m : mjModel) (i v : Z) : R :=
  fold_right (fun j acc => (bone_weight m j v + acc)%R) 0%R
    (range (skin_boneadr m i) (skin_boneadr m i + skin_bonenum m i)).

(** Bone [j] is in its bind pose, and the bind quaternion is a unit
    quaternion. *)
Definition bone_at_bind_pose (m : mjModel) (d : mjData) (j : Z) : Prop :=
  vec4_at (offset (xquat d) (4 * skin_bonebodyid m j))
  = vec4_at (offset (skin_bonebindquat m) (4 * j))
  /\ vec3_at (offset (xpos d) (3 * skin_bonebodyid m j))
     = vec3_at (offset (skin_bonebindpos m) (3 * j)).

Definition unit_quat (q : vec4) : Prop :=
  (q0 q * q0 q + q1 q * q1 q + q2 q * q2 q + q3 q * q3 q = 1)%R.

Definition skin_at_bind_pose (m : mjModel) (d : mjData) (i : Z) : Prop :=
  forall j, skin_boneadr m i <= j < skin_boneadr m i + skin_bonenum m i ->
            bone_at_bind_pose m d j
            /\ unit_quat (vec4_at (offset (skin_bonebindquat m) (4 * j))).

(** The entries of the vertex buffer that belong to skin [i]. *)
Definition skin_region (m : mjModel) (i x : Z) : Prop :=
  3 * skin_vertadr m i <= x < 3 * (skin_vertadr m i + skin_vertnum m i).

(** The vertex ids of the bones of skin [i] are vertices of the skin. *)
Definition skin_vertex_ids_ok (m : mjModel) (i : Z) : Prop :=
  forall j k, skin_boneadr m i <= j < skin_boneadr m i + skin_bonenum m i ->
              skin_bonevertadr m j <= k < skin_bonevertadr m j + skin_bonevertnum m j ->
              0 <= skin_bonevertid m k < skin_vertnum m i.

(** The skins have vertex ids of their own and disjoint parts of the
    vertex buffer. *)
Definition skins_separate (m : mjModel) : Prop :=
  (forall i, 0 <= i < nskin m -> skin_vertex_ids_ok m i)
  /\ forall i i', 0 <= i < nskin m -> 0 <= i' < nskin m -> i <> i' ->
                  skin_vertadr m i + skin_vertnum m i <= skin_vertadr m i'
                  \/ skin_vertadr m i' + skin_vertnum m i' <= skin_vertadr m i.

Section Skinning.
Variables (m : mjModel) (d : mjData).

Lemma bind_pose_rotate j :
  bone_at_bind_pose m d j ->
  unit_quat (vec4_at (offset (skin_bonebindquat m) (4 * j))) ->
  bone_rotate m d j = IDENTITY.
Proof.
  intros [Hq _] Hu. unfold bone_rotate. cbv zeta. rewrite Hq.
  set (q := vec4_at (offset (skin_bonebindquat m) (4 * j))) in *.
  assert (E : mju_mulQuat q (mju_negQuat q) = V4 1 0 0 0).
  { unfold unit_quat in Hu. unfold mju_mulQuat, mju_negQuat. cbn [q0 q1 q2 q3].
    f_equal; [rewrite <- Hu; ring | ring | ring | ring]. }
  rewrite E. apply quat2Mat_identity.
Qed.

Lemma bind_pose_translate j :
  bone_at_bind_pose m d j ->
  unit_quat (vec4_at (offset (skin_bonebindquat m) (4 * j))) ->
  bone_translate m d j = V3 0 0 0.
Proof.
  intros Hb Hu. unfold bone_translate. cbv zeta.
  rewrite (bind_pose_rotate Hb Hu). destruct Hb as [_ Hp]. rewrite Hp.
  unfold mju_sub3, mju_rotVecMat, mju_mulMatVec, IDENTITY. cbn [c0 c1 c2 e0 e1 e2 e3 e4 e5 e6 e7 e8].
  f_equal; ring.
Qed.

(** One bone in its bind pose adds to the entry [r] of vertex [v] the
    weight of the vertex times its rest position. *)
Lemma skin_bone_bind_pose i j v r (p : array R) :
  bone_at_bind_pose m d j ->
  unit_quat (vec4_at (offset (skin_bonebindquat m) (4 * j))) ->
  0 <= r < 3 ->
  skin_bone m d (skin_vertadr m i) j p (3 * (skin_vertadr m i + v) + r)
  = (p (3 * (skin_vertadr m i + v) + r)%Z
     + bone_weight m j v * comp r (rest_position m i v))%R.
Proof.
  intros Hb Hu Hr. unfold skin_bone. cbv zeta.
  rewrite (bind_pose_rotate Hb Hu), (bind_pose_translate Hb Hu).
  rewrite (fold_add3 (fun k => 3 * (skin_vertadr m i + skin_bonevertid m k))).
  f_equal. unfold bone_weight. rewrite <- sum_scaled.
  apply sum_ext. intros k _.
  unfold hit, comp, rest_position.
  destruct (Z.eqb_spec (skin_bonevertid m k) v) as [-> | Hne].
  - assert (Hc : r = 0 \/ r = 1 \/ r = 2) by lia.
    destruct Hc as [-> | [-> | ->]];
      repeat match goal with
             | |- context [?a =? ?b] => destruct (Z.eqb_spec a b); try lia
             end;
      unfold mju_add3, mju_rotVecMat, mju_mulMatVec, IDENTITY, vec3_at, offset;
      cbn [c0 c1 c2 e0 e1 e2 e3 e4 e5 e6 e7 e8]; ring.
  - repeat match goal with
           | |- context [?a =? ?b] => destruct (Z.eqb_spec a b); try lia
           end; ring.
Qed.

(** A bone whose vertex ids are vertices of the skin leaves the rest of
    the buffer as it is. *)
Lemma skin_bone_outside i j x (p : array R) :
  (forall k, skin_bonevertadr m j <= k < skin_bonevertadr m j + skin_bonevertnum m j ->
             0 <= skin_bonevertid m k < skin_vertnum m i) ->
  ~ skin_region m i x ->
  skin_bone m d (skin_vertadr m i) j p x = p x.
Proof.
  intros Hid Hx. unfold skin_bone. cbv zeta.
  rewrite (fold_add3 (fun k => 3 * (skin_vertadr m i + skin_bonevertid m k))).
  rewrite sum_zero; [ring|].
  intros k Hk. apply in_range in Hk. specialize (Hid k Hk).
  unfold skin_region in Hx. unfold hit.
  repeat match goal with
         | |- context [?a =? ?b] => destruct (Z.eqb_spec a b); try lia
         end; ring.
Qed.

Lemma skin_positions_list_bind_pose i v r (l : list Z) (p : array R) :
  (forall j, In j l -> bone_at_bind_pose m d j
                       /\ unit_quat (vec4_at (offset (skin_bonebindquat m) (4 * j)))) ->
  0 <= r < 3 ->
  fold_left (fun skinvert j => skin_bone m d (skin_vertadr m i) j skinvert) l p
    (3 * (skin_vertadr m i + v) + r)
  = (p (3 * (skin_vertadr m i + v) + r)%Z
     + fold_right (fun j acc => bone_weight m j v + acc) 0 l
       * comp r (rest_position m i v))%R.
Proof.
  intros Hl Hr. revert p. induction l as [|j l IH]; intros p; cbn [fold_left fold_right].
  - ring.
  - rewrite IH by (intros; apply Hl; right; assumption).
    destruct (Hl j (or_introl eq_refl)) as [Hb Hu].
    rewrite (skin_bone_bind_pose i v p Hb Hu Hr). ring.
Qed.

Lemma skin_positions_list_outside i x (l : list Z) (p : array R) :
  (forall j k, In j l ->
               skin_bonevertadr m j <= k < skin_bonevertadr m j + skin_bonevertnum m j ->
               0 <= skin_bonevertid m k < skin_vertnum m i) ->
  ~ skin_region m i x ->
  fold_left (fun skinvert j => skin_bone m d (skin_vertadr m i) j skinvert) l p x = p x.
Proof.
  intros Hl Hx. revert p. induction l as [|j l IH]; intros p; cbn [fold_left].
  - reflexivity.
  - rewrite IH by (intros j' k Hj; apply Hl; right; assumption).
    apply skin_bone_outside; [|exact Hx].
    intros k Hk. apply (Hl j k); [left; reflexivity | exact Hk].
Qed.

Lemma memset0_inside p k n x : k <= x < k + n -> memset0 p k n x = 0%R.
Proof.
  intros H. unfold memset0.
  assert (E : (k <=? x) && (x <? k + n) = true).
  { apply andb_true_iff. split; [apply Z.leb_le | apply Z.ltb_lt]; lia. }
  rewrite E. reflexivity.
Qed.

Lemma memset0_outside p k n x : ~ k <= x < k + n -> memset0 p k n x = p x.
Proof.
  intros H. unfold memset0.
  destruct ((k <=? x) && (x <? k + n)) eqn:E; [|reflexivity].
  apply andb_true_iff in E. destruct E as [E1 E2].
  apply Z.leb_le in E1. apply Z.ltb_lt in E2. lia.
Qed.

Lemma skin_inflated_outside i x (p n : array R) :
  ~ skin_region m i x -> skin_inflated m i p n x = p x.
Proof.
  intros Hx. unfold skin_inflated.
  destruct (negb (Reqb (skin_inflate m i) 0)); [|reflexivity].
  cbv zeta. rewrite (fold_add3 (fun k => 3 * k)).
  rewrite sum_zero; [ring|].
  intros k Hk. apply in_range in Hk. unfold skin_region in Hx. unfold hit.
  repeat match goal with
         | |- context [?a =? ?b] => destruct (Z.eqb_spec a b); try lia
         end; ring.
Qed.

Lemma skinvert_updateSkin_one scn i :
  skinvert (updateSkin_one m d scn i)
  = skin_inflated m i
      (skin_positions m d i
         (memset0 (skinvert scn) (3 * skin_vertadr m i) (3 * skin_vertnum m i)))
      (skin_normalize m i
         (skin_face_normals m i
            (skin_positions m d i
               (memset0 (skinvert scn) (3 * skin_vertadr m i) (3 * skin_vertnum m i)))
            (memset0 (skinnormal scn) (3 * skin_vertadr m i) (3 * skin_vertnum m i)))).
Proof. reflexivity. Qed.

(** Skin [i] alone, in its bind pose and not inflated: the entry [r] of
    vertex [v] is the sum of the weights of the vertex times the entry of
    its rest position. *)
Lemma updateSkin_one_bind_pose scn i v r :
  skin_at_bind_pose m d i ->
  skin_inflate m i = 0%R ->
  0 <= v < skin_vertnum m i ->
  0 <= r < 3 ->
  skinvert (updateSkin_one m d scn i) (3 * (skin_vertadr m i + v) + r)
  = (vertex_weight m i v * comp r (rest_position m i v))%R.
Proof.
  intros Hpose Hinf Hv Hr. rewrite skinvert_updateSkin_one.
  unfold skin_inflated. rewrite Hinf, Reqb_refl. cbn [negb].
  unfold skin_positions.
  rewrite skin_positions_list_bind_pose;
    [|intros j Hj; apply Hpose, in_range, Hj | exact Hr].
  rewrite memset0_inside by lia. unfold vertex_weight. ring.
Qed.

(** Another skin leaves the entries outside its part of the buffer. *)
Lemma updateSkin_one_outside scn i x :
  skin_vertex_ids_ok m i ->
  ~ skin_region m i x ->
  skinvert (updateSkin_one m d scn i) x = skinvert scn x.
Proof.
  intros Hid Hx. rewrite skinvert_updateSkin_one.
  rewrite skin_inflated_outside by exact Hx.
  unfold skin_positions. rewrite skin_positions_list_outside.
  - apply memset0_outside. unfold skin_region in Hx. lia.
  - intros j k Hj Hk. apply (Hid j k); [apply in_range, Hj | exact Hk].
  - exact Hx.
Qed.

(** The whole loop over the skins. *)
Lemma updateSkin_list_bind_pose (l : list Z) scn i v r :
  skins_separate m ->
  (forall a, In a l -> 0 <= a < nskin m) ->
  In i l ->
  skin_at_bind_pose m d i ->
  skin_inflate m i = 0%R ->
  0 <= v < skin_vertnum m i ->
  0 <= r < 3 ->
  skinvert (fold_left (updateSkin_one m d) l scn) (3 * (skin_vertadr m i + v) + r)
  = (vertex_weight m i v * comp r (rest_position m i v))%R.
Proof.
  intros [Hids Hsep] Hl Hi Hpose Hinf Hv Hr.
  induction l as [|a l IH] using rev_ind; [contradiction|].
  rewrite fold_left_app. cbn [fold_left].
  destruct (Z.eq_dec a i) as [-> | Hne].
  - apply updateSkin_one_bind_pose; assumption.
  - assert (Ha : 0 <= a < nskin m) by (apply Hl, in_or_app; right; left; reflexivity).
    assert (Hi' : In i l).
    { apply in_app_or in Hi. destruct Hi as [Hi | [Hi | []]]; [exact Hi | contradiction]. }
    assert (Hin : 0 <= i < nskin m) by (apply Hl, in_or_app; left; exact Hi').
    rewrite updateSkin_one_outside.
    + apply IH; [|exact Hi']. intros b Hb. apply Hl, in_or_app. left. exact Hb.
    + apply Hids, Ha.
    + unfold skin_region. destruct (Hsep a i Ha Hin Hne); lia.
Qed.

Lemma updateSkin_bind_pose scn i v r :
  skins_separate m ->
  0 <= i < nskin m ->
  skin_at_bind_pose m d i ->
  skin_inflate m i = 0%R ->
  0 <= v < skin_vertnum m i ->
  0 <= r < 3 ->
  skinvert (mjv_updateSkin m d scn) (3 * (skin_vertadr m i + v) + r)
  = (vertex_weight m i v * comp r (rest_position m i v))%R.
Proof.
  intros Hsep Hi. unfold mjv_updateSkin.
  apply updateSkin_list_bind_pose; [exact Hsep | | apply in_range; exact Hi].
  intros a Ha. apply in_range in Ha. exact Ha.
Qed.

(** The same for the three entries of the vertex. *)
Lemma updateSkin_bind_pose_vertex scn i v :
  skins_separate m ->
  0 <= i < nskin m ->
  skin_at_bind_pose m d i ->
  skin_inflate m i = 0%R ->
  0 <= v < skin_vertnum m i ->
  vec3_at (offset (skinvert (mjv_updateSkin m d scn)) (3 * (skin_vertadr m i + v)))
  = mju_scl3 (rest_position m i v) (vertex_weight m i v).
Proof.
  intros Hsep Hi Hpose Hinf Hv. unfold vec3_at, offset, mju_scl3.
  rewrite !updateSkin_bind_pose by (assumption || lia).
  change (comp 0 (rest_position m i v)) with (c0 (rest_position m i v)).
  change (comp 1 (rest_position m i v)) with (c1 (rest_position m i v)).
  change (comp 2 (rest_position m i v)) with (c2 (rest_position m i v)).
  cbn [c0 c1 c2]. f_equal; ring.
Qed.

End Skinning.

(** *** A concrete skin: one bone, one vertex at (1, 0, 0)

    The bone is in its bind pose, with the identity for bind quaternion; the
    vertex has the weight [w]. *)
Definition unit_x (k : Z) : R := if k =? 0 then 1%R else 0%R.

Definition one_vertex_skin (w : R) : mjModel :=
  set_skin_bonevertweight
    (set_skin_vert
       (set_skin_bonebindquat
          (set_skin_bonevertnum
             (set_skin_bonenum
                (set_skin_vertnum (set_nskin zero_mjModel 1) (fun _ => 1))
                (fun _ => 1))
             (fun _ => 1))
          unit_x)
       unit_x)
    (fun _ => w).

Definition bind_pose_data : mjData := set_xquat zero_mjData unit_x.

Lemma one_vertex_skin_separate w : skins_separate (one_vertex_skin w).
Proof.
  split.
  - intros i Hi j k Hj Hk. cbn. lia.
  - intros i i' Hi Hi' Hne. cbn in Hi, Hi'. lia.
Qed.

Lemma one_vertex_skin_bind_pose w : skin_at_bind_pose (one_vertex_skin w) bind_pose_data 0.
Proof.
  intros j Hj. cbn in Hj. assert (j = 0) by lia. subst j.
  split; [split; reflexivity|].
  unfold unit_quat. cbn. lra.
Qed.

Lemma one_vertex_skin_weight w : vertex_weight (one_vertex_skin w) 0 0 = w.
Proof.
  unfold vertex_weight, bone_weight. cbn.
  change (Pos.to_nat 1) with 1%nat. cbn. ring.
Qed.

(** C3 as stated fails.  The bone is in its bind pose, and the vertex has
    the weight 1/2: the skinned position is half the rest position.  The
    loop adds up the weighted positions and does not divide by the sum of
    the weights. *)
Lemma skin_weight_counterexample :
  skin_at_bind_pose (one_vertex_skin (1 / 2)) bind_pose_data 0
  /\ rest_position (one_vertex_skin (1 / 2)) 0 0 = V3 1 0 0
  /\ vec3_at (offset (skinvert (mjv_updateSkin (one_vertex_skin (1 / 2)) bind_pose_data
                                  zero_mjvScene))
                (3 * (skin_vertadr (one_vertex_skin (1 / 2)) 0 + 0)))
     = V3 (1 / 2) 0 0
  /\ V3 (1 / 2) 0 0 <> V3 1 0 0.
Proof.
  split; [apply one_vertex_skin_bind_pose|].
  split; [reflexivity|].
  split.
  - rewrite updateSkin_bind_pose_vertex.
    + rewrite one_vertex_skin_weight. unfold mju_scl3. cbn. f_equal; lra.
    + apply one_vertex_skin_separate.
    + cbn. lia.
    + apply one_vertex_skin_bind_pose.
    + reflexivity.
    + cbn. lia.
  - intros H. apply (f_equal c0) in H. cbn in H. lra.
Qed.

(** C3, amended.  For a skin all of whose bones are in their bind pose,
    with unit bind quaternions, and which is not inflated, in a model whose
    skins have vertex ids and parts of the vertex buffer of their own: after
    [mjv_updateSkin] the position of every vertex of the skin is its rest
    position times the sum of the weights that the bones give to the vertex.
    It is the rest position when this sum is 1. *)
Theorem skin_identity_deformation :
  forall (m : mjModel) (d : mjData) (scn : mjvScene) (i v : Z),
    skins_separate m ->
    0 <= i < nskin m ->
    skin_at_bind_pose m d i ->
    skin_inflate m i = 0%R ->
    0 <= v < skin_vertnum m i ->
    vec3_at (offset (skinvert (mjv_updateSkin m d scn)) (3 * (skin_vertadr m i + v)))
    = mju_scl3 (rest_position m i v) (vertex_weight m i v)
    /\ (vertex_weight m i v = 1%R ->
        vec3_at (offset (skinvert (mjv_updateSkin m d scn)) (3 * (skin_vertadr m i + v)))
        = rest_position m i v).
Proof.
  intros m d scn i v Hsep Hi Hpose Hinf Hv.
  pose proof (updateSkin_bind_pose_vertex scn Hsep Hi Hpose Hinf Hv) as E.
  split; [exact E|].
  intros Hw. rewrite E, Hw. unfold mju_scl3.
  destruct (rest_position m i v) as [x y z]. cbn [c0 c1 c2]. f_equal; ring.
Qed.

Lemma skin_identity_deformation_witness :
  vec3_at (offset (skinvert (mjv_updateSkin (one_vertex_skin 1) bind_pose_data zero_mjvScene))
             (3 * (skin_vertadr (one_vertex_skin 1) 0 + 0)))
  = mju_scl3 (rest_position (one_vertex_skin 1) 0 0) (vertex_weight (one_vertex_skin 1) 0 0)
  /\ (vertex_weight (one_vertex_skin 1) 0 0 = 1%R ->
      vec3_at (offset (skinvert (mjv_updateSkin (one_vertex_skin 1) bind_pose_data
                                   zero_mjvScene))
                 (3 * (skin_vertadr (one_vertex_skin 1) 0 + 0)))
      = rest_position (one_vertex_skin 1) 0 0).
Proof.
  refine (@skin_identity_deformation (one_vertex_skin 1) bind_pose_data zero_mjvScene 0 0
            (one_vertex_skin_separate 1) _ (@one_vertex_skin_bind_pose 1) _ _).
  - cbn. lia.
  - reflexivity.
  - cbn. lia.
Defined.

(** ** Lights *)

Section Lights.
Local Open Scope Z_scope.
Variables (m : mjModel) (d : mjData).

(** The number of active lights among the lights [l] of the model. *)
Definition active_lights (l : list Z) : Z :=
  Z.of_nat (length (filter (light_active m) l)).

(** One iteration of the loop over the lights of the model. *)
Lemma lights_loop_count (l : list Z) (scn : mjvScene) (f : mjvScene -> Z -> mjvScene) :
  (forall sc i, scn_nlight (f sc i)
                = if (scn_nlight sc <? mjMAXLIGHT) && light_active m i
                  then scn_nlight sc + 1 else scn_nlight sc) ->
  scn_nlight scn <= mjMAXLIGHT ->
  scn_nlight (fold_left f l scn) = Z.min mjMAXLIGHT (scn_nlight scn + active_lights l).
Proof.
  intros Hf. revert scn. unfold active_lights.
  induction l as [|i l IH]; intros scn Hn; cbn [fold_left filter length].
  - lia.
  - rewrite IH.
    + rewrite Hf. destruct (light_active m i); cbn [length].
      * destruct (Z.ltb_spec (scn_nlight scn) mjMAXLIGHT); cbn [andb]; lia.
      * rewrite andb_false_r. lia.
    + rewrite Hf.
      destruct (Z.ltb_spec (scn_nlight scn) mjMAXLIGHT), (light_active m i); cbn [andb]; lia.
Qed.

Lemma lights_loop_kept (l : list Z) (scn : mjvScene) (f : mjvScene -> Z -> mjvScene) k :
  (forall sc i j, j < scn_nlight sc -> lights (f sc i) j = lights sc j) ->
  (forall sc i, scn_nlight sc <= scn_nlight (f sc i)) ->
  k < scn_nlight scn ->
  lights (fold_left f l scn) k = lights scn k.
Proof.
  intros Hk Hn. revert scn. induction l as [|i l IH]; intros scn Hlt; cbn [fold_left].
  - reflexivity.
  - rewrite IH by (specialize (Hn scn i); lia). apply Hk, Hlt.
Qed.

End Lights.

(** The list of lights never has more than mjMAXLIGHT entries, whatever
    the model: [mjv_makeLights] restarts the list, puts the headlight first
    when it is active, and appends the active lights of the model in their
    order until the list is full.  The lights that do not fit are dropped
    without a warning. *)
Theorem makeLights_bounded :
  forall (m : mjModel) (d : mjData) (scn : mjvScene),
    let head := if vis_headlight_active m then 1 else 0 in
    scn_nlight (mjv_makeLights m d scn)
    = Z.min mjMAXLIGHT (head + active_lights m (range 0 (nlight m)))
    /\ 0 <= scn_nlight (mjv_makeLights m d scn) <= mjMAXLIGHT
    /\ (vis_headlight_active m = true ->
        l_headlight (lights (mjv_makeLights m d scn) 0) = true
        /\ l_directional (lights (mjv_makeLights m d scn) 0) = true
        /\ l_castshadow (lights (mjv_makeLights m d scn) 0) = false
        /\ l_diffuse (lights (mjv_makeLights m d scn) 0) = vis_headlight_diffuse m
        /\ l_ambient (lights (mjv_makeLights m d scn) 0) = vis_headlight_ambient m
        /\ l_specular (lights (mjv_makeLights m d scn) 0) = vis_headlight_specular m).
Proof.
  intros m d scn head.
  assert (Hcount : scn_nlight (mjv_makeLights m d scn)
                   = Z.min mjMAXLIGHT (head + active_lights m (range 0 (nlight m)))).
  { unfold mjv_makeLights. cbv zeta. rewrite (@lights_loop_count m).
    - subst head. destruct (vis_headlight_active m); reflexivity.
    - intros sc i. destruct (scn_nlight sc <? mjMAXLIGHT), (light_active m i); reflexivity.
    - destruct (vis_headlight_active m); cbn; unfold mjMAXLIGHT; lia. }
  split; [exact Hcount|]. split.
  - rewrite Hcount. unfold active_lights, mjMAXLIGHT. subst head.
    destruct (vis_headlight_active m); lia.
  - intros Hh. unfold mjv_makeLights. cbv zeta. rewrite Hh.
    rewrite lights_loop_kept.
    + cbn. repeat split; reflexivity.
    + intros sc i j Hj.
      destruct (scn_nlight sc <? mjMAXLIGHT), (light_active m i); try reflexivity.
      cbn. unfold upd. destruct (Z.eqb_spec j (scn_nlight sc)); [lia | reflexivity].
    + intros sc i.
      destruct (scn_nlight sc <? mjMAXLIGHT), (light_active m i); cbn; lia.
    + cbn. lia.
Qed.

(** ** The frame of the camera *)

Section CameraFrame.
Local Open Scope R_scope.

Definition free_up (cam : mjvCamera) : vec3 :=
  let ca := cos (azimuth cam / 180 * mjPI) in
  let sa := sin (azimuth cam / 180 * mjPI) in
  let ce := cos (elevation cam / 180 * mjPI) in
  let se := sin (elevation cam / 180 * mjPI) in
  V3 (- se * ca) (- se * sa) ce.

(** The point half way between two points. *)
Definition midpoint (a b : vec3) : vec3 :=
  V3 ((c0 a + c0 b) / 2) ((c1 a + c1 b) / 2) ((c2 a + c2 b) / 2).

Lemma sin_cos_one x : sin x * sin x + cos x * cos x = 1.
Proof. pose proof (sin2_cos2 x) as H. unfold Rsqr in H. exact H. Qed.

Lemma free_forward_unit cam : mju_norm3 (free_forward cam) = 1.
Proof.
  unfold mju_norm3, free_forward; cbn [c0 c1 c2].
  pose proof (sin_cos_one (azimuth cam / 180 * mjPI)) as Ha.
  pose proof (sin_cos_one (elevation cam / 180 * mjPI)) as He.
  set (sa := sin (azimuth cam / 180 * mjPI)) in *.
  set (ca := cos (azimuth cam / 180 * mjPI)) in *.
  set (se := sin (elevation cam / 180 * mjPI)) in *.
  set (ce := cos (elevation cam / 180 * mjPI)) in *.
  replace (ce * ca * (ce * ca) + ce * sa * (ce * sa) + se * se)
    with (ce * ce * (sa * sa + ca * ca) + se * se) by ring.
  rewrite Ha, Rmult_1_r, Rplus_comm, He. apply sqrt_1.
Qed.

Lemma free_up_unit cam : mju_norm3 (free_up cam) = 1.
Proof.
  unfold mju_norm3, free_up; cbn [c0 c1 c2].
  pose proof (sin_cos_one (azimuth cam / 180 * mjPI)) as Ha.
  pose proof (sin_cos_one (elevation cam / 180 * mjPI)) as He.
  set (sa := sin (azimuth cam / 180 * mjPI)) in *.
  set (ca := cos (azimuth cam / 180 * mjPI)) in *.
  set (se := sin (elevation cam / 180 * mjPI)) in *.
  set (ce := cos (elevation cam / 180 * mjPI)) in *.
  replace (- se * ca * (- se * ca) + - se * sa * (- se * sa) + ce * ce)
    with (se * se * (sa * sa + ca * ca) + ce * ce) by ring.
  rewrite Ha, Rmult_1_r, He. apply sqrt_1.
Qed.

Lemma free_frame_right_handed cam :
  mju_dot3 (free_forward cam) (free_up cam) = 0
  /\ mju_cross (free_forward cam) (free_up cam) = free_right cam.
Proof.
  unfold mju_dot3, mju_cross, free_forward, free_up, free_right; cbn [c0 c1 c2].
  pose proof (sin_cos_one (azimuth cam / 180 * mjPI)) as Ha.
  pose proof (sin_cos_one (elevation cam / 180 * mjPI)) as He.
  set (sa := sin (azimuth cam / 180 * mjPI)) in *.
  set (ca := cos (azimuth cam / 180 * mjPI)) in *.
  set (se := sin (elevation cam / 180 * mjPI)) in *.
  set (ce := cos (elevation cam / 180 * mjPI)) in *.
  split.
  { replace (ce * ca * (- se * ca) + ce * sa * (- se * sa) + se * ce)
      with (se * ce * (1 - (sa * sa + ca * ca))) by ring.
    rewrite Ha. ring. }
  f_equal.
  - replace (ce * sa * ce - se * (- se * sa)) with (sa * (se * se + ce * ce)) by ring.
    rewrite He. ring.
  - replace (se * (- se * ca) - ce * ca * ce) with (- ca * (se * se + ce * ce)) by ring.
    rewrite He. ring.
  - ring.
Qed.

End CameraFrame.

(** A free camera looks at its [lookat] point from the distance
    [distance]: both eyes get the same forward and up vectors, which are
    unit vectors at a right angle, with [forward x up] the axis along which
    the eyes are set apart; the point at [distance] along [forward] from
    the middle of the eyes is [lookat]; the frustum is symmetric, between
    the near and the far plane of the model.  The camera itself is not
    changed, and the model transformation of the scene is disabled. *)
Theorem free_camera_frame :
  forall (m : mjModel) (d : mjData) (cam : mjvCamera) (sc : mjvScene),
    cam_type cam = mjCAMERA_FREE ->
    exists sc',
      mjv_updateCamera (Some m) d (Some cam) sc = Ok (Some cam, sc')
      /\ gl_forward (camera0 sc') = free_forward cam
      /\ gl_forward (camera1 sc') = free_forward cam
      /\ gl_up (camera0 sc') = free_up cam
      /\ gl_up (camera1 sc') = free_up cam
      /\ mju_norm3 (free_forward cam) = 1%R
      /\ mju_norm3 (free_up cam) = 1%R
      /\ mju_dot3 (free_forward cam) (free_up cam) = 0%R
      /\ mju_cross (free_forward cam) (free_up cam) = free_right cam
      /\ mju_addScl3 (midpoint (gl_pos (camera0 sc')) (gl_pos (camera1 sc')))
           (free_forward cam) (distance cam) = lookat cam
      /\ (forall e, e = camera0 sc' \/ e = camera1 sc' ->
            frustum_center e = 0%R
            /\ frustum_bottom e = (- frustum_top e)%R
            /\ frustum_top e
               = (vis_map_znear m * stat_extent m
                  * tan (vis_global_fovy m * (mjPI / 360)))%R
            /\ frustum_near e = (vis_map_znear m * stat_extent m)%R
            /\ frustum_far e = (vis_map_zfar m * stat_extent m)%R)
      /\ enabletransform sc' = false.
Proof.
  intros m d cam sc Hfree. unfold mjv_updateCamera. rewrite Hfree.
  change (mjCAMERA_FREE =? mjCAMERA_USER) with false.
  change (mjCAMERA_FREE =? mjCAMERA_FREE) with true.
  cbv beta iota zeta.
  eexists. split; [reflexivity|].
  cbn [camera0 camera1 set_camera0 set_camera1 set_enabletransform enabletransform
       gl_camera gl_forward gl_up gl_pos Z.eqb].
  destruct (free_frame_right_handed cam) as [Hdot Hcross].
  split; [reflexivity|]. split; [reflexivity|]. split; [reflexivity|].
  split; [reflexivity|]. split; [apply free_forward_unit|]. split; [apply free_up_unit|].
  split; [exact Hdot|]. split; [exact Hcross|].
  split.
  { unfold mju_addScl3, midpoint, free_forward. cbn [c0 c1 c2].
    destruct (lookat cam) as [x y z]. cbn [c0 c1 c2]. f_equal; field. }
  split; [|reflexivity].
  intros e [-> | ->]; cbn [frustum_center frustum_bottom frustum_top frustum_near frustum_far];
    repeat split; reflexivity.
Qed.

Lemma free_camera_frame_witness :
  exists sc',
    mjv_updateCamera (Some zero_mjModel) zero_mjData (Some zero_mjvCamera) zero_mjvScene
    = Ok (Some zero_mjvCamera, sc')
    /\ gl_forward (camera0 sc') = free_forward zero_mjvCamera
    /\ gl_forward (camera1 sc') = free_forward zero_mjvCamera
    /\ gl_up (camera0 sc') = free_up zero_mjvCamera
    /\ gl_up (camera1 sc') = free_up zero_mjvCamera
    /\ mju_norm3 (free_forward zero_mjvCamera) = 1%R
    /\ mju_norm3 (free_up zero_mjvCamera) = 1%R
    /\ mju_dot3 (free_forward zero_mjvCamera) (free_up zero_mjvCamera) = 0%R
    /\ mju_cross (free_forward zero_mjvCamera) (free_up zero_mjvCamera)
       = free_right zero_mjvCamera
    /\ mju_addScl3 (midpoint (gl_pos (camera0 sc')) (gl_pos (camera1 sc')))
         (free_forward zero_mjvCamera) (distance zero_mjvCamera) = lookat zero_mjvCamera
    /\ (forall e, e = camera0 sc' \/ e = camera1 sc' ->
          frustum_center e = 0%R
          /\ frustum_bottom e = (- frustum_top e)%R
          /\ frustum_top e
             = (vis_map_znear zero_mjModel * stat_extent zero_mjModel
                * tan (vis_global_fovy zero_mjModel * (mjPI / 360)))%R
          /\ frustum_near e = (vis_map_znear zero_mjModel * stat_extent zero_mjModel)%R
          /\ frustum_far e = (vis_map_zfar zero_mjModel * stat_extent zero_mjModel)%R)
    /\ enabletransform sc' = false.
Proof.
  refine (@free_camera_frame zero_mjModel zero_mjData zero_mjvCamera zero_mjvScene _).
  reflexivity.
Defined.

(** A tracking camera follows the center of mass of the subtree of its
    body: each call moves [lookat] one fifth of the way to it, so the
    distance between the two shrinks by the factor 4/5, and a camera that
    looks at the center of mass stays there.  Nothing else of the camera
    changes.  The body id must be a body of the model: otherwise the call
    is a fatal error. *)
Theorem tracking_camera_follows :
  forall (m : mjModel) (d : mjData) (cam : mjvCamera) (sc : mjvScene),
    cam_type cam = mjCAMERA_TRACKING ->
    let com := vec3_at (offset (subtree_com d) (3 * trackbodyid cam)) in
    (~ (0 <= trackbodyid cam < nbody m) ->
       mjv_updateCamera (Some m) d (Some cam) sc = Err Track_body_id_outside_valid_range)
    /\ (0 <= trackbodyid cam < nbody m ->
        exists cam' sc',
          mjv_updateCamera (Some m) d (Some cam) sc = Ok (Some cam', sc')
          /\ cam' = set_lookat cam (lookat cam')
          /\ lookat cam' = mju_addScl3 (lookat cam) (mju_sub3 com (lookat cam)) (2 / 10)
          /\ dist3 com (lookat cam') = (8 / 10 * dist3 com (lookat cam))%R
          /\ (lookat cam = com -> lookat cam' = com)).
Proof.
  intros m d cam sc Htrack com. unfold mjv_updateCamera. rewrite Htrack.
  change (mjCAMERA_TRACKING =? mjCAMERA_USER) with false.
  change (mjCAMERA_TRACKING =? mjCAMERA_FREE) with false.
  change (mjCAMERA_TRACKING =? mjCAMERA_TRACKING) with true.
  cbv beta iota zeta.
  split; intros Hid.
  - assert (E : (trackbodyid cam <? 0) || (trackbodyid cam >=? nbody m) = true).
    { apply orb_true_iff. rewrite Z.ltb_lt, Z.geb_le. lia. }
    rewrite E. reflexivity.
  - assert (E : (trackbodyid cam <? 0) || (trackbodyid cam >=? nbody m) = false).
    { apply orb_false_iff. split; [apply Z.ltb_ge | rewrite Z.geb_leb; apply Z.leb_gt]; lia. }
    rewrite E. fold com.
    eexists _, _. split; [reflexivity|].
    cbn [lookat set_lookat].
    split; [reflexivity|]. split; [reflexivity|].
    split.
    + unfold dist3, mju_sub3, mju_addScl3. cbn [c0 c1 c2].
      replace (V3 (c0 com - (c0 (lookat cam) + (c0 com - c0 (lookat cam)) * (2 / 10)))
                  (c1 com - (c1 (lookat cam) + (c1 com - c1 (lookat cam)) * (2 / 10)))
                  (c2 com - (c2 (lookat cam) + (c2 com - c2 (lookat cam)) * (2 / 10))))
        with (V3 (8 / 10 * c0 (V3 (c0 com - c0 (lookat cam)) (c1 com - c1 (lookat cam))
                                  (c2 com - c2 (lookat cam))))
                 (8 / 10 * c1 (V3 (c0 com - c0 (lookat cam)) (c1 com - c1 (lookat cam))
                                  (c2 com - c2 (lookat cam))))
                 (8 / 10 * c2 (V3 (c0 com - c0 (lookat cam)) (c1 com - c1 (lookat cam))
                                  (c2 com - c2 (lookat cam)))))
        by (cbn [c0 c1 c2]; f_equal; field).
      rewrite norm3_scaled. f_equal. apply Rabs_pos_eq. lra.
    + intros Hl. rewrite Hl. unfold mju_addScl3, mju_sub3.
      destruct com as [x y z]. cbn [c0 c1 c2]. f_equal; ring.
Qed.

(** A camera that tracks body 1 of a model of two bodies. *)
Definition body1_tracker : mjvCamera :=
  set_trackbodyid (set_cam_type zero_mjvCamera mjCAMERA_TRACKING) 1.

Definition two_body_model : mjModel := set_nbody zero_mjModel 2.

Lemma tracking_camera_follows_witness :
  let com := vec3_at (offset (subtree_com zero_mjData) (3 * trackbodyid body1_tracker)) in
  (~ (0 <= trackbodyid body1_tracker < nbody two_body_model) ->
     mjv_updateCamera (Some two_body_model) zero_mjData (Some body1_tracker) zero_mjvScene
     = Err Track_body_id_outside_valid_range)
  /\ (0 <= trackbodyid body1_tracker < nbody two_body_model ->
      exists cam' sc',
        mjv_updateCamera (Some two_body_model) zero_mjData (Some body1_tracker) zero_mjvScene
        = Ok (Some cam', sc')
        /\ cam' = set_lookat body1_tracker (lookat cam')
        /\ lookat cam'
           = mju_addScl3 (lookat body1_tracker) (mju_sub3 com (lookat body1_tracker)) (2 / 10)
        /\ dist3 com (lookat cam') = (8 / 10 * dist3 com (lookat body1_tracker))%R
        /\ (lookat body1_tracker = com -> lookat cam' = com)).
Proof.
  refine (@tracking_camera_follows two_body_model zero_mjData body1_tracker zero_mjvScene _).
  reflexivity.
Defined.

(** ** Connectors in the walk *)

Section Connectors.
Local Open Scope Z_scope.

(** The geom that [mjv_makeConnector] returns for an accepted type. *)
Definition connector_of (g : mjvGeom) (ty : Z) (width : R) (a b : vec3) : mjvGeom :=
  let dif := mju_sub3 b a in
  let g := set_size (set_type g ty) (V3 width width (mju_norm3 dif)) in
  let g :=
    if (ty =? mjGEOM_CAPSULE) || (ty =? mjGEOM_CYLINDER) then
      set_size
        (set_pos g (V3 (1 / 2 * (c0 a + c0 b)) (1 / 2 * (c1 a + c1 b))
                       (1 / 2 * (c2 a + c2 b))))
        (V3 width width (mju_norm3 dif * (1 / 2)))
    else set_pos g a in
  set_mat g (mju_quat2Mat (mju_quatZ2Vec dif)).

Lemma makeConnector_ok g ty width a0 a1 a2 b0 b1 b2 :
  connector_type ty = true ->
  mjv_makeConnector g ty width a0 a1 a2 b0 b1 b2
  = Ok (connector_of g ty width (V3 a0 a1 a2) (V3 b0 b1 b2)).
Proof.
  intros H. unfold mjv_makeConnector. rewrite connector_guard, H. cbn [negb].
  unfold connector_of. cbv zeta.
  destruct ((ty =? mjGEOM_CAPSULE) || (ty =? mjGEOM_CYLINDER)); reflexivity.
Qed.

(** One connector in the walk: START, [mjv_makeConnector], the rest of the
    fields, FINISH. *)
Lemma connector_emitted otype i cat ty width a0 a1 a2 b0 b1 b2
    (f : mjvGeom -> mjvGeom) s :
  connector_type ty = true ->
  scn_ngeom (scn s) < maxgeom (scn s) ->
  exists s',
    (forall A (k : unit -> M A),
        bind (START otype i cat ;;
              assign_result (fun g => mjv_makeConnector g ty width a0 a1 a2 b0 b1 b2) ;;
              assign f ;;
              FINISH) k s
        = k tt s')
    /\ emitted s
         (f (connector_of (started otype i cat s) ty width (V3 a0 a1 a2)
               (V3 b0 b1 b2)))
         s'.
Proof.
  intros Hty Hs.
  set (g1 := connector_of (started otype i cat s) ty width (V3 a0 a1 a2)
               (V3 b0 b1 b2)).
  exists (advanced (with_slot (with_slot (with_slot s (started otype i cat s))
                                 g1) (f g1))).
  split.
  - intros A k. rewrite bind_assoc, bind_START_space by exact Hs.
    rewrite bind_assoc.
    erewrite bind_assign_ok by (rewrite slot_with_slot; apply makeConnector_ok, Hty).
    rewrite bind_assoc, bind_assign, bind_FINISH, slot_with_slot. reflexivity.
  - apply emitted_advanced; [|apply slot_with_slot].
    repeat apply slot_only_with_slot. apply slot_only_refl.
Qed.

(** What START leaves of its arguments. *)
Lemma started_fields otype i cat s :
  objtype (started otype i cat s) = otype
  /\ objid (started otype i cat s) = i
  /\ category (started otype i cat s) = cat
  /\ segid (started otype i cat s) = scn_ngeom (scn s)
  /\ label (started otype i cat s) = LabelNone.
Proof. repeat split; reflexivity. Qed.

(** Column [j] of a matrix. *)
Definition column (mat : mat9) (j : Z) : vec3 :=
  if j =? 0 then V3 (e0 mat) (e3 mat) (e6 mat)
  else if j =? 1 then V3 (e1 mat) (e4 mat) (e7 mat)
  else V3 (e2 mat) (e5 mat) (e8 mat).

(** The body of the loop of [frame_axes], for the axis [j]. *)
Definition frame_axis (otype : mjtObj) (i cat : Z)
    (p : vec3) (mat : mat9) (length width : R) (j : Z) : M unit :=
  START otype i cat ;;
  let axis := V3 (if j =? 0 then length else 0%R)
                 (if j =? 1 then length else 0%R)
                 (if j =? 2 then length else 0%R) in
  let vec := mju_mulMatVec mat axis in
  assign_result (fun g =>
    mjv_makeConnector g mjGEOM_CYLINDER width
      (c0 p) (c1 p) (c2 p)
      (c0 p + c0 vec)%R (c1 p + c1 vec)%R (c2 p + c2 vec)%R) ;;
  assign (fun g =>
    set_rgba g (V4 (if j =? 0 then 9/10 else 0%R) (if j =? 1 then 9/10 else 0%R)
                   (if j =? 2 then 9/10 else 0%R) 1)) ;;
  FINISH.

Lemma frame_axes_loop otype i cat p mat length width :
  frame_axes otype i cat p mat length width
  = (frame_axis otype i cat p mat length width 0 ;;
     frame_axis otype i cat p mat length width 1 ;;
     frame_axis otype i cat p mat length width 2 ;;
     ret tt).
Proof. reflexivity. Qed.

(** The axis [j] as a geom. *)
Definition is_frame_axis (otype : mjtObj) (i cat : Z) (p : vec3) (mat : mat9)
    (length width : R) (j : Z) (g : mjvGeom) : Prop :=
  type g = mjGEOM_CYLINDER
  /\ objtype g = otype
  /\ objid g = i
  /\ category g = cat
  /\ label g = LabelNone
  /\ pos g = mju_addScl3 p (column mat j) (length / 2)
  /\ size g = V3 width width (Rabs length * mju_norm3 (column mat j) / 2)
  /\ rgba g = V4 (if j =? 0 then 9/10 else 0%R) (if j =? 1 then 9/10 else 0%R)
                 (if j =? 2 then 9/10 else 0%R) 1.

(** A cylinder or a capsule of one color between two points. *)
Lemma colored_rod_emitted otype i cat ty width a0 a1 a2 b0 b1 b2 (c : vec4) s :
  ty = mjGEOM_CYLINDER \/ ty = mjGEOM_CAPSULE ->
  scn_ngeom (scn s) < maxgeom (scn s) ->
  exists s' g,
    (forall A (k : unit -> M A),
        bind (START otype i cat ;;
              assign_result (fun g => mjv_makeConnector g ty width a0 a1 a2 b0 b1 b2) ;;
              assign (fun g => set_rgba g c) ;;
              FINISH) k s
        = k tt s')
    /\ emitted s g s'
    /\ type g = ty
    /\ objtype g = otype
    /\ objid g = i
    /\ category g = cat
    /\ segid g = scn_ngeom (scn s)
    /\ label g = LabelNone
    /\ pos g = V3 (1 / 2 * (a0 + b0)) (1 / 2 * (a1 + b1)) (1 / 2 * (a2 + b2))
    /\ size g = V3 width width (mju_norm3 (V3 (b0 - a0) (b1 - a1) (b2 - a2)) * (1 / 2))
    /\ rgba g = c.
Proof.
  intros Hty Hs.
  assert (Hc : connector_type ty = true) by (destruct Hty as [-> | ->]; reflexivity).
  destruct (@connector_emitted otype i cat ty width a0 a1 a2 b0 b1 b2
              (fun g => set_rgba g c) s Hc Hs) as (s' & Hk & Hem).
  eexists s', _. split; [exact Hk|]. split; [exact Hem|].
  destruct Hty as [-> | ->]; repeat split; reflexivity.
Qed.

Lemma frame_axis_emitted otype i cat p mat length width j s :
  0 <= j < 3 ->
  scn_ngeom (scn s) < maxgeom (scn s) ->
  exists s' g,
    (forall A (k : unit -> M A),
        bind (frame_axis otype i cat p mat length width j) k s = k tt s')
    /\ emitted s g s'
    /\ segid g = scn_ngeom (scn s)
    /\ is_frame_axis otype i cat p mat length width j g.
Proof.
  intros Hj Hs. unfold frame_axis. cbv zeta.
  assert (Hvec : mju_mulMatVec mat
                   (V3 (if j =? 0 then length else 0%R) (if j =? 1 then length else 0%R)
                       (if j =? 2 then length else 0%R))
                 = V3 (length * c0 (column mat j)) (length * c1 (column mat j))
                      (length * c2 (column mat j))).
  { unfold mju_mulMatVec, column. cbn [c0 c1 c2].
    assert (Hc : j = 0 \/ j = 1 \/ j = 2) by lia.
    destruct Hc as [-> | [-> | ->]]; cbn [Z.eqb Pos.eqb c0 c1 c2]; f_equal; ring. }
  rewrite Hvec. cbn [c0 c1 c2].
  destruct (@colored_rod_emitted otype i cat mjGEOM_CYLINDER width (c0 p) (c1 p) (c2 p)
              (c0 p + length * c0 (column mat j))%R (c1 p + length * c1 (column mat j))%R
              (c2 p + length * c2 (column mat j))%R
              (V4 (if j =? 0 then 9/10 else 0%R) (if j =? 1 then 9/10 else 0%R)
                  (if j =? 2 then 9/10 else 0%R) 1) s (or_introl eq_refl) Hs)
    as (s' & g & Hk & Hem & Ht & Ho & Hi & Hcat & Hseg & Hl & Hp & Hz & Hr).
  exists s', g. split; [exact Hk|]. split; [exact Hem|]. split; [exact Hseg|].
  unfold is_frame_axis.
  split; [exact Ht|]. split; [exact Ho|]. split; [exact Hi|]. split; [exact Hcat|].
  split; [exact Hl|].
  split.
  { rewrite Hp. unfold mju_addScl3. destruct p as [x y z]. cbn [c0 c1 c2]. f_equal; field. }
  split; [|exact Hr].
  rewrite Hz. f_equal.
  replace (V3 (c0 p + length * c0 (column mat j) - c0 p)
              (c1 p + length * c1 (column mat j) - c1 p)
              (c2 p + length * c2 (column mat j) - c2 p))
    with (V3 (length * c0 (column mat j)) (length * c1 (column mat j))
             (length * c2 (column mat j)))
    by (f_equal; ring).
  rewrite norm3_scaled. field.
Qed.

End Connectors.

(** The frame drawn by [frame_axes] (the frame of the world, of a body, a
    geom, a site, a camera, a light or a contact): with room for three geoms
    it is three cylinders without label, one per column of the orientation
    matrix, each from the origin [p] of the frame along the column, of the
    given length times the length of the column; axis 0 is red, axis 1
    green, axis 2 blue.  The three geoms carry the object type, the id and
    the category of the call, and their index in the buffer for [segid]; the
    geoms emitted before stay. *)
Theorem frame_axes_drawn :
  forall (otype : mjtObj) (i cat : Z) (p : vec3) (mat : mat9) (length width : R)
         (s : vstate),
    scn_ngeom (scn s) + 3 <= maxgeom (scn s) ->
    exists s',
      frame_axes otype i cat p mat length width s = Next tt s'
      /\ scn_ngeom (scn s') = scn_ngeom (scn s) + 3
      /\ (forall k, k < scn_ngeom (scn s) -> geoms (scn s') k = geoms (scn s) k)
      /\ forall j, 0 <= j < 3 ->
           segid (geoms (scn s') (scn_ngeom (scn s) + j)) = scn_ngeom (scn s) + j
           /\ is_frame_axis otype i cat p mat length width j
                (geoms (scn s') (scn_ngeom (scn s) + j)).
Proof.
  intros otype i cat p mat length width s Hs.
  assert (H0 : scn_ngeom (scn s) < maxgeom (scn s)) by lia.
  destruct (@frame_axis_emitted otype i cat p mat length width 0 s ltac:(lia) H0)
    as (s1 & g0 & Hk0 & Hem0 & Hseg0 & Hax0).
  assert (H1 : scn_ngeom (scn s1) < maxgeom (scn s1)).
  { pose proof (@emitted_space s g0 s1 3 Hem0 Hs). lia. }
  destruct (@frame_axis_emitted otype i cat p mat length width 1 s1 ltac:(lia) H1)
    as (s2 & g1 & Hk1 & Hem1 & Hseg1 & Hax1).
  assert (H2 : scn_ngeom (scn s2) < maxgeom (scn s2)).
  { destruct Hem0 as (A1 & A2 & _). destruct Hem1 as (B1 & B2 & _). lia. }
  destruct (@frame_axis_emitted otype i cat p mat length width 2 s2 ltac:(lia) H2)
    as (s3 & g2 & Hk2 & Hem2 & Hseg2 & Hax2).
  destruct (emitted_thrice Hem0 Hem1 Hem2) as (N & G0 & G1 & G2 & Hold).
  exists s3. split.
  { rewrite frame_axes_loop, Hk0, Hk1, Hk2. reflexivity. }
  split; [exact N|]. split; [exact Hold|].
  intros j Hj.
  assert (Hc : j = 0 \/ j = 1 \/ j = 2) by lia.
  destruct Hem0 as (A1 & _). destruct Hem1 as (B1 & _).
  destruct Hc as [-> | [-> | ->]].
  - rewrite Z.add_0_r, G0. split; [exact Hseg0 | exact Hax0].
  - rewrite G1. split; [lia | exact Hax1].
  - rewrite G2. split; [lia | exact Hax2].
Qed.

Lemma frame_axes_drawn_witness :
  exists s',
    frame_axes mjOBJ_UNKNOWN 0 mjCAT_DECOR (V3 0 0 0) IDENTITY 1 (1 / 10) (empty_scene 3)
    = Next tt s'
    /\ scn_ngeom (scn s') = scn_ngeom (scn (empty_scene 3)) + 3
    /\ (forall k, k < scn_ngeom (scn (empty_scene 3)) ->
                  geoms (scn s') k = geoms (scn (empty_scene 3)) k)
    /\ forall j, 0 <= j < 3 ->
         segid (geoms (scn s') (scn_ngeom (scn (empty_scene 3)) + j))
         = scn_ngeom (scn (empty_scene 3)) + j
         /\ is_frame_axis mjOBJ_UNKNOWN 0 mjCAT_DECOR (V3 0 0 0) IDENTITY 1 (1 / 10) j
              (geoms (scn s') (scn_ngeom (scn (empty_scene 3)) + j)).
Proof.
  refine (@frame_axes_drawn mjOBJ_UNKNOWN 0 mjCAT_DECOR (V3 0 0 0) IDENTITY 1 (1 / 10)
            (empty_scene 3) _).
  cbn. lia.
Defined.

(** ** Contacts: the combined force and the excluded contacts *)

Section ContactMore.
Local Open Scope Z_scope.

(** The force of contact [i] as the code reads it: the first
    [min (3, dim)] entries of the contact force, the rest zero. *)
Definition contact_force3 (d : mjData) (i : Z) : vec3 :=
  let n := mjMINi 3 (con_dim (contact d i)) in
  V3 (if 0 <? n then f0 (contact_force d i) else 0%R)
     (if 1 <? n then f1 (contact_force d i) else 0%R)
     (if 2 <? n then f2 (contact_force d i) else 0%R).

Lemma for_single (body : Z -> M unit) :
  for_ 0 1 body = bind (body 0) (fun _ => ret tt).
Proof. reflexivity. Qed.

(** The type of the combined arrow: two-headed between two bodies,
    one-headed when one of the bodies is the world. *)
Definition combined_arrow_type (m : mjModel) (d : mjData) (i : Z) : Z :=
  if (geom_bodyid m (con_geom1 (contact d i)) >? 0)
     && (geom_bodyid m (con_geom2 (contact d i)) >? 0)
  then mjGEOM_ARROW2 else mjGEOM_ARROW.

Lemma combined_arrow_type_ok m d i : connector_type (combined_arrow_type m d i) = true.
Proof. unfold combined_arrow_type. destruct (_ && _); reflexivity. Qed.

(** A one-headed or two-headed arrow with its color and label. *)
Lemma labelled_connector_emitted otype i cat ty width a0 a1 a2 b0 b1 b2 (c : vec4)
    (bl : bool) (l : label_text) s :
  ty = mjGEOM_ARROW \/ ty = mjGEOM_ARROW2 ->
  scn_ngeom (scn s) < maxgeom (scn s) ->
  exists s' g,
    (forall A (k : unit -> M A),
        bind (START otype i cat ;;
              assign_result (fun g => mjv_makeConnector g ty width a0 a1 a2 b0 b1 b2) ;;
              assign (fun g => if bl then set_label (set_rgba g c) l else set_rgba g c) ;;
              FINISH) k s
        = k tt s')
    /\ emitted s g s'
    /\ type g = ty
    /\ size g = V3 width width (mju_norm3 (V3 (b0 - a0) (b1 - a1) (b2 - a2)))
    /\ pos g = V3 a0 a1 a2
    /\ rgba g = c
    /\ label g = (if bl then l else LabelNone).
Proof.
  intros Hty Hs.
  assert (Hc : connector_type ty = true) by (destruct Hty as [-> | ->]; reflexivity).
  destruct (@connector_emitted otype i cat ty width a0 a1 a2 b0 b1 b2
              (fun g => if bl then set_label (set_rgba g c) l else set_rgba g c) s Hc Hs)
    as (s' & Hk & Hem).
  eexists s', _. split; [exact Hk|]. split; [exact Hem|].
  destruct Hty as [-> | ->]; destruct bl; repeat split; reflexivity.
Qed.

(** The arrow of the combined force of contact [i]. *)
Lemma combined_arrow_emitted m d vopt i frc s :
  scn_ngeom (scn s) < maxgeom (scn s) ->
  exists s' g,
    (forall A (k : unit -> M A), bind (contact_arrow m d vopt i frc false 0) k s = k tt s')
    /\ emitted s g s'
    /\ type g = combined_arrow_type m d i
    /\ size g = V3 (vis_scale_forcewidth m * stat_meansize m)
                   (vis_scale_forcewidth m * stat_meansize m)
                   (mju_norm3 (contact_vec m d i frc 0))
    /\ pos g = con_pos (contact d i)
    /\ rgba g = vis_rgba_contactforce m
    /\ label g = (if label_is (vopt_label vopt) mjLABEL_CONTACTFORCE
                  then LabelForce (mju_norm3 frc) else LabelNone).
Proof.
  intros Hs. unfold contact_arrow. cbv zeta.
  cbn [negb]. rewrite andb_true_r. change (0 =? 2) with false. change (0 =? 0) with true.
  cbv iota. rewrite andb_true_r. fold (combined_arrow_type m d i).
  assert (Hty : combined_arrow_type m d i = mjGEOM_ARROW
                \/ combined_arrow_type m d i = mjGEOM_ARROW2).
  { unfold combined_arrow_type. destruct (_ && _); auto. }
  match goal with
  | |- context [assign_result (fun g => mjv_makeConnector g _ ?w ?a0 ?a1 ?a2 ?b0 ?b1 ?b2)] =>
      destruct (@labelled_connector_emitted mjOBJ_UNKNOWN i mjCAT_DECOR
                  (combined_arrow_type m d i) w a0 a1 a2 b0 b1 b2
                  (vis_rgba_contactforce m)
                  (label_is (vopt_label vopt) mjLABEL_CONTACTFORCE)
                  (LabelForce (mju_norm3 frc)) s Hty Hs)
        as (s' & g & Hk & Hem & Ht & Hz & Hp & Hr & Hl)
  end.
  exists s', g. split; [exact Hk|]. split; [exact Hem|]. split; [exact Ht|].
  split.
  { rewrite Hz. rewrite (shifted_back (con_pos (contact d i))). reflexivity. }
  split; [rewrite Hp; apply vec3_eta|]. split; [exact Hr | exact Hl].
Qed.

(** The marker of an excluded contact. *)
Lemma gap_point_emitted m d i s :
  con_efc_address (contact d i) < 0 ->
  scn_ngeom (scn s) < maxgeom (scn s) ->
  exists s' g,
    (forall A (k : unit -> M A), bind (contact_point m d i) k s = k tt s')
    /\ emitted s g s'
    /\ type g = mjGEOM_CYLINDER
    /\ pos g = con_pos (contact d i)
    /\ rgba g = vis_rgba_contactgap m
    /\ label g = LabelNone.
Proof.
  intros He Hs. unfold contact_point. cbv zeta.
  assert (E : (con_efc_address (contact d i) >=? 0) = false).
  { rewrite Z.geb_leb. apply Z.leb_gt. exact He. }
  rewrite E.
  match goal with |- context [assign ?f] =>
    destruct (@plain_emitted mjOBJ_UNKNOWN i mjCAT_DECOR f s Hs) as (s' & Hk & Hem) end.
  eexists s', _. split; [exact Hk|]. split; [exact Hem|].
  repeat split; reflexivity.
Qed.

End ContactMore.

(** The combined contact force.  For a single contact that is included in
    the solve and whose force has a norm of at least mjMINVAL, with the
    contact forces shown and neither the split, the contact points nor the
    contact frame, and with room for one geom, [addContactGeom] emits
    exactly one geom: one arrow from the contact position, in the color of
    the contact forces, whose length is the length of the force in world
    frame scaled by force / mean mass.  It has two heads when both geoms
    belong to bodies other than the world, and one head otherwise; in the
    label mode of the contact forces it carries the norm of the force. *)
Theorem contact_force_combined :
  forall (m : mjModel) (d : mjData) (flags : mjtVisFlag -> bool) (vopt : mjvOption)
         (s : vstate),
    ncon d = 1 ->
    0 <= con_efc_address (contact d 0) ->
    flags mjVIS_CONTACTPOINT = false ->
    flags mjVIS_CONTACTFORCE = true ->
    flags mjVIS_CONTACTSPLIT = false ->
    vopt_frame vopt <> mjFRAME_CONTACT ->
    (mjMINVAL <= mju_norm3 (contact_force3 d 0))%R ->
    scn_ngeom (scn s) + 1 <= maxgeom (scn s) ->
    exists s',
      addContactGeom m d flags vopt s = Next tt s'
      /\ scn_ngeom (scn s') = scn_ngeom (scn s) + 1
      /\ (forall k, k < scn_ngeom (scn s) -> geoms (scn s') k = geoms (scn s) k)
      /\ type (geoms (scn s') (scn_ngeom (scn s))) = combined_arrow_type m d 0
      /\ pos (geoms (scn s') (scn_ngeom (scn s))) = con_pos (contact d 0)
      /\ c2 (size (geoms (scn s') (scn_ngeom (scn s))))
         = mju_norm3 (contact_vec m d 0 (contact_force3 d 0) 0)
      /\ rgba (geoms (scn s') (scn_ngeom (scn s))) = vis_rgba_contactforce m
      /\ label (geoms (scn s') (scn_ngeom (scn s)))
         = (if label_is (vopt_label vopt) mjLABEL_CONTACTFORCE
            then LabelForce (mju_norm3 (contact_force3 d 0)) else LabelNone).
Proof.
  intros m d flags vopt s Hn Hefc Hpoint Hforce Hsplit Hframe Hnorm Hs.
  assert (Hs' : scn_ngeom (scn s) < maxgeom (scn s)) by lia.
  destruct (@combined_arrow_emitted m d vopt 0 (contact_force3 d 0) s Hs')
    as (s1 & g & Hk & Hem & Ht & Hz & Hp & Hr & Hl).
  exists s1. split.
  - unfold addContactGeom. cbv zeta.
    rewrite Hpoint, Hforce, Hsplit, (frame_is_false Hframe), Hn.
    cbn [negb andb]. rewrite for_one.
    assert (E1 : (con_efc_address (contact d 0) <? 0) = false) by (apply Z.ltb_ge; exact Hefc).
    rewrite E1. fold (contact_force3 d 0).
    assert (E3 : Rltb (mju_norm3 (contact_force3 d 0)) mjMINVAL = false)
      by (apply Rltb_false; exact Hnorm).
    rewrite E3.
    rewrite bind_assoc, bind_ret. cbv beta. rewrite bind_assoc, bind_ret. cbv beta.
    rewrite for_single, !bind_assoc, Hk. reflexivity.
  - destruct Hem as (N & _ & G & Hold).
    rewrite G. split; [exact N|]. split; [exact Hold|]. split; [exact Ht|].
    split; [exact Hp|]. split; [rewrite Hz; reflexivity|]. split; [exact Hr | exact Hl].
Qed.

Lemma contact_force_combined_witness :
  exists s',
    addContactGeom zero_mjModel pushing_contact
      (fun f => match f with mjVIS_CONTACTFORCE => true | _ => false end)
      zero_mjvOption (empty_scene 10) = Next tt s'
    /\ scn_ngeom (scn s') = scn_ngeom (scn (empty_scene 10)) + 1
    /\ (forall k, k < scn_ngeom (scn (empty_scene 10)) ->
                  geoms (scn s') k = geoms (scn (empty_scene 10)) k)
    /\ type (geoms (scn s') (scn_ngeom (scn (empty_scene 10))))
       = combined_arrow_type zero_mjModel pushing_contact 0
    /\ pos (geoms (scn s') (scn_ngeom (scn (empty_scene 10))))
       = con_pos (contact pushing_contact 0)
    /\ c2 (size (geoms (scn s') (scn_ngeom (scn (empty_scene 10)))))
       = mju_norm3 (contact_vec zero_mjModel pushing_contact 0
                      (contact_force3 pushing_contact 0) 0)
    /\ rgba (geoms (scn s') (scn_ngeom (scn (empty_scene 10))))
       = vis_rgba_contactforce zero_mjModel
    /\ label (geoms (scn s') (scn_ngeom (scn (empty_scene 10))))
       = (if label_is (vopt_label zero_mjvOption) mjLABEL_CONTACTFORCE
          then LabelForce (mju_norm3 (contact_force3 pushing_contact 0)) else LabelNone).
Proof.
  refine (@contact_force_combined zero_mjModel pushing_contact
            (fun f => match f with mjVIS_CONTACTFORCE => true | _ => false end)
            zero_mjvOption (empty_scene 10) _ _ _ _ _ _ pushing_contact_seen _).
  - reflexivity.
  - cbn. lia.
  - reflexivity.
  - reflexivity.
  - reflexivity.
  - cbn. discriminate.
  - cbn. lia.
Defined.

(** Contacts excluded from the solve.  For a single contact that is not
    included in the solve (negative [efc_address]), whatever the flags of
    the contact forces and of the split, [addContactGeom] draws no force
    arrow: with the contact points shown (and not the contact frame), and
    with room for one geom, it emits the marker alone, in the color of the
    contact gap and not in that of the contact points. *)
Theorem excluded_contact_marker :
  forall (m : mjModel) (d : mjData) (flags : mjtVisFlag -> bool) (vopt : mjvOption)
         (s : vstate),
    ncon d = 1 ->
    con_efc_address (contact d 0) < 0 ->
    flags mjVIS_CONTACTPOINT = true ->
    vopt_frame vopt <> mjFRAME_CONTACT ->
    scn_ngeom (scn s) + 1 <= maxgeom (scn s) ->
    exists s',
      addContactGeom m d flags vopt s = Next tt s'
      /\ scn_ngeom (scn s') = scn_ngeom (scn s) + 1
      /\ (forall k, k < scn_ngeom (scn s) -> geoms (scn s') k = geoms (scn s) k)
      /\ type (geoms (scn s') (scn_ngeom (scn s))) = mjGEOM_CYLINDER
      /\ pos (geoms (scn s') (scn_ngeom (scn s))) = con_pos (contact d 0)
      /\ rgba (geoms (scn s') (scn_ngeom (scn s))) = vis_rgba_contactgap m
      /\ label (geoms (scn s') (scn_ngeom (scn s))) = LabelNone.
Proof.
  intros m d flags vopt s Hn Hefc Hpoint Hframe Hs.
  assert (Hs' : scn_ngeom (scn s) < maxgeom (scn s)) by lia.
  destruct (@gap_point_emitted m d 0 s Hefc Hs') as (s1 & g & Hk & Hem & Ht & Hp & Hr & Hl).
  exists s1. split.
  - unfold addContactGeom. cbv zeta.
    rewrite Hpoint, (frame_is_false Hframe), Hn.
    cbn [negb andb]. rewrite for_one.
    assert (E1 : (con_efc_address (contact d 0) <? 0) = true) by (apply Z.ltb_lt; exact Hefc).
    rewrite E1. rewrite bind_assoc, Hk. reflexivity.
  - destruct Hem as (N & _ & G & Hold).
    rewrite G. split; [exact N|]. split; [exact Hold|]. split; [exact Ht|].
    split; [exact Hp|]. split; [exact Hr | exact Hl].
Qed.

(** A contact of dimension 3 that the solver has excluded. *)
Definition excluded_contact : mjData :=
  set_contact pushing_contact
    (fun _ => set_con_efc_address (set_con_dim zero_mjContact 3) (-1)).

Lemma excluded_contact_marker_witness :
  exists s',
    addContactGeom zero_mjModel excluded_contact point_force_split_flags zero_mjvOption
      (empty_scene 10) = Next tt s'
    /\ scn_ngeom (scn s') = scn_ngeom (scn (empty_scene 10)) + 1
    /\ (forall k, k < scn_ngeom (scn (empty_scene 10)) ->
                  geoms (scn s') k = geoms (scn (empty_scene 10)) k)
    /\ type (geoms (scn s') (scn_ngeom (scn (empty_scene 10)))) = mjGEOM_CYLINDER
    /\ pos (geoms (scn s') (scn_ngeom (scn (empty_scene 10))))
       = con_pos (contact excluded_contact 0)
    /\ rgba (geoms (scn s') (scn_ngeom (scn (empty_scene 10))))
       = vis_rgba_contactgap zero_mjModel
    /\ label (geoms (scn s') (scn_ngeom (scn (empty_scene 10)))) = LabelNone.
Proof.
  refine (@excluded_contact_marker zero_mjModel excluded_contact point_force_split_flags
            zero_mjvOption (empty_scene 10) _ _ _ _ _).
  - reflexivity.
  - cbn. lia.
  - reflexivity.
  - cbn. discriminate.
  - cbn. lia.
Defined.

(** ** Skinning: the part of the buffers that a skin owns, and rigid motions *)

Section SkinMore.
Local Open Scope Z_scope.
Variables (m : mjModel) (d : mjData).

(** The vertex ids of the faces of skin [i] are vertices of the skin. *)
Definition skin_face_ids_ok (i : Z) : Prop :=
  forall k, 3 * skin_faceadr m i <= k < 3 * (skin_faceadr m i + skin_facenum m i) ->
            0 <= skin_face m k < skin_vertnum m i.

Lemma skin_face_normals_outside i x (sv sn : array R) :
  skin_face_ids_ok i ->
  ~ skin_region m i x ->
  skin_face_normals m i sv sn x = sn x.
Proof.
  intros Hid Hx. unfold skin_face_normals. cbv zeta.
  assert (Hl : forall k, In k (range (skin_faceadr m i) (skin_faceadr m i + skin_facenum m i))
                         -> skin_faceadr m i <= k < skin_faceadr m i + skin_facenum m i).
  { intros k Hk. apply in_range, Hk. }
  revert sn Hl.
  induction (range (skin_faceadr m i) (skin_faceadr m i + skin_facenum m i)) as [|k l IH];
    intros sn Hl; cbn [fold_left].
  - reflexivity.
  - rewrite IH by (intros k' Hk'; apply Hl; right; exact Hk').
    assert (Hk : skin_faceadr m i <= k < skin_faceadr m i + skin_facenum m i)
      by (apply Hl; left; reflexivity).
    pose proof (Hid (3 * k) ltac:(lia)) as H0.
    pose proof (Hid (3 * k + 1) ltac:(lia)) as H1.
    pose proof (Hid (3 * k + 2) ltac:(lia)) as H2.
    unfold skin_region in Hx.
    rewrite !add_at_get. unfold hit.
    repeat match goal with
           | |- context [?a =? ?b] => destruct (Z.eqb_spec a b); try lia
           end; ring.
Qed.

Lemma skin_normalize_outside i x (sn : array R) :
  ~ skin_region m i x -> skin_normalize m i sn x = sn x.
Proof.
  intros Hx. unfold skin_normalize.
  assert (Hl : forall k, In k (range (skin_vertadr m i) (skin_vertadr m i + skin_vertnum m i))
                         -> skin_vertadr m i <= k < skin_vertadr m i + skin_vertnum m i).
  { intros k Hk. apply in_range, Hk. }
  revert sn Hl.
  induction (range (skin_vertadr m i) (skin_vertadr m i + skin_vertnum m i)) as [|k l IH];
    intros sn Hl; cbn [fold_left].
  - reflexivity.
  - rewrite IH by (intros k' Hk'; apply Hl; right; exact Hk').
    assert (Hk : skin_vertadr m i <= k < skin_vertadr m i + skin_vertnum m i)
      by (apply Hl; left; reflexivity).
    unfold skin_region in Hx. cbv zeta. unfold upd.
    repeat match goal with
           | |- context [?a =? ?b] => destruct (Z.eqb_spec a b); try lia
           end; reflexivity.
Qed.

Lemma skinnormal_updateSkin_one scn i :
  skinnormal (updateSkin_one m d scn i)
  = skin_normalize m i
      (skin_face_normals m i
         (skin_positions m d i
            (memset0 (skinvert scn) (3 * skin_vertadr m i) (3 * skin_vertnum m i)))
         (memset0 (skinnormal scn) (3 * skin_vertadr m i) (3 * skin_vertnum m i))).
Proof. reflexivity. Qed.

Lemma updateSkin_one_normal_outside scn i x :
  skin_face_ids_ok i ->
  ~ skin_region m i x ->
  skinnormal (updateSkin_one m d scn i) x = skinnormal scn x.
Proof.
  intros Hid Hx. rewrite skinnormal_updateSkin_one.
  rewrite skin_normalize_outside by exact Hx.
  rewrite skin_face_normals_outside by assumption.
  apply memset0_outside. unfold skin_region in Hx. lia.
Qed.

Lemma updateSkin_list_outside (l : list Z) scn x :
  (forall i, In i l -> skin_vertex_ids_ok m i /\ skin_face_ids_ok i /\ ~ skin_region m i x) ->
  skinvert (fold_left (updateSkin_one m d) l scn) x = skinvert scn x
  /\ skinnormal (fold_left (updateSkin_one m d) l scn) x = skinnormal scn x.
Proof.
  revert scn. induction l as [|i l IH]; intros scn Hl; cbn [fold_left].
  - split; reflexivity.
  - destruct (Hl i (or_introl eq_refl)) as (Hv & Hf & Hx).
    destruct (IH (updateSkin_one m d scn i)) as [E1 E2].
    { intros i' Hi'. apply Hl. right. exact Hi'. }
    rewrite E1, E2. split.
    + apply updateSkin_one_outside; assumption.
    + apply updateSkin_one_normal_outside; assumption.
Qed.

(** One bone adds to the entry [r] of vertex [v] the weight of the vertex
    times the entry of its rest position moved by the bone. *)
Lemma skin_bone_moved i j v r (p : array R) :
  0 <= r < 3 ->
  skin_bone m d (skin_vertadr m i) j p (3 * (skin_vertadr m i + v) + r)
  = (p (3 * (skin_vertadr m i + v) + r)%Z
     + bone_weight m j v
       * comp r (mju_add3 (mju_rotVecMat (rest_position m i v) (bone_rotate m d j))
                   (bone_translate m d j)))%R.
Proof.
  intros Hr. unfold skin_bone. cbv zeta.
  rewrite (fold_add3 (fun k => 3 * (skin_vertadr m i + skin_bonevertid m k))).
  f_equal. unfold bone_weight. rewrite <- sum_scaled.
  apply sum_ext. intros k _.
  unfold hit, comp, rest_position.
  destruct (Z.eqb_spec (skin_bonevertid m k) v) as [-> | Hne].
  - assert (Hc : r = 0 \/ r = 1 \/ r = 2) by lia.
    destruct Hc as [-> | [-> | ->]];
      repeat match goal with
             | |- context [?a =? ?b] => destruct (Z.eqb_spec a b); try lia
             end; ring.
  - repeat match goal with
           | |- context [?a =? ?b] => destruct (Z.eqb_spec a b); try lia
           end; ring.
Qed.

Lemma skin_positions_list_rigid i v r (rot : mat9) (tr : vec3) (l : list Z) (p : array R) :
  (forall j, In j l -> bone_rotate m d j = rot /\ bone_translate m d j = tr) ->
  0 <= r < 3 ->
  fold_left (fun skinvert j => skin_bone m d (skin_vertadr m i) j skinvert) l p
    (3 * (skin_vertadr m i + v) + r)
  = (p (3 * (skin_vertadr m i + v) + r)%Z
     + fold_right (fun j acc => bone_weight m j v + acc) 0 l
       * comp r (mju_add3 (mju_rotVecMat (rest_position m i v) rot) tr))%R.
Proof.
  intros Hl Hr. revert p. induction l as [|j l IH]; intros p; cbn [fold_left fold_right].
  - ring.
  - rewrite IH by (intros; apply Hl; right; assumption).
    destruct (Hl j (or_introl eq_refl)) as [Hrot Htr].
    rewrite (skin_bone_moved i j v p Hr), Hrot, Htr. ring.
Qed.

Lemma updateSkin_one_rigid scn i v r (rot : mat9) (tr : vec3) :
  (forall j, skin_boneadr m i <= j < skin_boneadr m i + skin_bonenum m i ->
             bone_rotate m d j = rot /\ bone_translate m d j = tr) ->
  skin_inflate m i = 0%R ->
  0 <= v < skin_vertnum m i ->
  0 <= r < 3 ->
  skinvert (updateSkin_one m d scn i) (3 * (skin_vertadr m i + v) + r)
  = (vertex_weight m i v
     * comp r (mju_add3 (mju_rotVecMat (rest_position m i v) rot) tr))%R.
Proof.
  intros Hb Hinf Hv Hr. rewrite skinvert_updateSkin_one.
  unfold skin_inflated. rewrite Hinf, Reqb_refl. cbn [negb].
  unfold skin_positions.
  rewrite (@skin_positions_list_rigid i v r rot tr);
    [|intros j Hj; apply Hb, in_range, Hj | exact Hr].
  rewrite memset0_inside by lia. unfold vertex_weight. ring.
Qed.

(** An entry that skin [i] determines keeps its value to the end of the
    loop over the skins. *)
Lemma updateSkin_list_determined (l : list Z) scn i x (t : R) :
  skins_separate m ->
  (forall a, In a l -> 0 <= a < nskin m) ->
  In i l ->
  skin_region m i x ->
  (forall sc, skinvert (updateSkin_one m d sc i) x = t) ->
  skinvert (fold_left (updateSkin_one m d) l scn) x = t.
Proof.
  intros [Hids Hsep] Hl Hi Hx Ht.
  induction l as [|a l IH] using rev_ind; [contradiction|].
  rewrite fold_left_app. cbn [fold_left].
  destruct (Z.eq_dec a i) as [-> | Hne].
  - apply Ht.
  - assert (Ha : 0 <= a < nskin m) by (apply Hl, in_or_app; right; left; reflexivity).
    assert (Hi' : In i l).
    { apply in_app_or in Hi. destruct Hi as [Hi | [Hi | []]]; [exact Hi | contradiction]. }
    assert (Hin : 0 <= i < nskin m) by (apply Hl, in_or_app; left; exact Hi').
    rewrite updateSkin_one_outside.
    + apply IH; [|exact Hi']. intros b Hb. apply Hl, in_or_app. left. exact Hb.
    + apply Hids, Ha.
    + unfold skin_region in *. destruct (Hsep a i Ha Hin Hne); lia.
Qed.

End SkinMore.

(** What [mjv_updateSkin] leaves alone.  In a model whose bones and faces
    name vertices of their own skin, the entries of the vertex buffer and of
    the normal buffer that belong to no skin keep their values, and so do
    the geoms, their number and the capacity of the scene. *)
Theorem updateSkin_footprint :
  forall (m : mjModel) (d : mjData) (scn : mjvScene) (x : Z),
    (forall i, 0 <= i < nskin m -> skin_vertex_ids_ok m i /\ skin_face_ids_ok m i) ->
    (forall i, 0 <= i < nskin m -> ~ skin_region m i x) ->
    skinvert (mjv_updateSkin m d scn) x = skinvert scn x
    /\ skinnormal (mjv_updateSkin m d scn) x = skinnormal scn x
    /\ scn_ngeom (mjv_updateSkin m d scn) = scn_ngeom scn
    /\ maxgeom (mjv_updateSkin m d scn) = maxgeom scn
    /\ geoms (mjv_updateSkin m d scn) = geoms scn.
Proof.
  intros m d scn x Hok Hx.
  destruct (@updateSkin_list_outside m d (range 0 (nskin m)) scn x) as [E1 E2].
  { intros i Hi. apply in_range in Hi. destruct (Hok i Hi) as [Hv Hf].
    split; [exact Hv|]. split; [exact Hf | apply Hx, Hi]. }
  split; [exact E1|]. split; [exact E2|].
  destruct (updateSkin_same_geoms m d scn) as (G1 & G2 & G3).
  split; [exact G2|]. split; [exact G1 | exact G3].
Qed.

Lemma updateSkin_footprint_witness :
  skinvert (mjv_updateSkin (one_vertex_skin 1) bind_pose_data zero_mjvScene) 100
  = skinvert zero_mjvScene 100
  /\ skinnormal (mjv_updateSkin (one_vertex_skin 1) bind_pose_data zero_mjvScene) 100
     = skinnormal zero_mjvScene 100
  /\ scn_ngeom (mjv_updateSkin (one_vertex_skin 1) bind_pose_data zero_mjvScene)
     = scn_ngeom zero_mjvScene
  /\ maxgeom (mjv_updateSkin (one_vertex_skin 1) bind_pose_data zero_mjvScene)
     = maxgeom zero_mjvScene
  /\ geoms (mjv_updateSkin (one_vertex_skin 1) bind_pose_data zero_mjvScene)
     = geoms zero_mjvScene.
Proof.
  refine (@updateSkin_footprint (one_vertex_skin 1) bind_pose_data zero_mjvScene 100 _ _).
  - intros i Hi. split.
    + intros j k Hj Hk. cbn. lia.
    + intros k Hk. cbn in Hk. lia.
  - intros i Hi. unfold skin_region. cbn. lia.
Defined.

(** Rigid motion of a skin.  When all the bones of a skin that is not
    inflated have moved from their bind poses by one and the same rigid
    motion (the same rotation and the same translation), every vertex of
    the skin whose weights sum to 1 is at its rest position moved by that
    motion.  (Models as in the amended claim C3: the skins have vertex ids
    and parts of the vertex buffer of their own.) *)
Theorem skin_rigid_motion :
  forall (m : mjModel) (d : mjData) (scn : mjvScene) (i v : Z) (rot : mat9) (tr : vec3),
    skins_separate m ->
    0 <= i < nskin m ->
    (forall j, skin_boneadr m i <= j < skin_boneadr m i + skin_bonenum m i ->
               bone_rotate m d j = rot /\ bone_translate m d j = tr) ->
    skin_inflate m i = 0%R ->
    0 <= v < skin_vertnum m i ->
    vertex_weight m i v = 1%R ->
    vec3_at (offset (skinvert (mjv_updateSkin m d scn)) (3 * (skin_vertadr m i + v)))
    = mju_add3 (mju_rotVecMat (rest_position m i v) rot) tr.
Proof.
  intros m d scn i v rot tr Hsep Hi Hb Hinf Hv Hw.
  assert (E : forall r, 0 <= r < 3 ->
              skinvert (mjv_updateSkin m d scn) (3 * (skin_vertadr m i + v) + r)
              = comp r (mju_add3 (mju_rotVecMat (rest_position m i v) rot) tr)).
  { intros r Hr. unfold mjv_updateSkin.
    apply updateSkin_list_determined with (i := i).
    - exact Hsep.
    - intros a Ha. apply in_range in Ha. exact Ha.
    - apply in_range. exact Hi.
    - unfold skin_region. lia.
    - intros sc. rewrite (@updateSkin_one_rigid m d sc i v r rot tr Hb Hinf Hv Hr).
      rewrite Hw. ring. }
  unfold vec3_at, offset.
  rewrite (E 0), (E 1), (E 2) by lia.
  set (w := mju_add3 (mju_rotVecMat (rest_position m i v) rot) tr).
  change (comp 0 w) with (c0 w). change (comp 1 w) with (c1 w).
  change (comp 2 w) with (c2 w). apply vec3_eta.
Qed.

Lemma skin_rigid_motion_witness :
  vec3_at (offset (skinvert (mjv_updateSkin (one_vertex_skin 1) bind_pose_data zero_mjvScene))
             (3 * (skin_vertadr (one_vertex_skin 1) 0 + 0)))
  = mju_add3 (mju_rotVecMat (rest_position (one_vertex_skin 1) 0 0) IDENTITY) (V3 0 0 0).
Proof.
  refine (@skin_rigid_motion (one_vertex_skin 1) bind_pose_data zero_mjvScene 0 0
            IDENTITY (V3 0 0 0) (one_vertex_skin_separate 1) _ _ _ _
            (one_vertex_skin_weight 1)).
  - cbn. lia.
  - intros j Hj.
    destruct (@one_vertex_skin_bind_pose 1 j Hj) as [Hb Hu].
    split; [apply bind_pose_rotate | apply bind_pose_translate]; assumption.
  - reflexivity.
  - cbn. lia.
Defined.

(** ** The category mask *)

Section Quiet.
Local Open Scope Z_scope.

(** A computation that falls through and leaves the state as it is. *)
Definition quiet {A} (c : M A) : Prop := forall s, exists a, c s = Next a s.

Lemma quiet_ret {A} (a : A) : quiet (ret a).
Proof. intros s. exists a. reflexivity. Qed.

Lemma quiet_bind {A B} (c : M A) (k : A -> M B) :
  quiet c -> (forall a, quiet (k a)) -> quiet (bind c k).
Proof.
  intros Hc Hk s. destruct (Hc s) as (a & Ea). destruct (Hk a s) as (b & Eb).
  exists b. unfold bind. rewrite Ea. exact Eb.
Qed.

Lemma quiet_for_each {A} (l : list A) (body : A -> M unit) :
  (forall i, quiet (body i)) -> quiet (for_each l body).
Proof.
  intros Hb. induction l as [|i l IH]; cbn [for_each].
  - apply quiet_ret.
  - apply quiet_bind; [apply Hb | intros _; exact IH].
Qed.

Lemma quiet_for lo hi (body : Z -> M unit) :
  (forall i, quiet (body i)) -> quiet (for_ lo hi body).
Proof. intros Hb. apply quiet_for_each, Hb. Qed.

Lemma quiet_for_each_acc {A S} (l : list A) (acc : S) (body : A -> S -> M S) :
  (forall i a, quiet (body i a)) -> quiet (for_each_acc l acc body).
Proof.
  intros Hb. revert acc. induction l as [|i l IH]; intros acc; cbn [for_each_acc].
  - apply quiet_ret.
  - apply quiet_bind; [apply Hb | intros a; apply IH].
Qed.

Lemma band_zero a : band a 0 = false.
Proof. unfold band. rewrite Z.land_0_r. reflexivity. Qed.

Lemma band_zero_l a : band 0 a = false.
Proof. unfold band. rewrite Z.land_0_l. reflexivity. Qed.

End Quiet.

Ltac quiet_step :=
  cbv beta zeta;
  rewrite ?band_zero, ?band_zero_l, ?andb_false_r;
  cbn [andb orb negb];
  lazymatch goal with
  | |- quiet (ret _) => apply quiet_ret
  | |- quiet (bind _ _) => apply quiet_bind; [|intros ?]
  | |- quiet (for_ _ _ _) => apply quiet_for; intros ?
  | |- quiet (for_each _ _) => apply quiet_for_each; intros ?
  | |- quiet (for_each_acc _ _ _) => apply quiet_for_each_acc; intros ? ?
  | |- quiet (if ?b then _ else _) => destruct b
  end.

Section EmptyMask.
Local Open Scope Z_scope.
Variables (m : mjModel) (d : mjData) (vopt : mjvOption) (pert : mjvPerturb).

(** With the empty mask every block falls through and leaves the state. *)
Lemma quiet_blocks :
  quiet (addGeoms_skin m d vopt pert 0)
  /\ quiet (addGeoms_inertia m d vopt pert 0)
  /\ quiet (addGeoms_pertobj m d vopt pert 0)
  /\ quiet (addGeoms_bodyframe m d vopt 0)
  /\ quiet (addGeoms_selectpoint m d vopt pert 0)
  /\ quiet (addGeoms_bodylabel m d vopt pert 0)
  /\ quiet (addGeoms_joint m d vopt 0)
  /\ quiet (addGeoms_actuator m d vopt 0)
  /\ quiet (addGeoms_geom m d vopt pert 0)
  /\ quiet (addGeoms_site m d vopt pert 0)
  /\ quiet (addGeoms_camera m d vopt 0)
  /\ quiet (addGeoms_light m d vopt 0)
  /\ quiet (addGeoms_tendon m d vopt 0)
  /\ quiet (addGeoms_slidercrank m d vopt 0)
  /\ quiet (addGeoms_com m d vopt 0)
  /\ quiet (addGeoms_autoconnect m d vopt 0)
  /\ quiet (addGeoms_rangefinder m d vopt 0)
  /\ quiet (addGeoms_pertforce m d vopt 0)
  /\ quiet (addGeoms_constraint m d vopt 0)
  /\ quiet (addGeoms_contact m d vopt 0).
Proof.
  unfold addGeoms_skin, addGeoms_inertia, addGeoms_pertobj, addGeoms_bodyframe,
    addGeoms_selectpoint, addGeoms_bodylabel, addGeoms_joint, addGeoms_actuator,
    addGeoms_geom, geom_body, addGeoms_site, site_body, addGeoms_camera, addGeoms_light,
    addGeoms_tendon, addGeoms_slidercrank, addGeoms_com, addGeoms_autoconnect,
    addGeoms_rangefinder, addGeoms_pertforce, addGeoms_constraint, addGeoms_contact.
  repeat split; repeat quiet_step.
Qed.

End EmptyMask.

(** The mask of categories gates every block of [mjv_addGeoms]: with the
    empty mask, or with the mask of the static category alone while static
    bodies are not shown (the flag mjVIS_STATIC clears that bit), the walk
    emits nothing, records no warning and leaves the scene as it is,
    whatever the model, the options and the perturbation. *)
Theorem empty_mask_draws_nothing :
  forall (m : mjModel) (d : mjData) (vopt : mjvOption) (pert : option mjvPerturb)
         (catmask : Z) (s : vstate),
    catmask = 0 \/ (catmask = mjCAT_STATIC /\ vopt_flags vopt mjVIS_STATIC = false) ->
    mjv_addGeoms m d vopt pert catmask s = Next tt s.
Proof.
  intros m d vopt pert catmask s Hmask.
  assert (E : (if negb (vopt_flags vopt mjVIS_STATIC)
               then Z.land catmask (Z.lnot mjCAT_STATIC) else catmask) = 0).
  { destruct Hmask as [-> | [-> Hst]].
    - destruct (negb (vopt_flags vopt mjVIS_STATIC)); reflexivity.
    - rewrite Hst. reflexivity. }
  assert (Q : quiet (mjv_addGeoms m d vopt pert catmask)).
  { unfold mjv_addGeoms. cbv zeta. rewrite E.
    set (p := match pert with Some p => p | None => mjv_defaultPerturb end).
    pose proof (quiet_blocks m d vopt p) as
      (Q1 & Q2 & Q3 & Q4 & Q5 & Q6 & Q7 & Q8 & Q9 & Q10 & Q11 & Q12 & Q13 & Q14 & Q15
       & Q16 & Q17 & Q18 & Q19 & Q20).
    repeat (apply quiet_bind; [assumption | intros _]). exact Q20. }
  destruct (Q s) as ([] & Es). exact Es.
Qed.

Lemma empty_mask_draws_nothing_witness :
  mjv_addGeoms one_camera_model zero_mjData frame_and_camera_options None 0 (empty_scene 10)
  = Next tt (empty_scene 10).
Proof.
  refine (@empty_mask_draws_nothing one_camera_model zero_mjData frame_and_camera_options
            None 0 (empty_scene 10) _).
  left. reflexivity.
Defined.

(** ** What START writes stays: the tags of the geoms *)

Section Marks.
Local Open Scope Z_scope.

(** [P k g]: a property of the geom [g] at index [k] of the buffer. *)
Variable P : Z -> mjvGeom -> Prop.
Variable s0 : vstate.   (* the state in which the walk started *)

(** Every geom emitted since [s0] has the property; so has the geom under
    construction between START and FINISH. *)
Definition marked (ph : phase) (s : vstate) : Prop :=
  scn_ngeom (scn s0) <= scn_ngeom (scn s)
  /\ (forall k, scn_ngeom (scn s0) <= k < scn_ngeom (scn s) -> P k (geoms (scn s) k))
  /\ match ph with
     | Closed => True
     | Open => P (scn_ngeom (scn s)) (geoms (scn s) (scn_ngeom (scn s)))
     end.

Definition marks {A} (ph1 : phase) (c : M A) (ph2 : phase) : Prop :=
  forall s, marked ph1 s ->
    match c s with
    | Next _ s' => marked ph2 s'
    | Return s' => marked Closed s'
    | Fatal _ => True
    end.

Lemma marked_closed ph s : marked ph s -> marked Closed s.
Proof. intros (H1 & H2 & _). split; [exact H1|]. split; [exact H2 | exact I]. Qed.

Lemma marks_ret {A} ph (a : A) : marks ph (ret a) ph.
Proof. intros s H. exact H. Qed.

Lemma marks_ret_weak {A} (a : A) : marks Open (ret a) Closed.
Proof. intros s H. apply (marked_closed H). Qed.

Lemma marks_return {A} ph1 ph2 : marks ph1 (@return_ A) ph2.
Proof. intros s H. apply (marked_closed H). Qed.

Lemma marks_bind {A B} mid ph1 ph2 (c : M A) (k : A -> M B) :
  marks ph1 c mid -> (forall a, marks mid (k a) ph2) -> marks ph1 (bind c k) ph2.
Proof.
  intros Hc Hk s H. unfold bind. specialize (Hc s H).
  destruct (c s) as [a s' | s' | e]; auto. apply Hk, Hc.
Qed.

Lemma marks_error {A} ph1 ph2 e : marks ph1 (@mju_error A e) ph2.
Proof. intros s H. exact I. Qed.

Lemma marks_thisgeom ph : marks ph thisgeom ph.
Proof. intros s H. exact H. Qed.

Lemma marks_get_scn ph : marks ph get_scn ph.
Proof. intros s H. exact H. Qed.

Lemma marked_slot s g :
  marked Open s -> P (scn_ngeom (scn s)) g ->
  marked Open {| scn := set_geoms (scn s) (upd (geoms (scn s)) (scn_ngeom (scn s)) g);
                 warning_vgeomfull := warning_vgeomfull s |}.
Proof.
  intros (H1 & H2 & H3) Hg. unfold marked. cbn.
  split; [exact H1|]. split.
  - intros k Hk. unfold upd. destruct (Z.eqb_spec k (scn_ngeom (scn s))); [lia|].
    apply H2, Hk.
  - unfold upd. rewrite Z.eqb_refl. exact Hg.
Qed.

Lemma marks_assign f :
  (forall k g, P k g -> P k (f g)) -> marks Open (assign f) Open.
Proof.
  intros Hf s H. unfold assign, bind, get_scn, put_scn.
  apply marked_slot; [exact H|]. destruct H as (_ & _ & H3). apply Hf, H3.
Qed.

Lemma marks_assign_result f :
  (forall k g g', P k g -> f g = Ok g' -> P k g') -> marks Open (assign_result f) Open.
Proof.
  intros Hf s H. cbv beta iota delta [assign_result bind thisgeom get_scn ret].
  destruct (f (geoms (scn s) (scn_ngeom (scn s)))) as [g' | e] eqn:E; [|exact I].
  unfold assign, bind, get_scn, put_scn.
  apply marked_slot; [exact H|]. destruct H as (_ & _ & H3). exact (Hf _ _ _ H3 E).
Qed.

Lemma marks_START objtype i category :
  (forall n g,
      P n (set_segid
             (set_category
                (set_objid
                   (set_objtype (mjv_initGeom g mjGEOM_NONE None None None None) objtype) i)
                category) n)) ->
  marks Closed (START objtype i category) Open.
Proof.
  intros HP s H. unfold START, bind, get_scn.
  destruct (scn_ngeom (scn s) >=? maxgeom (scn s)).
  - unfold mj_warning, return_, bind. exact H.
  - unfold assign, bind, get_scn, put_scn.
    destruct H as (H1 & H2 & _). unfold marked. cbn.
    split; [exact H1|]. split.
    + intros k Hk. unfold upd. destruct (Z.eqb_spec k (scn_ngeom (scn s))); [lia|].
      apply H2, Hk.
    + unfold upd. rewrite Z.eqb_refl. apply HP.
Qed.

Lemma marks_FINISH : marks Open FINISH Closed.
Proof.
  intros s (H1 & H2 & H3). unfold FINISH, bind, get_scn, put_scn, marked. cbn.
  split; [lia|]. split; [|exact I].
  intros k Hk. destruct (Z.eq_dec k (scn_ngeom (scn s))) as [-> | Hne].
  - exact H3.
  - apply H2. lia.
Qed.

Lemma marks_for_each {A} (l : list A) (body : A -> M unit) :
  (forall i, marks Closed (body i) Closed) -> marks Closed (for_each l body) Closed.
Proof.
  intros Hb. induction l as [|i l IH]; cbn [for_each].
  - apply marks_ret.
  - eapply marks_bind; [apply Hb | intros _; exact IH].
Qed.

Lemma marks_for lo hi (body : Z -> M unit) :
  (forall i, marks Closed (body i) Closed) -> marks Closed (for_ lo hi body) Closed.
Proof. intros Hb. apply marks_for_each, Hb. Qed.

Lemma marks_for_each_acc {A S} (l : list A) (acc : S) (body : A -> S -> M S) :
  (forall i acc, marks Closed (body i acc) Closed) ->
  marks Closed (for_each_acc l acc body) Closed.
Proof.
  intros Hb. revert acc. induction l as [|i l IH]; intros acc; cbn [for_each_acc].
  - apply marks_ret.
  - eapply marks_bind; [apply Hb | intros acc'; apply IH].
Qed.

Lemma marks_while_each (l : list Z) cond (body : Z -> M unit) :
  (forall j, marks Closed (body j) Closed) -> marks Closed (while_each l cond body) Closed.
Proof.
  intros Hb. induction l as [|j l IH]; cbn [while_each].
  - apply marks_ret.
  - destruct (cond j); [|apply marks_ret].
    eapply marks_bind; [apply Hb | intros _; exact IH].
Qed.

Lemma marks_call (c : M unit) : marks Closed c Closed -> marks Closed (call c) Closed.
Proof.
  intros Hc s H. unfold call. specialize (Hc s H).
  destruct (c s); exact Hc.
Qed.

End Marks.

Section Tagged.
Local Open Scope Z_scope.

(** The tags of the geom at index [k]: its index, for segmentation, and a
    category that is one of the three bits of the category mask. *)
Definition tagged (k : Z) (g : mjvGeom) : Prop :=
  segid g = k
  /\ (category g = mjCAT_STATIC \/ category g = mjCAT_DYNAMIC \/ category g = mjCAT_DECOR).

Lemma tagged_kept k g g' :
  segid g' = segid g /\ category g' = category g -> tagged k g -> tagged k g'.
Proof. intros [E1 E2] [H1 H2]. unfold tagged. rewrite E1, E2. split; assumption. Qed.

Lemma tagged_connector k g g' ty width a0 a1 a2 b0 b1 b2 :
  tagged k g -> mjv_makeConnector g ty width a0 a1 a2 b0 b1 b2 = Ok g' -> tagged k g'.
Proof.
  intros Hg E. apply (tagged_kept (g := g)); [|exact Hg].
  unfold mjv_makeConnector in E. rewrite connector_guard in E.
  destruct (negb (connector_type ty)); [discriminate|].
  cbv zeta in E. injection E as <-.
  destruct ((ty =? mjGEOM_CAPSULE) || (ty =? mjGEOM_CYLINDER)); split; reflexivity.
Qed.

Lemma bodycategory_range m i :
  bodycategory m i = mjCAT_STATIC \/ bodycategory m i = mjCAT_DYNAMIC
  \/ bodycategory m i = mjCAT_DECOR.
Proof. unfold bodycategory. destruct (_ && _); auto. Qed.

End Tagged.

Lemma segid_set_type g v : segid (set_type g v) = segid g.
Proof. reflexivity. Qed.

Lemma segid_set_dataid g v : segid (set_dataid g v) = segid g.
Proof. reflexivity. Qed.

Lemma segid_set_objtype g v : segid (set_objtype g v) = segid g.
Proof. reflexivity. Qed.

Lemma segid_set_objid g v : segid (set_objid g v) = segid g.
Proof. reflexivity. Qed.

Lemma segid_set_category g v : segid (set_category g v) = segid g.
Proof. reflexivity. Qed.

Lemma segid_set_texid g v : segid (set_texid g v) = segid g.
Proof. reflexivity. Qed.

Lemma segid_set_texuniform g v : segid (set_texuniform g v) = segid g.
Proof. reflexivity. Qed.

Lemma segid_set_texcoord g v : segid (set_texcoord g v) = segid g.
Proof. reflexivity. Qed.

Lemma segid_set_texrepeat g v : segid (set_texrepeat g v) = segid g.
Proof. reflexivity. Qed.

Lemma segid_set_size g v : segid (set_size g v) = segid g.
Proof. reflexivity. Qed.

Lemma segid_set_pos g v : segid (set_pos g v) = segid g.
Proof. reflexivity. Qed.

Lemma segid_set_mat g v : segid (set_mat g v) = segid g.
Proof. reflexivity. Qed.

Lemma segid_set_rgba g v : segid (set_rgba g v) = segid g.
Proof. reflexivity. Qed.

Lemma segid_set_emission g v : segid (set_emission g v) = segid g.
Proof. reflexivity. Qed.

Lemma segid_set_specular g v : segid (set_specular g v) = segid g.
Proof. reflexivity. Qed.

Lemma segid_set_shininess g v : segid (set_shininess g v) = segid g.
Proof. reflexivity. Qed.

Lemma segid_set_reflectance g v : segid (set_reflectance g v) = segid g.
Proof. reflexivity. Qed.

Lemma segid_set_label g v : segid (set_label g v) = segid g.
Proof. reflexivity. Qed.

Lemma segid_set_modelrbound g v : segid (set_modelrbound g v) = segid g.
Proof. reflexivity. Qed.

Lemma category_set_type g v : category (set_type g v) = category g.
Proof. reflexivity. Qed.

Lemma category_set_dataid g v : category (set_dataid g v) = category g.
Proof. reflexivity. Qed.

Lemma category_set_objtype g v : category (set_objtype g v) = category g.
Proof. reflexivity. Qed.

Lemma category_set_objid g v : category (set_objid g v) = category g.
Proof. reflexivity. Qed.

Lemma category_set_texid g v : category (set_texid g v) = category g.
Proof. reflexivity. Qed.

Lemma category_set_texuniform g v : category (set_texuniform g v) = category g.
Proof. reflexivity. Qed.

Lemma category_set_texcoord g v : category (set_texcoord g v) = category g.
Proof. reflexivity. Qed.

Lemma category_set_segid g v : category (set_segid g v) = category g.
Proof. reflexivity. Qed.

Lemma category_set_texrepeat g v : category (set_texrepeat g v) = category g.
Proof. reflexivity. Qed.

Lemma category_set_size g v : category (set_size g v) = category g.
Proof. reflexivity. Qed.

Lemma category_set_pos g v : category (set_pos g v) = category g.
Proof. reflexivity. Qed.

Lemma category_set_mat g v : category (set_mat g v) = category g.
Proof. reflexivity. Qed.

Lemma category_set_rgba g v : category (set_rgba g v) = category g.
Proof. reflexivity. Qed.

Lemma category_set_emission g v : category (set_emission g v) = category g.
Proof. reflexivity. Qed.

Lemma category_set_specular g v : category (set_specular g v) = category g.
Proof. reflexivity. Qed.

Lemma category_set_shininess g v : category (set_shininess g v) = category g.
Proof. reflexivity. Qed.

Lemma category_set_reflectance g v : category (set_reflectance g v) = category g.
Proof. reflexivity. Qed.

Lemma category_set_label g v : category (set_label g v) = category g.
Proof. reflexivity. Qed.

Lemma category_set_modelrbound g v : category (set_modelrbound g v) = category g.
Proof. reflexivity. Qed.

Create Rewrite HintDb tags.
#[global] Hint Rewrite segid_set_type segid_set_dataid segid_set_objtype segid_set_objid segid_set_category segid_set_texid segid_set_texuniform segid_set_texcoord segid_set_texrepeat segid_set_size segid_set_pos segid_set_mat segid_set_rgba segid_set_emission segid_set_specular segid_set_shininess segid_set_reflectance segid_set_label segid_set_modelrbound : tags.
#[global] Hint Rewrite category_set_type category_set_dataid category_set_objtype category_set_objid category_set_texid category_set_texuniform category_set_texcoord category_set_segid category_set_texrepeat category_set_size category_set_pos category_set_mat category_set_rgba category_set_emission category_set_specular category_set_shininess category_set_reflectance category_set_label category_set_modelrbound : tags.

Lemma initGeom_segid g ty sz p mt c : segid (mjv_initGeom g ty sz p mt c) = segid g.
Proof. unfold mjv_initGeom. cbv zeta. autorewrite with tags. reflexivity. Qed.

Lemma initGeom_category g ty sz p mt c : category (mjv_initGeom g ty sz p mt c) = category g.
Proof. unfold mjv_initGeom. cbv zeta. autorewrite with tags. reflexivity. Qed.

Lemma markselected_segid m g : segid (markselected m g) = segid g.
Proof. unfold markselected. cbv zeta. autorewrite with tags. reflexivity. Qed.

Lemma markselected_category m g : category (markselected m g) = category g.
Proof. unfold markselected. cbv zeta. autorewrite with tags. reflexivity. Qed.

Lemma setMaterial_segid m g matid c flags : segid (setMaterial m g matid c flags) = segid g.
Proof.
  unfold setMaterial. cbv zeta.
  repeat match goal with |- context [if ?b then _ else _] => destruct b end;
    autorewrite with tags; reflexivity.
Qed.


(** The side conditions of the walk: an assignment keeps the tags. *)
Ltac tags_same :=
  repeat first
    [ rewrite setMaterial_segid
    | rewrite setMaterial_category
    | rewrite initGeom_segid
    | rewrite initGeom_category
    | rewrite markselected_segid
    | rewrite markselected_category
    | progress autorewrite with tags
    | progress cbv beta zeta
    | match goal with
      | |- context [segid (if ?b then _ else _)] => destruct b
      | |- context [category (if ?b then _ else _)] => destruct b
      end ];
  split; reflexivity.

Ltac tags_step :=
  cbv beta zeta;
  lazymatch goal with
  | |- context [skin_body] => unfold skin_body
  | |- context [contact_point] => unfold contact_point
  | |- context [contact_arrow] => unfold contact_arrow
  | |- context [geom_body] => unfold geom_body
  | |- context [site_body] => unfold site_body
  | |- marks _ _ _ (ret _) _ => first [apply marks_ret | apply marks_ret_weak]
  | |- marks _ _ _ return_ _ => apply marks_return
  | |- marks _ _ _ (mju_error _) _ => apply marks_error
  | |- marks _ _ _ thisgeom _ => apply marks_thisgeom
  | |- marks _ _ _ get_scn _ => apply marks_get_scn
  | |- marks _ _ _ (assign _) _ =>
      apply marks_assign; intros ? ?; apply tagged_kept; tags_same
  | |- marks _ _ _ (assign_result _) _ =>
      apply marks_assign_result; intros ? ? ? ? ?; eapply tagged_connector; eassumption
  | |- marks _ _ _ (START _ _ _) _ =>
      apply marks_START; intros ? ?; split;
      [ reflexivity
      | first [ left; reflexivity | right; left; reflexivity | right; right; reflexivity
              | apply bodycategory_range ] ]
  | |- marks _ _ _ FINISH _ => apply marks_FINISH
  | |- marks _ _ _ (call _) _ => apply marks_call
  | |- marks _ _ _ (for_ _ _ _) _ => apply marks_for; intros ?
  | |- marks _ _ _ (for_each _ _) _ => apply marks_for_each; intros ?
  | |- marks _ _ _ (for_each_acc _ _ _) _ => apply marks_for_each_acc; intros ? ?
  | |- marks _ _ _ (while_each _ _ _) _ => apply marks_while_each; intros ?
  | |- marks _ _ _ (frame_axes _ _ _ _ _ _ _) _ => unfold frame_axes
  | |- marks _ _ _ (addContactGeom _ _ _ _) _ => unfold addContactGeom
  | |- marks _ _ _ (if ?b then _ else _) _ => destruct b
  | |- marks _ _ _ (bind _ _) _ =>
      first [ apply (@marks_bind _ _ _ _ Closed); [solve [tags_walk] | intros ?; solve [tags_walk]]
            | apply (@marks_bind _ _ _ _ Open); [solve [tags_walk] | intros ?; solve [tags_walk]] ]
  end
with tags_walk := repeat tags_step.

Section TaggedBlocks.
Variables (s0 : vstate) (m : mjModel) (d : mjData) (vopt : mjvOption) (pert : mjvPerturb)
          (catmask : Z).

Lemma tags_skin : marks tagged s0 Closed (addGeoms_skin m d vopt pert catmask) Closed.
Proof. unfold addGeoms_skin. tags_walk. Qed.

Lemma tags_inertia : marks tagged s0 Closed (addGeoms_inertia m d vopt pert catmask) Closed.
Proof. unfold addGeoms_inertia. tags_walk. Qed.

Lemma tags_pertobj : marks tagged s0 Closed (addGeoms_pertobj m d vopt pert catmask) Closed.
Proof. unfold addGeoms_pertobj. tags_walk. Qed.

Lemma tags_bodyframe : marks tagged s0 Closed (addGeoms_bodyframe m d vopt catmask) Closed.
Proof. unfold addGeoms_bodyframe. tags_walk. Qed.

Lemma tags_selectpoint : marks tagged s0 Closed (addGeoms_selectpoint m d vopt pert catmask) Closed.
Proof. unfold addGeoms_selectpoint. tags_walk. Qed.

Lemma tags_bodylabel : marks tagged s0 Closed (addGeoms_bodylabel m d vopt pert catmask) Closed.
Proof. unfold addGeoms_bodylabel. tags_walk. Qed.

Lemma tags_joint : marks tagged s0 Closed (addGeoms_joint m d vopt catmask) Closed.
Proof. unfold addGeoms_joint. tags_walk. Qed.

Lemma tags_actuator : marks tagged s0 Closed (addGeoms_actuator m d vopt catmask) Closed.
Proof. unfold addGeoms_actuator. tags_walk. Qed.

Lemma tags_geom : marks tagged s0 Closed (addGeoms_geom m d vopt pert catmask) Closed.
Proof. unfold addGeoms_geom. tags_walk. Qed.

Lemma tags_site : marks tagged s0 Closed (addGeoms_site m d vopt pert catmask) Closed.
Proof. unfold addGeoms_site. tags_walk. Qed.

Lemma tags_camera : marks tagged s0 Closed (addGeoms_camera m d vopt catmask) Closed.
Proof. unfold addGeoms_camera. tags_walk. Qed.

Lemma tags_light : marks tagged s0 Closed (addGeoms_light m d vopt catmask) Closed.
Proof. unfold addGeoms_light. tags_walk. Qed.

Lemma tags_tendon : marks tagged s0 Closed (addGeoms_tendon m d vopt catmask) Closed.
Proof. unfold addGeoms_tendon. tags_walk. Qed.

Lemma tags_slidercrank : marks tagged s0 Closed (addGeoms_slidercrank m d vopt catmask) Closed.
Proof. unfold addGeoms_slidercrank. tags_walk. Qed.

Lemma tags_com : marks tagged s0 Closed (addGeoms_com m d vopt catmask) Closed.
Proof. unfold addGeoms_com. tags_walk. Qed.

Lemma tags_autoconnect : marks tagged s0 Closed (addGeoms_autoconnect m d vopt catmask) Closed.
Proof. unfold addGeoms_autoconnect. tags_walk. Qed.

Lemma tags_rangefinder : marks tagged s0 Closed (addGeoms_rangefinder m d vopt catmask) Closed.
Proof. unfold addGeoms_rangefinder. tags_walk. Qed.

Lemma tags_pertforce : marks tagged s0 Closed (addGeoms_pertforce m d vopt catmask) Closed.
Proof. unfold addGeoms_pertforce. tags_walk. Qed.

Lemma tags_constraint : marks tagged s0 Closed (addGeoms_constraint m d vopt catmask) Closed.
Proof. unfold addGeoms_constraint. tags_walk. Qed.

Lemma tags_contact : marks tagged s0 Closed (addGeoms_contact m d vopt catmask) Closed.
Proof. unfold addGeoms_contact. tags_walk. Qed.

End TaggedBlocks.

Lemma tags_addGeoms s0 m d vopt pert catmask :
  marks tagged s0 Closed (mjv_addGeoms m d vopt pert catmask) Closed.
Proof.
  unfold mjv_addGeoms. cbv zeta.
  repeat (eapply marks_bind;
          [ first [ apply tags_skin | apply tags_inertia | apply tags_pertobj
                  | apply tags_bodyframe | apply tags_selectpoint | apply tags_bodylabel
                  | apply tags_joint | apply tags_actuator | apply tags_geom
                  | apply tags_site | apply tags_camera | apply tags_light
                  | apply tags_tendon | apply tags_slidercrank | apply tags_com
                  | apply tags_autoconnect | apply tags_rangefinder | apply tags_pertforce
                  | apply tags_constraint ]
          | intros _ ]).
  apply tags_contact.
Qed.

(** START is the only place that writes the tags of a geom, and nothing
    after it touches them.  So every geom that [mjv_addGeoms] emits has its
    index in the buffer for [segid], and a category that is one of static,
    dynamic and decor, also when the walk ends early on a full buffer; and
    after [mjv_updateScene], which restarts the list of geoms, this holds
    for all the geoms of the scene. *)
Theorem emitted_geoms_tagged :
  forall (m : mjModel) (d : mjData) (vopt : mjvOption) (pert : option mjvPerturb)
         (cam : option mjvCamera) (catmask : Z) (s : vstate),
    match mjv_addGeoms m d vopt pert catmask s with
    | Next _ s' | Return s' =>
        forall k, scn_ngeom (scn s) <= k < scn_ngeom (scn s') -> tagged k (geoms (scn s') k)
    | Fatal _ => True
    end
    /\ match mjv_updateScene m d vopt pert cam catmask s with
       | Next _ s' =>
           forall k, 0 <= k < scn_ngeom (scn s') -> tagged k (geoms (scn s') k)
       | Return _ => False
       | Fatal _ => True
       end.
Proof.
  intros m d vopt pert cam catmask s. split.
  - assert (H : marked tagged s Closed s).
    { split; [lia|]. split; [intros k Hk; lia | exact I]. }
    pose proof (@tags_addGeoms s m d vopt pert catmask s H) as W.
    destruct (mjv_addGeoms m d vopt pert catmask s) as [u s' | s' | e]; [| |exact I];
      destruct W as (_ & W & _); exact W.
  - unfold mjv_updateScene, on_scn, call.
    cbv beta iota delta [bind get_scn put_scn].
    set (s1 := {| scn := set_scn_ngeom (scn s) 0; warning_vgeomfull := warning_vgeomfull s |}).
    assert (H : marked tagged s1 Closed s1).
    { split; [lia|]. split; [intros k Hk; lia | exact I]. }
    pose proof (@tags_addGeoms s1 m d vopt pert catmask s1 H) as W.
    assert (Hrest : forall s2,
               marked tagged s1 Closed s2 ->
               match
                 (let sc := mjv_makeLights m d (scn s2) in
                  match mjv_updateCamera (Some m) d cam sc with
                  | Ok (cam', sc') =>
                      bind (put_scn sc')
                        (fun _ => bind (when (vopt_flags vopt mjVIS_SKIN)
                                        then on_scn (mjv_updateSkin m d))
                                    (fun _ => ret cam'))
                  | Err e => mju_error e
                  end)
                   {| scn := mjv_makeLights m d (scn s2);
                      warning_vgeomfull := warning_vgeomfull s2 |}
               with
               | Next _ s' =>
                   forall k, 0 <= k < scn_ngeom (scn s') -> tagged k (geoms (scn s') k)
               | Return _ => False
               | Fatal _ => True
               end).
    { intros s2 (_ & W2 & _). cbv zeta.
      pose proof (makeLights_same_geoms m d (scn s2)) as (_ & L2 & L3).
      destruct (mjv_updateCamera (Some m) d cam (mjv_makeLights m d (scn s2)))
        as [[cam' sc3] | e] eqn:Ecam; [|exact I].
      apply updateCamera_same_geoms in Ecam as (_ & C2 & C3).
      unfold on_scn. cbv beta iota delta [bind get_scn put_scn ret].
      destruct (vopt_flags vopt mjVIS_SKIN).
      - pose proof (updateSkin_same_geoms m d sc3) as (_ & S2 & S3).
        cbn [scn]. rewrite S2, S3, C2, C3, L2, L3. intros k Hk. apply W2.
        change (scn_ngeom (scn s1)) with 0. exact Hk.
      - cbn [scn]. rewrite C2, C3, L2, L3. intros k Hk. apply W2.
        change (scn_ngeom (scn s1)) with 0. exact Hk. }
    destruct (mjv_addGeoms m d vopt pert catmask s1) as [u s2 | s2 | e]; [| |exact I].
    + apply Hrest, W.
    + apply Hrest, W.
Qed.

(** ** Labels follow the label mode *)

Lemma label_set_type g v : label (set_type g v) = label g.
Proof. reflexivity. Qed.

Lemma label_set_dataid g v : label (set_dataid g v) = label g.
Proof. reflexivity. Qed.

Lemma label_set_objtype g v : label (set_objtype g v) = label g.
Proof. reflexivity. Qed.

Lemma label_set_objid g v : label (set_objid g v) = label g.
Proof. reflexivity. Qed.

Lemma label_set_category g v : label (set_category g v) = label g.
Proof. reflexivity. Qed.

Lemma label_set_texid g v : label (set_texid g v) = label g.
Proof. reflexivity. Qed.

Lemma label_set_texuniform g v : label (set_texuniform g v) = label g.
Proof. reflexivity. Qed.

Lemma label_set_texcoord g v : label (set_texcoord g v) = label g.
Proof. reflexivity. Qed.

Lemma label_set_segid g v : label (set_segid g v) = label g.
Proof. reflexivity. Qed.

Lemma label_set_texrepeat g v : label (set_texrepeat g v) = label g.
Proof. reflexivity. Qed.

Lemma label_set_size g v : label (set_size g v) = label g.
Proof. reflexivity. Qed.

Lemma label_set_pos g v : label (set_pos g v) = label g.
Proof. reflexivity. Qed.

Lemma label_set_mat g v : label (set_mat g v) = label g.
Proof. reflexivity. Qed.

Lemma label_set_rgba g v : label (set_rgba g v) = label g.
Proof. reflexivity. Qed.

Lemma label_set_emission g v : label (set_emission g v) = label g.
Proof. reflexivity. Qed.

Lemma label_set_specular g v : label (set_specular g v) = label g.
Proof. reflexivity. Qed.

Lemma label_set_shininess g v : label (set_shininess g v) = label g.
Proof. reflexivity. Qed.

Lemma label_set_reflectance g v : label (set_reflectance g v) = label g.
Proof. reflexivity. Qed.

Lemma label_set_modelrbound g v : label (set_modelrbound g v) = label g.
Proof. reflexivity. Qed.

Create Rewrite HintDb labels.
#[global] Hint Rewrite label_set_type label_set_dataid label_set_objtype label_set_objid label_set_category label_set_texid label_set_texuniform label_set_texcoord label_set_segid label_set_texrepeat label_set_size label_set_pos label_set_mat label_set_rgba label_set_emission label_set_specular label_set_shininess label_set_reflectance label_set_modelrbound : labels.

Lemma label_set_label g l : label (set_label g l) = l.
Proof. reflexivity. Qed.

Lemma initGeom_label g ty sz p mt c : label (mjv_initGeom g ty sz p mt c) = LabelNone.
Proof. unfold mjv_initGeom. cbv zeta. autorewrite with labels. apply label_set_label. Qed.

Lemma markselected_label m g : label (markselected m g) = label g.
Proof. unfold markselected. cbv zeta. autorewrite with labels. reflexivity. Qed.

Lemma setMaterial_label m g matid c flags : label (setMaterial m g matid c flags) = label g.
Proof.
  unfold setMaterial. cbv zeta.
  repeat match goal with |- context [if ?b then _ else _] => destruct b end;
    autorewrite with labels; reflexivity.
Qed.

Lemma makeConnector_label g g' ty width a0 a1 a2 b0 b1 b2 :
  mjv_makeConnector g ty width a0 a1 a2 b0 b1 b2 = Ok g' -> label g' = label g.
Proof.
  intros E. unfold mjv_makeConnector in E. rewrite connector_guard in E.
  destruct (negb (connector_type ty)); [discriminate|].
  cbv zeta in E. injection E as <-.
  destruct ((ty =? mjGEOM_CAPSULE) || (ty =? mjGEOM_CYLINDER));
    autorewrite with labels; reflexivity.
Qed.

Lemma label_is_true a b : label_is a b = true -> a = b.
Proof. apply internal_mjtLabel_dec_bl. Qed.

(** The labels that the label mode [mode] allows: the name of an object
    of the kind that the mode selects (a body also for the mode of the
    selection), the contact force, the selection point. *)
Definition label_allowed (mode : mjtLabel) (l : label_text) : Prop :=
  match l with
  | LabelNone => True
  | LabelObject mjOBJ_BODY _ => mode = mjLABEL_BODY \/ mode = mjLABEL_SELECTION
  | LabelObject mjOBJ_JOINT _ => mode = mjLABEL_JOINT
  | LabelObject mjOBJ_GEOM _ => mode = mjLABEL_GEOM
  | LabelObject mjOBJ_SITE _ => mode = mjLABEL_SITE
  | LabelObject mjOBJ_CAMERA _ => mode = mjLABEL_CAMERA
  | LabelObject mjOBJ_LIGHT _ => mode = mjLABEL_LIGHT
  | LabelObject mjOBJ_TENDON _ => mode = mjLABEL_TENDON
  | LabelObject mjOBJ_ACTUATOR _ => mode = mjLABEL_ACTUATOR
  | LabelObject mjOBJ_EQUALITY _ => mode = mjLABEL_CONSTRAINT
  | LabelObject mjOBJ_SKIN _ => mode = mjLABEL_SKIN
  | LabelObject mjOBJ_UNKNOWN _ => False
  | LabelForce _ => mode = mjLABEL_CONTACTFORCE
  | LabelSelpnt _ _ => mode = mjLABEL_SELPNT
  end.

Definition labelled_by (mode : mjtLabel) (k : Z) (g : mjvGeom) : Prop :=
  label_allowed mode (label g).

(** The tests of the label mode that lead to the place of the proof. *)
Ltac label_tests :=
  repeat match goal with
  | H : _ && _ = true |- _ => apply andb_prop in H; destruct H
  | H : _ || _ = true |- _ => apply orb_prop in H; destruct H
  | H : label_is _ _ = true |- _ => apply label_is_true in H
  end.

Ltac labels_same :=
  unfold labelled_by in *;
  repeat first
    [ rewrite initGeom_label
    | rewrite setMaterial_label
    | rewrite markselected_label
    | rewrite label_set_label
    | progress autorewrite with labels
    | progress cbv beta zeta
    | match goal with
      | |- context [label (if ?b then _ else _)] => destruct b eqn:?
      end ];
  first [ assumption | exact I
        | unfold makeLabel; cbn [label_allowed]; label_tests;
          first [ assumption | left; assumption | right; assumption ] ].

Ltac labels_step :=
  cbv beta zeta;
  lazymatch goal with
  | |- context [skin_body] => unfold skin_body
  | |- context [contact_point] => unfold contact_point
  | |- context [contact_arrow] => unfold contact_arrow
  | |- context [geom_body] => unfold geom_body
  | |- context [site_body] => unfold site_body
  | |- marks _ _ _ (ret _) _ => first [apply marks_ret | apply marks_ret_weak]
  | |- marks _ _ _ return_ _ => apply marks_return
  | |- marks _ _ _ (mju_error _) _ => apply marks_error
  | |- marks _ _ _ thisgeom _ => apply marks_thisgeom
  | |- marks _ _ _ get_scn _ => apply marks_get_scn
  | |- marks _ _ _ (assign _) _ => apply marks_assign; intros ? ? ?; labels_same
  | |- marks _ _ _ (assign_result _) _ =>
      apply marks_assign_result;
      let E := fresh "E" in
      intros ? ? ? ? E; unfold labelled_by in *;
      rewrite (makeConnector_label _ _ _ _ _ _ _ _ _ E); assumption
  | |- marks _ _ _ (START _ _ _) _ => apply marks_START; intros ? ?; labels_same
  | |- marks _ _ _ FINISH _ => apply marks_FINISH
  | |- marks _ _ _ (call _) _ => apply marks_call
  | |- marks _ _ _ (for_ _ _ _) _ => apply marks_for; intros ?
  | |- marks _ _ _ (for_each _ _) _ => apply marks_for_each; intros ?
  | |- marks _ _ _ (for_each_acc _ _ _) _ => apply marks_for_each_acc; intros ? ?
  | |- marks _ _ _ (while_each _ _ _) _ => apply marks_while_each; intros ?
  | |- marks _ _ _ (frame_axes _ _ _ _ _ _ _) _ => unfold frame_axes
  | |- marks _ _ _ (addContactGeom _ _ _ _) _ => unfold addContactGeom
  | |- marks _ _ _ (if ?b then _ else _) _ => destruct b eqn:?
  | |- marks _ _ _ (bind _ _) _ =>
      first [ apply (@marks_bind _ _ _ _ Closed);
              [solve [labels_walk] | intros ?; solve [labels_walk]]
            | apply (@marks_bind _ _ _ _ Open);
              [solve [labels_walk] | intros ?; solve [labels_walk]] ]
  end
with labels_walk := repeat labels_step.

Section LabelledBlocks.
Variables (s0 : vstate) (m : mjModel) (d : mjData) (vopt : mjvOption) (pert : mjvPerturb)
          (catmask : Z).
Let P := labelled_by (vopt_label vopt).

Lemma labels_skin : marks P s0 Closed (addGeoms_skin m d vopt pert catmask) Closed.
Proof. unfold P, addGeoms_skin. labels_walk. Qed.

Lemma labels_inertia : marks P s0 Closed (addGeoms_inertia m d vopt pert catmask) Closed.
Proof. unfold P, addGeoms_inertia. labels_walk. Qed.

Lemma labels_pertobj : marks P s0 Closed (addGeoms_pertobj m d vopt pert catmask) Closed.
Proof. unfold P, addGeoms_pertobj. labels_walk. Qed.

Lemma labels_bodyframe : marks P s0 Closed (addGeoms_bodyframe m d vopt catmask) Closed.
Proof. unfold P, addGeoms_bodyframe. labels_walk. Qed.

Lemma labels_selectpoint : marks P s0 Closed (addGeoms_selectpoint m d vopt pert catmask) Closed.
Proof. unfold P, addGeoms_selectpoint. labels_walk. Qed.

Lemma labels_bodylabel : marks P s0 Closed (addGeoms_bodylabel m d vopt pert catmask) Closed.
Proof. unfold P, addGeoms_bodylabel. labels_walk. Qed.

Lemma labels_joint : marks P s0 Closed (addGeoms_joint m d vopt catmask) Closed.
Proof. unfold P, addGeoms_joint. labels_walk. Qed.

Lemma labels_actuator : marks P s0 Closed (addGeoms_actuator m d vopt catmask) Closed.
Proof. unfold P, addGeoms_actuator. labels_walk. Qed.

Lemma labels_geom : marks P s0 Closed (addGeoms_geom m d vopt pert catmask) Closed.
Proof. unfold P, addGeoms_geom. labels_walk. Qed.

Lemma labels_site : marks P s0 Closed (addGeoms_site m d vopt pert catmask) Closed.
Proof. unfold P, addGeoms_site. labels_walk. Qed.

Lemma labels_camera : marks P s0 Closed (addGeoms_camera m d vopt catmask) Closed.
Proof. unfold P, addGeoms_camera. labels_walk. Qed.

Lemma labels_light : marks P s0 Closed (addGeoms_light m d vopt catmask) Closed.
Proof. unfold P, addGeoms_light. labels_walk. Qed.

Lemma labels_tendon : marks P s0 Closed (addGeoms_tendon m d vopt catmask) Closed.
Proof. unfold P, addGeoms_tendon. labels_walk. Qed.

Lemma labels_slidercrank : marks P s0 Closed (addGeoms_slidercrank m d vopt catmask) Closed.
Proof. unfold P, addGeoms_slidercrank. labels_walk. Qed.

Lemma labels_com : marks P s0 Closed (addGeoms_com m d vopt catmask) Closed.
Proof. unfold P, addGeoms_com. labels_walk. Qed.

Lemma labels_autoconnect : marks P s0 Closed (addGeoms_autoconnect m d vopt catmask) Closed.
Proof. unfold P, addGeoms_autoconnect. labels_walk. Qed.

Lemma labels_rangefinder : marks P s0 Closed (addGeoms_rangefinder m d vopt catmask) Closed.
Proof. unfold P, addGeoms_rangefinder. labels_walk. Qed.

Lemma labels_pertforce : marks P s0 Closed (addGeoms_pertforce m d vopt catmask) Closed.
Proof. unfold P, addGeoms_pertforce. labels_walk. Qed.

Lemma labels_constraint : marks P s0 Closed (addGeoms_constraint m d vopt catmask) Closed.
Proof. unfold P, addGeoms_constraint. labels_walk. Qed.

Lemma labels_contact : marks P s0 Closed (addGeoms_contact m d vopt catmask) Closed.
Proof. unfold P, addGeoms_contact. labels_walk. Qed.

End LabelledBlocks.

Lemma labels_addGeoms s0 m d vopt pert catmask :
  marks (labelled_by (vopt_label vopt)) s0 Closed (mjv_addGeoms m d vopt pert catmask) Closed.
Proof.
  unfold mjv_addGeoms. cbv zeta.
  repeat (eapply marks_bind;
          [ first [ apply labels_skin | apply labels_inertia | apply labels_pertobj
                  | apply labels_bodyframe | apply labels_selectpoint
                  | apply labels_bodylabel | apply labels_joint | apply labels_actuator
                  | apply labels_geom | apply labels_site | apply labels_camera
                  | apply labels_light | apply labels_tendon | apply labels_slidercrank
                  | apply labels_com | apply labels_autoconnect | apply labels_rangefinder
                  | apply labels_pertforce | apply labels_constraint ]
          | intros _ ]).
  apply labels_contact.
Qed.

Lemma no_label_allowed l : label_allowed mjLABEL_NONE l -> l = LabelNone.
Proof.
  destruct l as [|ty id|n|a b]; cbn; intros H; try reflexivity; try discriminate.
  destruct ty; try contradiction; try discriminate. destruct H; discriminate.
Qed.

(** Labels follow the label mode.  Every label that [mjv_addGeoms] writes
    is written under a test of the label mode of the options: a geom that
    the walk emits has no label, or the name of an object of the kind that
    the mode selects (bodies also in the mode of the selection), or the
    contact force in the mode of the contact forces, or the selection point
    in its mode.  In particular no geom has a label when the label mode is
    none. *)
Theorem labels_follow_mode :
  forall (m : mjModel) (d : mjData) (vopt : mjvOption) (pert : option mjvPerturb)
         (catmask : Z) (s : vstate),
    match mjv_addGeoms m d vopt pert catmask s with
    | Next _ s' | Return s' =>
        forall k, scn_ngeom (scn s) <= k < scn_ngeom (scn s') ->
          label_allowed (vopt_label vopt) (label (geoms (scn s') k))
          /\ (vopt_label vopt = mjLABEL_NONE -> label (geoms (scn s') k) = LabelNone)
    | Fatal _ => True
    end.
Proof.
  intros m d vopt pert catmask s.
  assert (H : marked (labelled_by (vopt_label vopt)) s Closed s).
  { split; [lia|]. split; [intros k Hk; lia | exact I]. }
  pose proof (@labels_addGeoms s m d vopt pert catmask s H) as W.
  destruct (mjv_addGeoms m d vopt pert catmask s) as [u s' | s' | e]; [| |exact I];
    destruct W as (_ & W & _); intros k Hk; specialize (W k Hk); unfold labelled_by in W;
    (split; [exact W|]); intros Hm; rewrite Hm in W; apply no_label_allowed, W.
Qed.
(** ** Which object a geom stands for *)

Section Notes.
Local Open Scope Z_scope.

(** [P k g]: a property of the geom [g] emitted at index [k]. *)
Variable P : Z -> mjvGeom -> Prop.
Variable s0 : vstate.   (* the state in which the walk started *)

(** Every geom emitted since [s0] has the property [P]; between START and
    FINISH the geom under construction has the property [Q] of the place
    ([Some Q]); outside there is none ([None]). *)
Definition noted (ph : option (Z -> mjvGeom -> Prop)) (s : vstate) : Prop :=
  scn_ngeom (scn s0) <= scn_ngeom (scn s)
  /\ (forall k, scn_ngeom (scn s0) <= k < scn_ngeom (scn s) -> P k (geoms (scn s) k))
  /\ match ph with
     | None => True
     | Some Q => Q (scn_ngeom (scn s)) (geoms (scn s) (scn_ngeom (scn s)))
     end.

Definition notes {A} (ph1 : option (Z -> mjvGeom -> Prop)) (c : M A)
    (ph2 : option (Z -> mjvGeom -> Prop)) : Prop :=
  forall s, noted ph1 s ->
    match c s with
    | Next _ s' => noted ph2 s'
    | Return s' => noted None s'
    | Fatal _ => True
    end.

(** The value that a computation hands on has the property [I]. *)
Definition returns {A} (I : A -> Prop) (c : M A) : Prop :=
  forall s, match c s with Next a _ => I a | _ => True end.

Lemma noted_closed ph s : noted ph s -> noted None s.
Proof. intros (H1 & H2 & _). split; [exact H1|]. split; [exact H2 | exact I]. Qed.

Lemma notes_ret {A} ph (a : A) : notes ph (ret a) ph.
Proof. intros s H. exact H. Qed.

Lemma notes_ret_weak {A} ph (a : A) : notes ph (ret a) None.
Proof. intros s H. apply (noted_closed H). Qed.

Lemma notes_return {A} ph1 ph2 : notes ph1 (@return_ A) ph2.
Proof. intros s H. apply (noted_closed H). Qed.

Lemma notes_bind {A B} mid ph1 ph2 (c : M A) (k : A -> M B) :
  notes ph1 c mid -> (forall a, notes mid (k a) ph2) -> notes ph1 (bind c k) ph2.
Proof.
  intros Hc Hk s H. unfold bind. specialize (Hc s H).
  destruct (c s) as [a s' | s' | e]; auto. apply Hk, Hc.
Qed.

Lemma notes_error {A} ph1 ph2 e : notes ph1 (@mju_error A e) ph2.
Proof. intros s H. exact I. Qed.

Lemma notes_thisgeom ph : notes ph thisgeom ph.
Proof. intros s H. exact H. Qed.

Lemma notes_get_scn ph : notes ph get_scn ph.
Proof. intros s H. exact H. Qed.

Lemma noted_slot Q Q' s g :
  noted (Some Q) s -> Q' (scn_ngeom (scn s)) g ->
  noted (Some Q')
    {| scn := set_geoms (scn s) (upd (geoms (scn s)) (scn_ngeom (scn s)) g);
       warning_vgeomfull := warning_vgeomfull s |}.
Proof.
  intros (H1 & H2 & H3) Hg. unfold noted. cbn.
  split; [exact H1|]. split.
  - intros k Hk. unfold upd. destruct (Z.eqb_spec k (scn_ngeom (scn s))); [lia|].
    apply H2, Hk.
  - unfold upd. rewrite Z.eqb_refl. exact Hg.
Qed.

Lemma notes_assign Q Q' f :
  (forall k g, Q k g -> Q' k (f g)) -> notes (Some Q) (assign f) (Some Q').
Proof.
  intros Hf s H. unfold assign, bind, get_scn, put_scn.
  apply (noted_slot (Q := Q)); [exact H|]. destruct H as (_ & _ & H3). apply Hf, H3.
Qed.

Lemma notes_assign_result Q Q' f :
  (forall k g g', Q k g -> f g = Ok g' -> Q' k g') ->
  notes (Some Q) (assign_result f) (Some Q').
Proof.
  intros Hf s H. cbv beta iota delta [assign_result bind thisgeom get_scn ret].
  destruct (f (geoms (scn s) (scn_ngeom (scn s)))) as [g' | e] eqn:E; [|exact I].
  unfold assign, bind, get_scn, put_scn.
  apply (noted_slot (Q := Q)); [exact H|]. destruct H as (_ & _ & H3). exact (Hf _ _ _ H3 E).
Qed.

Lemma notes_START Q otype i cat :
  (forall n g,
      Q n (set_segid
             (set_category
                (set_objid
                   (set_objtype (mjv_initGeom g mjGEOM_NONE None None None None) otype) i)
                cat) n)) ->
  notes None (START otype i cat) (Some Q).
Proof.
  intros HQ s H. unfold START, bind, get_scn.
  destruct (scn_ngeom (scn s) >=? maxgeom (scn s)).
  - unfold mj_warning, return_, bind. exact H.
  - unfold assign, bind, get_scn, put_scn.
    destruct H as (H1 & H2 & _). unfold noted. cbn.
    split; [exact H1|]. split.
    + intros k Hk. unfold upd. destruct (Z.eqb_spec k (scn_ngeom (scn s))); [lia|].
      apply H2, Hk.
    + unfold upd. rewrite Z.eqb_refl. apply HQ.
Qed.

Lemma notes_FINISH Q : (forall k g, Q k g -> P k g) -> notes (Some Q) FINISH None.
Proof.
  intros HQ s (H1 & H2 & H3). unfold FINISH, bind, get_scn, put_scn, noted. cbn.
  split; [lia|]. split; [|exact I].
  intros k Hk. destruct (Z.eq_dec k (scn_ngeom (scn s))) as [-> | Hne].
  - apply HQ, H3.
  - apply H2. lia.
Qed.

Lemma notes_for_each {A} (l : list A) (body : A -> M unit) :
  (forall i, In i l -> notes None (body i) None) -> notes None (for_each l body) None.
Proof.
  induction l as [|i l IH]; intros Hb; cbn [for_each].
  - apply notes_ret.
  - eapply notes_bind; [apply Hb; left; reflexivity | intros _; apply IH].
    intros j Hj. apply Hb. right. exact Hj.
Qed.

Lemma notes_for lo hi (body : Z -> M unit) :
  (forall i, lo <= i < hi -> notes None (body i) None) -> notes None (for_ lo hi body) None.
Proof. intros Hb. apply notes_for_each. intros i Hi. apply Hb, in_range, Hi. Qed.

Lemma notes_for_each_acc {A S} (I : S -> Prop) (l : list A) (acc : S)
    (body : A -> S -> M S) :
  I acc ->
  (forall i acc, In i l -> I acc -> notes None (body i acc) None /\ returns I (body i acc)) ->
  notes None (for_each_acc l acc body) None.
Proof.
  revert acc. induction l as [|i l IH]; intros acc Hacc Hb; cbn [for_each_acc].
  - apply notes_ret.
  - destruct (Hb i acc (or_introl eq_refl) Hacc) as [Hn Hr].
    intros s H. unfold bind. specialize (Hn s H). specialize (Hr s).
    destruct (body i acc s) as [acc' s' | s' | e]; auto.
    apply IH; [exact Hr | | exact Hn].
    intros j a Hj. apply Hb. right. exact Hj.
Qed.

(** A loop over [lo .. hi-1] whose local variable depends on the index. *)
Lemma notes_seq_acc {St} (I : Z -> St -> Prop) lo (body : Z -> St -> M St) n :
  forall a acc,
    I (lo + Z.of_nat a) acc ->
    (forall i acc, lo + Z.of_nat a <= i < lo + Z.of_nat a + Z.of_nat n -> I i acc ->
       notes None (body i acc) None /\ returns (I (i + 1)) (body i acc)) ->
    notes None (for_each_acc (map (fun k => lo + Z.of_nat k) (seq a n)) acc body) None.
Proof.
  induction n as [|n IH]; intros a acc Hacc Hb; cbn [seq map for_each_acc].
  - apply notes_ret.
  - destruct (Hb (lo + Z.of_nat a) acc ltac:(lia) Hacc) as [Hn Hr].
    intros s H. unfold bind. specialize (Hn s H). specialize (Hr s).
    destruct (body (lo + Z.of_nat a) acc s) as [acc' s' | s' | e]; auto.
    apply (IH (S a) acc'); [| |exact Hn].
    + replace (lo + Z.of_nat (S a)) with (lo + Z.of_nat a + 1) by lia. exact Hr.
    + intros i acc0 Hi. apply Hb. lia.
Qed.

Lemma notes_for_acc {St} (I : Z -> St -> Prop) lo hi (acc : St) (body : Z -> St -> M St) :
  I lo acc ->
  (forall i acc, lo <= i < hi -> I i acc ->
     notes None (body i acc) None /\ returns (I (i + 1)) (body i acc)) ->
  notes None (for_each_acc (range lo hi) acc body) None.
Proof.
  intros Hacc Hb. unfold range. apply (notes_seq_acc I).
  - rewrite Z.add_0_r. exact Hacc.
  - intros i acc0 Hi. apply Hb. lia.
Qed.

Lemma notes_while_each (l : list Z) cond (body : Z -> M unit) :
  (forall j, In j l -> cond j = true -> notes None (body j) None) ->
  notes None (while_each l cond body) None.
Proof.
  induction l as [|j l IH]; intros Hb; cbn [while_each].
  - apply notes_ret.
  - destruct (cond j) eqn:E; [|apply notes_ret].
    eapply notes_bind; [apply Hb; [left; reflexivity | exact E] | intros _; apply IH].
    intros j' Hj'. apply Hb. right. exact Hj'.
Qed.

Lemma notes_call (c : M unit) : notes None c None -> notes None (call c) None.
Proof.
  intros Hc s H. unfold call. specialize (Hc s H).
  destruct (c s); exact Hc.
Qed.

Lemma returns_ret {A} (I : A -> Prop) a : I a -> returns I (ret a).
Proof. intros H s. exact H. Qed.

Lemma returns_bind {A B} (I : B -> Prop) (c : M A) (k : A -> M B) :
  (forall a, returns I (k a)) -> returns I (bind c k).
Proof.
  intros Hk s. unfold bind. destruct (c s) as [a s' | s' | e]; auto. apply Hk.
Qed.

Lemma returns_any {A} (c : M A) : returns (fun _ => True) c.
Proof. intros s. destruct (c s); exact I. Qed.

End Notes.

Lemma objtype_set_type g v : objtype (set_type g v) = objtype g.
Proof. reflexivity. Qed.

Lemma objtype_set_dataid g v : objtype (set_dataid g v) = objtype g.
Proof. reflexivity. Qed.

Lemma objtype_set_objid g v : objtype (set_objid g v) = objtype g.
Proof. reflexivity. Qed.

Lemma objtype_set_category g v : objtype (set_category g v) = objtype g.
Proof. reflexivity. Qed.

Lemma objtype_set_texid g v : objtype (set_texid g v) = objtype g.
Proof. reflexivity. Qed.

Lemma objtype_set_texuniform g v : objtype (set_texuniform g v) = objtype g.
Proof. reflexivity. Qed.

Lemma objtype_set_texcoord g v : objtype (set_texcoord g v) = objtype g.
Proof. reflexivity. Qed.

Lemma objtype_set_segid g v : objtype (set_segid g v) = objtype g.
Proof. reflexivity. Qed.

Lemma objtype_set_texrepeat g v : objtype (set_texrepeat g v) = objtype g.
Proof. reflexivity. Qed.

Lemma objtype_set_size g v : objtype (set_size g v) = objtype g.
Proof. reflexivity. Qed.

Lemma objtype_set_pos g v : objtype (set_pos g v) = objtype g.
Proof. reflexivity. Qed.

Lemma objtype_set_mat g v : objtype (set_mat g v) = objtype g.
Proof. reflexivity. Qed.

Lemma objtype_set_rgba g v : objtype (set_rgba g v) = objtype g.
Proof. reflexivity. Qed.

Lemma objtype_set_emission g v : objtype (set_emission g v) = objtype g.
Proof. reflexivity. Qed.

Lemma objtype_set_specular g v : objtype (set_specular g v) = objtype g.
Proof. reflexivity. Qed.

Lemma objtype_set_shininess g v : objtype (set_shininess g v) = objtype g.
Proof. reflexivity. Qed.

Lemma objtype_set_reflectance g v : objtype (set_reflectance g v) = objtype g.
Proof. reflexivity. Qed.

Lemma objtype_set_label g v : objtype (set_label g v) = objtype g.
Proof. reflexivity. Qed.

Lemma objtype_set_modelrbound g v : objtype (set_modelrbound g v) = objtype g.
Proof. reflexivity. Qed.

Lemma objid_set_type g v : objid (set_type g v) = objid g.
Proof. reflexivity. Qed.

Lemma objid_set_dataid g v : objid (set_dataid g v) = objid g.
Proof. reflexivity. Qed.

Lemma objid_set_objtype g v : objid (set_objtype g v) = objid g.
Proof. reflexivity. Qed.

Lemma objid_set_category g v : objid (set_category g v) = objid g.
Proof. reflexivity. Qed.

Lemma objid_set_texid g v : objid (set_texid g v) = objid g.
Proof. reflexivity. Qed.

Lemma objid_set_texuniform g v : objid (set_texuniform g v) = objid g.
Proof. reflexivity. Qed.

Lemma objid_set_texcoord g v : objid (set_texcoord g v) = objid g.
Proof. reflexivity. Qed.

Lemma objid_set_segid g v : objid (set_segid g v) = objid g.
Proof. reflexivity. Qed.

Lemma objid_set_texrepeat g v : objid (set_texrepeat g v) = objid g.
Proof. reflexivity. Qed.

Lemma objid_set_size g v : objid (set_size g v) = objid g.
Proof. reflexivity. Qed.

Lemma objid_set_pos g v : objid (set_pos g v) = objid g.
Proof. reflexivity. Qed.

Lemma objid_set_mat g v : objid (set_mat g v) = objid g.
Proof. reflexivity. Qed.

Lemma objid_set_rgba g v : objid (set_rgba g v) = objid g.
Proof. reflexivity. Qed.

Lemma objid_set_emission g v : objid (set_emission g v) = objid g.
Proof. reflexivity. Qed.

Lemma objid_set_specular g v : objid (set_specular g v) = objid g.
Proof. reflexivity. Qed.

Lemma objid_set_shininess g v : objid (set_shininess g v) = objid g.
Proof. reflexivity. Qed.

Lemma objid_set_reflectance g v : objid (set_reflectance g v) = objid g.
Proof. reflexivity. Qed.

Lemma objid_set_label g v : objid (set_label g v) = objid g.
Proof. reflexivity. Qed.

Lemma objid_set_modelrbound g v : objid (set_modelrbound g v) = objid g.
Proof. reflexivity. Qed.

Create Rewrite HintDb refs.
#[global] Hint Rewrite objtype_set_type objtype_set_dataid objtype_set_objid objtype_set_category objtype_set_texid objtype_set_texuniform objtype_set_texcoord objtype_set_segid objtype_set_texrepeat objtype_set_size objtype_set_pos objtype_set_mat objtype_set_rgba objtype_set_emission objtype_set_specular objtype_set_shininess objtype_set_reflectance objtype_set_label objtype_set_modelrbound : refs.
#[global] Hint Rewrite objid_set_type objid_set_dataid objid_set_objtype objid_set_category objid_set_texid objid_set_texuniform objid_set_texcoord objid_set_segid objid_set_texrepeat objid_set_size objid_set_pos objid_set_mat objid_set_rgba objid_set_emission objid_set_specular objid_set_shininess objid_set_reflectance objid_set_label objid_set_modelrbound : refs.

Lemma initGeom_objtype g ty sz p mt c : objtype (mjv_initGeom g ty sz p mt c) = objtype g.
Proof. unfold mjv_initGeom. cbv zeta. autorewrite with refs. reflexivity. Qed.

Lemma initGeom_objid g ty sz p mt c : objid (mjv_initGeom g ty sz p mt c) = objid g.
Proof. unfold mjv_initGeom. cbv zeta. autorewrite with refs. reflexivity. Qed.

Lemma markselected_objtype m g : objtype (markselected m g) = objtype g.
Proof. unfold markselected. cbv zeta. autorewrite with refs. reflexivity. Qed.

Lemma markselected_objid m g : objid (markselected m g) = objid g.
Proof. unfold markselected. cbv zeta. autorewrite with refs. reflexivity. Qed.

Section Refers.
Local Open Scope Z_scope.

(** The geom under construction stands for the object [i] of type [o]. *)
Definition refers (o : mjtObj) (i : Z) (k : Z) (g : mjvGeom) : Prop :=
  objtype g = o /\ objid g = i.

Lemma refers_kept o i k g g' :
  objtype g' = objtype g /\ objid g' = objid g -> refers o i k g -> refers o i k g'.
Proof. intros [E1 E2] [H1 H2]. unfold refers. rewrite E1, E2. split; assumption. Qed.

Lemma refers_connector o i k g g' ty width a0 a1 a2 b0 b1 b2 :
  refers o i k g -> mjv_makeConnector g ty width a0 a1 a2 b0 b1 b2 = Ok g' -> refers o i k g'.
Proof.
  intros Hg E. apply (refers_kept (g := g)); [|exact Hg].
  unfold mjv_makeConnector in E. rewrite connector_guard in E.
  destruct (negb (connector_type ty)); [discriminate|].
  cbv zeta in E. injection E as <-.
  destruct ((ty =? mjGEOM_CAPSULE) || (ty =? mjGEOM_CYLINDER)); split; reflexivity.
Qed.

(** The object that a geom names exists: [objid] is an index of the model's
    objects of type [objtype].  The world body has no geom of its own; a
    geom of an equality constraint names a constraint of the model or is
    the distance constraint recovered from an excluded contact. *)
Definition ref_ok (m : mjModel) (d : mjData) (o : mjtObj) (i : Z) : Prop :=
  match o with
  | mjOBJ_UNKNOWN => True
  | mjOBJ_BODY => 1 <= i < nbody m
  | mjOBJ_JOINT => 0 <= i < njnt m
  | mjOBJ_GEOM => 0 <= i < ngeom m
  | mjOBJ_SITE => 0 <= i < nsite m
  | mjOBJ_CAMERA => 0 <= i < ncam m
  | mjOBJ_LIGHT => 0 <= i < nlight m
  | mjOBJ_TENDON => 0 <= i < ntendon m
  | mjOBJ_ACTUATOR => 0 <= i < nu m
  | mjOBJ_EQUALITY =>
      0 <= i < neq m
      \/ exists j, 0 <= j < ncon d /\ con_exclude (contact d j) = 3
                   /\ i = - con_efc_address (contact d j) - 2
  | mjOBJ_SKIN => 0 <= i < nskin m
  end.

(** The half-sizes of the box that the inertia block computes for body [i]. *)
Definition inertia_box (m : mjModel) (vopt : mjvOption) (i : Z) : vec3 :=
  let I0 := body_inertia m (3 * i + 0) in
  let I1 := body_inertia m (3 * i + 1) in
  let I2 := body_inertia m (3 * i + 2) in
  let sz0 := (sqrt ((I1 + I2 - I0) * 6 / body_mass m i) / 2)%R in
  let sz1 := (sqrt ((I0 + I2 - I1) * 6 / body_mass m i) / 2)%R in
  let sz2 := (sqrt ((I0 + I1 - I2) * 6 / body_mass m i) / 2)%R in
  if vopt_flags vopt mjVIS_SCLINERTIA then
    let density := (body_mass m i / Rmax mjMINVAL (8 * sz0 * sz1 * sz2))%R in
    let scl := mju_pow (density * (1 / 1000)) (1 / 3) in
    V3 (sz0 * scl) (sz1 * scl) (sz2 * scl)
  else V3 sz0 sz1 sz2.

(** A geom of a body is the box of the inertia block. *)
Definition inertia_geom (m : mjModel) (vopt : mjvOption) (k : Z) (g : mjvGeom) : Prop :=
  (mjMINVAL < body_mass m (objid g))%R
  /\ type g = mjGEOM_BOX
  /\ size g = inertia_box m vopt (objid g).

(** What the walk keeps of every geom emitted: the object named exists; a
    geom of a body is the box of the inertia block; with the frames of the
    cameras (of the lights) drawn, a geom of a camera (of a light) is one of
    the first. *)
Definition provenance (m : mjModel) (d : mjData) (vopt : mjvOption)
    (k : Z) (g : mjvGeom) : Prop :=
  ref_ok m d (objtype g) (objid g)
  /\ (objtype g = mjOBJ_BODY -> inertia_geom m vopt k g)
  /\ (objtype g = mjOBJ_CAMERA -> vopt_frame vopt = mjFRAME_CAMERA -> objid g = 0)
  /\ (objtype g = mjOBJ_LIGHT -> vopt_frame vopt = mjFRAME_LIGHT -> objid g = 0).

Lemma refers_provenance m d vopt o i k g :
  o <> mjOBJ_BODY -> o <> mjOBJ_CAMERA -> o <> mjOBJ_LIGHT ->
  ref_ok m d o i -> refers o i k g -> provenance m d vopt k g.
Proof.
  intros Hb Hc Hl Hok [E1 E2]. unfold provenance. rewrite E1, E2.
  split; [exact Hok|]. split; [intros E; contradiction|].
  split; intros E; contradiction.
Qed.

Lemma frame_is_refl f : frame_is f f = true.
Proof. destruct f; reflexivity. Qed.

(** A geom of camera [i], made where the frames are off or [i] is 0. *)
Lemma camera_provenance m d vopt i k g :
  0 <= i < ncam m ->
  i = 0 \/ frame_is (vopt_frame vopt) mjFRAME_CAMERA = false ->
  refers mjOBJ_CAMERA i k g -> provenance m d vopt k g.
Proof.
  intros Hi Hf [E1 E2]. unfold provenance. rewrite E1, E2.
  split; [exact Hi|]. split; [intros E; discriminate|]. split; [|intros E; discriminate].
  intros _ Hfr. destruct Hf as [-> | Hf]; [reflexivity|].
  rewrite Hfr, frame_is_refl in Hf. discriminate.
Qed.

Lemma light_provenance m d vopt i k g :
  0 <= i < nlight m ->
  i = 0 \/ frame_is (vopt_frame vopt) mjFRAME_LIGHT = false ->
  refers mjOBJ_LIGHT i k g -> provenance m d vopt k g.
Proof.
  intros Hi Hf [E1 E2]. unfold provenance. rewrite E1, E2.
  split; [exact Hi|]. split; [intros E; discriminate|]. split; [intros E; discriminate|].
  intros _ Hfr. destruct Hf as [-> | Hf]; [reflexivity|].
  rewrite Hfr, frame_is_refl in Hf. discriminate.
Qed.

End Refers.

Lemma initGeom_box g sz p mt c :
  type (mjv_initGeom g mjGEOM_BOX (Some sz) p mt c) = mjGEOM_BOX
  /\ size (mjv_initGeom g mjGEOM_BOX (Some sz) p mt c) = sz.
Proof. unfold mjv_initGeom. cbv zeta. split; reflexivity. Qed.

Lemma markselected_box m g : type (markselected m g) = type g /\ size (markselected m g) = size g.
Proof. unfold markselected. cbv zeta. split; reflexivity. Qed.

(** The side conditions of the walk: an assignment keeps the object. *)
Ltac refs_same :=
  repeat first
    [ rewrite setMaterial_objtype
    | rewrite setMaterial_objid
    | rewrite initGeom_objtype
    | rewrite initGeom_objid
    | rewrite markselected_objtype
    | rewrite markselected_objid
    | progress autorewrite with refs
    | progress cbv beta zeta
    | match goal with
      | |- context [objtype (if ?b then _ else _)] => destruct b
      | |- context [objid (if ?b then _ else _)] => destruct b
      end ];
  split; reflexivity.

(** At FINISH: the object named is one of the model. *)
Ltac refs_done :=
  intros ? ?;
  first
    [ eapply camera_provenance; eassumption
    | eapply light_provenance; eassumption
    | apply refers_provenance;
      repeat match goal with H : In _ (range _ _) |- _ => apply in_range in H end;
      [ discriminate | discriminate | discriminate
      | cbn [ref_ok]; cbv beta in *;
        first [ exact I | assumption | lia | left; lia
              | right;
                match goal with
                | H : In ?j (range_down _ _), E : (_ =? 3) = true |- _ =>
                    exists j; split;
                    [ unfold range_down in H; apply in_rev, in_range in H; lia
                    | split; [apply Z.eqb_eq, E | reflexivity] ]
                end ] ] ].

Ltac refs_step :=
  cbv beta zeta;
  lazymatch goal with
  | |- context [skin_body] => unfold skin_body
  | |- context [contact_point] => unfold contact_point
  | |- context [contact_arrow] => unfold contact_arrow
  | |- context [geom_body] => unfold geom_body
  | |- context [site_body] => unfold site_body
  | |- notes _ _ _ (ret _) _ => first [apply notes_ret | apply notes_ret_weak]
  | |- notes _ _ _ return_ _ => apply notes_return
  | |- notes _ _ _ (mju_error _) _ => apply notes_error
  | |- notes _ _ _ thisgeom _ => apply notes_thisgeom
  | |- notes _ _ _ get_scn _ => apply notes_get_scn
  | |- notes _ _ _ (assign _) _ =>
      apply notes_assign; intros ? ?; apply refers_kept; refs_same
  | |- notes _ _ _ (assign_result _) _ =>
      apply notes_assign_result; intros ? ? ? ? ?; eapply refers_connector; eassumption
  | |- notes _ _ _ (START ?o ?i _) _ =>
      apply (@notes_START _ _ (refers o i)); intros ? ?; split; reflexivity
  | |- notes _ _ _ FINISH _ => apply notes_FINISH; refs_done
  | |- notes _ _ _ (call _) _ => apply notes_call
  | |- notes _ _ _ (for_ _ _ _) _ => apply notes_for; intros ? ?
  | |- notes _ _ _ (for_each _ _) _ => apply notes_for_each; intros ? ?
  | |- notes _ _ _ (for_each_acc _ _ _) _ =>
      apply (@notes_for_each_acc _ _ _ _ (fun _ => True)); [exact I|];
      intros ? ? ? _; split; [|apply returns_any]
  | |- notes _ _ _ (while_each _ _ _) _ => apply notes_while_each; intros ? ? ?
  | |- notes _ _ _ (frame_axes _ _ _ _ _ _ _) _ => unfold frame_axes
  | |- notes _ _ _ (addContactGeom _ _ _ _) _ => unfold addContactGeom
  | |- notes _ _ _ (if ?b then _ else _) _ => destruct b eqn:?
  | |- notes _ _ ?ph1 (bind ?c _) _ =>
      first [ apply (@notes_bind _ _ _ _ None);
              [solve [refs_walk] | intros ?; solve [refs_walk]]
            | lazymatch ph1 with
              | Some ?Q =>
                  apply (@notes_bind _ _ _ _ (Some Q));
                  [solve [refs_walk] | intros ?; solve [refs_walk]]
              | None =>
                  lazymatch c with
                  | START ?o ?i _ =>
                      apply (@notes_bind _ _ _ _ (Some (refers o i)));
                      [solve [refs_walk] | intros ?; solve [refs_walk]]
                  end
              end ]
  end
with refs_walk := repeat refs_step.

Section RefBlocks.
Variables (s0 : vstate) (m : mjModel) (d : mjData) (vopt : mjvOption) (pert : mjvPerturb)
          (catmask : Z).
Let P := provenance m d vopt.

Lemma refs_skin : notes P s0 None (addGeoms_skin m d vopt pert catmask) None.
Proof. unfold P, addGeoms_skin. refs_walk. Qed.

Lemma refs_pertobj : notes P s0 None (addGeoms_pertobj m d vopt pert catmask) None.
Proof. unfold P, addGeoms_pertobj. refs_walk. Qed.

Lemma refs_bodyframe : notes P s0 None (addGeoms_bodyframe m d vopt catmask) None.
Proof. unfold P, addGeoms_bodyframe. refs_walk. Qed.

Lemma refs_selectpoint : notes P s0 None (addGeoms_selectpoint m d vopt pert catmask) None.
Proof. unfold P, addGeoms_selectpoint. refs_walk. Qed.

Lemma refs_bodylabel : notes P s0 None (addGeoms_bodylabel m d vopt pert catmask) None.
Proof. unfold P, addGeoms_bodylabel. refs_walk. Qed.

Lemma refs_joint : notes P s0 None (addGeoms_joint m d vopt catmask) None.
Proof. unfold P, addGeoms_joint. refs_walk. Qed.

Lemma refs_actuator : notes P s0 None (addGeoms_actuator m d vopt catmask) None.
Proof. unfold P, addGeoms_actuator. refs_walk. Qed.

Lemma refs_geom : notes P s0 None (addGeoms_geom m d vopt pert catmask) None.
Proof. unfold P, addGeoms_geom. refs_walk. Qed.

Lemma refs_site : notes P s0 None (addGeoms_site m d vopt pert catmask) None.
Proof. unfold P, addGeoms_site. refs_walk. Qed.

Lemma refs_tendon : notes P s0 None (addGeoms_tendon m d vopt catmask) None.
Proof. unfold P, addGeoms_tendon. refs_walk. Qed.

Lemma refs_slidercrank : notes P s0 None (addGeoms_slidercrank m d vopt catmask) None.
Proof. unfold P, addGeoms_slidercrank. refs_walk. Qed.

Lemma refs_com : notes P s0 None (addGeoms_com m d vopt catmask) None.
Proof. unfold P, addGeoms_com. refs_walk. Qed.

Lemma refs_autoconnect : notes P s0 None (addGeoms_autoconnect m d vopt catmask) None.
Proof. unfold P, addGeoms_autoconnect. refs_walk. Qed.

Lemma refs_rangefinder : notes P s0 None (addGeoms_rangefinder m d vopt catmask) None.
Proof. unfold P, addGeoms_rangefinder. refs_walk. Qed.

Lemma refs_pertforce : notes P s0 None (addGeoms_pertforce m d vopt catmask) None.
Proof. unfold P, addGeoms_pertforce. refs_walk. Qed.

Lemma refs_contact : notes P s0 None (addGeoms_contact m d vopt catmask) None.
Proof. unfold P, addGeoms_contact. refs_walk. Qed.

Lemma refs_constraint : notes P s0 None (addGeoms_constraint m d vopt catmask) None.
Proof. unfold P, addGeoms_constraint. refs_walk. Qed.

(** The cameras and the lights carry [objtype] from one iteration to the
    next: it is the type of the block until a frame has been drawn, and
    mjOBJ_UNKNOWN from then on. *)
Lemma refs_camera : notes P s0 None (addGeoms_camera m d vopt catmask) None.
Proof.
  unfold P, addGeoms_camera. cbv zeta.
  destruct (vopt_flags vopt mjVIS_CAMERA && band mjCAT_DECOR catmask) eqn:G;
    [|apply notes_ret].
  apply andb_prop in G. destruct G as [_ G].
  eapply notes_bind; [|intros ?; apply notes_ret].
  apply (@notes_for_acc _ _ _
           (fun i o => o = mjOBJ_UNKNOWN
                       \/ (o = mjOBJ_CAMERA
                           /\ (i = 0 \/ frame_is (vopt_frame vopt) mjFRAME_CAMERA = false))));
    [right; split; [reflexivity | left; reflexivity]|].
  intros i o Hi Ho. split.
  - destruct Ho as [-> | [-> Hf]]; refs_walk.
  - repeat (apply returns_bind; intros ?).
    rewrite G. cbn [negb orb].
    destruct (frame_is (vopt_frame vopt) mjFRAME_CAMERA) eqn:F; cbn [negb].
    + apply returns_bind; intros ?. apply returns_ret. left. reflexivity.
    + apply returns_ret. destruct Ho as [-> | [-> _]]; [left; reflexivity|].
      right. split; [reflexivity | right; reflexivity].
Qed.

Lemma refs_light : notes P s0 None (addGeoms_light m d vopt catmask) None.
Proof.
  unfold P, addGeoms_light. cbv zeta.
  destruct (vopt_flags vopt mjVIS_LIGHT && band mjCAT_DECOR catmask) eqn:G;
    [|apply notes_ret].
  apply andb_prop in G. destruct G as [_ G].
  eapply notes_bind; [|intros ?; apply notes_ret].
  apply (@notes_for_acc _ _ _
           (fun i o => o = mjOBJ_UNKNOWN
                       \/ (o = mjOBJ_LIGHT
                           /\ (i = 0 \/ frame_is (vopt_frame vopt) mjFRAME_LIGHT = false))));
    [right; split; [reflexivity | left; reflexivity]|].
  intros i o Hi Ho. split.
  - destruct Ho as [-> | [-> Hf]]; refs_walk.
  - repeat (apply returns_bind; intros ?).
    rewrite G. cbn [negb orb].
    destruct (frame_is (vopt_frame vopt) mjFRAME_LIGHT) eqn:F; cbn [negb].
    + apply returns_bind; intros ?. apply returns_ret. left. reflexivity.
    + apply returns_ret. destruct Ho as [-> | [-> _]]; [left; reflexivity|].
      right. split; [reflexivity | right; reflexivity].
Qed.

(** The inertia block is the one place where a geom of a body is made. *)
Lemma refs_inertia : notes P s0 None (addGeoms_inertia m d vopt pert catmask) None.
Proof.
  unfold P, addGeoms_inertia. cbv zeta.
  destruct (vopt_flags vopt mjVIS_INERTIA); [|apply notes_ret].
  apply notes_for. intros i Hi.
  destruct (Rltb mjMINVAL (body_mass m i) && band (bodycategory m i) catmask) eqn:E;
    [|apply notes_ret].
  apply andb_prop in E. destruct E as [Hm _]. apply Rltb_true in Hm.
  apply (@notes_bind _ _ _ _ (Some (refers mjOBJ_BODY i))); [refs_step|].
  intros _.
  pose (Q := fun (k : Z) (g : mjvGeom) =>
               refers mjOBJ_BODY i k g
               /\ type g = mjGEOM_BOX /\ size g = inertia_box m vopt i).
  apply (@notes_bind _ _ _ _ (Some Q)).
  { apply notes_assign. intros k g [Ho Hid]. split; [split|].
    - rewrite initGeom_objtype. exact Ho.
    - rewrite initGeom_objid. exact Hid.
    - unfold inertia_box. cbv zeta.
      destruct (vopt_flags vopt mjVIS_SCLINERTIA); apply initGeom_box. }
  intros _.
  apply (@notes_bind _ _ _ _ (Some Q)).
  { destruct (select pert =? i); [|apply notes_ret].
    apply notes_assign. intros k g [[Ho Hid] [Ht Hs]].
    destruct (markselected_box m g) as [Et Es].
    split; [split|split].
    - rewrite markselected_objtype. exact Ho.
    - rewrite markselected_objid. exact Hid.
    - rewrite Et. exact Ht.
    - rewrite Es. exact Hs. }
  intros _.
  apply (@notes_bind _ _ _ _ (Some Q)).
  { destruct (_ || _); [|apply notes_ret].
    apply notes_assign. intros k g H. exact H. }
  intros _. apply notes_FINISH.
  intros k g [[Ho Hid] [Ht Hs]]. unfold provenance, inertia_geom.
  rewrite Ho, Hid. split; [exact Hi|].
  split; [|split; intros E; discriminate].
  intros _. split; [exact Hm|]. split; [exact Ht | exact Hs].
Qed.

End RefBlocks.

Lemma refs_addGeoms s0 m d vopt pert catmask :
  notes (provenance m d vopt) s0 None (mjv_addGeoms m d vopt pert catmask) None.
Proof.
  unfold mjv_addGeoms. cbv zeta.
  repeat (eapply notes_bind;
          [ first [ apply refs_skin | apply refs_inertia | apply refs_pertobj
                  | apply refs_bodyframe | apply refs_selectpoint
                  | apply refs_bodylabel | apply refs_joint | apply refs_actuator
                  | apply refs_geom | apply refs_site | apply refs_camera
                  | apply refs_light | apply refs_tendon | apply refs_slidercrank
                  | apply refs_com | apply refs_autoconnect | apply refs_rangefinder
                  | apply refs_pertforce | apply refs_constraint ]
          | intros _ ]).
  apply refs_contact.
Qed.

Section InertiaBox.
Local Open Scope R_scope.

Lemma half_sqrt_sqr x : 0 <= x -> (sqrt x / 2) * (sqrt x / 2) = x / 4.
Proof.
  intros Hx. replace (sqrt x / 2 * (sqrt x / 2)) with (sqrt x * sqrt x / 4) by field.
  rewrite sqrt_sqrt by exact Hx. reflexivity.
Qed.

Lemma side_nonneg x M : 0 < M -> 0 <= x -> 0 <= x * 6 / M.
Proof.
  intros HM Hx. apply Rmult_le_pos; [lra|].
  apply Rlt_le, Rinv_0_lt_compat, HM.
Qed.

(** A solid box of mass [M] with half-sizes [sqrt (x * 6 / M) / 2] and
    [sqrt (y * 6 / M) / 2] across an axis has the moment [(x + y) / 2] about
    that axis. *)
Lemma box_moment x y M :
  0 < M -> 0 <= x -> 0 <= y ->
  M / 3 * (sqrt (x * 6 / M) / 2 * (sqrt (x * 6 / M) / 2)
           + sqrt (y * 6 / M) / 2 * (sqrt (y * 6 / M) / 2))
  = (x + y) / 2.
Proof.
  intros HM Hx Hy.
  rewrite !half_sqrt_sqr by (apply side_nonneg; assumption).
  field. lra.
Qed.

Lemma cube_root_cubed x :
  0 < x -> mju_pow x (1 / 3) * mju_pow x (1 / 3) * mju_pow x (1 / 3) = x.
Proof.
  intros Hx. unfold mju_pow.
  destruct (Reqb x 0) eqn:E; [apply Reqb_true in E; lra|].
  rewrite <- !Rpower_plus.
  replace (1 / 3 + 1 / 3 + 1 / 3) with 1 by field.
  apply Rpower_1, Hx.
Qed.

End InertiaBox.

(** After [mjv_addGeoms] every geom emitted names an object that exists:
    its [objid] is an index of the model's objects of its [objtype] (a body
    other than the world, a joint, an actuator, a geom, a site, a camera, a
    light, a tendon, a skin), it names an equality constraint of the model
    or the distance constraint recovered from an excluded contact, or its
    type is mjOBJ_UNKNOWN. *)
Theorem emitted_objects_exist :
  forall (m : mjModel) (d : mjData) (vopt : mjvOption) (pert : option mjvPerturb)
         (catmask : Z) (s : vstate),
    match mjv_addGeoms m d vopt pert catmask s with
    | Next _ s' | Return s' =>
        forall k, (scn_ngeom (scn s) <= k < scn_ngeom (scn s'))%Z ->
          ref_ok m d (objtype (geoms (scn s') k)) (objid (geoms (scn s') k))
    | Fatal _ => True
    end.
Proof.
  intros m d vopt pert catmask s.
  pose proof (@refs_addGeoms s m d vopt pert catmask s) as H.
  assert (H0 : noted (provenance m d vopt) s None s).
  { split; [lia|]. split; [intros k Hk; lia | exact I]. }
  specialize (H H0).
  destruct (mjv_addGeoms m d vopt pert catmask s) as [[] s' | s' | e]; [| |exact I];
    destruct H as (_ & H & _); intros k Hk; apply (H k Hk).
Qed.



(** The frame block renames the loop variable.  In the loops of the cameras
    and of the lights the frame of an element is drawn with the object type
    mjOBJ_UNKNOWN, and the type is not set back for the next element: with
    the frames of the cameras drawn (mjFRAME_CAMERA), every geom that
    [mjv_addGeoms] emits with the type mjOBJ_CAMERA belongs to camera 0, and
    with the frames of the lights drawn (mjFRAME_LIGHT), every geom of type
    mjOBJ_LIGHT belongs to light 0; no later camera or light is named by a
    geom. *)
Theorem framed_cameras_and_lights_unnamed :
  forall (m : mjModel) (d : mjData) (vopt : mjvOption) (pert : option mjvPerturb)
         (catmask : Z) (s : vstate),
    match mjv_addGeoms m d vopt pert catmask s with
    | Next _ s' | Return s' =>
        forall k, (scn_ngeom (scn s) <= k < scn_ngeom (scn s'))%Z ->
          let g := geoms (scn s') k in
          (vopt_frame vopt = mjFRAME_CAMERA -> objtype g = mjOBJ_CAMERA -> objid g = 0%Z)
          /\ (vopt_frame vopt = mjFRAME_LIGHT -> objtype g = mjOBJ_LIGHT -> objid g = 0%Z)
    | Fatal _ => True
    end.
Proof.
  intros m d vopt pert catmask s.
  pose proof (@refs_addGeoms s m d vopt pert catmask s) as H.
  assert (H0 : noted (provenance m d vopt) s None s).
  { split; [lia|]. split; [intros k Hk; lia | exact I]. }
  specialize (H H0).
  destruct (mjv_addGeoms m d vopt pert catmask s) as [[] s' | s' | e]; [| |exact I];
    destruct H as (_ & H & _); intros k Hk; cbv zeta;
    destruct (H k Hk) as (_ & _ & Hc & Hl); (split; [intros F E; exact (Hc E F)|]);
    intros F E; exact (Hl E F).
Qed.

(** Options that show the inertia boxes, unscaled and scaled. *)
Definition inertia_options : mjvOption :=
  set_vopt_flags zero_mjvOption
    (fun f => match f with mjVIS_INERTIA => true | _ => false end).

Definition scaled_inertia_options : mjvOption :=
  set_vopt_flags zero_mjvOption
    (fun f => match f with mjVIS_INERTIA | mjVIS_SCLINERTIA => true | _ => false end).


(** ** The geoms of the cameras, one by one *)

Section Runs.
Local Open Scope Z_scope.

(** [s'] is [s] with geoms appended. *)
Definition grown (s s' : vstate) : Prop :=
  maxgeom (scn s') = maxgeom (scn s)
  /\ scn_ngeom (scn s) <= scn_ngeom (scn s')
  /\ forall k, k < scn_ngeom (scn s) -> geoms (scn s') k = geoms (scn s) k.

Lemma grown_refl s : grown s s.
Proof. split; [reflexivity|]. split; [lia | reflexivity]. Qed.

Lemma grown_trans s1 s2 s3 : grown s1 s2 -> grown s2 s3 -> grown s1 s3.
Proof.
  intros (A1 & A2 & A3) (B1 & B2 & B3). split; [congruence|]. split; [lia|].
  intros k Hk. rewrite B3 by lia. apply A3, Hk.
Qed.

Lemma emitted_grown s g s' : emitted s g s' -> grown s s'.
Proof. intros (H1 & H2 & _ & H4). split; [exact H2|]. split; [lia | exact H4]. Qed.

(** START, one assignment, FINISH, and the rest of the block. *)
Lemma plain_emitted_then otype i cat (f : mjvGeom -> mjvGeom) {A} (k : unit -> M A) s :
  scn_ngeom (scn s) < maxgeom (scn s) ->
  exists s',
    bind (START otype i cat) (fun _ => bind (assign f) (fun _ => bind FINISH k)) s = k tt s'
    /\ emitted s (f (started otype i cat s)) s'.
Proof.
  intros Hs.
  exists (advanced (with_slot (with_slot s (started otype i cat s))
                      (f (started otype i cat s)))).
  split.
  - rewrite bind_START_space by exact Hs.
    rewrite bind_assign, bind_FINISH, slot_with_slot. reflexivity.
  - apply emitted_advanced; [|apply slot_with_slot].
    repeat apply slot_only_with_slot. apply slot_only_refl.
Qed.

(** The three axes of a frame, with room for them. *)
Lemma frame_axes_then otype i cat p mat length width s :
  scn_ngeom (scn s) + 3 <= maxgeom (scn s) ->
  exists s',
    (forall A (k : unit -> M A),
        bind (frame_axes otype i cat p mat length width) k s = k tt s')
    /\ scn_ngeom (scn s') = scn_ngeom (scn s) + 3
    /\ grown s s'.
Proof.
  intros Hs.
  assert (H0 : scn_ngeom (scn s) < maxgeom (scn s)) by lia.
  destruct (@frame_axis_emitted otype i cat p mat length width 0 s ltac:(lia) H0)
    as (s1 & g0 & Hk0 & Hem0 & _).
  assert (H1 : scn_ngeom (scn s1) < maxgeom (scn s1)).
  { destruct Hem0 as (A1 & A2 & _). lia. }
  destruct (@frame_axis_emitted otype i cat p mat length width 1 s1 ltac:(lia) H1)
    as (s2 & g1 & Hk1 & Hem1 & _).
  assert (H2 : scn_ngeom (scn s2) < maxgeom (scn s2)).
  { destruct Hem0 as (A1 & A2 & _). destruct Hem1 as (B1 & B2 & _). lia. }
  destruct (@frame_axis_emitted otype i cat p mat length width 2 s2 ltac:(lia) H2)
    as (s3 & g2 & Hk2 & Hem2 & _).
  exists s3. split; [|split].
  - intros A k. rewrite frame_axes_loop.
    rewrite bind_assoc, Hk0, bind_assoc, Hk1, bind_assoc, Hk2. reflexivity.
  - destruct Hem0 as (A1 & _). destruct Hem1 as (B1 & _). destruct Hem2 as (C1 & _). lia.
  - apply (grown_trans (emitted_grown Hem0)).
    apply (grown_trans (emitted_grown Hem1)). apply (emitted_grown Hem2).
Qed.

(** A loop over [lo + a .. lo + a + n - 1] that keeps an invariant of the
    index, the local variable and the state. *)
Lemma for_acc_run {St} (Inv : Z -> St -> vstate -> Prop) lo (body : Z -> St -> M St) n :
  forall a acc s,
    Inv (lo + Z.of_nat a) acc s ->
    (forall i acc s, lo + Z.of_nat a <= i < lo + Z.of_nat a + Z.of_nat n -> Inv i acc s ->
       exists acc' s', body i acc s = Next acc' s' /\ Inv (i + 1) acc' s') ->
    exists acc' s',
      for_each_acc (map (fun k => lo + Z.of_nat k) (seq a n)) acc body s = Next acc' s'
      /\ Inv (lo + Z.of_nat a + Z.of_nat n) acc' s'.
Proof.
  induction n as [|n IH]; intros a acc s Hacc Hb; cbn [seq map for_each_acc].
  - exists acc, s. split; [reflexivity|]. rewrite Z.add_0_r. exact Hacc.
  - destruct (Hb (lo + Z.of_nat a) acc s ltac:(lia) Hacc) as (acc1 & s1 & E1 & H1).
    destruct (IH (S a) acc1 s1) as (acc2 & s2 & E2 & H2).
    + replace (lo + Z.of_nat (S a)) with (lo + Z.of_nat a + 1) by lia. exact H1.
    + intros i acc0 s0 Hi. apply Hb. lia.
    + exists acc2, s2. split.
      * unfold bind. rewrite E1. exact E2.
      * replace (lo + Z.of_nat a + Z.of_nat (S n))
          with (lo + Z.of_nat (S a) + Z.of_nat n) by lia.
        exact H2.
Qed.

End Runs.

Section CameraGeoms.
Local Open Scope Z_scope.
Variables (m : mjModel) (d : mjData) (vopt : mjvOption) (catmask : Z).

(** The object type that the geoms of camera [i] get. *)
Definition camera_objtype (i : Z) : mjtObj :=
  if frame_is (vopt_frame vopt) mjFRAME_CAMERA && (0 <? i)
  then mjOBJ_UNKNOWN else mjOBJ_CAMERA.

(** The number of geoms per camera: body and lens, and the three axes. *)
Definition camera_geoms : Z :=
  if frame_is (vopt_frame vopt) mjFRAME_CAMERA then 5 else 2.

(** The body and the lens of camera [j], at their places after the geoms
    that were there at index [n0]. *)
Definition camera_pair (n0 : Z) (s : vstate) (j : Z) : Prop :=
  let body := geoms (scn s) (n0 + camera_geoms * j) in
  let lens := geoms (scn s) (n0 + camera_geoms * j + 1) in
  type body = mjGEOM_BOX /\ type lens = mjGEOM_CYLINDER
  /\ objid body = j /\ objid lens = j
  /\ objtype body = camera_objtype j /\ objtype lens = camera_objtype j.

Lemma camera_geoms_cases : camera_geoms = 5 \/ camera_geoms = 2.
Proof. unfold camera_geoms. destruct (frame_is _ _); auto. Qed.

Lemma camera_pair_grown n0 s s' j :
  grown s s' -> n0 + camera_geoms * j + 1 < scn_ngeom (scn s) ->
  camera_pair n0 s j -> camera_pair n0 s' j.
Proof.
  intros (_ & _ & Hg) Hj. unfold camera_pair. cbv zeta.
  rewrite !Hg by lia. exact (fun H => H).
Qed.

End CameraGeoms.

(** The geoms of the cameras, one by one.  With the cameras shown and room
    for all their geoms, the block of the cameras emits for camera [i] a box
    (the body) and a cylinder (the lens) and, with the frames of the cameras
    drawn, the three axes of its frame.  Body and lens carry the id [i];
    their object type is mjOBJ_CAMERA for every camera when no frame is
    drawn, and with the frames drawn it is mjOBJ_CAMERA for camera 0 only
    and mjOBJ_UNKNOWN for every later camera. *)
Theorem camera_names_lost_after_frame :
  forall (m : mjModel) (d : mjData) (vopt : mjvOption) (catmask : Z) (s : vstate),
    vopt_flags vopt mjVIS_CAMERA = true ->
    band mjCAT_DECOR catmask = true ->
    (0 <= ncam m)%Z ->
    (scn_ngeom (scn s) + camera_geoms vopt * ncam m <= maxgeom (scn s))%Z ->
    exists s',
      addGeoms_camera m d vopt catmask s = Next tt s'
      /\ scn_ngeom (scn s') = (scn_ngeom (scn s) + camera_geoms vopt * ncam m)%Z
      /\ (forall k, (k < scn_ngeom (scn s))%Z -> geoms (scn s') k = geoms (scn s) k)
      /\ forall i, (0 <= i < ncam m)%Z ->
           let body := geoms (scn s') (scn_ngeom (scn s) + camera_geoms vopt * i) in
           let lens := geoms (scn s') (scn_ngeom (scn s) + camera_geoms vopt * i + 1) in
           type body = mjGEOM_BOX /\ type lens = mjGEOM_CYLINDER
           /\ objid body = i /\ objid lens = i
           /\ objtype body
              = (if frame_is (vopt_frame vopt) mjFRAME_CAMERA && (0 <? i)%Z
                 then mjOBJ_UNKNOWN else mjOBJ_CAMERA)
           /\ objtype lens
              = (if frame_is (vopt_frame vopt) mjFRAME_CAMERA && (0 <? i)%Z
                 then mjOBJ_UNKNOWN else mjOBJ_CAMERA).
Proof.
  intros m d vopt catmask s Hflag Hband Hn Hroom.
  unfold addGeoms_camera. cbv zeta. rewrite Hflag, Hband. cbn [andb negb orb].
  set (n0 := scn_ngeom (scn s)) in *.
  pose (Inv := fun (i : Z) (o : mjtObj) (s' : vstate) =>
                 scn_ngeom (scn s') = (n0 + camera_geoms vopt * i)%Z
                 /\ grown s s'
                 /\ o = camera_objtype vopt i
                 /\ forall j, (0 <= j < i)%Z -> camera_pair vopt n0 s' j).
  match goal with |- context [for_each_acc _ _ ?b] => set (body := b) end.
  destruct (@for_acc_run _ Inv 0%Z body (Z.to_nat (ncam m)) 0%nat mjOBJ_CAMERA s)
    as (o' & s' & Hrun & Hinv).
  - unfold Inv. cbn [Z.of_nat Z.add]. split; [lia|]. split; [apply grown_refl|].
    split; [unfold camera_objtype; rewrite andb_false_r; reflexivity|].
    intros j Hj. lia.
  - cbn [Z.of_nat]. intros i o si Hi (Hsi & Hg & Ho & Hp).
    assert (Hw := camera_geoms_cases vopt).
    assert (Hmax : maxgeom (scn si) = maxgeom (scn s)) by apply Hg.
    assert (Hroom' : (scn_ngeom (scn si) + camera_geoms vopt <= maxgeom (scn si))%Z).
    { rewrite Hsi, Hmax. destruct Hw as [E | E]; rewrite E in *; lia. }
    unfold body, Inv. clear body Inv. cbv beta.
    match goal with
    | |- context [bind (START ?o ?i ?c)
                    (fun _ => bind (assign ?f) (fun _ => bind FINISH ?k)) ?st] =>
        destruct (@plain_emitted_then o i c f _ k st ltac:(lia)) as (s1 & E1 & Em1)
    end.
    rewrite E1. clear E1. cbv beta.
    assert (F1 : type (geoms (scn s1) (scn_ngeom (scn si))) = mjGEOM_BOX
                 /\ objid (geoms (scn s1) (scn_ngeom (scn si))) = i
                 /\ objtype (geoms (scn s1) (scn_ngeom (scn si))) = o).
    { destruct Em1 as (_ & _ & G1 & _). rewrite G1. cbv beta.
      destruct (label_is _ _); repeat split; reflexivity. }
    apply emitted_grown in Em1 as G1'.
    destruct Em1 as (N1 & M1 & _).
    match goal with
    | |- context [bind (START ?o ?i ?c)
                    (fun _ => bind (assign ?f) (fun _ => bind FINISH ?k)) ?st] =>
        destruct (@plain_emitted_then o i c f _ k st ltac:(lia)) as (s2 & E2 & Em2)
    end.
    rewrite E2. clear E2. cbv beta.
    assert (F2 : type (geoms (scn s2) (scn_ngeom (scn s1))) = mjGEOM_CYLINDER
                 /\ objid (geoms (scn s2) (scn_ngeom (scn s1))) = i
                 /\ objtype (geoms (scn s2) (scn_ngeom (scn s1))) = o).
    { destruct Em2 as (_ & _ & G2 & _). rewrite G2. cbv beta.
      repeat split; reflexivity. }
    apply emitted_grown in Em2 as G2'.
    destruct Em2 as (N2 & M2 & _).
    assert (Hpair : forall sf, grown s2 sf -> camera_pair vopt n0 sf i).
    { intros sf (_ & _ & Hk). unfold camera_pair. cbv zeta.
      rewrite <- Hsi. rewrite !Hk by lia.
      replace (scn_ngeom (scn si) + 1)%Z with (scn_ngeom (scn s1)) by lia.
      destruct G2' as (_ & _ & Hk2). rewrite (Hk2 (scn_ngeom (scn si))) by lia.
      destruct F1 as (T1 & I1 & O1). destruct F2 as (T2 & I2 & O2).
      rewrite T1, T2, I1, I2, O1, O2, Ho. repeat split; reflexivity. }
    assert (Hold : forall sf, grown s2 sf ->
                   forall j, (0 <= j < i)%Z -> camera_pair vopt n0 sf j).
    { intros sf Hsf j Hj. apply (@camera_pair_grown vopt n0 si sf j).
      - apply (grown_trans G1'). apply (grown_trans G2'). exact Hsf.
      - rewrite Hsi. destruct Hw as [E | E]; rewrite E; lia.
      - apply Hp, Hj. }
    assert (Hall : forall sf, grown s2 sf ->
                   forall j, (0 <= j < i + 1)%Z -> camera_pair vopt n0 sf j).
    { intros sf Hsf j Hj. destruct (Z.eq_dec j i) as [-> | Hne].
      - apply Hpair, Hsf.
      - apply (Hold sf Hsf). lia. }
    unfold camera_geoms, camera_objtype in *.
    destruct (frame_is (vopt_frame vopt) mjFRAME_CAMERA) eqn:F; cbn [negb andb] in *.
    + destruct (@frame_axes_then mjOBJ_UNKNOWN i mjCAT_DECOR
                  (vec3_at (offset (cam_xpos d) (3 * i)))
                  (mat9_at (offset (cam_xmat d) (9 * i)))
                  (vis_scale_framelength m * stat_meansize m)%R
                  (vis_scale_framewidth m * stat_meansize m)%R s2 ltac:(lia))
        as (s3 & E3 & N3 & G3).
      exists mjOBJ_UNKNOWN, s3. rewrite E3. split; [reflexivity|].
      split; [lia|]. split.
      { apply (grown_trans Hg). apply (grown_trans G1'). apply (grown_trans G2'). exact G3. }
      split.
      { destruct (0 <? i + 1)%Z eqn:E0; [reflexivity|]. apply Z.ltb_ge in E0. lia. }
      apply Hall, G3.
    + exists o, s2. split; [reflexivity|].
      split; [lia|]. split.
      { apply (grown_trans Hg). apply (grown_trans G1'). exact G2'. }
      split; [exact Ho|].
      apply Hall, grown_refl.
  - exists s'. destruct Hinv as (Hs' & Hg' & _ & Hp').
    replace (0 + Z.of_nat 0 + Z.of_nat (Z.to_nat (ncam m)))%Z with (ncam m) in * by lia.
    split.
    { unfold bind, range. rewrite Z.sub_0_r, Hrun. reflexivity. }
    split; [exact Hs'|]. split; [apply Hg'|].
    intros i Hi. exact (Hp' i Hi).
Qed.

(** Two cameras with their frames drawn, in a scene with room for ten geoms. *)
Definition two_camera_model : mjModel := set_ncam zero_mjModel 2.

Definition camera_frame_options : mjvOption :=
  set_vopt_flags (set_vopt_frame zero_mjvOption mjFRAME_CAMERA)
    (fun f => match f with mjVIS_CAMERA => true | _ => false end).

Lemma camera_names_lost_after_frame_witness :
  exists s',
    addGeoms_camera two_camera_model zero_mjData camera_frame_options 7 (empty_scene 10)
    = Next tt s'
    /\ scn_ngeom (scn s')
       = (scn_ngeom (scn (empty_scene 10))
          + camera_geoms camera_frame_options * ncam two_camera_model)%Z
    /\ (forall k, (k < scn_ngeom (scn (empty_scene 10)))%Z ->
          geoms (scn s') k = geoms (scn (empty_scene 10)) k)
    /\ forall i, (0 <= i < ncam two_camera_model)%Z ->
         let body :=
           geoms (scn s')
             (scn_ngeom (scn (empty_scene 10)) + camera_geoms camera_frame_options * i) in
         let lens :=
           geoms (scn s')
             (scn_ngeom (scn (empty_scene 10)) + camera_geoms camera_frame_options * i + 1) in
         type body = mjGEOM_BOX /\ type lens = mjGEOM_CYLINDER
         /\ objid body = i /\ objid lens = i
         /\ objtype body
            = (if frame_is (vopt_frame camera_frame_options) mjFRAME_CAMERA && (0 <? i)%Z
               then mjOBJ_UNKNOWN else mjOBJ_CAMERA)
         /\ objtype lens
            = (if frame_is (vopt_frame camera_frame_options) mjFRAME_CAMERA && (0 <? i)%Z
               then mjOBJ_UNKNOWN else mjOBJ_CAMERA).
Proof.
  refine (@camera_names_lost_after_frame two_camera_model zero_mjData camera_frame_options 7
            (empty_scene 10) _ _ _ _).
  - reflexivity.
  - reflexivity.
  - vm_compute. discriminate.
  - vm_compute. discriminate.
Defined.
(** ** The slider-crank: the crank has the length of the rod *)

Section SliderCrank.
Local Open Scope Z_scope.
Variables (m : mjModel) (d : mjData) (vopt : mjvOption) (catmask : Z).

(** The quantities of the slider-crank transmission of actuator [i], as the
    block computes them: the axis of the slider, the vector from the slider
    site to the crank site, its component along the axis, and the
    discriminant of the position of the slider pin. *)
Definition crank_axis (i : Z) : vec3 :=
  let k := actuator_trnid m (2 * i + 1) in
  V3 (site_xmat d (9 * k + 2)) (site_xmat d (9 * k + 5)) (site_xmat d (9 * k + 8)).

Definition crank_vec (i : Z) : vec3 :=
  let j := actuator_trnid m (2 * i) in
  let k := actuator_trnid m (2 * i + 1) in
  mju_sub3 (vec3_at (offset (site_xpos d) (3 * j))) (vec3_at (offset (site_xpos d) (3 * k))).

Definition crank_len (i : Z) : R := mju_dot3 (crank_vec i) (crank_axis i).

Definition crank_det (i : Z) : R :=
  (crank_len i * crank_len i + actuator_cranklength m i * actuator_cranklength m i
   - mju_dot3 (crank_vec i) (crank_vec i))%R.

(** The two geoms of a slider-crank. *)
Definition slider_geom (k : Z) (g : mjvGeom) : Prop :=
  let i := objid g in
  rgba g = vis_rgba_slidercrank m
  /\ (mju_dot3 (crank_axis i) (crank_axis i) = 1%R ->
      c2 (size g)
      = (Rabs (crank_len i - sqrt (if Rltb (crank_det i) 0 then 0 else crank_det i)) / 2)%R).

Definition crank_geom (k : Z) (g : mjvGeom) : Prop :=
  let i := objid g in
  rgba g = (if Rltb (crank_det i) 0 then vis_rgba_crankbroken m else vis_rgba_slidercrank m)
  /\ (mju_dot3 (crank_axis i) (crank_axis i) = 1%R ->
      (0 <= crank_det i)%R ->
      c2 (size g) = (Rabs (actuator_cranklength m i) / 2)%R)
  /\ (mju_dot3 (crank_axis i) (crank_axis i) = 1%R ->
      (crank_det i < 0)%R ->
      c2 (size g)
      = (sqrt (mju_dot3 (crank_vec i) (crank_vec i) - crank_len i * crank_len i) / 2)%R).

Definition slidercrank_geom (k : Z) (g : mjvGeom) : Prop :=
  objtype g = mjOBJ_ACTUATOR
  /\ 0 <= objid g < nu m
  /\ actuator_trntype m (objid g) = mjTRN_SLIDERCRANK
  /\ ((type g = mjGEOM_CYLINDER /\ slider_geom k g)
      \/ (type g = mjGEOM_CAPSULE /\ crank_geom k g)).

End SliderCrank.

Section RodMath.
Local Open Scope R_scope.

Lemma norm3_of_square v x : mju_dot3 v v = x * x -> mju_norm3 v = Rabs x.
Proof.
  intros H. unfold mju_norm3. unfold mju_dot3 in H. rewrite H.
  fold (Rsqr x). apply sqrt_Rsqr_abs.
Qed.

(** The slider: from the slider site along the axis. *)
Lemma slider_span (a p : vec3) (t : R) :
  mju_dot3 a a = 1 ->
  let e := mju_add3 (mju_scl3 a t) p in
  mju_norm3 (V3 (c0 e - c0 p) (c1 e - c1 p) (c2 e - c2 p)) = Rabs t.
Proof.
  intros Ha e. apply norm3_of_square. unfold mju_dot3 in *. subst e. cbn.
  replace ((c0 a * t + c0 p - c0 p) * (c0 a * t + c0 p - c0 p)
           + (c1 a * t + c1 p - c1 p) * (c1 a * t + c1 p - c1 p)
           + (c2 a * t + c2 p - c2 p) * (c2 a * t + c2 p - c2 p))
    with (t * t * (c0 a * c0 a + c1 a * c1 a + c2 a * c2 a)) by ring.
  rewrite Ha. ring.
Qed.

(** The crank: from the slider pin to the crank site.  [v] is the vector
    from the slider site [p] to the crank site [q], [t] the place of the pin
    on the axis. *)
Lemma crank_span_sqr (a p q : vec3) (t : R) :
  mju_dot3 a a = 1 ->
  let v := mju_sub3 q p in
  let e := mju_add3 (mju_scl3 a t) p in
  let dif := V3 (c0 q - c0 e) (c1 q - c1 e) (c2 q - c2 e) in
  mju_dot3 dif dif = mju_dot3 v v - 2 * t * mju_dot3 v a + t * t.
Proof.
  intros Ha v e dif. unfold mju_dot3 in *. subst v e dif. cbn.
  replace (t * t) with (t * t * (c0 a * c0 a + c1 a * c1 a + c2 a * c2 a))
    by (rewrite Ha; ring).
  ring.
Qed.

End RodMath.

Section RodMath2.
Local Open Scope R_scope.

Lemma crank_rod (a p q : vec3) (rod : R) :
  mju_dot3 a a = 1 ->
  let v := mju_sub3 q p in
  let len := mju_dot3 v a in
  let det := len * len + rod * rod - mju_dot3 v v in
  0 <= det ->
  let e := mju_add3 (mju_scl3 a (len - sqrt det)) p in
  mju_norm3 (V3 (c0 q - c0 e) (c1 q - c1 e) (c2 q - c2 e)) = Rabs rod.
Proof.
  intros Ha v len det Hdet e. apply norm3_of_square.
  pose proof (@crank_span_sqr a p q (len - sqrt det) Ha) as S. cbv zeta in S.
  fold v in S. fold len in S. fold e in S. rewrite S.
  pose proof (sqrt_sqrt det Hdet) as Q.
  replace (mju_dot3 v v - 2 * (len - sqrt det) * len + (len - sqrt det) * (len - sqrt det))
    with (mju_dot3 v v - len * len + sqrt det * sqrt det) by ring.
  rewrite Q. unfold det. ring.
Qed.

Lemma crank_broken (a p q : vec3) :
  mju_dot3 a a = 1 ->
  let v := mju_sub3 q p in
  let len := mju_dot3 v a in
  let e := mju_add3 (mju_scl3 a (len - sqrt 0)) p in
  mju_norm3 (V3 (c0 q - c0 e) (c1 q - c1 e) (c2 q - c2 e))
  = sqrt (mju_dot3 v v - len * len).
Proof.
  intros Ha v len e.
  pose proof (@crank_span_sqr a p q (len - sqrt 0) Ha) as S. cbv zeta in S.
  fold v in S. fold len in S. fold e in S.
  match goal with
  | |- mju_norm3 ?x = _ => change (mju_norm3 x) with (sqrt (mju_dot3 x x))
  end.
  rewrite S, sqrt_0. f_equal. ring.
Qed.

End RodMath2.

Lemma makeConnector_rod g g' ty w a0 a1 a2 b0 b1 b2 :
  ty = mjGEOM_CYLINDER \/ ty = mjGEOM_CAPSULE ->
  mjv_makeConnector g ty w a0 a1 a2 b0 b1 b2 = Ok g' ->
  type g' = ty
  /\ size g' = V3 w w (mju_norm3 (V3 (b0 - a0) (b1 - a1) (b2 - a2)) * (1 / 2))%R.
Proof.
  intros Hty E. unfold mjv_makeConnector in E.
  destruct Hty as [-> | ->]; cbn in E; injection E as <-; split; reflexivity.
Qed.

Section SliderCrankWalk.
Local Open Scope Z_scope.
Variables (s0 : vstate) (m : mjModel) (d : mjData) (vopt : mjvOption) (catmask : Z).

Lemma notes_slidercrank :
  notes (slidercrank_geom m d) s0 None (addGeoms_slidercrank m d vopt catmask) None.
Proof.
  unfold addGeoms_slidercrank.
  cbv beta iota zeta delta [addGeoms_slidercrank].
  destruct (band mjCAT_DYNAMIC catmask); [|apply notes_ret].
  apply notes_for. intros i Hi.
  destruct (actuator_trntype m i =? mjTRN_SLIDERCRANK) eqn:T; [|apply notes_ret].
  apply Z.eqb_eq in T.
  change (V3 (site_xmat d (9 * actuator_trnid m (2 * i + 1) + 2))
             (site_xmat d (9 * actuator_trnid m (2 * i + 1) + 5))
             (site_xmat d (9 * actuator_trnid m (2 * i + 1) + 8)))
    with (crank_axis m d i).
  change (mju_sub3 (vec3_at (offset (site_xpos d) (3 * actuator_trnid m (2 * i))))
                   (vec3_at (offset (site_xpos d) (3 * actuator_trnid m (2 * i + 1)))))
    with (crank_vec m d i).
  change (mju_dot3 (crank_vec m d i) (crank_axis m d i)) with (crank_len m d i).
  change (crank_len m d i * crank_len m d i
          + actuator_cranklength m i * actuator_cranklength m i
          - mju_dot3 (crank_vec m d i) (crank_vec m d i))%R
    with (crank_det m d i).
  set (pk := vec3_at (offset (site_xpos d) (3 * actuator_trnid m (2 * i + 1)))).
  set (t := (crank_len m d i
             - sqrt (if Rltb (crank_det m d i) 0 then 0 else crank_det m d i))%R).
  set (e := mju_add3 (mju_scl3 (crank_axis m d i) t) pk).
  apply (@notes_bind _ _ _ _ (Some (refers mjOBJ_ACTUATOR i))); [refs_step|].
  intros _.
  (* the slider *)
  pose (Q1 := fun (k : Z) (g : mjvGeom) =>
                refers mjOBJ_ACTUATOR i k g
                /\ type g = mjGEOM_CYLINDER
                /\ c2 (size g)
                   = (mju_norm3 (V3 (c0 e - c0 pk) (c1 e - c1 pk) (c2 e - c2 pk)) * (1 / 2))%R).
  apply (@notes_bind _ _ _ _ (Some Q1)).
  { apply notes_assign_result. intros k g g' Hg E. split.
    - eapply refers_connector; eassumption.
    - destruct (@makeConnector_rod _ _ _ _ _ _ _ _ _ _ (or_introl eq_refl) E) as [Ht Hs].
      split; [exact Ht|]. rewrite Hs. cbn [c2].
      unfold pk, vec3_at, offset. cbn [c0 c1 c2].
      rewrite Z.add_0_r. reflexivity. }
  intros _.
  pose (Q2 := fun (k : Z) (g : mjvGeom) => Q1 k g /\ rgba g = vis_rgba_slidercrank m).
  apply (@notes_bind _ _ _ _ (Some Q2)).
  { apply notes_assign. intros k g ([Ho Hid] & Ht & Hs).
    destruct (label_is _ _); (split; [split; [split|split]|]); assumption || reflexivity. }
  intros _.
  apply (@notes_bind _ _ _ _ None).
  { apply notes_FINISH. intros k g (([Ho Hid] & Ht & Hs) & Hc).
    unfold slidercrank_geom. rewrite Ho, Hid.
    split; [reflexivity|]. split; [exact Hi|]. split; [exact T|].
    left. split; [exact Ht|]. unfold slider_geom. cbv zeta. rewrite Hid.
    split; [exact Hc|]. intros Ha. rewrite Hs.
    match goal with
    | |- (mju_norm3 ?x * _ = _)%R =>
        assert (N : mju_norm3 x = Rabs t)
          by exact (@slider_span (crank_axis m d i) pk t Ha)
    end.
    rewrite N. unfold t. lra. }
  intros _.
  (* the crank *)
  apply (@notes_bind _ _ _ _ (Some (refers mjOBJ_ACTUATOR i))); [refs_step|].
  intros _.
  set (pj := vec3_at (offset (site_xpos d) (3 * actuator_trnid m (2 * i)))).
  pose (Q3 := fun (k : Z) (g : mjvGeom) =>
                refers mjOBJ_ACTUATOR i k g
                /\ type g = mjGEOM_CAPSULE
                /\ c2 (size g)
                   = (mju_norm3 (V3 (c0 pj - c0 e) (c1 pj - c1 e) (c2 pj - c2 e)) * (1 / 2))%R).
  apply (@notes_bind _ _ _ _ (Some Q3)).
  { apply notes_assign_result. intros k g g' Hg E. split.
    - eapply refers_connector; eassumption.
    - destruct (@makeConnector_rod _ _ _ _ _ _ _ _ _ _ (or_intror eq_refl) E) as [Ht Hs].
      split; [exact Ht|]. rewrite Hs. reflexivity. }
  intros _.
  pose (Q4 := fun (k : Z) (g : mjvGeom) =>
                Q3 k g
                /\ rgba g = (if Rltb (crank_det m d i) 0 then vis_rgba_crankbroken m
                             else vis_rgba_slidercrank m)).
  apply (@notes_bind _ _ _ _ (Some Q4)).
  { apply notes_assign. intros k g ([Ho Hid] & Ht & Hs).
    destruct (Rltb _ _); (split; [split; [split|split]|]); assumption || reflexivity. }
  intros _.
  apply notes_FINISH. intros k g (([Ho Hid] & Ht & Hs) & Hc).
  unfold slidercrank_geom. rewrite Ho, Hid.
  split; [reflexivity|]. split; [exact Hi|]. split; [exact T|].
  right. split; [exact Ht|]. unfold crank_geom. cbv zeta. rewrite Hid.
  split; [exact Hc|]. split.
  - intros Ha Hdet. rewrite Hs. unfold e, t.
    assert (F : Rltb (crank_det m d i) 0 = false) by (apply Rltb_false; exact Hdet).
    rewrite F.
    match goal with
    | |- (mju_norm3 ?x * _ = _)%R =>
        assert (N : mju_norm3 x = Rabs (actuator_cranklength m i))
          by exact (@crank_rod (crank_axis m d i) pk pj (actuator_cranklength m i) Ha Hdet)
    end.
    rewrite N. lra.
  - intros Ha Hdet. rewrite Hs. unfold e, t.
    assert (F : Rltb (crank_det m d i) 0 = true) by (apply Rltb_true; exact Hdet).
    rewrite F.
    match goal with
    | |- (mju_norm3 ?x * _ = _)%R =>
        assert (N : mju_norm3 x
                    = sqrt (mju_dot3 (crank_vec m d i) (crank_vec m d i)
                            - crank_len m d i * crank_len m d i))
          by exact (@crank_broken (crank_axis m d i) pk pj Ha)
    end.
    rewrite N. lra.
Qed.

End SliderCrankWalk.

(** The slider-crank.  Every geom that the slider-crank block emits belongs
    to an actuator [i] of the model with a slider-crank transmission and is
    the slider (a cylinder) or the crank (a capsule).  The crank is drawn in
    the color of a broken crank exactly when the discriminant is negative,
    that is when the rod is too short to reach the axis of the slider; when
    the axis of the slider is a unit vector and the discriminant is not
    negative, the crank drawn has exactly the length of the rod (its
    half-length is |cranklength| / 2), and with a negative discriminant it
    is the perpendicular from the crank site to the axis.  The slider has
    the color of the slider-crank and reaches from the slider site to the
    pin. *)
Theorem crank_has_rod_length :
  forall (m : mjModel) (d : mjData) (vopt : mjvOption) (catmask : Z) (s : vstate),
    match addGeoms_slidercrank m d vopt catmask s with
    | Next _ s' | Return s' =>
        forall k, (scn_ngeom (scn s) <= k < scn_ngeom (scn s'))%Z ->
          let g := geoms (scn s') k in
          let i := objid g in
          let unit_axis := mju_dot3 (crank_axis m d i) (crank_axis m d i) = 1%R in
          objtype g = mjOBJ_ACTUATOR
          /\ (0 <= i < nu m)%Z
          /\ actuator_trntype m i = mjTRN_SLIDERCRANK
          /\ (type g = mjGEOM_CYLINDER \/ type g = mjGEOM_CAPSULE)
          /\ (type g = mjGEOM_CAPSULE ->
              rgba g = (if Rltb (crank_det m d i) 0
                        then vis_rgba_crankbroken m else vis_rgba_slidercrank m)
              /\ (unit_axis -> (0 <= crank_det m d i)%R ->
                  (2 * c2 (size g))%R = Rabs (actuator_cranklength m i))
              /\ (unit_axis -> (crank_det m d i < 0)%R ->
                  (2 * c2 (size g))%R
                  = sqrt (mju_dot3 (crank_vec m d i) (crank_vec m d i)
                          - crank_len m d i * crank_len m d i)))
          /\ (type g = mjGEOM_CYLINDER ->
              rgba g = vis_rgba_slidercrank m
              /\ (unit_axis ->
                  (2 * c2 (size g))%R
                  = Rabs (crank_len m d i
                          - sqrt (if Rltb (crank_det m d i) 0 then 0 else crank_det m d i))))
    | Fatal _ => True
    end.
Proof.
  intros m d vopt catmask s.
  pose proof (@notes_slidercrank s m d vopt catmask s) as H.
  assert (H0 : noted (slidercrank_geom m d) s None s).
  { split; [lia|]. split; [intros k Hk; lia | exact I]. }
  specialize (H H0).
  assert (Hall : forall g, slidercrank_geom m d 0 g ->
    let i := objid g in
    let unit_axis := mju_dot3 (crank_axis m d i) (crank_axis m d i) = 1%R in
    objtype g = mjOBJ_ACTUATOR
    /\ (0 <= i < nu m)%Z
    /\ actuator_trntype m i = mjTRN_SLIDERCRANK
    /\ (type g = mjGEOM_CYLINDER \/ type g = mjGEOM_CAPSULE)
    /\ (type g = mjGEOM_CAPSULE ->
        rgba g = (if Rltb (crank_det m d i) 0
                  then vis_rgba_crankbroken m else vis_rgba_slidercrank m)
        /\ (unit_axis -> (0 <= crank_det m d i)%R ->
            (2 * c2 (size g))%R = Rabs (actuator_cranklength m i))
        /\ (unit_axis -> (crank_det m d i < 0)%R ->
            (2 * c2 (size g))%R
            = sqrt (mju_dot3 (crank_vec m d i) (crank_vec m d i)
                    - crank_len m d i * crank_len m d i)))
    /\ (type g = mjGEOM_CYLINDER ->
        rgba g = vis_rgba_slidercrank m
        /\ (unit_axis ->
            (2 * c2 (size g))%R
            = Rabs (crank_len m d i
                    - sqrt (if Rltb (crank_det m d i) 0 then 0 else crank_det m d i))))).
  { intros g (Ho & Hi & Ht & Hc). cbv zeta.
    split; [exact Ho|]. split; [exact Hi|]. split; [exact Ht|].
    destruct Hc as [[Hty (Hr & Hs)] | [Hty (Hr & Hs1 & Hs2)]].
    - split; [left; exact Hty|]. split.
      + intros E. rewrite Hty in E. discriminate.
      + intros _. split; [exact Hr|]. intros Ha. rewrite (Hs Ha). lra.
    - split; [right; exact Hty|]. split.
      + intros _. split; [exact Hr|]. split.
        * intros Ha Hd. rewrite (Hs1 Ha Hd). lra.
        * intros Ha Hd. rewrite (Hs2 Ha Hd). lra.
      + intros E. rewrite Hty in E. discriminate. }
  destruct (addGeoms_slidercrank m d vopt catmask s) as [[] s' | s' | e]; [| |exact I];
    destruct H as (_ & H & _); intros k Hk; apply Hall; exact (H k Hk).
Qed.
(** ** Infinite planes follow the camera *)

Section Rounding.
Local Open Scope R_scope.

(** [mju_round] is at most one half away. *)
Lemma mju_round_near x : Rabs (x - IZR (mju_round x)) <= 1 / 2.
Proof.
  unfold mju_round. cbv zeta.
  destruct (base_Int_part x) as [H1 H2].
  destruct (Reqb x (IZR (Int_part x))) eqn:E.
  - apply Reqb_true in E.
    destruct (Rltb _ _); rewrite <- E; unfold Rminus; rewrite Rplus_opp_r, Rabs_R0; lra.
  - apply Reqb_false in E. rewrite plus_IZR.
    destruct (Rltb (x - IZR (Int_part x)) (IZR (Int_part x) + 1 - x)) eqn:L.
    + apply Rltb_true in L. apply Rabs_le. lra.
    + apply Rltb_false in L. rewrite plus_IZR. apply Rabs_le. lra.
Qed.

(** Snapping [p] to the grid of step [2 * sX]. *)
Lemma snap_near p sX :
  0 < sX -> Rabs (p - 2 * sX * IZR (mju_round (1 / 2 * p / sX))) <= sX.
Proof.
  intros Hs. pose proof (mju_round_near (1 / 2 * p / sX)) as H.
  set (n := IZR (mju_round (1 / 2 * p / sX))) in *.
  replace (p - 2 * sX * n) with (2 * sX * (1 / 2 * p / sX - n)) by (field; lra).
  rewrite Rabs_mult, (Rabs_pos_eq (2 * sX)) by lra.
  replace sX with (2 * sX * (1 / 2)) at 3 by field.
  apply Rmult_le_compat_l; [lra | exact H].
Qed.

End Rounding.

Section Plane.
Local Open Scope Z_scope.
Variables (m : mjModel) (d : mjData).

(** The step of the grid of plane [i] along its axis [k]: half a repetition
    of the texture of its material, or a fraction of the far clipping
    distance. *)
Definition plane_grid (i k : Z) : R :=
  let zfar := (vis_map_zfar m * stat_extent m)%R in
  let matid := geom_matid m i in
  if (matid >=? 0) && Rltb 0 (mat_texrepeat m (2 * matid + k))
  then (2 / mat_texrepeat m (2 * matid + k)%Z)%R
  else (21 / 10 * zfar / IZR (mjMAXPLANEGRID - 2))%R.

End Plane.

Section PlaneMath.
Local Open Scope R_scope.

Lemma shift_none x c : mju_dot3 (mju_sub3 x x) c = 0.
Proof. unfold mju_dot3, mju_sub3. cbn. ring. Qed.

Lemma shift_one x a t c :
  mju_dot3 (mju_sub3 (mju_addScl3 x a t) x) c = t * mju_dot3 a c.
Proof. unfold mju_dot3, mju_sub3, mju_addScl3. cbn. ring. Qed.

Lemma shift_two x a b ta tb c :
  mju_dot3 (mju_sub3 (mju_addScl3 (mju_addScl3 x a ta) b tb) x) c
  = ta * mju_dot3 a c + tb * mju_dot3 b c.
Proof. unfold mju_dot3, mju_sub3, mju_addScl3. cbn. ring. Qed.

Lemma dot3_comm a b : mju_dot3 a b = mju_dot3 b a.
Proof. unfold mju_dot3. ring. Qed.

Lemma from_head h p x c :
  mju_dot3 (mju_sub3 h p) c = mju_dot3 (mju_sub3 h x) c - mju_dot3 (mju_sub3 p x) c.
Proof. unfold mju_dot3, mju_sub3. cbn. ring. Qed.

End PlaneMath.

Section PlaneCases.
Local Open Scope Z_scope.
Variables (m : mjModel) (d : mjData) (sc : mjvScene) (i : Z).

(** The vector from the plane to the point midway between the eyes. *)
Definition plane_to_head : vec3 :=
  V3 (1 / 2 * (c0 (gl_pos (camera0 sc)) + c0 (gl_pos (camera1 sc)))
      - geom_xpos d (3 * i + 0)%Z)%R
     (1 / 2 * (c1 (gl_pos (camera0 sc)) + c1 (gl_pos (camera1 sc)))
      - geom_xpos d (3 * i + 1)%Z)%R
     (1 / 2 * (c2 (gl_pos (camera0 sc)) + c2 (gl_pos (camera1 sc)))
      - geom_xpos d (3 * i + 2)%Z)%R.

(** The move of the plane along its axis [k]. *)
Definition plane_move (k : Z) : R :=
  (2 * plane_grid m i k
   * IZR (mju_round (1 / 2 * mju_dot3 plane_to_head
                                (column (mat9_at (offset (geom_xmat d) (9 * i))) k)
                     / plane_grid m i k)))%R.

Lemma plane_to_head_eq :
  plane_to_head
  = mju_sub3 (midpoint (gl_pos (camera0 sc)) (gl_pos (camera1 sc)))
             (vec3_at (offset (geom_xpos d) (3 * i))).
Proof.
  unfold plane_to_head, mju_sub3, midpoint, vec3_at, offset. cbn [c0 c1 c2].
  f_equal; field.
Qed.

Lemma plane_pos_cases :
  plane_pos m d sc i
  = let x := vec3_at (offset (geom_xpos d) (3 * i)) in
    let mat := mat9_at (offset (geom_xmat d) (9 * i)) in
    let y := if Rleb (geom_size m (3 * i + 0)) 0
             then mju_addScl3 x (column mat 0) (plane_move 0) else x in
    if Rleb (geom_size m (3 * i + 1)) 0
    then mju_addScl3 y (column mat 1) (plane_move 1) else y.
Proof.
  unfold plane_pos. cbv zeta.
  replace (geom_size m (3 * i)) with (geom_size m (3 * i + 0))
    by (rewrite Z.add_0_r; reflexivity).
  destruct (Rleb (geom_size m (3 * i + 0)) 0), (Rleb (geom_size m (3 * i + 1)) 0);
    cbn [orb]; reflexivity.
Qed.

End PlaneCases.

Section PlaneFollows.
Local Open Scope Z_scope.


End PlaneFollows.
(** ** What can abort the update of a scene *)

Section Fails.
Local Open Scope Z_scope.

(** The computation [c] raises no fatal error but those of [E]. *)
Definition fails_only {A} (E : mjError -> Prop) (c : M A) : Prop :=
  forall s, match c s with Fatal e => E e | _ => True end.

Variable E : mjError -> Prop.

Lemma fails_safe {A} (c : M A) : never_fatal c -> fails_only E c.
Proof. intros H s. specialize (H s). destruct (c s); [exact I | exact I | contradiction]. Qed.

Lemma fails_ret {A} (a : A) : fails_only E (ret a).
Proof. intros s. exact I. Qed.

Lemma fails_error {A} e : E e -> fails_only E (@mju_error A e).
Proof. intros H s. exact H. Qed.

Lemma fails_bind {A B} (c : M A) (k : A -> M B) :
  fails_only E c -> (forall a, fails_only E (k a)) -> fails_only E (bind c k).
Proof.
  intros Hc Hk s. unfold bind. specialize (Hc s).
  destruct (c s) as [a s' | s' | e]; [apply Hk | exact I | exact Hc].
Qed.

Lemma fails_for_each {A} (l : list A) (body : A -> M unit) :
  (forall i, In i l -> fails_only E (body i)) -> fails_only E (for_each l body).
Proof.
  induction l as [|i l IH]; intros Hb; cbn [for_each].
  - apply fails_ret.
  - apply fails_bind; [apply Hb; left; reflexivity | intros _; apply IH].
    intros j Hj. apply Hb. right. exact Hj.
Qed.

Lemma fails_for lo hi (body : Z -> M unit) :
  (forall i, lo <= i < hi -> fails_only E (body i)) -> fails_only E (for_ lo hi body).
Proof. intros Hb. apply fails_for_each. intros i Hi. apply Hb, in_range, Hi. Qed.

Lemma fails_call (c : M unit) : fails_only E c -> fails_only E (call c).
Proof.
  intros Hc s. unfold call. specialize (Hc s). destruct (c s); [exact I | exact I | exact Hc].
Qed.

End Fails.

Section SceneErrors.
Local Open Scope Z_scope.
Variables (m : mjModel) (d : mjData) (vopt : mjvOption).

(** The error of a joint that is shown and has none of the four types. *)
Definition unknown_joint (e : mjError) : Prop :=
  vopt_flags vopt mjVIS_JOINT = true
  /\ exists i,
       0 <= i < njnt m
       /\ jointgroup vopt (group_index (jnt_group m i)) = true
       /\ jnt_type m i <> mjJNT_FREE /\ jnt_type m i <> mjJNT_BALL
       /\ jnt_type m i <> mjJNT_SLIDE /\ jnt_type m i <> mjJNT_HINGE
       /\ e = Unknown_joint_type (jnt_type m i).

(** The errors of a camera that cannot be used. *)
Definition camera_error (cam : option mjvCamera) (e : mjError) : Prop :=
  exists c,
    cam = Some c
    /\ ((cam_type c = mjCAMERA_TRACKING /\ ~ (0 <= trackbodyid c < nbody m)
         /\ e = Track_body_id_outside_valid_range)
        \/ (cam_type c = mjCAMERA_FIXED /\ ~ (0 <= fixedcamid c < ncam m)
            /\ e = Fixed_camera_id_outside_valid_range)
        \/ (cam_type c <> mjCAMERA_FREE /\ cam_type c <> mjCAMERA_TRACKING
            /\ cam_type c <> mjCAMERA_FIXED /\ cam_type c <> mjCAMERA_USER
            /\ e = Unknown_camera_type)).

Lemma fails_joint catmask :
  fails_only unknown_joint (addGeoms_joint m d vopt catmask).
Proof.
  unfold addGeoms_joint. cbv zeta.
  destruct (vopt_flags vopt mjVIS_JOINT) eqn:F; cbn [andb]; [|apply fails_ret].
  destruct (band mjCAT_DECOR catmask); [|apply fails_ret].
  apply fails_for. intros i Hi.
  destruct (jointgroup vopt (group_index (jnt_group m i))) eqn:G; [|apply fails_ret].
  apply fails_bind; [apply fails_safe; safe|]. intros _.
  apply fails_bind; [|intros _; apply fails_safe; safe].
  destruct (jnt_type m i =? mjJNT_FREE) eqn:T0; [apply fails_safe; safe|].
  destruct (jnt_type m i =? mjJNT_BALL) eqn:T1; [apply fails_safe; safe|].
  destruct ((jnt_type m i =? mjJNT_SLIDE) || (jnt_type m i =? mjJNT_HINGE)) eqn:T2;
    [apply fails_safe; safe|].
  apply fails_error. split; [exact F|]. exists i.
  apply orb_false_iff in T2. destruct T2 as [T2 T3].
  apply Z.eqb_neq in T0, T1, T2, T3.
  repeat (split; [assumption|]). reflexivity.
Qed.

Lemma fails_addGeoms pert catmask :
  fails_only unknown_joint (mjv_addGeoms m d vopt pert catmask).
Proof.
  unfold mjv_addGeoms. cbv zeta.
  repeat (apply fails_bind; [ | intros _ ]);
    first [ apply fails_joint
          | apply fails_safe;
            unfold addGeoms_skin, addGeoms_inertia, addGeoms_pertobj, addGeoms_bodyframe,
              addGeoms_selectpoint, addGeoms_bodylabel, addGeoms_actuator, addGeoms_geom,
              addGeoms_site, addGeoms_camera, addGeoms_light, addGeoms_tendon,
              addGeoms_slidercrank, addGeoms_com, addGeoms_autoconnect,
              addGeoms_rangefinder, addGeoms_pertforce, addGeoms_constraint,
              addGeoms_contact, addContactGeom; safe ].
Qed.

Lemma updateCamera_errors cam sc e :
  mjv_updateCamera (Some m) d cam sc = Err e -> camera_error cam e.
Proof.
  unfold mjv_updateCamera. destruct cam as [c|]; [|discriminate].
  cbv zeta.
  destruct (cam_type c =? mjCAMERA_USER) eqn:TU; [discriminate|].
  destruct (cam_type c =? mjCAMERA_FREE) eqn:TF; [discriminate|].
  destruct (cam_type c =? mjCAMERA_TRACKING) eqn:TT.
  - destruct ((trackbodyid c <? 0) || (trackbodyid c >=? nbody m)) eqn:B; [|discriminate].
    intros H. injection H as <-. exists c. split; [reflexivity|]. left.
    apply Z.eqb_eq in TT. split; [exact TT|]. split; [|reflexivity].
    apply orb_true_iff in B. destruct B as [B | B]; [apply Z.ltb_lt in B | apply Z.geb_le in B];
      lia.
  - destruct (cam_type c =? mjCAMERA_FIXED) eqn:TX.
    + destruct ((fixedcamid c <? 0) || (fixedcamid c >=? ncam m)) eqn:B; [|discriminate].
      intros H. injection H as <-. exists c. split; [reflexivity|]. right. left.
      apply Z.eqb_eq in TX. split; [exact TX|]. split; [|reflexivity].
      apply orb_true_iff in B.
      destruct B as [B | B]; [apply Z.ltb_lt in B | apply Z.geb_le in B]; lia.
    + intros H. injection H as <-. exists c. split; [reflexivity|]. right. right.
      apply Z.eqb_neq in TU, TF, TT, TX. repeat (split; [assumption|]). reflexivity.
Qed.

End SceneErrors.

(** What can abort [mjv_addGeoms] and [mjv_updateScene].  The walk over the
    model raises [mju_error] for one reason only: a joint that is shown
    (joints visible, its group enabled) and has none of the types free,
    ball, slide, hinge; no call of [mjv_makeConnector] in the walk asks for a
    type that it refuses.  Besides that, [mjv_updateScene] is aborted only by
    its camera: a tracking camera whose body id, or a fixed camera whose
    camera id, is outside the model, or a camera of unknown type. *)
Theorem scene_update_errors :
  forall (m : mjModel) (d : mjData) (opt : mjvOption) (pert : option mjvPerturb)
         (cam : option mjvCamera) (catmask : Z) (s : vstate),
    match mjv_addGeoms m d opt pert catmask s with
    | Fatal e => unknown_joint m opt e
    | _ => True
    end
    /\ match mjv_updateScene m d opt pert cam catmask s with
       | Fatal e => unknown_joint m opt e \/ camera_error m cam e
       | _ => True
       end.
Proof.
  intros m d opt pert cam catmask s. split.
  - apply (@fails_addGeoms m d opt pert catmask s).
  - unfold mjv_updateScene, on_scn.
    cbv beta iota delta [bind get_scn put_scn].
    set (s1 := {| scn := set_scn_ngeom (scn s) 0;
                  warning_vgeomfull := warning_vgeomfull s |}).
    pose proof (@fails_addGeoms m d opt pert catmask s1) as H.
    unfold call.
    destruct (mjv_addGeoms m d opt pert catmask s1) as [[] s2 | s2 | e];
      [| |left; exact H];
      cbv beta iota;
      match goal with
      | |- context [mjv_updateCamera (Some m) d cam ?sc] =>
          pose proof (@updateCamera_errors m d cam sc) as Hc;
          destruct (mjv_updateCamera (Some m) d cam sc) as [[cam' sc'] | e]
      end;
      try (right; apply Hc; reflexivity);
      destruct (vopt_flags opt mjVIS_SKIN); exact I.
Qed.
(** ** The list of lights *)

Section LightList.
Local Open Scope Z_scope.
Variables (m : mjModel) (d : mjData).

(** The headlight and the light made of light [i] of the model. *)
Definition head_light : mjvLight :=
  {| l_pos := V3 0 0 0; l_dir := V3 0 0 0; l_attenuation := V3 0 0 0;
     l_cutoff := 0; l_exponent := 0;
     l_ambient := vis_headlight_ambient m;
     l_diffuse := vis_headlight_diffuse m;
     l_specular := vis_headlight_specular m;
     l_headlight := true; l_directional := true; l_castshadow := false |}.

Definition light_of (i : Z) : mjvLight :=
  let directional := light_directional m i in
  {| l_pos := vec3_at (offset (light_xpos d) (3 * i));
     l_dir := vec3_at (offset (light_xdir d) (3 * i));
     l_attenuation := if directional then V3 0 0 0
                      else vec3_at (offset (light_attenuation m) (3 * i));
     l_cutoff := if directional then 0%R else light_cutoff m i;
     l_exponent := if directional then 0%R else light_exponent m i;
     l_ambient := vec3_at (offset (light_ambient m) (3 * i));
     l_diffuse := vec3_at (offset (light_diffuse m) (3 * i));
     l_specular := vec3_at (offset (light_specular m) (3 * i));
     l_headlight := false;
     l_directional := directional;
     l_castshadow := light_castshadow m i |}.

(** The lights of a scene, in their order. *)
Definition scene_lights (sc : mjvScene) : list mjvLight :=
  map (lights sc) (range 0 (scn_nlight sc)).

Lemma range_snoc n : 0 <= n -> range 0 (n + 1) = range 0 n ++ [n].
Proof.
  intros Hn. unfold range. rewrite !Z.sub_0_r.
  replace (Z.to_nat (n + 1)) with (S (Z.to_nat n)) by lia.
  rewrite seq_S, map_app. cbn [map Nat.add]. f_equal. f_equal. lia.
Qed.

Lemma scene_lights_length sc : 0 <= scn_nlight sc ->
  Z.of_nat (length (scene_lights sc)) = scn_nlight sc.
Proof.
  intros H. unfold scene_lights, range.
  rewrite length_map, length_map, length_seq. lia.
Qed.

Lemma scene_lights_added sc x :
  0 <= scn_nlight sc ->
  scene_lights (set_scn_nlight (set_lights sc (upd (lights sc) (scn_nlight sc) x))
                  (scn_nlight sc + 1))
  = scene_lights sc ++ [x].
Proof.
  intros Hn. unfold scene_lights. cbn. rewrite range_snoc by exact Hn.
  rewrite map_app. cbn [map]. f_equal.
  - apply map_ext_in. intros k Hk. apply in_range in Hk. unfold upd.
    destruct (Z.eqb_spec k (scn_nlight sc)); [lia | reflexivity].
  - unfold upd. rewrite Z.eqb_refl. reflexivity.
Qed.

(** The loop over the lights of the model appends the active ones while
    there is room. *)
Lemma lights_loop_list (l : list Z) (f : mjvScene -> Z -> mjvScene) :
  (forall sc i,
      f sc i = if (scn_nlight sc <? mjMAXLIGHT) && light_active m i
               then set_scn_nlight
                      (set_lights sc (upd (lights sc) (scn_nlight sc) (light_of i)))
                      (scn_nlight sc + 1)
               else sc) ->
  forall sc,
    0 <= scn_nlight sc <= mjMAXLIGHT ->
    scene_lights (fold_left f l sc)
    = firstn (Z.to_nat mjMAXLIGHT)
        (scene_lights sc ++ map light_of (filter (light_active m) l)).
Proof.
  intros Hf. induction l as [|i l IH]; intros sc Hn; cbn [fold_left filter map].
  - rewrite app_nil_r. symmetry. apply firstn_all2.
    pose proof (scene_lights_length sc ltac:(lia)). lia.
  - rewrite Hf.
    destruct (Z.ltb_spec (scn_nlight sc) mjMAXLIGHT) as [Hlt | Hge]; cbn [andb].
    + destruct (light_active m i).
      * rewrite IH by (cbn; lia).
        rewrite scene_lights_added by lia. cbn [map]. rewrite <- app_assoc. reflexivity.
      * apply IH, Hn.
    + rewrite IH by exact Hn.
      pose proof (scene_lights_length sc ltac:(lia)) as Hlen.
      rewrite !firstn_app.
      replace (Z.to_nat mjMAXLIGHT - length (scene_lights sc))%nat with 0%nat by lia.
      reflexivity.
Qed.

End LightList.

(** The lights of the scene.  [mjv_makeLights] lists the headlight, when it
    is active, and then the active lights of the model in the order of the
    model, each with its position and direction of the current state, and
    cuts the list after mjMAXLIGHT lights; an inactive light is never listed
    and no light is listed twice.  A directional light gets no attenuation,
    cutoff or exponent. *)
Theorem makeLights_lists_active_lights :
  forall (m : mjModel) (d : mjData) (scn : mjvScene),
    scene_lights (mjv_makeLights m d scn)
    = firstn (Z.to_nat mjMAXLIGHT)
        ((if vis_headlight_active m then [head_light m] else [])
         ++ map (light_of m d) (filter (light_active m) (range 0 (nlight m)))).
Proof.
  intros m d scn. unfold mjv_makeLights. cbv zeta.
  rewrite (@lights_loop_list m d).
  - f_equal. f_equal.
    destruct (vis_headlight_active m); reflexivity.
  - intros sc i.
    destruct (scn_nlight sc <? mjMAXLIGHT), (light_active m i); reflexivity.
  - destruct (vis_headlight_active m); cbn; unfold mjMAXLIGHT; lia.
Qed.
(** ** The category mask selects what is drawn *)

Section Placed.
Local Open Scope Z_scope.

(** The geom under construction stands for object [i] of type [o] and is of
    category [c]. *)
Definition placed (o : mjtObj) (i c : Z) (k : Z) (g : mjvGeom) : Prop :=
  objtype g = o /\ objid g = i /\ category g = c.

Lemma placed_kept o i c k g g' :
  objtype g' = objtype g /\ objid g' = objid g /\ category g' = category g ->
  placed o i c k g -> placed o i c k g'.
Proof.
  intros (E1 & E2 & E3) (H1 & H2 & H3). unfold placed. rewrite E1, E2, E3.
  repeat split; assumption.
Qed.

Lemma placed_connector o i c k g g' ty width a0 a1 a2 b0 b1 b2 :
  placed o i c k g -> mjv_makeConnector g ty width a0 a1 a2 b0 b1 b2 = Ok g' ->
  placed o i c k g'.
Proof.
  intros Hg E. apply (placed_kept (g := g)); [|exact Hg].
  unfold mjv_makeConnector in E. rewrite connector_guard in E.
  destruct (negb (connector_type ty)); [discriminate|].
  cbv zeta in E. injection E as <-.
  destruct ((ty =? mjGEOM_CAPSULE) || (ty =? mjGEOM_CYLINDER)); repeat split; reflexivity.
Qed.

(** A geom is in the mask: its category is one of the mask.  The boxes of
    the inertia block are the exception: they are chosen by the category of
    their body and all carry the category mjCAT_DYNAMIC, which the block
    inherits from the skins. *)
Definition in_mask (m : mjModel) (mask : Z) (k : Z) (g : mjvGeom) : Prop :=
  (objtype g <> mjOBJ_BODY -> band (category g) mask = true)
  /\ (objtype g = mjOBJ_BODY ->
      category g = mjCAT_DYNAMIC /\ band (bodycategory m (objid g)) mask = true).

Lemma placed_in_mask m mask o i c k g :
  o <> mjOBJ_BODY -> band c mask = true -> placed o i c k g -> in_mask m mask k g.
Proof.
  intros Ho Hc (E1 & E2 & E3). unfold in_mask. rewrite E1, E3.
  split; [intros _; exact Hc | intros E; contradiction].
Qed.

Lemma band_comm a b : band a b = band b a.
Proof. unfold band. rewrite Z.land_comm. reflexivity. Qed.

End Placed.

Ltac placed_same :=
  repeat first
    [ rewrite setMaterial_objtype
    | rewrite setMaterial_objid
    | rewrite setMaterial_category
    | rewrite initGeom_objtype
    | rewrite initGeom_objid
    | rewrite initGeom_category
    | rewrite markselected_objtype
    | rewrite markselected_objid
    | rewrite markselected_category
    | progress autorewrite with refs tags
    | progress cbv beta zeta
    | match goal with
      | |- context [objtype (if ?b then _ else _)] => destruct b
      | |- context [objid (if ?b then _ else _)] => destruct b
      | |- context [category (if ?b then _ else _)] => destruct b
      end ];
  repeat split; reflexivity.

(** The tests of the mask that lead to the place of the proof. *)
Ltac mask_tests :=
  repeat match goal with
  | H : _ && _ = true |- _ => apply andb_prop in H; destruct H
  | H : _ || _ = false |- _ => apply orb_false_iff in H; destruct H
  | H : negb _ = false |- _ => apply negb_false_iff in H
  end.

Ltac mask_done :=
  intros ? ?; apply placed_in_mask;
  [ first [ discriminate | assumption ]
  | mask_tests; first [ assumption | rewrite band_comm; assumption ] ].

Ltac mask_step :=
  cbv beta zeta;
  lazymatch goal with
  | |- context [skin_body] => unfold skin_body
  | |- context [contact_point] => unfold contact_point
  | |- context [contact_arrow] => unfold contact_arrow
  | |- context [geom_body] => unfold geom_body
  | |- context [site_body] => unfold site_body
  | |- notes _ _ _ (ret _) _ => first [apply notes_ret | apply notes_ret_weak]
  | |- notes _ _ _ return_ _ => apply notes_return
  | |- notes _ _ _ (mju_error _) _ => apply notes_error
  | |- notes _ _ _ thisgeom _ => apply notes_thisgeom
  | |- notes _ _ _ get_scn _ => apply notes_get_scn
  | |- notes _ _ _ (assign _) _ =>
      apply notes_assign; intros ? ?; apply placed_kept; placed_same
  | |- notes _ _ _ (assign_result _) _ =>
      apply notes_assign_result; intros ? ? ? ? ?; eapply placed_connector; eassumption
  | |- notes _ _ _ (START ?o ?i ?c) _ =>
      apply (@notes_START _ _ (placed o i c)); intros ? ?; repeat split; reflexivity
  | |- notes _ _ _ FINISH _ => apply notes_FINISH; mask_done
  | |- notes _ _ _ (call _) _ => apply notes_call
  | |- notes _ _ _ (for_ _ _ _) _ => apply notes_for; intros ? ?
  | |- notes _ _ _ (for_each _ _) _ => apply notes_for_each; intros ? ?
  | |- notes _ _ _ (for_each_acc _ _ _) _ =>
      apply (@notes_for_each_acc _ _ _ _ (fun _ => True)); [exact I|];
      intros ? ? ? _; split; [|apply returns_any]
  | |- notes _ _ _ (while_each _ _ _) _ => apply notes_while_each; intros ? ? ?
  | |- notes _ _ _ (frame_axes _ _ _ _ _ _ _) _ => unfold frame_axes
  | |- notes _ _ _ (addContactGeom _ _ _ _) _ => unfold addContactGeom
  | |- notes _ _ _ (if ?b then _ else _) _ => destruct b eqn:?
  | |- notes _ _ ?ph1 (bind ?c _) _ =>
      first [ apply (@notes_bind _ _ _ _ None);
              [solve [mask_walk] | intros ?; solve [mask_walk]]
            | lazymatch ph1 with
              | Some ?Q =>
                  apply (@notes_bind _ _ _ _ (Some Q));
                  [solve [mask_walk] | intros ?; solve [mask_walk]]
              | None =>
                  lazymatch c with
                  | START ?o ?i ?c' =>
                      apply (@notes_bind _ _ _ _ (Some (placed o i c')));
                      [solve [mask_walk] | intros ?; solve [mask_walk]]
                  end
              end ]
  end
with mask_walk := repeat mask_step.

Section MaskBlocks.
Variables (s0 : vstate) (m : mjModel) (d : mjData) (vopt : mjvOption) (pert : mjvPerturb)
          (catmask : Z).
Let P := in_mask m catmask.

Lemma mask_skin : notes P s0 None (addGeoms_skin m d vopt pert catmask) None.
Proof. unfold P, addGeoms_skin. mask_walk. Qed.

Lemma mask_pertobj : notes P s0 None (addGeoms_pertobj m d vopt pert catmask) None.
Proof. unfold P, addGeoms_pertobj. mask_walk. Qed.

Lemma mask_bodyframe : notes P s0 None (addGeoms_bodyframe m d vopt catmask) None.
Proof. unfold P, addGeoms_bodyframe. mask_walk. Qed.

Lemma mask_selectpoint : notes P s0 None (addGeoms_selectpoint m d vopt pert catmask) None.
Proof. unfold P, addGeoms_selectpoint. mask_walk. Qed.

Lemma mask_bodylabel : notes P s0 None (addGeoms_bodylabel m d vopt pert catmask) None.
Proof. unfold P, addGeoms_bodylabel. mask_walk. Qed.

Lemma mask_joint : notes P s0 None (addGeoms_joint m d vopt catmask) None.
Proof. unfold P, addGeoms_joint. mask_walk. Qed.

Lemma mask_actuator : notes P s0 None (addGeoms_actuator m d vopt catmask) None.
Proof. unfold P, addGeoms_actuator. mask_walk. Qed.

Lemma mask_geom : notes P s0 None (addGeoms_geom m d vopt pert catmask) None.
Proof. unfold P, addGeoms_geom. mask_walk. Qed.

Lemma mask_site : notes P s0 None (addGeoms_site m d vopt pert catmask) None.
Proof. unfold P, addGeoms_site. mask_walk. Qed.

Lemma mask_tendon : notes P s0 None (addGeoms_tendon m d vopt catmask) None.
Proof. unfold P, addGeoms_tendon. mask_walk. Qed.

Lemma mask_slidercrank : notes P s0 None (addGeoms_slidercrank m d vopt catmask) None.
Proof. unfold P, addGeoms_slidercrank. mask_walk. Qed.

Lemma mask_com : notes P s0 None (addGeoms_com m d vopt catmask) None.
Proof. unfold P, addGeoms_com. mask_walk. Qed.

Lemma mask_autoconnect : notes P s0 None (addGeoms_autoconnect m d vopt catmask) None.
Proof. unfold P, addGeoms_autoconnect. mask_walk. Qed.

Lemma mask_rangefinder : notes P s0 None (addGeoms_rangefinder m d vopt catmask) None.
Proof. unfold P, addGeoms_rangefinder. mask_walk. Qed.

Lemma mask_pertforce : notes P s0 None (addGeoms_pertforce m d vopt catmask) None.
Proof. unfold P, addGeoms_pertforce. mask_walk. Qed.

Lemma mask_constraint : notes P s0 None (addGeoms_constraint m d vopt catmask) None.
Proof. unfold P, addGeoms_constraint. mask_walk. Qed.

Lemma mask_contact : notes P s0 None (addGeoms_contact m d vopt catmask) None.
Proof. unfold P, addGeoms_contact. mask_walk. Qed.

Lemma mask_camera : notes P s0 None (addGeoms_camera m d vopt catmask) None.
Proof.
  unfold P, addGeoms_camera. cbv zeta.
  destruct (vopt_flags vopt mjVIS_CAMERA && band mjCAT_DECOR catmask) eqn:G;
    [|apply notes_ret].
  eapply notes_bind; [|intros ?; apply notes_ret].
  apply (@notes_for_each_acc _ _ _ _ (fun o => o <> mjOBJ_BODY)); [discriminate|].
  intros i o Hi Ho. split.
  - mask_walk.
  - repeat (apply returns_bind; intros ?).
    destruct (_ || _); [apply returns_ret, Ho|].
    apply returns_bind; intros ?. apply returns_ret. discriminate.
Qed.

Lemma mask_light : notes P s0 None (addGeoms_light m d vopt catmask) None.
Proof.
  unfold P, addGeoms_light. cbv zeta.
  destruct (vopt_flags vopt mjVIS_LIGHT && band mjCAT_DECOR catmask) eqn:G;
    [|apply notes_ret].
  eapply notes_bind; [|intros ?; apply notes_ret].
  apply (@notes_for_each_acc _ _ _ _ (fun o => o <> mjOBJ_BODY)); [discriminate|].
  intros i o Hi Ho. split.
  - mask_walk.
  - repeat (apply returns_bind; intros ?).
    destruct (_ || _); [apply returns_ret, Ho|].
    apply returns_bind; intros ?. apply returns_ret. discriminate.
Qed.

(** The inertia block does not set the category: its boxes carry the
    category of the block before, the skins. *)
Lemma mask_inertia : notes P s0 None (addGeoms_inertia m d vopt pert catmask) None.
Proof.
  unfold P, addGeoms_inertia. cbv zeta.
  destruct (vopt_flags vopt mjVIS_INERTIA); [|apply notes_ret].
  apply notes_for. intros i Hi.
  destruct (Rltb mjMINVAL (body_mass m i) && band (bodycategory m i) catmask) eqn:E;
    [|apply notes_ret].
  apply andb_prop in E. destruct E as [_ Hb].
  apply (@notes_bind _ _ _ _ (Some (placed mjOBJ_BODY i mjCAT_DYNAMIC))); [mask_step|].
  intros _.
  apply (@notes_bind _ _ _ _ (Some (placed mjOBJ_BODY i mjCAT_DYNAMIC))); [mask_step|].
  intros _.
  apply (@notes_bind _ _ _ _ (Some (placed mjOBJ_BODY i mjCAT_DYNAMIC))).
  { destruct (select pert =? i); [mask_step | apply notes_ret]. }
  intros _.
  apply (@notes_bind _ _ _ _ (Some (placed mjOBJ_BODY i mjCAT_DYNAMIC))).
  { destruct (_ || _); [mask_step | apply notes_ret]. }
  intros _. apply notes_FINISH.
  intros k g (Ho & Hid & Hc). unfold in_mask. rewrite Ho, Hid, Hc.
  split; [intros K; contradiction|]. intros _. split; [reflexivity | exact Hb].
Qed.

End MaskBlocks.

Lemma mask_addGeoms_blocks s0 m d vopt pert catmask :
  notes (in_mask m catmask) s0 None
    (addGeoms_skin m d vopt pert catmask ;;
     addGeoms_inertia m d vopt pert catmask ;;
     addGeoms_pertobj m d vopt pert catmask ;;
     addGeoms_bodyframe m d vopt catmask ;;
     addGeoms_selectpoint m d vopt pert catmask ;;
     addGeoms_bodylabel m d vopt pert catmask ;;
     addGeoms_joint m d vopt catmask ;;
     addGeoms_actuator m d vopt catmask ;;
     addGeoms_geom m d vopt pert catmask ;;
     addGeoms_site m d vopt pert catmask ;;
     addGeoms_camera m d vopt catmask ;;
     addGeoms_light m d vopt catmask ;;
     addGeoms_tendon m d vopt catmask ;;
     addGeoms_slidercrank m d vopt catmask ;;
     addGeoms_com m d vopt catmask ;;
     addGeoms_autoconnect m d vopt catmask ;;
     addGeoms_rangefinder m d vopt catmask ;;
     addGeoms_pertforce m d vopt catmask ;;
     addGeoms_constraint m d vopt catmask ;;
     addGeoms_contact m d vopt catmask)%vis
    None.
Proof.
  repeat (eapply notes_bind;
          [ first [ apply mask_skin | apply mask_inertia | apply mask_pertobj
                  | apply mask_bodyframe | apply mask_selectpoint
                  | apply mask_bodylabel | apply mask_joint | apply mask_actuator
                  | apply mask_geom | apply mask_site | apply mask_camera
                  | apply mask_light | apply mask_tendon | apply mask_slidercrank
                  | apply mask_com | apply mask_autoconnect | apply mask_rangefinder
                  | apply mask_pertforce | apply mask_constraint ]
          | intros _ ]).
  apply mask_contact.
Qed.

Section MaskBits.
Local Open Scope Z_scope.

Lemma band_land c a b : band c (Z.land a b) = true -> band c a = true /\ band c b = true.
Proof.
  unfold band. intros H. apply negb_true_iff, Z.eqb_neq in H.
  split; apply negb_true_iff, Z.eqb_neq; intros E; apply H.
  - rewrite Z.land_assoc, E. reflexivity.
  - rewrite (Z.land_comm a b), Z.land_assoc, E. reflexivity.
Qed.

(** The mask that the walk uses: without mjVIS_STATIC the static bit is
    cleared. *)
Lemma effective_mask (flag : bool) c catmask :
  band c (if negb flag then Z.land catmask (Z.lnot mjCAT_STATIC) else catmask) = true ->
  band c catmask = true /\ (flag = false -> c <> mjCAT_STATIC).
Proof.
  destruct flag; cbn [negb]; intros H.
  - split; [exact H | discriminate].
  - apply band_land in H. destruct H as [H1 H2]. split; [exact H1|].
    intros _ E. rewrite E in H2. discriminate.
Qed.

End MaskBits.

(** The category mask selects what is drawn.  Every geom that
    [mjv_addGeoms] emits for anything but a body carries a category of the
    mask [catmask], and never mjCAT_STATIC when the flag mjVIS_STATIC is
    off.  The boxes of the inertia block (object type mjOBJ_BODY) are the
    exception: the block does not set the category, so each of its boxes
    carries mjCAT_DYNAMIC, whatever the mask, and it is the category of the
    body (static or dynamic) that is in the mask. *)
Theorem category_mask_selects :
  forall (m : mjModel) (d : mjData) (vopt : mjvOption) (pert : option mjvPerturb)
         (catmask : Z) (s : vstate),
    match mjv_addGeoms m d vopt pert catmask s with
    | Next _ s' | Return s' =>
        forall k, (scn_ngeom (scn s) <= k < scn_ngeom (scn s'))%Z ->
          let g := geoms (scn s') k in
          (objtype g <> mjOBJ_BODY ->
           band (category g) catmask = true
           /\ (vopt_flags vopt mjVIS_STATIC = false -> category g <> mjCAT_STATIC))
          /\ (objtype g = mjOBJ_BODY ->
              category g = mjCAT_DYNAMIC
              /\ band (bodycategory m (objid g)) catmask = true
              /\ (vopt_flags vopt mjVIS_STATIC = false ->
                  bodycategory m (objid g) <> mjCAT_STATIC))
    | Fatal _ => True
    end.
Proof.
  intros m d vopt pert catmask s.
  set (mask := if negb (vopt_flags vopt mjVIS_STATIC)
               then Z.land catmask (Z.lnot mjCAT_STATIC) else catmask).
  set (pert' := match pert with Some p => p | None => mjv_defaultPerturb end).
  pose proof (@mask_addGeoms_blocks s m d vopt pert' mask s) as H.
  assert (H0 : noted (in_mask m mask) s None s).
  { split; [lia|]. split; [intros k Hk; lia | exact I]. }
  specialize (H H0).
  assert (Hall : forall g, in_mask m mask 0 g ->
    (objtype g <> mjOBJ_BODY ->
     band (category g) catmask = true
     /\ (vopt_flags vopt mjVIS_STATIC = false -> category g <> mjCAT_STATIC))
    /\ (objtype g = mjOBJ_BODY ->
        category g = mjCAT_DYNAMIC
        /\ band (bodycategory m (objid g)) catmask = true
        /\ (vopt_flags vopt mjVIS_STATIC = false ->
            bodycategory m (objid g) <> mjCAT_STATIC))).
  { intros g [H1 H2]. split.
    - intros Hn. apply (@effective_mask (vopt_flags vopt mjVIS_STATIC)), H1, Hn.
    - intros Hb. destruct (H2 Hb) as [Hc Hm]. split; [exact Hc|].
      apply (@effective_mask (vopt_flags vopt mjVIS_STATIC)), Hm. }
  change (mjv_addGeoms m d vopt pert catmask s)
    with ((addGeoms_skin m d vopt pert' mask ;;
           addGeoms_inertia m d vopt pert' mask ;;
           addGeoms_pertobj m d vopt pert' mask ;;
           addGeoms_bodyframe m d vopt mask ;;
           addGeoms_selectpoint m d vopt pert' mask ;;
           addGeoms_bodylabel m d vopt pert' mask ;;
           addGeoms_joint m d vopt mask ;;
           addGeoms_actuator m d vopt mask ;;
           addGeoms_geom m d vopt pert' mask ;;
           addGeoms_site m d vopt pert' mask ;;
           addGeoms_camera m d vopt mask ;;
           addGeoms_light m d vopt mask ;;
           addGeoms_tendon m d vopt mask ;;
           addGeoms_slidercrank m d vopt mask ;;
           addGeoms_com m d vopt mask ;;
           addGeoms_autoconnect m d vopt mask ;;
           addGeoms_rangefinder m d vopt mask ;;
           addGeoms_pertforce m d vopt mask ;;
           addGeoms_constraint m d vopt mask ;;
           addGeoms_contact m d vopt mask)%vis s).
  match goal with
  | |- match ?c with _ => _ end =>
      destruct c as [[] s' | s' | e]; [| |exact I];
      destruct H as (_ & H & _); intros k Hk; apply Hall; exact (H k Hk)
  end.
Qed.
(** ** The primitives of the geoms of the model *)

Section GeomPrims.
Local Open Scope Z_scope.
Variables (m : mjModel) (d : mjData) (vopt : mjvOption).

(** The number of planes among the geoms [0 .. i-1] of the model. *)
Definition plane_count (i : Z) : Z :=
  Z.of_nat (length (filter (fun j => geom_type m j =? mjGEOM_PLANE) (range 0 i))).

(** The [dataid] of the primitive of geom [i]: for a mesh, twice the id of
    the mesh, plus one when its convex hull is shown; for a plane, its rank
    among the planes of the model; for every other geom, the id of its
    data in the model. *)
Definition shown_dataid (i : Z) : Z :=
  if geom_type m i =? mjGEOM_MESH then
    geom_dataid m i * 2
    + (if (mesh_graphadr m (geom_dataid m i) >=? 0) && vopt_flags vopt mjVIS_CONVEXHULL
       then 1 else 0)
  else if geom_type m i =? mjGEOM_PLANE then plane_count (i + 1) - 1
  else geom_dataid m i.

(** The primitive of a geom of the model. *)
Definition geom_prim (k : Z) (g : mjvGeom) : Prop :=
  objtype g = mjOBJ_GEOM ->
  let i := objid g in
  0 <= i < ngeom m
  /\ type g = geom_type m i
  /\ dataid g = shown_dataid i
  /\ modelrbound g = geom_rbound m i
  /\ mat g = mat9_at (offset (geom_xmat d) (9 * i))
  /\ (geom_type m i <> mjGEOM_PLANE -> pos g = vec3_at (offset (geom_xpos d) (3 * i))).

Lemma refers_not_geom o i k g : o <> mjOBJ_GEOM -> refers o i k g -> geom_prim k g.
Proof. intros Ho [E _] H. rewrite E in H. contradiction. Qed.

Lemma plane_count_next i :
  0 <= i ->
  plane_count (i + 1)
  = plane_count i + (if geom_type m i =? mjGEOM_PLANE then 1 else 0).
Proof.
  intros Hi. unfold plane_count. rewrite range_snoc by exact Hi.
  rewrite filter_app, length_app. cbn [filter].
  destruct (geom_type m i =? mjGEOM_PLANE); cbn [length]; lia.
Qed.

(** What the later assignments keep of a geom. *)
Definition same_shape (g g' : mjvGeom) : Prop :=
  type g' = type g /\ dataid g' = dataid g /\ modelrbound g' = modelrbound g
  /\ pos g' = pos g /\ mat g' = mat g.

Lemma setMaterial_shape g matid c flags : same_shape g (setMaterial m g matid c flags).
Proof.
  unfold setMaterial, same_shape. cbv zeta.
  repeat match goal with |- context [if ?b then _ else _] => destruct b end;
    repeat split; reflexivity.
Qed.

Lemma markselected_shape g : same_shape g (markselected m g).
Proof. unfold markselected, same_shape. cbv zeta. repeat split; reflexivity. Qed.

End GeomPrims.

Ltac shape_done :=
  intros ? ?; apply refers_not_geom; first [ discriminate | assumption ].

Ltac shape_step :=
  cbv beta zeta;
  lazymatch goal with
  | |- context [skin_body] => unfold skin_body
  | |- context [contact_point] => unfold contact_point
  | |- context [contact_arrow] => unfold contact_arrow
  | |- context [site_body] => unfold site_body
  | |- notes _ _ _ (ret _) _ => first [apply notes_ret | apply notes_ret_weak]
  | |- notes _ _ _ return_ _ => apply notes_return
  | |- notes _ _ _ (mju_error _) _ => apply notes_error
  | |- notes _ _ _ thisgeom _ => apply notes_thisgeom
  | |- notes _ _ _ get_scn _ => apply notes_get_scn
  | |- notes _ _ _ (assign _) _ =>
      apply notes_assign; intros ? ?; apply refers_kept; refs_same
  | |- notes _ _ _ (assign_result _) _ =>
      apply notes_assign_result; intros ? ? ? ? ?; eapply refers_connector; eassumption
  | |- notes _ _ _ (START ?o ?i _) _ =>
      apply (@notes_START _ _ (refers o i)); intros ? ?; split; reflexivity
  | |- notes _ _ _ FINISH _ => apply notes_FINISH; shape_done
  | |- notes _ _ _ (call _) _ => apply notes_call
  | |- notes _ _ _ (for_ _ _ _) _ => apply notes_for; intros ? ?
  | |- notes _ _ _ (for_each _ _) _ => apply notes_for_each; intros ? ?
  | |- notes _ _ _ (for_each_acc _ _ _) _ =>
      apply (@notes_for_each_acc _ _ _ _ (fun _ => True)); [exact I|];
      intros ? ? ? _; split; [|apply returns_any]
  | |- notes _ _ _ (while_each _ _ _) _ => apply notes_while_each; intros ? ? ?
  | |- notes _ _ _ (frame_axes _ _ _ _ _ _ _) _ => unfold frame_axes
  | |- notes _ _ _ (addContactGeom _ _ _ _) _ => unfold addContactGeom
  | |- notes _ _ _ (if ?b then _ else _) _ => destruct b eqn:?
  | |- notes _ _ ?ph1 (bind ?c _) _ =>
      first [ apply (@notes_bind _ _ _ _ None);
              [solve [shape_walk] | intros ?; solve [shape_walk]]
            | lazymatch ph1 with
              | Some ?Q =>
                  apply (@notes_bind _ _ _ _ (Some Q));
                  [solve [shape_walk] | intros ?; solve [shape_walk]]
              | None =>
                  lazymatch c with
                  | START ?o ?i _ =>
                      apply (@notes_bind _ _ _ _ (Some (refers o i)));
                      [solve [shape_walk] | intros ?; solve [shape_walk]]
                  end
              end ]
  end
with shape_walk := repeat shape_step.

Section ShapeBlocks.
Variables (s0 : vstate) (m : mjModel) (d : mjData) (vopt : mjvOption) (pert : mjvPerturb)
          (catmask : Z).
Let P := geom_prim m d vopt.

Lemma shape_skin : notes P s0 None (addGeoms_skin m d vopt pert catmask) None.
Proof. unfold P, addGeoms_skin. shape_walk. Qed.

Lemma shape_inertia : notes P s0 None (addGeoms_inertia m d vopt pert catmask) None.
Proof. unfold P, addGeoms_inertia. shape_walk. Qed.

Lemma shape_pertobj : notes P s0 None (addGeoms_pertobj m d vopt pert catmask) None.
Proof. unfold P, addGeoms_pertobj. shape_walk. Qed.

Lemma shape_bodyframe : notes P s0 None (addGeoms_bodyframe m d vopt catmask) None.
Proof. unfold P, addGeoms_bodyframe. shape_walk. Qed.

Lemma shape_selectpoint : notes P s0 None (addGeoms_selectpoint m d vopt pert catmask) None.
Proof. unfold P, addGeoms_selectpoint. shape_walk. Qed.

Lemma shape_bodylabel : notes P s0 None (addGeoms_bodylabel m d vopt pert catmask) None.
Proof. unfold P, addGeoms_bodylabel. shape_walk. Qed.

Lemma shape_joint : notes P s0 None (addGeoms_joint m d vopt catmask) None.
Proof. unfold P, addGeoms_joint. shape_walk. Qed.

Lemma shape_actuator : notes P s0 None (addGeoms_actuator m d vopt catmask) None.
Proof. unfold P, addGeoms_actuator. shape_walk. Qed.

Lemma shape_site : notes P s0 None (addGeoms_site m d vopt pert catmask) None.
Proof. unfold P, addGeoms_site. shape_walk. Qed.

Lemma shape_tendon : notes P s0 None (addGeoms_tendon m d vopt catmask) None.
Proof. unfold P, addGeoms_tendon. shape_walk. Qed.

Lemma shape_slidercrank : notes P s0 None (addGeoms_slidercrank m d vopt catmask) None.
Proof. unfold P, addGeoms_slidercrank. shape_walk. Qed.

Lemma shape_com : notes P s0 None (addGeoms_com m d vopt catmask) None.
Proof. unfold P, addGeoms_com. shape_walk. Qed.

Lemma shape_autoconnect : notes P s0 None (addGeoms_autoconnect m d vopt catmask) None.
Proof. unfold P, addGeoms_autoconnect. shape_walk. Qed.

Lemma shape_rangefinder : notes P s0 None (addGeoms_rangefinder m d vopt catmask) None.
Proof. unfold P, addGeoms_rangefinder. shape_walk. Qed.

Lemma shape_pertforce : notes P s0 None (addGeoms_pertforce m d vopt catmask) None.
Proof. unfold P, addGeoms_pertforce. shape_walk. Qed.

Lemma shape_constraint : notes P s0 None (addGeoms_constraint m d vopt catmask) None.
Proof. unfold P, addGeoms_constraint. shape_walk. Qed.

Lemma shape_contact : notes P s0 None (addGeoms_contact m d vopt catmask) None.
Proof. unfold P, addGeoms_contact. shape_walk. Qed.

Lemma shape_camera : notes P s0 None (addGeoms_camera m d vopt catmask) None.
Proof.
  unfold P, addGeoms_camera. cbv zeta.
  destruct (vopt_flags vopt mjVIS_CAMERA && band mjCAT_DECOR catmask) eqn:G;
    [|apply notes_ret].
  eapply notes_bind; [|intros ?; apply notes_ret].
  apply (@notes_for_each_acc _ _ _ _ (fun o => o <> mjOBJ_GEOM)); [discriminate|].
  intros i o Hi Ho. split.
  - shape_walk.
  - repeat (apply returns_bind; intros ?).
    destruct (_ || _); [apply returns_ret, Ho|].
    apply returns_bind; intros ?. apply returns_ret. discriminate.
Qed.

Lemma shape_light : notes P s0 None (addGeoms_light m d vopt catmask) None.
Proof.
  unfold P, addGeoms_light. cbv zeta.
  destruct (vopt_flags vopt mjVIS_LIGHT && band mjCAT_DECOR catmask) eqn:G;
    [|apply notes_ret].
  eapply notes_bind; [|intros ?; apply notes_ret].
  apply (@notes_for_each_acc _ _ _ _ (fun o => o <> mjOBJ_GEOM)); [discriminate|].
  intros i o Hi Ho. split.
  - shape_walk.
  - repeat (apply returns_bind; intros ?).
    destruct (_ || _); [apply returns_ret, Ho|].
    apply returns_bind; intros ?. apply returns_ret. discriminate.
Qed.

Lemma notes_ret_imp (Q Q' : Z -> mjvGeom -> Prop) {A} (a : A) :
  (forall k g, Q k g -> Q' k g) -> notes P s0 (Some Q) (ret a) (Some Q').
Proof.
  intros HQ s (H1 & H2 & H3). split; [exact H1|]. split; [exact H2|]. apply HQ, H3.
Qed.

(** The geom under construction after [mjv_initGeom]. *)
Definition geom_begun (i : Z) (k : Z) (g : mjvGeom) : Prop :=
  refers mjOBJ_GEOM i k g
  /\ type g = geom_type m i
  /\ dataid g = geom_dataid m i
  /\ modelrbound g = geom_rbound m i
  /\ pos g = vec3_at (offset (geom_xpos d) (3 * i))
  /\ mat g = mat9_at (offset (geom_xmat d) (9 * i)).

(** The geom under construction before FINISH. *)
Definition geom_done (i : Z) (k : Z) (g : mjvGeom) : Prop :=
  refers mjOBJ_GEOM i k g
  /\ type g = geom_type m i
  /\ dataid g = shown_dataid m vopt i
  /\ modelrbound g = geom_rbound m i
  /\ mat g = mat9_at (offset (geom_xmat d) (9 * i))
  /\ (geom_type m i <> mjGEOM_PLANE -> pos g = vec3_at (offset (geom_xpos d) (3 * i))).

Lemma geom_begun_kept i k g g' :
  objtype g' = objtype g /\ objid g' = objid g ->
  same_shape g g' -> geom_begun i k g -> geom_begun i k g'.
Proof.
  intros Hr (E1 & E2 & E3 & E4 & E5) (Hg & H1 & H2 & H3 & H4 & H5).
  unfold geom_begun. rewrite E1, E2, E3, E4, E5.
  split; [eapply refers_kept; eassumption|]. repeat split; assumption.
Qed.

Lemma shape_geom : notes P s0 None (addGeoms_geom m d vopt pert catmask) None.
Proof.
  unfold P, addGeoms_geom.
  eapply notes_bind; [|intros ?; apply notes_ret].
  apply (@notes_for_acc _ _ _ (fun i acc => acc = (plane_count m i - 1)%Z)).
  { reflexivity. }
  intros i acc Hi ->.
  unfold geom_body. cbv zeta.
  assert (Hpl : (if geom_type m i =? mjGEOM_PLANE
                 then plane_count m i - 1 + 1 else plane_count m i - 1)%Z
                = (plane_count m (i + 1) - 1)%Z).
  { rewrite plane_count_next by lia. destruct (geom_type m i =? mjGEOM_PLANE); lia. }
  rewrite !Hpl. clear Hpl.
  split.
  - destruct (negb (band (bodycategory m (geom_bodyid m i)) catmask)); [apply notes_ret|].
    eapply notes_bind; [|intros ?; apply notes_ret].
    destruct (geomgroup vopt (group_index (geom_group m i))); [|apply notes_ret].
    apply (@notes_bind _ _ _ _ (Some (refers mjOBJ_GEOM i))); [shape_step|].
    intros _.
    apply (@notes_bind _ _ _ _ (Some (geom_begun i))).
    { apply notes_assign. intros k g Hg. split.
      - apply (refers_kept (g := g)); [|exact Hg]. refs_same.
      - repeat split; reflexivity. }
    intros _.
    apply (@notes_bind _ _ _ _ (Some (geom_begun i))).
    { apply notes_assign. intros k g. apply geom_begun_kept.
      - split; [apply setMaterial_objtype | apply setMaterial_objid].
      - apply setMaterial_shape. }
    intros _.
    apply (@notes_bind _ _ _ _ (Some (geom_begun i))).
    { destruct (_ && _); [|apply notes_ret].
      apply notes_assign. intros k g. apply geom_begun_kept; repeat split; reflexivity. }
    intros _.
    apply (@notes_bind _ _ _ _ (Some (geom_begun i))); [apply notes_thisgeom|].
    intros g0.
    destruct (Reqb (q3 (rgba g0)) 0); [apply notes_ret_weak|].
    apply (@notes_bind _ _ _ _ (Some (geom_begun i))).
    { destruct (_ && _); [|apply notes_ret].
      apply notes_assign. intros k g. apply geom_begun_kept.
      - split; [apply markselected_objtype | apply markselected_objid].
      - apply markselected_shape. }
    intros _.
    apply (@notes_bind _ _ _ _ (Some (geom_begun i))).
    { destruct (label_is _ _); [|apply notes_ret].
      apply notes_assign. intros k g. apply geom_begun_kept; repeat split; reflexivity. }
    intros _.
    apply (@notes_bind _ _ _ _ (Some (geom_done i))).
    { destruct (geom_type m i =? mjGEOM_MESH) eqn:TM.
      - apply notes_assign. intros k g ([Ho Hid] & H1 & H2 & H3 & H4 & H5).
        assert (Hne : geom_type m i <> mjGEOM_PLANE).
        { apply Z.eqb_eq in TM. rewrite TM. discriminate. }
        unfold geom_done, shown_dataid. rewrite TM.
        destruct ((mesh_graphadr m (geom_dataid m i) >=? 0)
                  && vopt_flags vopt mjVIS_CONVEXHULL);
          (split; [split; assumption|]); cbn; rewrite H2;
          repeat split; first [assumption | lia | intros _; assumption].
      - destruct (geom_type m i =? mjGEOM_PLANE) eqn:TP.
        + eapply notes_bind; [apply notes_get_scn|]. intros sc.
          apply notes_assign. intros k g ([Ho Hid] & H1 & H2 & H3 & H4 & H5).
          unfold geom_done, shown_dataid. rewrite TM, TP.
          split; [split; assumption|]. cbn.
          repeat split; try assumption.
          intros Hne. apply Z.eqb_eq in TP. contradiction.
        + apply notes_ret_imp. intros k g (Hg & H1 & H2 & H3 & H4 & H5).
          unfold geom_done, shown_dataid. rewrite TM, TP.
          repeat split; try assumption; try apply Hg. intros _. exact H4. }
    intros _.
    apply (@notes_bind _ _ _ _ None).
    { apply notes_FINISH. intros k g ([Ho Hid] & H1 & H2 & H3 & H4 & H5).
      unfold geom_prim. intros _. cbv zeta. rewrite Hid.
      split; [exact Hi|]. repeat split; assumption. }
    intros _. shape_walk.
  - destruct (negb (band (bodycategory m (geom_bodyid m i)) catmask));
      [apply returns_ret; reflexivity|].
    apply returns_bind. intros _. apply returns_ret. reflexivity.
Qed.

End ShapeBlocks.

Lemma shape_addGeoms s0 m d vopt pert catmask :
  notes (geom_prim m d vopt) s0 None (mjv_addGeoms m d vopt pert catmask) None.
Proof.
  unfold mjv_addGeoms. cbv zeta.
  repeat (eapply notes_bind;
          [ first [ apply shape_skin | apply shape_inertia | apply shape_pertobj
                  | apply shape_bodyframe | apply shape_selectpoint
                  | apply shape_bodylabel | apply shape_joint | apply shape_actuator
                  | apply shape_geom | apply shape_site | apply shape_camera
                  | apply shape_light | apply shape_tendon | apply shape_slidercrank
                  | apply shape_com | apply shape_autoconnect | apply shape_rangefinder
                  | apply shape_pertforce | apply shape_constraint ]
          | intros _ ]).
  apply shape_contact.
Qed.

(** The primitives of the geoms of the model.  Every primitive that
    [mjv_addGeoms] emits with the object type mjOBJ_GEOM is made of a geom
    [i] of the model: it has the type, the bounding radius and the
    orientation of that geom and, unless the geom is a plane, its position.
    Its [dataid] tells the renderer which data to draw: for a mesh, twice
    the id of the mesh, plus one when the convex hull is shown and the mesh
    has one; for a plane, the rank of the plane among all the planes of the
    model, visible or not, so that a plane keeps its number when other
    planes are hidden; for every other geom the [geom_dataid] of the
    model. *)
Theorem geom_primitives :
  forall (m : mjModel) (d : mjData) (vopt : mjvOption) (pert : option mjvPerturb)
         (catmask : Z) (s : vstate),
    match mjv_addGeoms m d vopt pert catmask s with
    | Next _ s' | Return s' =>
        forall k, (scn_ngeom (scn s) <= k < scn_ngeom (scn s'))%Z ->
          let g := geoms (scn s') k in
          let i := objid g in
          objtype g = mjOBJ_GEOM ->
          (0 <= i < ngeom m)%Z
          /\ type g = geom_type m i
          /\ dataid g
             = (if geom_type m i =? mjGEOM_MESH then
                  geom_dataid m i * 2
                  + (if (mesh_graphadr m (geom_dataid m i) >=? 0)
                        && vopt_flags vopt mjVIS_CONVEXHULL
                     then 1 else 0)
                else if geom_type m i =? mjGEOM_PLANE then plane_count m (i + 1) - 1
                else geom_dataid m i)%Z
          /\ modelrbound g = geom_rbound m i
          /\ mat g = mat9_at (offset (geom_xmat d) (9 * i))
          /\ (geom_type m i <> mjGEOM_PLANE ->
              pos g = vec3_at (offset (geom_xpos d) (3 * i)))
    | Fatal _ => True
    end.
Proof.
  intros m d vopt pert catmask s.
  pose proof (@shape_addGeoms s m d vopt pert catmask s) as H.
  assert (H0 : noted (geom_prim m d vopt) s None s).
  { split; [lia|]. split; [intros k Hk; lia | exact I]. }
  specialize (H H0).
  destruct (mjv_addGeoms m d vopt pert catmask s) as [[] s' | s' | e]; [| |exact I];
    destruct H as (_ & H & _); intros k Hk; exact (H k Hk).
Qed.
